(** * The RNG game core of Final-SDET-Project, embedded in Rocq

    The development follows [game-config.js], [game-enemies.js] and
    [game-core.js]: the tier tables and [getTier], the [GameCore] class
    (levelling, item generation, combat, upgrades, the sell area) and the
    enemy records made by [generateEnemy].

    Numbers.  A JavaScript number is modelled by an exact rational ([Q]);
    integer-valued quantities (levels, rolls, thresholds, enemy stats, which
    the source always passes through [Math.floor] or counts up by one) are
    [Z].  Rounding errors of binary floating point are therefore not part of
    this model; the module [Double] has the rounding of doubles, and the
    levelling with it, for the one property that depends on it.  The division by [weapon.Defense] in combat, which can meet a
    zero, uses [jsnum], which adds [Infinity], [-Infinity] and [NaN]; every
    other divisor in the modelled code is positive for random numbers in
    [[0, 1)] and levels from 1, and the division is that of [Q].

    [Math.pow] and [Math.log1p] are irrational in general; they are an
    interface ([JSMath]) with the order properties the proofs use, and
    [approxMath] is a computable instance (powers truncated to 64 fractional
    bits) used to run the code on concrete inputs.

    Effects.  Methods take the [GameCore] object and return the new one.
    [Math.random()] and [Date.now() / 1000] are arguments.  Loops whose
    termination depends on the data take fuel and return [OutOfFuel] when it
    is exhausted; a thrown [TypeError] is [Throws]. *)

From Stdlib Require Import ZArith QArith Qround Qminmax Lia Lqa.
From stdpp Require Import base gmap strings list pretty.

Local Open Scope Z_scope.

(* ================================================================== *)
(** * JavaScript numbers *)
(* ================================================================== *)

(** [Math.floor] and [Math.round] on a finite number.  [Math.round] rounds
    half-way cases up, which is [floor (x + 1/2)]. *)
Definition Math_floor (x : Q) : Z := Qfloor x.
Definition Math_round (x : Q) : Z := Qfloor (x + 0.5)%Q.

(** [Number(x.toFixed(2))]: [x] rounded to two decimals. *)
Definition Number_toFixed2 (x : Q) : Q := (inject_Z (Math_round (x * 100)) / 100)%Q.

(** Comparisons of finite numbers, as booleans. *)
Definition Qleb (x y : Q) : bool := Qle_bool x y.
Definition Qltb (x y : Q) : bool := negb (Qle_bool y x).

(** A number that may have left the finite ones. *)
Inductive jsnum : Type :=
| Fin (q : Q)
| PosInf
| NegInf
| NaN.

(** [a / b] on finite operands: a zero divisor gives an infinity of the
    sign of [a], and [0 / 0] is [NaN].  (The divisor [-0] is not modelled.) *)
Definition js_div (a b : Q) : jsnum :=
  if Qeq_bool b 0 then
    if Qltb 0 a then PosInf
    else if Qltb a 0 then NegInf
    else NaN
  else Fin (a / b).

(** [Math.floor] passes infinities and [NaN] through. *)
Definition js_floor (x : jsnum) : jsnum :=
  match x with
  | Fin q => Fin (inject_Z (Math_floor q))
  | other => other
  end.

(** [Math.max(0, x)]: [NaN] is contagious. *)
Definition js_max0 (x : jsnum) : jsnum :=
  match x with
  | Fin q => Fin (Qmax 0 q)
  | PosInf => PosInf
  | NegInf => Fin 0
  | NaN => NaN
  end.

(** [h - x] for a finite or non-finite [h]. *)
Definition js_sub (h x : jsnum) : jsnum :=
  match h, x with
  | Fin a, Fin b => Fin (a - b)
  | NaN, _ | _, NaN => NaN
  | PosInf, PosInf | NegInf, NegInf => NaN
  | PosInf, _ => PosInf
  | NegInf, _ => NegInf
  | Fin _, PosInf => NegInf
  | Fin _, NegInf => PosInf
  end.

(** [x > 0] and [x <= 0]; every comparison with [NaN] is false. *)
Definition js_gt0 (x : jsnum) : bool :=
  match x with
  | Fin q => Qltb 0 q
  | PosInf => true
  | NegInf | NaN => false
  end.

Definition js_le0 (x : jsnum) : bool :=
  match x with
  | Fin q => Qleb q 0
  | NegInf => true
  | PosInf | NaN => false
  end.

(** A finite, non-negative integer value. *)
Definition is_nonneg_integer (x : jsnum) : Prop :=
  exists n : Z, 0 <= n /\ x = Fin (inject_Z n).

(** The transcendental part of [Math], with the properties of the power
    function that the proofs rely on: on bases from [1] it is at least [1]
    and, for exponents up to [2], at most the square; it grows with the
    base. *)
Class JSMath : Type := {
  Math_pow : Q -> Q -> Q;
  Math_log1p : Q -> Q;
  Math_pow_ge_1 : forall x y : Q, (1 <= x)%Q -> (0 <= y)%Q -> (1 <= Math_pow x y)%Q;
  Math_pow_le_square : forall x y : Q,
      (1 <= x)%Q -> (0 <= y)%Q -> (y <= 2)%Q -> (Math_pow x y <= x * x)%Q;
  Math_pow_le : forall x x' y : Q,
      (0 < x)%Q -> (x <= x')%Q -> (0 <= y)%Q -> (Math_pow x y <= Math_pow x' y)%Q
}.

(* ================================================================== *)
(** * Results of fallible code *)
(* ================================================================== *)

Inductive result (A : Type) : Type :=
| Done (a : A)
| Throws
| OutOfFuel.
Arguments Done {A} a.
Arguments Throws {A}.
Arguments OutOfFuel {A}.

Definition rbind {A B : Type} (r : result A) (k : A -> result B) : result B :=
  match r with
  | Done a => k a
  | Throws => Throws
  | OutOfFuel => OutOfFuel
  end.

Notation "'let*' x := r 'in' k" := (rbind r (fun x => k))
  (at level 10, x pattern, r at level 100, k at level 200).

(** Reading a property of [undefined] throws. *)
Definition defined {A : Type} (o : option A) : result A :=
  match o with
  | Some a => Done a
  | None => Throws
  end.

(* ================================================================== *)
(** * game-config.js: tier tables and [getTier] *)
(* ================================================================== *)

Definition MAXIMUM_VALUE : Z := 10 ^ 20.

(** A tier row [[name, threshold, ...extras]]. *)
Record TierRow : Type := mkRow {
  row_name : string;
  row_threshold : Z;
  row_extras : list Q
}.

(** [Math.floor(MAXIMUM_VALUE / d)]. *)
Definition threshold_of (d : Q) : Z := Math_floor (inject_Z MAXIMUM_VALUE / d).

(** (Name, Threshold, Price multiplier, Damage multiplier, EXP multiplier) *)
Definition RARITY_TIERS : list TierRow := [
  mkRow "Zenith" (threshold_of 20000000) [10000; 500; 100]%Q;
  mkRow "Universal" (threshold_of 950000) [4000; 200; 50]%Q;
  mkRow "Cosmic" (threshold_of 650000) [1000; 150; 20]%Q;
  mkRow "Divine" (threshold_of 400000) [750; 100; 13]%Q;
  mkRow "Mythical+2" (threshold_of 120000) [500; 80; 10]%Q;
  mkRow "Mythical+1" (threshold_of 70000) [550; 65; 7.75]%Q;
  mkRow "Mythical" (threshold_of 25000) [300; 40; 6]%Q;
  mkRow "Legendary+2" (threshold_of 10000) [100; 27.25; 4.5]%Q;
  mkRow "Legendary+1" (threshold_of 5000) [75; 20; 4]%Q;
  mkRow "Legendary" (threshold_of 1250) [50; 15; 3.25]%Q;
  mkRow "Epic+2" (threshold_of 700) [35; 26; 2.5]%Q;
  mkRow "Epic+1" (threshold_of 275) [25; 20.25; 2.25]%Q;
  mkRow "Epic" (threshold_of 150) [17.75; 15; 2.1]%Q;
  mkRow "Rare+2" (threshold_of 100) [10; 10; 1.8]%Q;
  mkRow "Rare+1" (threshold_of 50) [8.6; 6.5; 1.65]%Q;
  mkRow "Rare" (threshold_of 45) [7; 4; 1.5]%Q;
  mkRow "Uncommon+2" (threshold_of 20) [5.5; 2; 1.2]%Q;
  mkRow "Uncommon+1" (threshold_of 10) [4.2; 1.7; 1.15]%Q;
  mkRow "Uncommon" (threshold_of 6) [3.75; 1.5; 1.1]%Q;
  mkRow "Common+2" (threshold_of 2) [2; 1.25; 1.05]%Q;
  mkRow "Common+1" (threshold_of 1.5) [1.875; 1.1; 1.03]%Q;
  mkRow "Common" (threshold_of 1) [1.5; 1; 1]%Q
].

Definition MOLD_TIERS : list TierRow := [
  mkRow "Heavenly" (threshold_of 1250000) [625; 350]%Q;
  mkRow "Hallowed" (threshold_of 500000) [200; 120]%Q;
  mkRow "Onyx" (threshold_of 90000) [90; 50]%Q;
  mkRow "Diamond" (threshold_of 25000) [50; 20]%Q;
  mkRow "Amethyst" (threshold_of 5000) [15; 9.5]%Q;
  mkRow "Gold" (threshold_of 750) [9; 6]%Q;
  mkRow "Silver" (threshold_of 100) [5; 3.5]%Q;
  mkRow "Iron" (threshold_of 20) [3; 2]%Q;
  mkRow "Bronze" (threshold_of 5) [1.75; 1.5]%Q;
  mkRow "Copper" (threshold_of 1) [1.2; 1.2]%Q
].

(** Weapon types: "Type", "ID", "Base Damage", "Base Defense",
    "Mold Level Required". *)
Record WeaponType : Type := mkWeapon {
  w_type : string;
  w_id : Z;
  w_damage : Q;
  w_defense : Q;
  w_mold_level : Z
}.

Definition WEAPON_TYPES : list WeaponType := [
  mkWeapon "Sword" 1 4 10 0;
  mkWeapon "Sniper" 2 20 5 10;
  mkWeapon "Bomb" 3 10 6 20;
  mkWeapon "Molotov" 4 10 6 50;
  mkWeapon "Car" 5 10 6 50;
  mkWeapon "Scythe" 6 10 6 100;
  mkWeapon "Train" 7 10 6 100;
  mkWeapon "Lance" 8 10 6 250
].

(** The object returned by [getTier]. *)
Record TierResult : Type := mkTierResult {
  tier : string;
  rng_roll : Z;
  range_start : Z;
  range_end : Z;
  values : list Q
}.

(** The [for] loop of [getTier]: [prev] is [tiers[i - 1][1]], or [0] at
    the first row; [None] when the loop falls through. *)
Fixpoint getTier_scan (roll prev : Z) (rows : list TierRow) : option TierResult :=
  match rows with
  | [] => None
  | row :: rest =>
      let name := row_name row in
      let threshold := row_threshold row in
      let extras := row_extras row in
      if (prev <? roll) && (roll <=? threshold)
      then Some (mkTierResult name roll prev threshold extras)
      else getTier_scan roll threshold rest
  end.

(** [tiers[i][1]] of the row before the last, for the fallback. *)
Definition fallback_range_start (tiers : list TierRow) : Z :=
  if (1 <? length tiers)%nat
  then default 0 (row_threshold <$> tiers !! (length tiers - 2)%nat)
  else 0.

Definition getTier (roll : Z) (tiers : list TierRow) (luckMultiplier : Q)
  : result TierResult :=
  let totalRange :=
    Math_floor (inject_Z MAXIMUM_VALUE / (if Qltb 0 luckMultiplier then luckMultiplier else 1)) in
  match getTier_scan roll 0 tiers with
  | Some r => Done r
  | None =>
      (* Return lowest tier if no match *)
      let* lastTier := defined (last tiers) in
      Done (mkTierResult (row_name lastTier) roll (fallback_range_start tiers)
              (row_threshold lastTier) (row_extras lastTier))
  end.

(** [prev] of row [i]: the threshold of the row before, [0] for row [0]. *)
Definition prevThreshold (tiers : list TierRow) (i : nat) : Z :=
  match i with
  | O => 0
  | S j => default 0 (row_threshold <$> tiers !! j)
  end.

(** Thresholds strictly increase down the table. *)
Definition strictly_increasing (tiers : list TierRow) : Prop :=
  forall (i j : nat) (a b : TierRow),
    (i < j)%nat -> tiers !! i = Some a -> tiers !! j = Some b ->
    row_threshold a < row_threshold b.


(* ================================================================== *)
(** * game-enemies.js: areas and enemy records *)
(* ================================================================== *)

(** Stores: name, luck multiplier, elite multiplier, level requirement,
    drop items on death. *)
Record Area : Type := mkArea {
  area_name : string;
  area_luck : Q;
  area_elite : Q;
  area_level : Z;
  area_drops : bool
}.

Definition AREAS : list Area := [
  mkArea "Champions Hall" 10000 1 100 true;
  mkArea "Elite Hall" 400 1000 60 true;
  mkArea "Adept Hall" 40 500 25 false;
  mkArea "Beginner Hall" 5 10 1 false
].

(** The [enemyInfo] object of [generateEnemy].  Its four stats are results
    of [Math.floor].  [oid] is the identity of the JavaScript object: the
    source compares enemies with [===]. *)
Module Enemy.
Record t : Type := mk {
  oid : nat;
  name : string;
  Elite : bool;
  health : Z;
  damage : Z;
  exp : Z;
  cash : Z;
  RNG : Q;
  spawn_time : Q;
  despawn_timer : Z
}.
End Enemy.

(* ================================================================== *)
(** * game-core.js: the game state *)
(* ================================================================== *)

(** The [itemInfo] object. *)
Module Item.
Record t : Type := mk {
  ID : Z;
  RNG : Q;
  Mold : string;
  Rarity : string;
  Price : Q;
  Weapon : string;
  Damage : Q;
  Defense : Q
}.
End Item.

(** An entry of [sell_area]. *)
Record SellEntry : Type := mkSellEntry {
  item : Item.t;
  time_added : Q;
  timer : Q
}.

(** [this.player]. *)
#[projections(primitive)]
Record Player : Type := mkPlayer {
  level : Z;
  exp : Q;
  equipped : option Item.t
}.

(** The fields of a [GameCore] object (the three interval handles apart). *)
#[projections(primitive)]
Record GameCore : Type := mkGameCore {
  username : string;
  player : Player;
  money : Q;
  item_storage : list Item.t;
  recycled_ids : list Z;
  mold_level : Z;
  luck_level : Z;
  level_exp : Z;
  item_id_counter : Z;
  mold_mult : Q;
  luck_multiplier : Q;
  enemy_luck_multiplier : Q;
  player_luck_multiplier : Q;
  mold_cost : Z;
  luck_cost : Z;
  spawned_enemies : gmap string (list Enemy.t);
  sell_area : list SellEntry
}.

(** Field assignments. *)
Definition set_player (v : Player) (g : GameCore) : GameCore :=
  mkGameCore (username g) v (money g) (item_storage g) (recycled_ids g)
    (mold_level g) (luck_level g) (level_exp g) (item_id_counter g) (mold_mult g)
    (luck_multiplier g) (enemy_luck_multiplier g) (player_luck_multiplier g)
    (mold_cost g) (luck_cost g) (spawned_enemies g) (sell_area g).

Definition set_exp (v : Q) (g : GameCore) : GameCore :=
  set_player (mkPlayer (level (player g)) v (equipped (player g))) g.

Definition set_level (v : Z) (g : GameCore) : GameCore :=
  set_player (mkPlayer v (exp (player g)) (equipped (player g))) g.

Definition set_money (v : Q) (g : GameCore) : GameCore :=
  mkGameCore (username g) (player g) v (item_storage g) (recycled_ids g)
    (mold_level g) (luck_level g) (level_exp g) (item_id_counter g) (mold_mult g)
    (luck_multiplier g) (enemy_luck_multiplier g) (player_luck_multiplier g)
    (mold_cost g) (luck_cost g) (spawned_enemies g) (sell_area g).

Definition set_item_storage (v : list Item.t) (g : GameCore) : GameCore :=
  mkGameCore (username g) (player g) (money g) v (recycled_ids g)
    (mold_level g) (luck_level g) (level_exp g) (item_id_counter g) (mold_mult g)
    (luck_multiplier g) (enemy_luck_multiplier g) (player_luck_multiplier g)
    (mold_cost g) (luck_cost g) (spawned_enemies g) (sell_area g).

Definition set_recycled_ids (v : list Z) (g : GameCore) : GameCore :=
  mkGameCore (username g) (player g) (money g) (item_storage g) v
    (mold_level g) (luck_level g) (level_exp g) (item_id_counter g) (mold_mult g)
    (luck_multiplier g) (enemy_luck_multiplier g) (player_luck_multiplier g)
    (mold_cost g) (luck_cost g) (spawned_enemies g) (sell_area g).

Definition set_mold_level (v : Z) (g : GameCore) : GameCore :=
  mkGameCore (username g) (player g) (money g) (item_storage g) (recycled_ids g)
    v (luck_level g) (level_exp g) (item_id_counter g) (mold_mult g)
    (luck_multiplier g) (enemy_luck_multiplier g) (player_luck_multiplier g)
    (mold_cost g) (luck_cost g) (spawned_enemies g) (sell_area g).

Definition set_luck_level (v : Z) (g : GameCore) : GameCore :=
  mkGameCore (username g) (player g) (money g) (item_storage g) (recycled_ids g)
    (mold_level g) v (level_exp g) (item_id_counter g) (mold_mult g)
    (luck_multiplier g) (enemy_luck_multiplier g) (player_luck_multiplier g)
    (mold_cost g) (luck_cost g) (spawned_enemies g) (sell_area g).

Definition set_item_id_counter (v : Z) (g : GameCore) : GameCore :=
  mkGameCore (username g) (player g) (money g) (item_storage g) (recycled_ids g)
    (mold_level g) (luck_level g) (level_exp g) v (mold_mult g)
    (luck_multiplier g) (enemy_luck_multiplier g) (player_luck_multiplier g)
    (mold_cost g) (luck_cost g) (spawned_enemies g) (sell_area g).

Definition set_multipliers (mm lm elm plm : Q) (g : GameCore) : GameCore :=
  mkGameCore (username g) (player g) (money g) (item_storage g) (recycled_ids g)
    (mold_level g) (luck_level g) (level_exp g) (item_id_counter g) mm
    lm elm plm
    (mold_cost g) (luck_cost g) (spawned_enemies g) (sell_area g).

Definition set_mold_cost (v : Z) (g : GameCore) : GameCore :=
  mkGameCore (username g) (player g) (money g) (item_storage g) (recycled_ids g)
    (mold_level g) (luck_level g) (level_exp g) (item_id_counter g) (mold_mult g)
    (luck_multiplier g) (enemy_luck_multiplier g) (player_luck_multiplier g)
    v (luck_cost g) (spawned_enemies g) (sell_area g).

Definition set_luck_cost (v : Z) (g : GameCore) : GameCore :=
  mkGameCore (username g) (player g) (money g) (item_storage g) (recycled_ids g)
    (mold_level g) (luck_level g) (level_exp g) (item_id_counter g) (mold_mult g)
    (luck_multiplier g) (enemy_luck_multiplier g) (player_luck_multiplier g)
    (mold_cost g) v (spawned_enemies g) (sell_area g).

Definition set_spawned_enemies (v : gmap string (list Enemy.t)) (g : GameCore) : GameCore :=
  mkGameCore (username g) (player g) (money g) (item_storage g) (recycled_ids g)
    (mold_level g) (luck_level g) (level_exp g) (item_id_counter g) (mold_mult g)
    (luck_multiplier g) (enemy_luck_multiplier g) (player_luck_multiplier g)
    (mold_cost g) (luck_cost g) v (sell_area g).

Definition set_sell_area (v : list SellEntry) (g : GameCore) : GameCore :=
  mkGameCore (username g) (player g) (money g) (item_storage g) (recycled_ids g)
    (mold_level g) (luck_level g) (level_exp g) (item_id_counter g) (mold_mult g)
    (luck_multiplier g) (enemy_luck_multiplier g) (player_luck_multiplier g)
    (mold_cost g) (luck_cost g) (spawned_enemies g) v.

(** [Array.prototype.findIndex] on a name column; [None] is [-1]. *)
Definition findIndex_name (rows : list TierRow) (n : string) : option nat :=
  fst <$> list_find (fun r => row_name r = n) rows.

(** [Array.prototype.find] on a name column. *)
Definition find_name (rows : list TierRow) (n : string) : option TierRow :=
  snd <$> list_find (fun r => row_name r = n) rows.

(** [findIndex(e => e === enemy)]: [===] on objects compares identities. *)
Definition findIndex_enemy (l : list Enemy.t) (enemy : Enemy.t) : option nat :=
  fst <$> list_find (fun e => Enemy.oid e = Enemy.oid enemy) l.

(** [recycled_ids.pop()] or the next counter value. *)
Definition next_item_id (g : GameCore) : Z * GameCore :=
  match last (recycled_ids g) with
  | Some itemId =>
      (itemId, set_recycled_ids (take (length (recycled_ids g) - 1) (recycled_ids g)) g)
  | None =>
      (item_id_counter g, set_item_id_counter (item_id_counter g + 1) g)
  end.

(** A column of a [values] array.  A missing column reads [undefined] in
    the source and turns the arithmetic that uses it into [NaN]; finite
    numbers cannot carry that, so the model stops with [Throws].  Every row
    of the tables above has the columns that are read. *)
Definition column (vs : list Q) (i : nat) : result Q := defined (vs !! i).

Section Core.
Context {M : JSMath}.

Definition RARITY_COST_EXPONENT : Q := 1.25.
Definition RARITY_COST_DIVISOR : Q := 160.

Definition getRarityCostScaling (rarityName : string) : Q :=
  match findIndex_name RARITY_TIERS rarityName with
  | None => 1
  | Some tierIndex =>
      let rank := (Z.of_nat (length RARITY_TIERS) - Z.of_nat tierIndex)%Z in
      let scale := (1 + Math_pow (inject_Z rank) RARITY_COST_EXPONENT / RARITY_COST_DIVISOR)%Q in
      Qmin scale 1.85
  end.

Definition getLevelScale (g : GameCore) : Q :=
  (1 + inject_Z (level (player g)) * 0.01)%Q.

(** Update luck multipliers *)
Definition updateLuckMult (g : GameCore) : GameCore :=
  let levelMult := (1 + inject_Z (level (player g)) / 100)%Q in
  let PRE50_OFFSET := 1.05%Q in
  let levelScale := getLevelScale g in
  let luck_multiplier1 :=
    if luck_level g <=? 50
    then (inject_Z (Math_round
            ((1 + (Math_log1p (inject_Z (luck_level g)) - PRE50_OFFSET) * levelMult) * 100)) / 100)%Q
    else inject_Z (Math_round (Math_pow (inject_Z (luck_level g)) 1.01 * levelMult)) in
  let mold_mult1 :=
    if mold_level g <=? 50
    then (inject_Z (Math_round
            ((1 + (Math_log1p (inject_Z (mold_level g)) - PRE50_OFFSET) * levelMult) * 100)) / 100)%Q
    else inject_Z (Math_round (Math_pow (inject_Z (mold_level g)) 1.015 * levelMult)) in
  let luck_multiplier2 :=
    Number_toFixed2 (inject_Z (Math_round (luck_multiplier1 * levelScale * 100)) / 100) in
  let mold_mult2 :=
    Number_toFixed2 (inject_Z (Math_round (mold_mult1 * levelScale * 100)) / 100) in
  let enemy_luck :=
    (inject_Z (Math_round ((Math_pow levelMult 2.5 - 1 + 1) * 100)) / 100)%Q in
  set_multipliers mold_mult2 luck_multiplier2 enemy_luck levelMult g.

(** Recalculate costs and multipliers *)
Definition recalculate (g : GameCore) : GameCore :=
  let g := set_mold_cost (Math_round (Math_pow (inject_Z (mold_level g)) 1.9) + 3) g in
  let g := set_luck_cost (Math_round (Math_pow (inject_Z (luck_level g)) 2.4) + 5) g in
  updateLuckMult g.

(** [new GameCore(username)]. *)
Definition new_GameCore (name : string) : GameCore :=
  recalculate
    {| username := name;
       player := {| level := 1; exp := 0; equipped := None |};
       money := 0;
       item_storage := [];
       recycled_ids := [];
       mold_level := 1;
       luck_level := 1;
       level_exp := 0;
       item_id_counter := 0;
       mold_mult := 1;
       luck_multiplier := 1;
       enemy_luck_multiplier := 1;
       player_luck_multiplier := 1;
       mold_cost := 3;
       luck_cost := 4;
       spawned_enemies :=
         foldl (fun m area => <[area_name area := []]> m) ∅ AREAS;
       sell_area := [] |}.

(** Required EXP for level.  (Levels start at 1 and only go up; for a
    negative level the source would get [NaN] from [Math.pow].) *)
Definition requiredExp (lvl : Z) : Z :=
  let baseExp := 100%Q in
  Math_floor (baseExp * Math_pow (inject_Z lvl) 1.05).

(** The [while] loop of [checkLevelUp]. *)
Fixpoint checkLevelUp_while (fuel : nat) (g : GameCore) (levelsGained : Z)
  : result (GameCore * Z) :=
  match fuel with
  | O => OutOfFuel
  | S fuel' =>
      if Qleb (inject_Z (requiredExp (level (player g)))) (exp (player g)) then
        let g := set_exp (exp (player g) - inject_Z (requiredExp (level (player g)))) g in
        let g := set_level (level (player g) + 1) g in
        checkLevelUp_while fuel' g (levelsGained + 1)
      else Done (g, levelsGained)
  end.

(** Check for level up *)
Definition checkLevelUp (fuel : nat) (g : GameCore) : result (GameCore * Z) :=
  let* (g, levelsGained) := checkLevelUp_while fuel g 0 in
  if 0 <? levelsGained then Done (updateLuckMult g, levelsGained)
  else Done (g, 0).

(** The award made at both call sites of [checkLevelUp]:
    [this.player.exp += amount; this.checkLevelUp()]. *)
Definition addExperience (fuel : nat) (g : GameCore) (amount : Q)
  : result (GameCore * Z) :=
  checkLevelUp fuel (set_exp (exp (player g) + amount) g).

(** What [rngGen] returns. *)
Record RngGen : Type := mkRngGen {
  rarityResult : TierResult;
  moldResult : TierResult;
  combinedActual : Q;
  rarity : Z * string * Q * Q;
  moldInfo : Z * string * Q
}.

(** Item generation.  [u_rarity] and [u_mold] are the two values of
    [Math.random()], in the order of the calls. *)
Definition rngGen (g : GameCore) (u_rarity u_mold : Q) : result RngGen :=
  let maxRarityRoll := Math_floor (inject_Z MAXIMUM_VALUE / Qmax 1 (luck_multiplier g)) in
  let maxMoldRoll := Math_floor (inject_Z MAXIMUM_VALUE / Qmax 1 (mold_mult g)) in
  let rarityRoll := Math_floor (u_rarity * Qmax 1 (inject_Z maxRarityRoll)) + 1 in
  let moldRoll := Math_floor (u_mold * Qmax 1 (inject_Z maxMoldRoll)) + 1 in
  let* rarityResult := getTier rarityRoll RARITY_TIERS (luck_multiplier g) in
  let* moldResult := getTier moldRoll MOLD_TIERS (mold_mult g) in
  let* rarityPriceMultiplier := column (values rarityResult) 0 in
  let* rarityDamageMultiplier := column (values rarityResult) 1 in
  let* moldPriceMultiplier := column (values moldResult) 0 in
  let rarity := (range_end rarityResult, tier rarityResult,
                 rarityPriceMultiplier, rarityDamageMultiplier) in
  let moldInfo := (range_end moldResult, tier moldResult, moldPriceMultiplier) in
  (* Overall RNG calculation *)
  let overallRarity := (inject_Z maxRarityRoll / inject_Z rarityRoll)%Q in
  let overallMold := (inject_Z maxMoldRoll / inject_Z moldRoll)%Q in
  let combinedOverall := (overallRarity * overallMold)%Q in
  let combinedActual :=
    if Qltb combinedOverall 1000
    then (inject_Z (Math_round (combinedOverall * 10)) / 10)%Q
    else inject_Z (Math_round combinedOverall) in
  Done (mkRngGen rarityResult moldResult combinedActual rarity moldInfo).

(** Get weapon: [undefined] when no weapon type is unlocked. *)
Definition getWeapon (g : GameCore) (u_weapon : Q) : option WeaponType :=
  let availableWeapons :=
    List.filter (fun weapon => w_mold_level weapon <=? mold_level g) WEAPON_TYPES in
  availableWeapons !! Z.to_nat (Math_floor (u_weapon * inject_Z (Z.of_nat (length availableWeapons)))).

(** What [itemGen] returns. *)
Record ItemGen : Type := mkItemGen {
  itemInfo : Item.t;
  ig_combinedActual : Q;
  ig_rarityResult : TierResult;
  ig_moldResult : TierResult
}.

(** Generate item.  [auto_sell_threshold] is [gameSettings.auto_sell_threshold]
    and [now] is [Date.now() / 1000]. *)
Definition itemGen (g : GameCore) (u_weapon u_rarity u_mold : Q)
    (auto_sell_threshold now : Q) : result (GameCore * ItemGen) :=
  let* weaponData := defined (getWeapon g u_weapon) in
  let weapon := w_type weaponData in
  let weaponBaseDamage := w_damage weaponData in
  let weaponBaseDefense := w_defense weaponData in
  let* r := rngGen g u_rarity u_mold in
  let '(_, rarity1, rarity2, rarity3) := rarity r in
  let '(_, moldInfo1, moldInfo2) := moldInfo r in
  let basePrice := 4.5%Q in
  let rarityMult := (rarity2 * 0.95)%Q in
  let moldMultPrice := moldInfo2 in
  let costScale := getRarityCostScaling rarity1 in
  let price := (basePrice * rarityMult * moldMultPrice * costScale)%Q in
  let damage := (weaponBaseDamage * rarity3)%Q in
  let defense := (weaponBaseDefense * (rarity3 * 0.5))%Q in
  let '(itemId, g) := next_item_id g in
  let itemInfo :=
    Item.mk itemId (combinedActual r) moldInfo1 rarity1 price weapon damage defense in
  let g :=
    if Qltb (combinedActual r) auto_sell_threshold
    then set_sell_area (sell_area g ++ [mkSellEntry itemInfo now 30]) g
    else set_item_storage (item_storage g ++ [itemInfo]) g in
  Done (g, mkItemGen itemInfo (combinedActual r) (rarityResult r) (moldResult r)).

(** Enemy loot generation *)
Definition enemyLoot (g : GameCore) (enemy : Enemy.t) (u_weapon u_mold : Q)
  : result (GameCore * Item.t) :=
  let enemyRarityIndex := findIndex_name RARITY_TIERS (Enemy.name enemy) in
  let* rarityData :=
    defined (match enemyRarityIndex with
             | Some i => RARITY_TIERS !! i
             | None => last RARITY_TIERS
             end) in
  let rarityName := row_name rarityData in
  let* priceMult := column (row_extras rarityData) 0 in
  let* damageMult := column (row_extras rarityData) 1 in
  let availableWeapons :=
    List.filter (fun w => w_mold_level w <=? mold_level g) WEAPON_TYPES in
  let* chosen :=
    defined (availableWeapons !!
               Z.to_nat (Math_floor (u_weapon * inject_Z (Z.of_nat (length availableWeapons))))) in
  let weaponChoice := w_type chosen in
  let* found :=
    defined (snd <$> list_find (fun w => w_type w = weaponChoice) WEAPON_TYPES) in
  let damageBase := w_damage found in
  let defenseBase := w_defense found in
  let maxMoldIndex := MAXIMUM_VALUE in
  let moldIndex :=
    Math_floor (u_mold * Qmax 1 (inject_Z (Math_floor
      (inject_Z maxMoldIndex /
         ((if Qltb 0 (mold_mult g) then mold_mult g else 1) * player_luck_multiplier g))))) in
  let* moldResult := getTier moldIndex MOLD_TIERS (mold_mult g) in
  let* moldMultPrice := column (values moldResult) 0 in
  let '(itemId, g) := next_item_id g in
  let costScale := getRarityCostScaling rarityName in
  Done (g, Item.mk itemId (Enemy.RNG enemy) (tier moldResult) rarityName
             (5 * priceMult * moldMultPrice * costScale)
             weaponChoice
             (damageBase * damageMult)
             (defenseBase * (damageMult * 0.5))).

(** What [fightEnemy] returns: [{victory: true, exp, cash, levelsGained,
    drop?}] or [{victory: false, message}]. *)
Inductive FightResult : Type :=
| Victory (exp cash levelsGained : Z) (drop : option Item.t)
| Lost (message : string).

Definition victory (r : FightResult) : bool :=
  match r with
  | Victory _ _ _ _ => true
  | Lost _ => false
  end.

(** [Math.max(0, Math.floor(enemyAttack / weapon.Defense))]. *)
Definition damageTaken (enemyAttack : Z) (weapon : Item.t) : jsnum :=
  js_max0 (js_floor (js_div (inject_Z enemyAttack) (Item.Defense weapon))).

(** The [while] loop of [fightEnemy], with the state it returns in.
    [u_weapon] and [u_mold] feed [enemyLoot]. *)
Fixpoint fightEnemy_while (fuel : nat) (g : GameCore) (areaName : string)
    (enemy : Enemy.t) (u_weapon u_mold : Q)
    (playerHealth : jsnum) (enemyHealth : Z) : result (GameCore * FightResult) :=
  match fuel with
  | O => OutOfFuel
  | S fuel' =>
      if js_gt0 playerHealth && (0 <? enemyHealth) then
        let* weapon := defined (equipped (player g)) in
        let damageDealt := Math_floor (Item.Damage weapon) in
        let enemyHealth := enemyHealth - damageDealt in
        if enemyHealth <=? 0 then
          let g := set_money (money g + inject_Z (Enemy.cash enemy)) g in
          let g := set_exp (exp (player g) + inject_Z (Enemy.exp enemy)) g in
          let* (g, levelsGained) := checkLevelUp fuel' g in
          (* Remove enemy *)
          let* enemies := defined (spawned_enemies g !! areaName) in
          let g :=
            match findIndex_enemy enemies enemy with
            | Some enemyIndex =>
                set_spawned_enemies (<[areaName := delete enemyIndex enemies]> (spawned_enemies g)) g
            | None => g
            end in
          (* Drop item if elite or champions hall *)
          if Enemy.Elite enemy || bool_decide (areaName = "Champions Hall") then
            let* (g, drop) := enemyLoot g enemy u_weapon u_mold in
            let g := set_item_storage (item_storage g ++ [drop]) g in
            Done (g, Victory (Enemy.exp enemy) (Enemy.cash enemy) levelsGained (Some drop))
          else
            Done (g, Victory (Enemy.exp enemy) (Enemy.cash enemy) levelsGained None)
        else
          let enemyAttack := Enemy.damage enemy in
          let playerHealth := js_sub playerHealth (damageTaken enemyAttack weapon) in
          if js_le0 playerHealth then
            Done (g, Lost ("You were defeated by the " +:+ Enemy.name enemy +:+ "!"))
          else
            fightEnemy_while fuel' g areaName enemy u_weapon u_mold playerHealth enemyHealth
      else Done (g, Lost "Combat ended unexpectedly.")
  end.

(** Combat system *)
Definition fightEnemy (fuel : nat) (g : GameCore) (areaName : string)
    (enemy : Enemy.t) (dropItems : bool) (u_weapon u_mold : Q)
  : result (GameCore * FightResult) :=
  let playerHealth := Fin 100 in
  let enemyHealth := Enemy.health enemy in
  fightEnemy_while fuel g areaName enemy u_weapon u_mold playerHealth enemyHealth.

(** [fightEnemy(areaIndex, enemyIndex)] of game-ui.js, without its
    notifications and redraws: the enemy it passes on is read from the list
    of the area, and nothing happens when the index holds no enemy. *)
Definition ui_fightEnemy (fuel : nat) (g : GameCore) (areaIndex enemyIndex : nat)
    (u_weapon u_mold : Q) : result (GameCore * option FightResult) :=
  let* area := defined (AREAS !! areaIndex) in
  let areaName := area_name area in
  let* enemies := defined (spawned_enemies g !! areaName) in
  match enemies !! enemyIndex with
  | None => Done (g, None)
  | Some enemy =>
      let* (g, r) := fightEnemy fuel g areaName enemy (area_drops area) u_weapon u_mold in
      Done (g, Some r)
  end.

(** What the upgrade methods return. *)
Record UpgradeResult : Type := mkUpgradeResult {
  success : bool;
  message : string
}.

(** First [for] loop of [upgradeMold]: the total over [amount] levels. *)
Fixpoint upgradeMold_total (n : nat) (totalCost tempLevel : Z) : Z :=
  match n with
  | O => totalCost
  | S n' =>
      let totalCost := totalCost + (Math_round (Math_pow (inject_Z tempLevel) 1.9) + 3) in
      let tempLevel := tempLevel + 1 in
      upgradeMold_total n' totalCost tempLevel
  end.

(** Second [for] loop of [upgradeMold]: the purchases. *)
Fixpoint upgradeMold_buy (n : nat) (g : GameCore) : GameCore :=
  match n with
  | O => g
  | S n' =>
      let g := set_mold_level (mold_level g + 1) g in
      let g := set_money (money g - inject_Z (mold_cost g)) g in
      let g := set_mold_cost (Math_round (Math_pow (inject_Z (mold_level g)) 1.9) + 3) g in
      upgradeMold_buy n' g
  end.

(** Upgrade system *)
Definition upgradeMold (g : GameCore) (amount : Z) : GameCore * UpgradeResult :=
  if amount <=? 0 then (g, mkUpgradeResult false "Invalid amount.")
  else
    let totalCost := upgradeMold_total (Z.to_nat amount) 0 (mold_level g) in
    if Qltb (money g) (inject_Z totalCost) then
      (g, mkUpgradeResult false "Not enough money!")
    else
      let g := upgradeMold_buy (Z.to_nat amount) g in
      let g := updateLuckMult g in
      (g, mkUpgradeResult true ("Upgraded mold level " +:+ pretty amount +:+ " times!")).

Fixpoint upgradeLuck_total (n : nat) (totalCost tempLevel : Z) : Z :=
  match n with
  | O => totalCost
  | S n' =>
      let totalCost := totalCost + (Math_round (Math_pow (inject_Z tempLevel) 2.1) + 4) in
      let tempLevel := tempLevel + 1 in
      upgradeLuck_total n' totalCost tempLevel
  end.

Fixpoint upgradeLuck_buy (n : nat) (g : GameCore) : GameCore :=
  match n with
  | O => g
  | S n' =>
      let g := set_luck_level (luck_level g + 1) g in
      let g := set_money (money g - inject_Z (luck_cost g)) g in
      let g := set_luck_cost (Math_round (Math_pow (inject_Z (luck_level g)) 2.1) + 4) g in
      upgradeLuck_buy n' g
  end.

Definition upgradeLuck (g : GameCore) (amount : Z) : GameCore * UpgradeResult :=
  if amount <=? 0 then (g, mkUpgradeResult false "Invalid amount.")
  else
    let totalCost := upgradeLuck_total (Z.to_nat amount) 0 (luck_level g) in
    if Qltb (money g) (inject_Z totalCost) then
      (g, mkUpgradeResult false "Not enough money!")
    else
      let g := upgradeLuck_buy (Z.to_nat amount) g in
      let g := updateLuckMult g in
      (g, mkUpgradeResult true ("Upgraded luck level " +:+ pretty amount +:+ " times!")).

(** EXP multipliers *)
Definition rarityExpMult (rarityName : string) : Q :=
  match find_name RARITY_TIERS rarityName with
  | Some rarity => default 1%Q (row_extras rarity !! 2%nat)
  | None => 1
  end.

Definition moldExpMult (moldName : string) : Q :=
  match find_name MOLD_TIERS moldName with
  | Some mold => default 1%Q (row_extras mold !! 1%nat)
  | None => 1
  end.

(** An element of [soldItems]. *)
Record Sold : Type := mkSold {
  sold_item : Item.t;
  sold_levelsGained : Z
}.

(** The test of [processSellArea] on an entry. *)
Definition due (currentTime : Q) (entry : SellEntry) : bool :=
  Qleb (time_added entry + timer entry) currentTime.

(** The [for] loop of [processSellArea]; [n] is [i + 1], so the loop runs
    [i] from [n - 1] down to [0]. *)
Fixpoint processSellArea_for (fuel : nat) (n : nat) (g : GameCore) (currentTime : Q)
    (soldItems : list Sold) (soldSomething : bool)
  : result (GameCore * list Sold * bool) :=
  match n with
  | O => Done (g, soldItems, soldSomething)
  | S i =>
      let* entry := defined (sell_area g !! i) in
      if due currentTime entry then
        let item := item entry in
        let expMult := (rarityExpMult (Item.Rarity item) * moldExpMult (Item.Mold item))%Q in
        let g := set_money (money g + Item.Price item) g in
        let g := set_exp (exp (player g) + Item.Price item * expMult) g in
        let* (g, levelsGained) := checkLevelUp fuel g in
        let soldItems := soldItems ++ [mkSold item levelsGained] in
        let g := set_recycled_ids (recycled_ids g ++ [Item.ID item]) g in
        let g := set_sell_area (delete i (sell_area g)) g in
        processSellArea_for fuel i g currentTime soldItems true
      else
        processSellArea_for fuel i g currentTime soldItems soldSomething
  end.

(** Process sell area.  [currentTime] is [Date.now() / 1000].  The call of
    [saveGame] when something was sold writes [localStorage] only and
    leaves the object as it is. *)
Definition processSellArea (fuel : nat) (g : GameCore) (currentTime : Q)
  : result (GameCore * list Sold) :=
  let* (g, soldItems, soldSomething) :=
    processSellArea_for fuel (length (sell_area g)) g currentTime [] false in
  Done (g, soldItems).

(** Putting an item in the sell area, as [itemGen] and the sell button do:
    [sell_area.push({item, time_added: Date.now() / 1000, timer: 30})]. *)
Definition enqueue (g : GameCore) (it : Item.t) (now : Q) : GameCore :=
  set_sell_area (sell_area g ++ [mkSellEntry it now 30]) g.

End Core.

(* ================================================================== *)
(** * A computable instance of [JSMath] *)
(* ================================================================== *)

Module Approx.

(** Results carry this many fractional bits. *)
Definition FRAC_BITS : Z := 64.

(** Bitwise search for the integer [n]-th root of [t], from bit [bits - 1]
    down. *)
Fixpoint iroot_bits (n t : Z) (bits : nat) (r : Z) : Z :=
  match bits with
  | O => r
  | S b =>
      let c := r + 2 ^ Z.of_nat b in
      iroot_bits n t b (if c ^ n <=? t then c else r)
  end.

(** The largest [r] with [r ^ n <= t]. *)
Definition iroot (n t : Z) : Z :=
  iroot_bits n t (Z.to_nat (Z.log2 t / n + 1)) 0.

(** [(a / b) ^ (p / q)] for positive [a], [b], [q] and [p >= 0], truncated
    to [FRAC_BITS] fractional bits. *)
Definition pos_pow (a b p q : Z) : Q :=
  (inject_Z (iroot q ((2 ^ (FRAC_BITS * q) * a ^ p) / b ^ p)) / inject_Z (2 ^ FRAC_BITS))%Q.

(** [Math.pow(x, y)].  A negative base, for which the source would get
    [NaN] at a fractional exponent, gives [0] here. *)
Definition pow (x y : Q) : Q :=
  let x := Qred x in
  let y := Qred y in
  if Qnum x <=? 0 then (if Qnum y =? 0 then 1%Q else 0%Q)
  else if Qnum y <? 0 then (/ pos_pow (Qnum x) (Zpos (Qden x)) (- Qnum y) (Zpos (Qden y)))%Q
  else pos_pow (Qnum x) (Zpos (Qden x)) (Qnum y) (Zpos (Qden y)).

(** [k] square roots of a fixed-point number with [f] fractional bits. *)
Fixpoint sqrt_iter (f : Z) (k : nat) (v : Z) : Z :=
  match k with
  | O => v
  | S k' => sqrt_iter f k' (Z.sqrt (v * 2 ^ f))
  end.

(** [Math.log1p(x)] as [2^k * ((1 + x)^(1 / 2^k) - 1)] with [k = 64], on
    192 fractional bits.  An argument [<= -1] gives [0] here. *)
Definition log1p (x : Q) : Q :=
  let y := Qred (1 + x) in
  if Qnum y <=? 0 then 0%Q
  else
    let f := 192 in
    let v0 := (Qnum y * 2 ^ f) / Zpos (Qden y) in
    let v := sqrt_iter f 64 v0 in
    (inject_Z ((v - 2 ^ f) * 2 ^ 64) / inject_Z (2 ^ f))%Q.

Lemma iroot_bits_spec (n t : Z) (bits : nat) (r : Z) :
  1 <= n -> 0 <= r -> r ^ n <= t < (r + 2 ^ Z.of_nat bits) ^ n ->
  let r' := iroot_bits n t bits r in
  0 <= r' /\ r' ^ n <= t < (r' + 1) ^ n.
Proof.
  intros Hn. revert r. induction bits as [|b IH]; intros r Hr Ht; cbn [iroot_bits].
  - cbn. change (2 ^ Z.of_nat 0) with 1 in Ht. auto.
  - assert (Hb : 2 ^ Z.of_nat (S b) = 2 ^ Z.of_nat b + 2 ^ Z.of_nat b).
    { rewrite Nat2Z.inj_succ, Z.pow_succ_r by lia. lia. }
    assert (Hpos : 0 < 2 ^ Z.of_nat b) by (apply Z.pow_pos_nonneg; lia).
    destruct (Z.leb_spec ((r + 2 ^ Z.of_nat b) ^ n) t) as [Hle|Hgt].
    + apply IH; [lia|]. split; [exact Hle|].
      replace (r + 2 ^ Z.of_nat b + 2 ^ Z.of_nat b) with (r + 2 ^ Z.of_nat (S b)) by lia.
      apply Ht.
    + apply IH; [lia|]. split; [apply Ht | exact Hgt].
Qed.

Lemma iroot_spec (n t : Z) :
  1 <= n -> 0 <= t ->
  0 <= iroot n t /\ iroot n t ^ n <= t < (iroot n t + 1) ^ n.
Proof.
  intros Hn Ht. unfold iroot. apply iroot_bits_spec; [lia | lia |].
  split; [rewrite Z.pow_0_l by lia; lia|].
  rewrite Z.add_0_l.
  assert (Hq : 0 <= Z.log2 t / n) by (apply Z.div_pos; [apply Z.log2_nonneg | lia]).
  rewrite Z2Nat.id by lia.
  rewrite <- Z.pow_mul_r by lia.
  destruct (Z.eq_dec t 0) as [->|Hne].
  - apply Z.pow_pos_nonneg; nia.
  - assert (Hlog : t < 2 ^ Z.succ (Z.log2 t)) by (apply Z.log2_spec; lia).
    eapply Z.lt_le_trans; [exact Hlog|].
    apply Z.pow_le_mono_r; [lia|].
    pose proof (Z.mul_succ_div_gt (Z.log2 t) n ltac:(lia)). lia.
Qed.

Lemma iroot_le (n t t' : Z) :
  1 <= n -> 0 <= t -> t <= t' -> iroot n t <= iroot n t'.
Proof.
  intros Hn Ht Hle.
  destruct (iroot_spec n t Hn Ht) as (Hr & Hlo & _).
  destruct (iroot_spec n t' Hn ltac:(lia)) as (Hr' & _ & Hhi).
  destruct (Z.le_gt_cases (iroot n t) (iroot n t')) as [|Hgt]; [assumption|].
  exfalso.
  assert ((iroot n t' + 1) ^ n <= iroot n t ^ n) by (apply Z.pow_le_mono_l; lia).
  lia.
Qed.

Lemma iroot_lower (n t r : Z) :
  1 <= n -> 0 <= r -> r ^ n <= t -> r <= iroot n t.
Proof.
  intros Hn Hr Hle.
  assert (Ht : 0 <= t) by (pose proof (Z.pow_nonneg r n Hr); lia).
  destruct (iroot_spec n t Hn Ht) as (Hr' & _ & Hhi).
  destruct (Z.le_gt_cases r (iroot n t)) as [|Hgt]; [assumption|].
  exfalso.
  assert ((iroot n t + 1) ^ n <= r ^ n) by (apply Z.pow_le_mono_l; lia).
  lia.
Qed.

Lemma scaled_div_le (c a b a' b' : Z) :
  0 <= c -> 0 <= a -> 0 < b -> 0 < b' -> a * b' <= a' * b ->
  (c * a) / b <= (c * a') / b'.
Proof.
  intros Hc Ha Hb Hb' Hle.
  apply Z.div_le_lower_bound; [assumption|].
  pose proof (Z.mul_div_le (c * a) b Hb) as Hfl.
  assert (0 <= (c * a) / b) by (apply Z.div_pos; nia).
  apply Z.mul_le_mono_pos_r with (p := b); [assumption|]. nia.
Qed.

Lemma pos_pow_le (a b a' b' p q : Z) :
  0 < a -> 0 < b -> 0 < b' -> 0 <= p -> 1 <= q -> a * b' <= a' * b ->
  (pos_pow a b p q <= pos_pow a' b' p q)%Q.
Proof.
  intros Ha Hb Hb' Hp Hq Hle. unfold pos_pow.
  assert (H2 : 0 < 2 ^ FRAC_BITS) by (apply Z.pow_pos_nonneg; unfold FRAC_BITS; lia).
  apply Qle_shift_div_l; [change 0%Q with (inject_Z 0); rewrite <- Zlt_Qlt; exact H2|].
  unfold Qdiv. rewrite <- Qmult_assoc, (Qmult_comm (/ _)), Qmult_inv_r, Qmult_1_r.
  2:{ intros E. unfold Qeq in E. cbn in E. lia. }
  rewrite <- Zle_Qle.
  assert (Hc : 0 <= 2 ^ (FRAC_BITS * q)) by (apply Z.pow_nonneg; lia).
  assert (Hap : 0 <= a ^ p) by (apply Z.pow_nonneg; lia).
  assert (Hbp : 0 < b ^ p) by (apply Z.pow_pos_nonneg; lia).
  assert (Hbp' : 0 < b' ^ p) by (apply Z.pow_pos_nonneg; lia).
  apply iroot_le; [assumption | apply Z.div_pos; nia |].
  apply scaled_div_le; try assumption.
  rewrite <- !Z.pow_mul_l. apply Z.pow_le_mono_l. nia.
Qed.

Lemma pos_pow_ge_1 (a b p q : Z) :
  0 < b -> b <= a -> 0 <= p -> 1 <= q -> (1 <= pos_pow a b p q)%Q.
Proof.
  intros Hb Hab Hp Hq. unfold pos_pow.
  assert (H2 : 0 < 2 ^ FRAC_BITS) by (apply Z.pow_pos_nonneg; unfold FRAC_BITS; lia).
  apply Qle_shift_div_l; [change 0%Q with (inject_Z 0); rewrite <- Zlt_Qlt; exact H2|].
  rewrite Qmult_1_l, <- Zle_Qle.
  assert (Hbp : 0 < b ^ p) by (apply Z.pow_pos_nonneg; lia).
  assert (Hle : b ^ p <= a ^ p) by (apply Z.pow_le_mono_l; lia).
  apply iroot_lower; [assumption | lia |].
  rewrite <- Z.pow_mul_r by (unfold FRAC_BITS; lia).
  apply Z.div_le_lower_bound; [assumption|].
  assert (0 < 2 ^ (FRAC_BITS * q)) by (apply Z.pow_pos_nonneg; unfold FRAC_BITS; lia).
  nia.
Qed.

Lemma square_pow_split (a p q : Z) :
  0 <= p -> p <= 2 * q -> (a * a) ^ q = a ^ p * a ^ (2 * q - p).
Proof.
  intros Hp Hpq. rewrite <- Z.pow_2_r, <- Z.pow_mul_r by lia.
  rewrite <- Z.pow_add_r by lia. f_equal. lia.
Qed.

Lemma pos_pow_le_square (a b p q : Z) :
  0 < b -> b <= a -> 0 <= p -> 1 <= q -> p <= 2 * q ->
  (pos_pow a b p q <= inject_Z (a * a) / inject_Z (b * b))%Q.
Proof.
  intros Hb Hab Hp Hq Hpq. unfold pos_pow.
  set (t := (2 ^ (FRAC_BITS * q) * a ^ p) / b ^ p).
  assert (H2 : 0 < 2 ^ FRAC_BITS) by (apply Z.pow_pos_nonneg; unfold FRAC_BITS; lia).
  assert (Hbp : 0 < b ^ p) by (apply Z.pow_pos_nonneg; lia).
  assert (Hap : 0 < a ^ p) by (apply Z.pow_pos_nonneg; lia).
  assert (Hc : 0 < 2 ^ (FRAC_BITS * q)) by (apply Z.pow_pos_nonneg; unfold FRAC_BITS; lia).
  assert (Ht : 0 <= t) by (apply Z.div_pos; nia).
  destruct (iroot_spec q t Hq Ht) as (Hr & Hlo & _).
  set (r := iroot q t) in *.
  assert (Hz : r * (b * b) <= 2 ^ FRAC_BITS * (a * a)).
  { destruct (Z.le_gt_cases (r * (b * b)) (2 ^ FRAC_BITS * (a * a))) as [|Hgt]; [assumption|].
    exfalso.
    assert (Hpow : (2 ^ FRAC_BITS * (a * a)) ^ q < (r * (b * b)) ^ q)
      by (apply Z.pow_lt_mono_l; nia).
    rewrite (Z.pow_mul_l (2 ^ FRAC_BITS)), (Z.pow_mul_l r) in Hpow.
    rewrite <- Z.pow_mul_r in Hpow by (unfold FRAC_BITS; lia).
    rewrite (square_pow_split a p q), (square_pow_split b p q) in Hpow by lia.
    assert (Htb : t * b ^ p <= 2 ^ (FRAC_BITS * q) * a ^ p)
      by (unfold t; rewrite Z.mul_comm; apply Z.mul_div_le; assumption).
    assert (Hd : b ^ (2 * q - p) <= a ^ (2 * q - p)) by (apply Z.pow_le_mono_l; lia).
    assert (Hdb : 0 < b ^ (2 * q - p)) by (apply Z.pow_pos_nonneg; lia).
    assert (Hrq : 0 <= r ^ q) by (apply Z.pow_nonneg; lia).
    assert (H1 : r ^ q * b ^ p <= 2 ^ (FRAC_BITS * q) * a ^ p) by nia.
    assert (H3 : r ^ q * b ^ p * b ^ (2 * q - p)
                 <= 2 ^ (FRAC_BITS * q) * a ^ p * a ^ (2 * q - p)).
    { apply Z.mul_le_mono_nonneg; nia. }
    nia. }
  assert (Hbb : 0 < b * b) by nia.
  apply Qle_shift_div_r; [change 0%Q with (inject_Z 0); rewrite <- Zlt_Qlt; exact H2|].
  assert (Hinv : (inject_Z (a * a) / inject_Z (b * b) * inject_Z (2 ^ FRAC_BITS)
                  == inject_Z (2 ^ FRAC_BITS * (a * a)) / inject_Z (b * b))%Q).
  { rewrite (inject_Z_mult (2 ^ FRAC_BITS)). field.
    intros E. unfold Qeq in E. cbn in E. lia. }
  rewrite Hinv.
  apply Qle_shift_div_l; [change 0%Q with (inject_Z 0); rewrite <- Zlt_Qlt; exact Hbb|].
  rewrite <- inject_Z_mult, <- Zle_Qle. exact Hz.
Qed.

Lemma Qred_num_pos (x : Q) : (0 < x)%Q -> 0 < Qnum (Qred x).
Proof.
  intros Hx. rewrite <- (Qred_correct x) in Hx.
  unfold Qlt in Hx. cbn in Hx. lia.
Qed.

Lemma Qred_num_nonneg (x : Q) : (0 <= x)%Q -> 0 <= Qnum (Qred x).
Proof.
  intros Hx. rewrite <- (Qred_correct x) in Hx.
  unfold Qle in Hx. cbn in Hx. lia.
Qed.

Lemma pow_ge_1 (x y : Q) : (1 <= x)%Q -> (0 <= y)%Q -> (1 <= pow x y)%Q.
Proof.
  intros Hx Hy. unfold pow.
  pose proof (Qred_num_pos x ltac:(lra)) as Hnx.
  pose proof (Qred_num_nonneg y Hy) as Hny.
  destruct (Z.leb_spec (Qnum (Qred x)) 0); [lia|].
  destruct (Z.ltb_spec (Qnum (Qred y)) 0); [lia|].
  apply pos_pow_ge_1; try lia.
  rewrite <- (Qred_correct x) in Hx. unfold Qle in Hx. cbn in Hx. lia.
Qed.

Lemma pow_le_square (x y : Q) :
  (1 <= x)%Q -> (0 <= y)%Q -> (y <= 2)%Q -> (pow x y <= x * x)%Q.
Proof.
  intros Hx Hy Hy2. unfold pow.
  pose proof (Qred_num_pos x ltac:(lra)) as Hnx.
  pose proof (Qred_num_nonneg y Hy) as Hny.
  destruct (Z.leb_spec (Qnum (Qred x)) 0); [lia|].
  destruct (Z.ltb_spec (Qnum (Qred y)) 0); [lia|].
  rewrite <- (Qred_correct x) in Hx |- * at 3 4.
  rewrite <- (Qred_correct y) in Hy2.
  destruct (Qred x) as [a b], (Qred y) as [p q]. cbn [Qnum Qden] in *.
  eapply Qle_trans; [apply pos_pow_le_square|].
  - lia.
  - unfold Qle in Hx. cbn in Hx. lia.
  - lia.
  - lia.
  - unfold Qle in Hy2. cbn in Hy2. lia.
  - rewrite (Qmake_Qdiv a b), !inject_Z_mult.
    apply Qle_lteq. right. field.
    intros E. unfold Qeq in E. cbn in E. lia.
Qed.

Lemma pow_le (x x' y : Q) :
  (0 < x)%Q -> (x <= x')%Q -> (0 <= y)%Q -> (pow x y <= pow x' y)%Q.
Proof.
  intros Hx Hxx Hy. unfold pow.
  pose proof (Qred_num_pos x Hx) as Hnx.
  pose proof (Qred_num_pos x' ltac:(lra)) as Hnx'.
  pose proof (Qred_num_nonneg y Hy) as Hny.
  destruct (Z.leb_spec (Qnum (Qred x)) 0); [lia|].
  destruct (Z.leb_spec (Qnum (Qred x')) 0); [lia|].
  destruct (Z.ltb_spec (Qnum (Qred y)) 0); [lia|].
  apply pos_pow_le; try lia.
  rewrite <- (Qred_correct x), <- (Qred_correct x') in Hxx.
  unfold Qle in Hxx. exact Hxx.
Qed.

End Approx.

#[export] Instance approxMath : JSMath := {|
  Math_pow := Approx.pow;
  Math_log1p := Approx.log1p;
  Math_pow_ge_1 := Approx.pow_ge_1;
  Math_pow_le_square := Approx.pow_le_square;
  Math_pow_le := Approx.pow_le
|}.

(* ================================================================== *)
(** * The tier resolver *)
(* ================================================================== *)

(** A decision procedure for [strictly_increasing]. *)
Fixpoint increasing_from (prev : Z) (rows : list TierRow) : bool :=
  match rows with
  | [] => true
  | r :: rest => (prev <? row_threshold r) && increasing_from (row_threshold r) rest
  end.

Definition strictly_increasingb (tiers : list TierRow) : bool :=
  match tiers with
  | [] => true
  | r :: rest => increasing_from (row_threshold r) rest
  end.

Lemma increasing_from_lookup (prev : Z) (rows : list TierRow) (j : nat) (b : TierRow) :
  increasing_from prev rows = true -> rows !! j = Some b -> prev < row_threshold b.
Proof.
  revert prev j. induction rows as [|r rest IH]; intros prev j Hinc Hj; [discriminate|].
  cbn in Hinc. apply andb_prop in Hinc as [Hlt Hrest]. apply Z.ltb_lt in Hlt.
  destruct j as [|j]; cbn in Hj.
  - injection Hj as <-. exact Hlt.
  - specialize (IH _ _ Hrest Hj). lia.
Qed.

Lemma strictly_increasingb_sound (tiers : list TierRow) :
  strictly_increasingb tiers = true -> strictly_increasing tiers.
Proof.
  induction tiers as [|r rest IH]; intros Hb i j a b Hij Ha Hb'.
  - discriminate.
  - cbn in Hb. destruct j as [|j]; [lia|]. cbn in Hb'.
    destruct i as [|i]; cbn in Ha.
    + injection Ha as <-. eapply increasing_from_lookup; eauto.
    + apply (IH ltac:(destruct rest as [|r' rest']; [reflexivity|];
                      cbn in Hb |- *; apply andb_prop in Hb as [_ Hb]; exact Hb)
               i j a b); [lia | assumption | assumption].
Qed.

(** [prev] as the loop sees it at index [i], when it starts from [prev0]. *)
Definition prev_at (prev0 : Z) (rows : list TierRow) (i : nat) : Z :=
  match i with
  | O => prev0
  | S j => default 0 (row_threshold <$> rows !! j)
  end.

Lemma getTier_scan_row (roll : Z) (rows : list TierRow) :
  forall (prev0 : Z) (i : nat) (row : TierRow),
    rows !! i = Some row ->
    (forall j a, (j < i)%nat -> rows !! j = Some a -> row_threshold a < roll) ->
    prev_at prev0 rows i < roll <= row_threshold row ->
    getTier_scan roll prev0 rows =
      Some (mkTierResult (row_name row) roll (prev_at prev0 rows i)
              (row_threshold row) (row_extras row)).
Proof.
  induction rows as [|a rest IH]; intros prev0 i row Hi Hbefore Hr; [discriminate|].
  destruct i as [|i]; cbn in Hi |- *.
  - injection Hi as ->. cbn in Hr.
    destruct (Z.ltb_spec prev0 roll); [|lia].
    destruct (Z.leb_spec roll (row_threshold row)); [|lia]. reflexivity.
  - assert (Ha : row_threshold a < roll) by (apply (Hbefore O a); [lia | reflexivity]).
    destruct (Z.leb_spec roll (row_threshold a)); [lia|].
    rewrite andb_false_r.
    rewrite (IH (row_threshold a) i row Hi).
    + f_equal. f_equal. destruct i; reflexivity.
    + intros j b Hj Hb. apply (Hbefore (S j) b); [lia | exact Hb].
    + destruct i as [|i]; [cbn in Hr |- *; lia | exact Hr].
Qed.

Lemma getTier_scan_none (roll : Z) (rows : list TierRow) :
  forall prev0 : Z,
    (forall j a, rows !! j = Some a -> row_threshold a < roll) ->
    getTier_scan roll prev0 rows = None.
Proof.
  induction rows as [|a rest IH]; intros prev0 Hall; [reflexivity|].
  cbn. assert (Ha : row_threshold a < roll) by (apply (Hall O a); reflexivity).
  destruct (Z.leb_spec roll (row_threshold a)); [lia|].
  rewrite andb_false_r. apply IH. intros j b Hb. apply (Hall (S j) b Hb).
Qed.

Lemma prevThreshold_prev_at (tiers : list TierRow) (i : nat) :
  prevThreshold tiers i = prev_at 0 tiers i.
Proof. reflexivity. Qed.

(** Rows above row [i] of an increasing table end at or below its [prev]. *)
Lemma rows_before_below (tiers : list TierRow) (i j : nat) (a : TierRow) :
  strictly_increasing tiers -> (j < i)%nat -> tiers !! j = Some a ->
  is_Some (tiers !! i) -> row_threshold a <= prevThreshold tiers i.
Proof.
  intros Hinc Hji Ha [row Hrow]. destruct i as [|i]; [lia|]. cbn.
  destruct (tiers !! i) as [p|] eqn:Hp.
  - cbn. destruct (decide (j = i)) as [->|Hne].
    + rewrite Hp in Ha. injection Ha as ->. lia.
    + pose proof (Hinc j i a p ltac:(lia) Ha Hp). lia.
  - apply lookup_ge_None in Hp. apply lookup_lt_Some in Hrow. lia.
Qed.

Lemma getTier_row (tiers : list TierRow) (luck : Q) (i : nat) (row : TierRow) (r : Z) :
  strictly_increasing tiers ->
  tiers !! i = Some row ->
  prevThreshold tiers i < r <= row_threshold row ->
  getTier r tiers luck =
    Done (mkTierResult (row_name row) r (prevThreshold tiers i)
            (row_threshold row) (row_extras row)).
Proof.
  intros Hinc Hrow Hr. unfold getTier.
  rewrite (getTier_scan_row r tiers 0 i row Hrow); [reflexivity | | exact Hr].
  intros j a Hji Ha.
  pose proof (rows_before_below tiers i j a Hinc Hji Ha ltac:(eauto)). lia.
Qed.

(** C4: in a table with strictly increasing thresholds, every roll in
    [(prevThreshold i, threshold i]] resolves through [getTier] to row [i]
    (its name, its range and its multipliers), with [prevThreshold 0 = 0];
    so a roll equal to the threshold of row [i] resolves to row [i], a roll
    one above it resolves to row [i + 1], and a roll above the last
    threshold gets the last row as the fallback. *)
Theorem C4_getTier_resolves_row (tiers : list TierRow) (luck : Q) :
  strictly_increasing tiers ->
  (forall (i : nat) (row : TierRow) (r : Z),
      tiers !! i = Some row ->
      prevThreshold tiers i < r <= row_threshold row ->
      exists res, getTier r tiers luck = Done res /\
                  tier res = row_name row /\
                  range_start res = prevThreshold tiers i /\
                  range_end res = row_threshold row /\
                  values res = row_extras row) /\
  (forall (i : nat) (row : TierRow),
      tiers !! i = Some row ->
      prevThreshold tiers i < row_threshold row ->
      exists res, getTier (row_threshold row) tiers luck = Done res /\
                  tier res = row_name row) /\
  (forall (i : nat) (row next : TierRow),
      tiers !! i = Some row -> tiers !! S i = Some next ->
      exists res, getTier (row_threshold row + 1) tiers luck = Done res /\
                  tier res = row_name next) /\
  (forall (lastTier : TierRow) (r : Z),
      last tiers = Some lastTier ->
      row_threshold lastTier < r ->
      exists res, getTier r tiers luck = Done res /\
                  tier res = row_name lastTier /\
                  values res = row_extras lastTier).
Proof.
  intros Hinc. repeat split.
  - intros i row r Hrow Hr. eexists. split; [apply (getTier_row _ _ i row); eassumption|].
    cbn. auto.
  - intros i row Hrow Hlt. eexists.
    split; [apply (getTier_row _ _ i row); [assumption | assumption | lia]|]. reflexivity.
  - intros i row next Hrow Hnext. eexists.
    split; [apply (getTier_row _ _ (S i) next); [assumption | assumption |]|reflexivity].
    cbn. rewrite Hrow. cbn.
    pose proof (Hinc i (S i) row next ltac:(lia) Hrow Hnext). lia.
  - intros lastTier r Hlast Hr. unfold getTier.
    rewrite getTier_scan_none.
    + rewrite Hlast. cbn. eexists. split; [reflexivity|]. cbn. auto.
    + intros j a Ha. rewrite last_lookup in Hlast.
      destruct (decide (j = pred (length tiers))) as [->|Hne].
      * rewrite Hlast in Ha. injection Ha as ->. exact Hr.
      * apply lookup_lt_Some in Ha as Hlen.
        pose proof (Hinc j (pred (length tiers)) a lastTier ltac:(lia) Ha Hlast). lia.
Qed.

(** The mold table: its second row "Hallowed" at its own threshold, the
    third row "Onyx" one above it, and the last row "Copper" above every
    threshold. *)
Lemma C4_witness :
  strictly_increasing MOLD_TIERS /\
  (exists res, getTier 200000000000000 MOLD_TIERS 1 = Done res /\
               tier res = "Hallowed" /\
               range_start res = 80000000000000 /\
               range_end res = 200000000000000 /\
               values res = [200; 120]%Q) /\
  (exists res, getTier (200000000000000 + 1) MOLD_TIERS 1 = Done res /\
               tier res = "Onyx") /\
  (exists res, getTier (10 ^ 20 + 1) MOLD_TIERS 1 = Done res /\
               tier res = "Copper" /\ values res = [1.2; 1.2]%Q).
Proof.
  assert (Hinc : strictly_increasing MOLD_TIERS)
    by (apply strictly_increasingb_sound; vm_compute; reflexivity).
  split; [exact Hinc|].
  destruct (C4_getTier_resolves_row MOLD_TIERS 1 Hinc) as (Hrow & _ & Hnext & Hlast).
  split; [|split].
  - apply (Hrow 1%nat (mkRow "Hallowed" (threshold_of 500000) [200; 120]%Q) 200000000000000).
    + reflexivity.
    + vm_compute. split; [reflexivity | discriminate].
  - apply (Hnext 1%nat (mkRow "Hallowed" (threshold_of 500000) [200; 120]%Q)
             (mkRow "Onyx" (threshold_of 90000) [90; 50]%Q)); reflexivity.
  - apply (Hlast (mkRow "Copper" (threshold_of 1) [1.2; 1.2]%Q) (10 ^ 20 + 1)).
    + reflexivity.
    + vm_compute. reflexivity.
Defined.

(* ================================================================== *)
(** * Comparisons and floors of rationals *)
(* ================================================================== *)

Lemma Qleb_true (x y : Q) : Qleb x y = true <-> (x <= y)%Q.
Proof. apply Qle_bool_iff. Qed.

Lemma Qleb_false (x y : Q) : Qleb x y = false <-> (y < x)%Q.
Proof.
  unfold Qleb. rewrite <- Bool.not_true_iff_false, Qle_bool_iff. split.
  - apply Qnot_le_lt.
  - apply Qlt_not_le.
Qed.

Lemma Qltb_true (x y : Q) : Qltb x y = true <-> (x < y)%Q.
Proof. unfold Qltb. rewrite Bool.negb_true_iff. apply Qleb_false. Qed.

Lemma Qltb_false (x y : Q) : Qltb x y = false <-> (y <= x)%Q.
Proof. unfold Qltb. rewrite Bool.negb_false_iff. apply Qleb_true. Qed.

Lemma Qfloor_lt_Z (x : Q) (z : Z) : (x < inject_Z z)%Q -> Qfloor x < z.
Proof.
  intros Hx. rewrite Zlt_Qlt. eapply Qle_lt_trans; [apply Qfloor_le | exact Hx].
Qed.

Lemma Qfloor_ge_Z (x : Q) (z : Z) : (inject_Z z <= x)%Q -> z <= Qfloor x.
Proof. intros Hx. rewrite <- (Qfloor_Z z). apply Qfloor_resp_le, Hx. Qed.

Lemma inject_Z_minus (x y : Z) : inject_Z (x - y) = (inject_Z x - inject_Z y)%Q.
Proof. unfold Z.sub, Qminus. rewrite inject_Z_plus, inject_Z_opp. reflexivity. Qed.

Lemma Qfloor_minus_Z (x : Q) (z : Z) : Qfloor (x - inject_Z z) = Qfloor x - z.
Proof.
  pose proof (Qfloor_le x) as Hlo. pose proof (Qlt_floor x) as Hhi.
  rewrite inject_Z_plus in Hhi.
  assert (H1 : Qfloor x - z <= Qfloor (x - inject_Z z)).
  { apply Qfloor_ge_Z. rewrite inject_Z_minus. lra. }
  assert (H2 : Qfloor (x - inject_Z z) < Qfloor x - z + 1).
  { apply Qfloor_lt_Z. rewrite inject_Z_plus, inject_Z_minus. cbn [inject_Z]. lra. }
  lia.
Qed.

(* ================================================================== *)
(** * Levelling *)
(* ================================================================== *)

Section Levelling.
Context {M : JSMath}.

Lemma requiredExp_ge_100 (lvl : Z) : 1 <= lvl -> 100 <= requiredExp lvl.
Proof.
  intros Hl. unfold requiredExp, Math_floor. apply Qfloor_ge_Z.
  assert (Hp : (1 <= Math_pow (inject_Z lvl) 1.05)%Q).
  { apply Math_pow_ge_1; [|lra]. change 1%Q with (inject_Z 1). rewrite <- Zle_Qle. exact Hl. }
  change (inject_Z 100) with 100%Q. lra.
Qed.

(** One run of the loop of [checkLevelUp], from level [L] with experience
    [e], ends at level [L'] with experience [e'] after [n] level-ups. *)
Inductive levels_up : Z -> Q -> Z -> Q -> Z -> Prop :=
| levels_up_stop (L : Z) (e : Q) :
    (e < inject_Z (requiredExp L))%Q -> levels_up L e L e 0
| levels_up_step (L : Z) (e : Q) (L' : Z) (e' : Q) (n : Z) :
    (inject_Z (requiredExp L) <= e)%Q ->
    levels_up (L + 1) (e - inject_Z (requiredExp L)) L' e' n ->
    levels_up L e L' e' (n + 1).

(** The object with level [L] and experience [e]. *)
Definition at_level (L : Z) (e : Q) (g : GameCore) : GameCore :=
  set_player (mkPlayer L e (equipped (player g))) g.

Lemma levels_up_facts (L : Z) (e : Q) (L' : Z) (e' : Q) (n : Z) :
  levels_up L e L' e' n ->
  0 <= n /\ L' = L + n /\ (e' < inject_Z (requiredExp L'))%Q.
Proof.
  induction 1 as [L e Hlt | L e L' e' n Hle _ (Hn & HL & He)].
  - repeat split; [lia | lia | exact Hlt].
  - repeat split; [lia | lia | exact He].
Qed.

Lemma while_levels_up (fuel : nat) :
  forall (g : GameCore) (n0 : Z) (g' : GameCore) (n' : Z),
    checkLevelUp_while fuel g n0 = Done (g', n') ->
    levels_up (level (player g)) (exp (player g))
      (level (player g')) (exp (player g')) (n' - n0) /\
    g' = at_level (level (player g')) (exp (player g')) g.
Proof.
  induction fuel as [|fuel IH]; intros g n0 g' n' Hrun; [discriminate|].
  cbn [checkLevelUp_while] in Hrun.
  destruct (Qleb _ _) eqn:Hc.
  - apply IH in Hrun as [Hlu Hg']. cbn in Hlu. split.
    + replace (n' - n0) with (n' - (n0 + 1) + 1) by lia.
      apply levels_up_step; [apply Qleb_true, Hc | exact Hlu].
    + rewrite Hg' at 1. reflexivity.
  - injection Hrun as <- <-. split.
    + rewrite Z.sub_diag. apply levels_up_stop, Qleb_false, Hc.
    + reflexivity.
Qed.

Lemma levels_up_while (L : Z) (e : Q) (L' : Z) (e' : Q) (n : Z) :
  levels_up L e L' e' n ->
  forall (g : GameCore) (n0 : Z) (fuel : nat),
    level (player g) = L -> exp (player g) = e ->
    (Z.to_nat n < fuel)%nat ->
    checkLevelUp_while fuel g n0 = Done (at_level L' e' g, n0 + n).
Proof.
  induction 1 as [L e Hlt | L e L' e' n Hle Hlu IH]; intros g n0 fuel HL He Hfuel;
    subst L e.
  - destruct fuel as [|fuel]; [lia|]. cbn [checkLevelUp_while].
    apply Qleb_false in Hlt. rewrite Hlt.
    rewrite Z.add_0_r. reflexivity.
  - pose proof (levels_up_facts _ _ _ _ _ Hlu) as (Hn & _ & _).
    destruct fuel as [|fuel]; [lia|]. cbn [checkLevelUp_while].
    apply Qleb_true in Hle. rewrite Hle.
    rewrite (IH _ (n0 + 1) fuel); [| reflexivity | reflexivity | lia].
    f_equal. f_equal. lia.
Qed.

(** The loop does not tell equal rationals apart. *)
Lemma levels_up_compat (L : Z) (e : Q) (L' : Z) (e' : Q) (n : Z) :
  levels_up L e L' e' n ->
  forall x : Q, (e == x)%Q ->
  exists x' : Q, (x' == e')%Q /\ levels_up L x L' x' n.
Proof.
  induction 1 as [L e Hlt | L e L' e' n Hle _ IH]; intros x Hx.
  - exists x. split; [symmetry; exact Hx|]. apply levels_up_stop. rewrite <- Hx. exact Hlt.
  - destruct (IH (x - inject_Z (requiredExp L))%Q) as (x' & Hx' & Hlu).
    { rewrite Hx. reflexivity. }
    exists x'. split; [exact Hx'|]. apply levels_up_step; [rewrite <- Hx; exact Hle | exact Hlu].
Qed.

Lemma levels_up_det (L : Z) (e : Q) (L1 : Z) (e1 : Q) (n1 : Z) :
  levels_up L e L1 e1 n1 ->
  forall (x : Q) (L2 : Z) (e2 : Q) (n2 : Z),
    (e == x)%Q -> levels_up L x L2 e2 n2 ->
    L1 = L2 /\ (e1 == e2)%Q /\ n1 = n2.
Proof.
  induction 1 as [L e Hlt | L e L1 e1 n1 Hle _ IH]; intros x L2 e2 n2 Hx Hrun.
  - inversion Hrun as [L0 e0 Hlt' | L0 e0 L0' e0' n0 Hle' Hrest]; subst.
    + auto.
    + rewrite <- Hx in Hle'. lra.
  - inversion Hrun as [L0 e0 Hlt' | L0 e0 L0' e0' n0 Hle' Hrest]; subst.
    + rewrite <- Hx in Hlt'. lra.
    + destruct (IH _ _ _ _ ltac:(rewrite Hx; reflexivity) Hrest) as (-> & He & ->). auto.
Qed.

(** Experience [b >= 0] that arrives after a run continues that run. *)
Lemma levels_up_add (L : Z) (e : Q) (L1 : Z) (e1 : Q) (n1 : Z) :
  levels_up L e L1 e1 n1 ->
  forall (b : Q) (L2 : Z) (e2 : Q) (n2 : Z),
    (0 <= b)%Q -> levels_up L1 (e1 + b) L2 e2 n2 ->
    exists e2' : Q, (e2' == e2)%Q /\ levels_up L (e + b) L2 e2' (n1 + n2).
Proof.
  induction 1 as [L e Hlt | L e L1 e1 n1 Hle _ IH]; intros b L2 e2 n2 Hb Hrun.
  - exists e2. split; [reflexivity | exact Hrun].
  - destruct (IH b L2 e2 n2 Hb Hrun) as (y & Hy & Hlu).
    destruct (levels_up_compat _ _ _ _ _ Hlu (e + b - inject_Z (requiredExp L))%Q)
      as (y' & Hy' & Hlu'); [ring|].
    exists y'. split; [rewrite Hy'; exact Hy|].
    replace (n1 + 1 + n2) with (n1 + n2 + 1) by lia.
    apply levels_up_step; [lra | exact Hlu'].
Qed.

(** Fuel that is enough for the loop of [checkLevelUp] on [g]. *)
Definition levelup_fuel (g : GameCore) : nat :=
  S (Z.to_nat (Qfloor (exp (player g)))).

Lemma while_terminates (fuel : nat) :
  forall (g : GameCore) (n0 : Z),
    1 <= level (player g) ->
    (levelup_fuel g <= fuel)%nat ->
    exists (g' : GameCore) (n' : Z), checkLevelUp_while fuel g n0 = Done (g', n').
Proof.
  unfold levelup_fuel.
  induction fuel as [|fuel IH]; intros g n0 Hl Hfuel; [lia|].
  cbn [checkLevelUp_while].
  destruct (Qleb _ _) eqn:Hc; [|eauto].
  apply Qleb_true in Hc. apply IH; cbn [exp player level set_level set_exp set_player].
  - lia.
  - pose proof (requiredExp_ge_100 _ Hl) as Hreq.
    rewrite Qfloor_minus_Z.
    pose proof (Qfloor_ge_Z _ _ Hc). lia.
Qed.

Lemma updateLuckMult_player (g : GameCore) : player (updateLuckMult g) = player g.
Proof. reflexivity. Qed.

Lemma checkLevelUp_levels_up (fuel : nat) (g g' : GameCore) (n : Z) :
  checkLevelUp fuel g = Done (g', n) ->
  levels_up (level (player g)) (exp (player g)) (level (player g')) (exp (player g')) n.
Proof.
  unfold checkLevelUp. destruct (checkLevelUp_while fuel g 0) as [[g1 n1]| |] eqn:Hw; try discriminate.
  cbn. apply while_levels_up in Hw as [Hlu _]. rewrite Z.sub_0_r in Hlu.
  destruct (Z.ltb_spec 0 n1); intros [= <- <-].
  - exact Hlu.
  - pose proof (levels_up_facts _ _ _ _ _ Hlu) as (Hn & _ & _).
    replace n1 with 0 in Hlu by lia. exact Hlu.
Qed.

Lemma checkLevelUp_terminates (fuel : nat) (g : GameCore) :
  1 <= level (player g) ->
  (levelup_fuel g <= fuel)%nat ->
  exists (g' : GameCore) (n : Z), checkLevelUp fuel g = Done (g', n).
Proof.
  intros Hl Hfuel. unfold checkLevelUp.
  destruct (while_terminates fuel g 0 Hl Hfuel) as (g1 & n1 & ->). cbn.
  destruct (0 <? n1); eauto.
Qed.

(** [checkLevelUp] only writes the player's level and experience and, when
    a level was gained, the four multipliers. *)
Lemma checkLevelUp_frame (fuel : nat) (g g' : GameCore) (n : Z) :
  checkLevelUp fuel g = Done (g', n) ->
  g' = at_level (level (player g')) (exp (player g')) g \/
  g' = updateLuckMult (at_level (level (player g')) (exp (player g')) g).
Proof.
  unfold checkLevelUp. destruct (checkLevelUp_while fuel g 0) as [[g1 n1]| |] eqn:Hw; try discriminate.
  cbn. apply while_levels_up in Hw as [_ Hg1].
  destruct (0 <? n1); intros [= <- <-].
  - right. rewrite Hg1 at 1. reflexivity.
  - left. exact Hg1.
Qed.

End Levelling.

Section Awards.
Context {M : JSMath}.

Lemma requiredExp_le_square (lvl : Z) : 1 <= lvl -> requiredExp lvl <= 100 * (lvl * lvl).
Proof.
  intros Hl. unfold requiredExp, Math_floor.
  rewrite <- (Qfloor_Z (100 * (lvl * lvl))). apply Qfloor_resp_le.
  assert (H1 : (1 <= inject_Z lvl)%Q)
    by (change 1%Q with (inject_Z 1); rewrite <- Zle_Qle; exact Hl).
  pose proof (Math_pow_le_square (inject_Z lvl) 1.05 H1 ltac:(lra) ltac:(lra)) as Hp.
  rewrite !inject_Z_mult. change (inject_Z 100) with 100%Q. lra.
Qed.

Lemma levels_up_exp_le (L : Z) (e : Q) (L' : Z) (e' : Q) (n : Z) :
  levels_up L e L' e' n -> 1 <= L -> (e' <= e)%Q.
Proof.
  induction 1 as [L e Hlt | L e L' e' n Hle _ IH]; intros HL; [lra|].
  specialize (IH ltac:(lia)).
  pose proof (requiredExp_ge_100 L HL) as Hreq. rewrite Zle_Qle in Hreq.
  change (inject_Z 100) with 100%Q in Hreq. lra.
Qed.

Lemma levelup_fuel_mono (g : GameCore) (x y : Q) :
  (x <= y)%Q -> (levelup_fuel (set_exp x g) <= levelup_fuel (set_exp y g))%nat.
Proof.
  intros Hxy. unfold levelup_fuel. cbn [exp player set_exp set_player].
  pose proof (Qfloor_resp_le _ _ Hxy). lia.
Qed.

Lemma addExperience_run (g : GameCore) (amount : Q) (fuel : nat) :
  1 <= level (player g) ->
  (levelup_fuel (set_exp (exp (player g) + amount) g) <= fuel)%nat ->
  exists (g' : GameCore) (n : Z),
    addExperience fuel g amount = Done (g', n) /\
    levels_up (level (player g)) (exp (player g) + amount)
      (level (player g')) (exp (player g')) n.
Proof.
  intros Hl Hfuel. unfold addExperience.
  destruct (checkLevelUp_terminates fuel (set_exp (exp (player g) + amount) g) Hl Hfuel)
    as (g' & n & Hrun).
  exists g', n. split; [exact Hrun|].
  apply checkLevelUp_levels_up in Hrun. exact Hrun.
Qed.

(** C5: with enough fuel an award returns, and it leaves the experience
    strictly below [requiredExp] of the level reached, which is the old
    level plus the levels gained; an award of 1,000,000 at level 1 with no
    experience gains more than one level and ends below the requirement of
    the final level. *)
Theorem C5_experience_below_requirement :
  (forall (g : GameCore) (amount : Q) (fuel : nat),
      1 <= level (player g) ->
      (levelup_fuel (set_exp (exp (player g) + amount) g) <= fuel)%nat ->
      exists (g' : GameCore) (n : Z),
        addExperience fuel g amount = Done (g', n) /\
        (exp (player g') < inject_Z (requiredExp (level (player g'))))%Q /\
        level (player g') = level (player g) + n /\ 0 <= n) /\
  (forall (g : GameCore) (fuel : nat),
      level (player g) = 1 -> (exp (player g) == 0)%Q ->
      (levelup_fuel (set_exp (exp (player g) + 1000000) g) <= fuel)%nat ->
      exists (g' : GameCore) (n : Z),
        addExperience fuel g 1000000 = Done (g', n) /\
        1 < n /\
        (exp (player g') < inject_Z (requiredExp (level (player g'))))%Q).
Proof.
  split.
  - intros g amount fuel Hl Hfuel.
    destruct (addExperience_run g amount fuel Hl Hfuel) as (g' & n & Hrun & Hlu).
    exists g', n. split; [exact Hrun|].
    pose proof (levels_up_facts _ _ _ _ _ Hlu) as (Hn & HL & He). auto.
  - intros g fuel Hl He0 Hfuel.
    destruct (addExperience_run g 1000000 fuel ltac:(lia) Hfuel) as (g' & n & Hrun & Hlu).
    exists g', n. split; [exact Hrun|].
    pose proof (levels_up_facts _ _ _ _ _ Hlu) as (Hn & HL & He). split; [|exact He].
    rewrite Hl in Hlu.
    pose proof (requiredExp_le_square 1 ltac:(lia)) as H1.
    pose proof (requiredExp_le_square 2 ltac:(lia)) as H2.
    pose proof (requiredExp_ge_100 1 ltac:(lia)) as G1.
    rewrite Zle_Qle in H1, H2, G1.
    change (inject_Z (100 * (1 * 1))) with 100%Q in H1.
    change (inject_Z (100 * (2 * 2))) with 400%Q in H2.
    change (inject_Z 100) with 100%Q in G1.
    inversion Hlu as [L0 e0 Hstop | L0 e0 L0' e0' n0 Hge Hrest]; subst; [lra|].
    inversion Hrest as [L1 e1 Hstop | L1 e1 L1' e1' n1 Hge1 Hrest1]; subst.
    + change (1 + 1) with 2 in Hstop. lra.
    + pose proof (levels_up_facts _ _ _ _ _ Hrest1) as (Hn1 & _ & _). lia.
Qed.

End Awards.

Lemma new_GameCore_player {M : JSMath} (name : string) :
  player (new_GameCore name) = {| level := 1; exp := 0; equipped := None |}.
Proof. reflexivity. Qed.

(** A fresh game receives 250 experience; a fresh game receives 1,000,000. *)
Lemma C5_witness :
  let g := @new_GameCore approxMath "player" in
  let fuel := levelup_fuel (set_exp (exp (player g) + 250) g) in
  let fuel' := levelup_fuel (set_exp (exp (player g) + 1000000) g) in
  (1 <= level (player g) /\
   exists (g' : GameCore) (n : Z),
     addExperience fuel g 250 = Done (g', n) /\
     (exp (player g') < inject_Z (requiredExp (level (player g'))))%Q /\
     level (player g') = level (player g) + n /\ 0 <= n) /\
  (level (player g) = 1 /\ (exp (player g) == 0)%Q /\
   exists (g' : GameCore) (n : Z),
     addExperience fuel' g 1000000 = Done (g', n) /\
     1 < n /\
     (exp (player g') < inject_Z (requiredExp (level (player g'))))%Q).
Proof.
  intros g fuel fuel'.
  assert (Hl : level (player g) = 1) by (unfold g; rewrite new_GameCore_player; reflexivity).
  assert (He : (exp (player g) == 0)%Q) by (unfold g; rewrite new_GameCore_player; reflexivity).
  destruct (@C5_experience_below_requirement approxMath) as [Hany Hmillion].
  split.
  - split; [lia|]. apply (Hany g 250%Q fuel ltac:(lia) (le_n _)).
  - split; [exact Hl|]. split; [exact He|]. apply (Hmillion g fuel' Hl He (le_n _)).
Defined.


(* ================================================================== *)
(** * Experience in double arithmetic *)
(* ================================================================== *)

(** The numbers of the source are IEEE 754 doubles, and an addition whose
    exact result is no double is rounded.  This module has the rounding and
    the levelling of [checkLevelUp] with it. *)
Module Double.

(** [2^k] for an exponent of either sign. *)
Definition pow2 (k : Z) : Q :=
  if 0 <=? k then inject_Z (2 ^ k) else (/ inject_Z (2 ^ (- k)))%Q.

(** [floor(log2(q))] for a positive [q]. *)
Definition ilog2 (q : Q) : Z :=
  let k := Z.log2 (Qnum q) - Z.log2 (Zpos (Qden q)) in
  if Qle_bool (pow2 k) q then k else k - 1.

(** The nearest integer, a tie going to the even one. *)
Definition round_half_even (q : Q) : Z :=
  let f := Qfloor q in
  let r := (q - inject_Z f)%Q in
  if Qltb r 0.5 then f
  else if Qltb 0.5 r then f + 1
  else if Z.even f then f else f + 1.

(** The double nearest to [q], a tie going to the even significand: 53
    significant bits, exponents from [-1074], and an infinity from [2^1024]
    on.  (The sign of a zero is not modelled.) *)
Definition fl (q : Q) : jsnum :=
  let q := Qred q in
  if Qnum q =? 0 then Fin 0
  else
    let a := (if 0 <? Qnum q then q else - q)%Q in
    let e := Z.max (ilog2 a - 52) (-1074) in
    let m := round_half_even (a / pow2 e) in
    let v := (inject_Z m * pow2 e)%Q in
    if Qle_bool (pow2 1024) v then (if 0 <? Qnum q then PosInf else NegInf)
    else Fin (Qred (if 0 <? Qnum q then v else - v)).

(** [x + y] and [x - y] on doubles. *)
Definition add (x y : jsnum) : jsnum :=
  match x, y with
  | Fin a, Fin b => fl (a + b)
  | NaN, _ | _, NaN => NaN
  | PosInf, NegInf | NegInf, PosInf => NaN
  | PosInf, _ | _, PosInf => PosInf
  | NegInf, _ | _, NegInf => NegInf
  end.

Definition sub (x y : jsnum) : jsnum :=
  match x, y with
  | Fin a, Fin b => fl (a - b)
  | NaN, _ | _, NaN => NaN
  | PosInf, PosInf | NegInf, NegInf => NaN
  | PosInf, _ | _, NegInf => PosInf
  | NegInf, _ | _, PosInf => NegInf
  end.

(** [x >= n] for an integer [n]; every comparison with [NaN] is false. *)
Definition ge (x : jsnum) (n : Z) : bool :=
  match x with
  | Fin a => Qleb (inject_Z n) a
  | PosInf => true
  | NegInf | NaN => false
  end.

Section Levelling.
Context {M : JSMath}.

(** The [while] loop of [checkLevelUp] on the level and the experience of
    the player. *)
Fixpoint checkLevelUp_while (fuel : nat) (level : Z) (exp : jsnum) (levelsGained : Z)
  : result (Z * jsnum * Z) :=
  match fuel with
  | O => OutOfFuel
  | S fuel' =>
      if ge exp (requiredExp level) then
        let exp := sub exp (Fin (inject_Z (requiredExp level))) in
        let level := level + 1 in
        checkLevelUp_while fuel' level exp (levelsGained + 1)
      else Done (level, exp, levelsGained)
  end.

(** Check for level up: the level, the experience and the levels gained.
    The call of [updateLuckMult] that follows a level-up sets the
    multipliers and leaves the level and the experience. *)
Definition checkLevelUp (fuel : nat) (level : Z) (exp : jsnum) : result (Z * jsnum * Z) :=
  checkLevelUp_while fuel level exp 0.

(** [this.player.exp += amount; this.checkLevelUp()]. *)
Definition addExperience (fuel : nat) (level : Z) (exp amount : jsnum)
  : result (Z * jsnum * Z) :=
  checkLevelUp fuel level (add exp amount).

End Levelling.

Lemma pow2_neg (k : Z) : 0 <= k -> (pow2 (- k) == / inject_Z (2 ^ k))%Q.
Proof.
  intros Hk. unfold pow2. destruct (Z.leb_spec 0 (- k)) as [H0|_].
  - replace k with 0 by lia. reflexivity.
  - rewrite Z.opp_involutive. reflexivity.
Qed.

Lemma round_half_even_integer (q : Q) (n : Z) :
  (q == inject_Z n)%Q -> round_half_even q = n.
Proof.
  intros Hq. unfold round_half_even.
  assert (Hf : Qfloor q = n) by (rewrite Hq; apply Qfloor_Z).
  rewrite Hf.
  assert (Hr : Qltb (q - inject_Z n) 0.5 = true) by (apply Qltb_true; rewrite Hq; lra).
  rewrite Hr. reflexivity.
Qed.

Lemma Qred_inject_Z (z : Z) : Qred (inject_Z z) = inject_Z z.
Proof.
  unfold Qred, inject_Z.
  pose proof (Z.ggcd_gcd z 1) as Hg. pose proof (Z.ggcd_correct_divisors z 1) as Hd.
  destruct (Z.ggcd z 1) as [g [aa bb]]. cbn [fst snd] in *.
  rewrite Z.gcd_1_r in Hg. subst g. destruct Hd as [Ha Hb].
  rewrite Z.mul_1_l in Ha, Hb. subst aa bb. reflexivity.
Qed.

(** An integer below [2^53] is a double: rounding leaves it. *)
Lemma fl_integer (z : Z) (q : Q) :
  0 <= z < 2 ^ 53 -> (q == inject_Z z)%Q -> fl q = Fin (inject_Z z).
Proof.
  intros [Hz0 Hz53] Hq. unfold fl.
  rewrite (Qred_complete _ _ Hq), Qred_inject_Z. cbn [Qnum inject_Z].
  destruct (Z.eqb_spec z 0) as [->|Hne]; [reflexivity|].
  destruct (Z.ltb_spec 0 z) as [Hpos|]; [|lia].
  assert (Hlog : 0 <= Z.log2 z <= 52).
  { split; [apply Z.log2_nonneg|].
    assert (Z.log2 z < 53); [|lia]. apply Z.log2_lt_pow2; lia. }
  assert (Hspec : 2 ^ Z.log2 z <= z) by (apply Z.log2_spec; lia).
  assert (Hil : ilog2 (z # 1) = Z.log2 z).
  { unfold ilog2. cbn [Qnum Qden]. change (Z.log2 1) with 0. rewrite Z.sub_0_r.
    assert (Hle : Qle_bool (pow2 (Z.log2 z)) (z # 1) = true).
    { apply Qle_bool_iff. unfold pow2.
      destruct (Z.leb_spec 0 (Z.log2 z)); [|lia].
      change (z # 1) with (inject_Z z). rewrite <- Zle_Qle. exact Hspec. }
    rewrite Hle. reflexivity. }
  change (inject_Z z) with (z # 1). rewrite Hil.
  set (k := 52 - Z.log2 z).
  replace (Z.max (Z.log2 z - 52) (-1074)) with (- k) by (unfold k; lia).
  assert (Hk : 0 <= k) by (unfold k; lia).
  assert (H2k : 0 < 2 ^ k) by (apply Z.pow_pos_nonneg; lia).
  assert (Hq2k : ~ (inject_Z (2 ^ k) == 0)%Q).
  { intros E. unfold Qeq in E. cbn in E. lia. }
  assert (Hm : round_half_even ((z # 1) / pow2 (- k)) = z * 2 ^ k).
  { apply round_half_even_integer. rewrite (pow2_neg k Hk), inject_Z_mult.
    change (z # 1) with (inject_Z z). field. exact Hq2k. }
  rewrite Hm.
  assert (Hv : (inject_Z (z * 2 ^ k) * pow2 (- k) == inject_Z z)%Q).
  { rewrite (pow2_neg k Hk), inject_Z_mult. field. exact Hq2k. }
  assert (Hfin : Qle_bool (pow2 1024) (inject_Z (z * 2 ^ k) * pow2 (- k)) = false).
  { apply Bool.not_true_iff_false. rewrite Qle_bool_iff, Hv. unfold pow2.
    change (0 <=? 1024) with true. cbv iota. rewrite <- Zle_Qle.
    assert (2 ^ 53 < 2 ^ 1024) by (apply Z.pow_lt_mono_r; lia). lia. }
  rewrite Hfin. f_equal. rewrite (Qred_complete _ _ Hv). apply Qred_inject_Z.
Qed.

Section Integers.
Context {M : JSMath}.

(** On an integer experience below [2^53] no step of the loop rounds, and
    the loop is the one of exact arithmetic. *)
Lemma checkLevelUp_while_integer (fuel : nat) :
  forall (L z n0 : Z),
    1 <= L -> 0 <= z < 2 ^ 53 -> (Z.to_nat z < fuel)%nat ->
    exists (L' z' n' : Z) (e' : Q),
      checkLevelUp_while fuel L (Fin (inject_Z z)) n0 = Done (L', Fin (inject_Z z'), n0 + n') /\
      0 <= z' <= z /\ (e' == inject_Z z')%Q /\
      levels_up L (inject_Z z) L' e' n'.
Proof.
  induction fuel as [|fuel IH]; intros L z n0 HL Hz Hfuel; [lia|].
  cbn [checkLevelUp_while ge].
  pose proof (requiredExp_ge_100 L HL) as Hreq.
  destruct (Qleb (inject_Z (requiredExp L)) (inject_Z z)) eqn:Hc.
  - apply Qleb_true in Hc. rewrite <- Zle_Qle in Hc.
    cbn [sub].
    assert (Hrange : 0 <= z - requiredExp L < 2 ^ 53).
    { revert Hreq Hc. generalize (requiredExp L). intros r Hr Hrz. lia. }
    assert (Hless : (Z.to_nat (z - requiredExp L) < fuel)%nat).
    { revert Hreq Hc. generalize (requiredExp L). intros r Hr Hrz. lia. }
    destruct (IH (L + 1) (z - requiredExp L) (n0 + 1) ltac:(lia) Hrange Hless)
      as (L' & z' & n' & e' & Hrun & Hz' & He' & Hlu).
    rewrite (fl_integer (z - requiredExp L));
      [|exact Hrange|rewrite inject_Z_minus; reflexivity].
    destruct (levels_up_compat _ _ _ _ _ Hlu (inject_Z z - inject_Z (requiredExp L))%Q)
      as (x' & Hx' & Hlu'); [rewrite inject_Z_minus; reflexivity|].
    exists L', z', (n' + 1), x'. split; [rewrite Hrun; do 2 f_equal; lia|].
    split; [revert Hreq Hc Hz'; generalize (requiredExp L); intros r Hr Hrz Hz'; lia|]. split; [rewrite Hx'; exact He'|].
    apply levels_up_step; [rewrite <- Zle_Qle; exact Hc | exact Hlu'].
  - apply Qleb_false in Hc.
    exists L, z, 0, (inject_Z z). split; [rewrite Z.add_0_r; reflexivity|].
    split; [lia|]. split; [reflexivity|]. apply levels_up_stop. exact Hc.
Qed.

Lemma addExperience_integer (fuel : nat) (L z a : Z) :
  1 <= L -> 0 <= z -> 0 <= a -> z + a < 2 ^ 53 -> (Z.to_nat (z + a) < fuel)%nat ->
  exists (L' z' n' : Z) (e' : Q),
    addExperience fuel L (Fin (inject_Z z)) (Fin (inject_Z a)) = Done (L', Fin (inject_Z z'), n') /\
    0 <= z' <= z + a /\ (e' == inject_Z z')%Q /\
    levels_up L (inject_Z z + inject_Z a) L' e' n'.
Proof.
  intros HL Hz Ha Hsum Hfuel. unfold addExperience, checkLevelUp. cbn [add].
  rewrite (fl_integer (z + a)); [|lia|rewrite inject_Z_plus; reflexivity].
  destruct (checkLevelUp_while_integer fuel L (z + a) 0 HL ltac:(lia) Hfuel)
    as (L' & z' & n' & e' & Hrun & Hz' & He' & Hlu).
  destruct (levels_up_compat _ _ _ _ _ Hlu (inject_Z z + inject_Z a)%Q)
    as (x' & Hx' & Hlu'); [rewrite inject_Z_plus; reflexivity|].
  exists L', z', n', x'. split; [exact Hrun|]. split; [exact Hz'|].
  split; [rewrite Hx'; exact He' | exact Hlu'].
Qed.

End Integers.
End Double.

Section AwardsInDoubles.
Context {M : JSMath}.

(** C6, as the code has it: the experience is a double and [exp += amount]
    is a rounded addition, so the claim holds where the additions are
    exact.  From a level of at least 1 and an experience that is a
    non-negative integer, an award of [a] and then one of [b], both
    non-negative integers with the total below [2^53], each with its
    level-up resolution, end at the same level and the same experience as
    the one award of [a + b], and the levels gained add up. *)
Theorem C6_two_integer_awards_equal_one (level exp a b : Z) (fuel : nat) :
  1 <= level -> 0 <= exp -> 0 <= a -> 0 <= b ->
  exp + a + b < 2 ^ 53 ->
  (Z.to_nat (exp + a + b) < fuel)%nat ->
  exists (level1 : Z) (exp1 : jsnum) (n1 level2 : Z) (exp2 : jsnum) (n2 n12 : Z),
    Double.addExperience fuel level (Fin (inject_Z exp)) (Fin (inject_Z a))
      = Done (level1, exp1, n1) /\
    Double.addExperience fuel level1 exp1 (Fin (inject_Z b)) = Done (level2, exp2, n2) /\
    Double.addExperience fuel level (Fin (inject_Z exp))
      (Double.add (Fin (inject_Z a)) (Fin (inject_Z b))) = Done (level2, exp2, n12) /\
    n1 + n2 = n12.
Proof.
  intros HL He Ha Hb Hsum Hfuel.
  destruct (Double.addExperience_integer fuel level exp a HL He Ha ltac:(lia) ltac:(lia))
    as (L1 & z1 & n1 & x1 & Hrun1 & Hz1 & Hx1 & Hlu1).
  pose proof (levels_up_facts _ _ _ _ _ Hlu1) as (Hn1 & HL1 & _).
  destruct (Double.addExperience_integer fuel L1 z1 b ltac:(lia) ltac:(lia) Hb
              ltac:(lia) ltac:(lia))
    as (L2 & z2 & n2 & x2 & Hrun2 & Hz2 & Hx2 & Hlu2).
  assert (Hab : Double.add (Fin (inject_Z a)) (Fin (inject_Z b)) = Fin (inject_Z (a + b))).
  { cbn [Double.add]. apply Double.fl_integer; [lia | rewrite inject_Z_plus; reflexivity]. }
  destruct (Double.addExperience_integer fuel level exp (a + b) HL He ltac:(lia)
              ltac:(lia) ltac:(replace (exp + (a + b)) with (exp + a + b) by lia; exact Hfuel))
    as (L12 & z12 & n12 & x12 & Hrun12 & Hz12 & Hx12 & Hlu12).
  assert (Hb0 : (0 <= inject_Z b)%Q) by (change 0%Q with (inject_Z 0); rewrite <- Zle_Qle; exact Hb).
  destruct (levels_up_compat _ _ _ _ _ Hlu2 (x1 + inject_Z b)%Q) as (y2 & Hy2 & Hlu2');
    [rewrite Hx1; reflexivity|].
  destruct (levels_up_add _ _ _ _ _ Hlu1 _ _ _ _ Hb0 Hlu2') as (y & Hy & Hboth).
  destruct (levels_up_det _ _ _ _ _ Hboth (inject_Z exp + inject_Z (a + b))%Q _ _ _
              ltac:(rewrite inject_Z_plus; ring) Hlu12) as (HLeq & Heq & Hneq).
  assert (Hzeq : z2 = z12).
  { assert (E : (inject_Z z2 == inject_Z z12)%Q).
    { rewrite <- Hx2, <- Hy2, <- Hy, Heq. exact Hx12. }
    unfold Qeq in E. cbn in E. lia. }
  exists L1, (Fin (inject_Z z1)), n1, L2, (Fin (inject_Z z2)), n2, n12.
  split; [exact Hrun1|]. split; [exact Hrun2|].
  split; [rewrite Hab, Hrun12, HLeq, Hzeq; reflexivity | exact Hneq].
Qed.

End AwardsInDoubles.

(** A fresh player receives 150 and then 400 experience. *)
Lemma C6_witness :
  1 <= 1 /\ 0 <= 0 /\ 0 <= 150 /\ 0 <= 400 /\ 0 + 150 + 400 < 2 ^ 53 /\
  exists (level1 : Z) (exp1 : jsnum) (n1 level2 : Z) (exp2 : jsnum) (n2 n12 : Z),
    @Double.addExperience approxMath 551 1 (Fin (inject_Z 0)) (Fin (inject_Z 150))
      = Done (level1, exp1, n1) /\
    @Double.addExperience approxMath 551 level1 exp1 (Fin (inject_Z 400))
      = Done (level2, exp2, n2) /\
    @Double.addExperience approxMath 551 1 (Fin (inject_Z 0))
      (Double.add (Fin (inject_Z 150)) (Fin (inject_Z 400))) = Done (level2, exp2, n12) /\
    n1 + n2 = n12.
Proof.
  assert (H53 : 0 + 150 + 400 < 2 ^ 53) by (vm_compute; reflexivity).
  split; [lia|]. split; [lia|]. split; [lia|]. split; [lia|]. split; [exact H53|].
  apply (@C6_two_integer_awards_equal_one approxMath 1 0 150 400 551%nat);
    [lia | lia | lia | lia | exact H53 | vm_compute; lia].
Defined.

(** From level 1 with the experience 16.4, the awards 47.8 and then 35.8
    leave the player at level 1 with 99.99999999999999, where the one award
    of 47.8 + 35.8 brings level 2 with experience 0: the two additions round
    below 100 and the one addition gives 100. *)
Lemma C6_counterexample :
  exists (exp1 : jsnum),
    @Double.addExperience approxMath 10 1 (Double.fl 16.4) (Double.fl 47.8)
      = Done (1, exp1, 0) /\
    @Double.addExperience approxMath 10 1 exp1 (Double.fl 35.8)
      = Done (1, Fin (7036874417766399 # 70368744177664), 0) /\
    @Double.addExperience approxMath 10 1 (Double.fl 16.4)
      (Double.add (Double.fl 47.8) (Double.fl 35.8)) = Done (2, Fin 0, 1) /\
    (7036874417766399 # 70368744177664 < 100)%Q.
Proof.
  eexists.
  split; [vm_compute; reflexivity|]. split; [vm_compute; reflexivity|].
  split; vm_compute; reflexivity.
Qed.

(* ================================================================== *)
(** * Upgrades *)
(* ================================================================== *)

Section Upgrades.
Context {M : JSMath}.

(** The cost of one level as each method writes it. *)
Definition moldUnitCost (lvl : Z) : Z := Math_round (Math_pow (inject_Z lvl) 1.9) + 3.
Definition luckUnitCost (lvl : Z) : Z := Math_round (Math_pow (inject_Z lvl) 2.1) + 4.
Definition luckRecalculatedCost (lvl : Z) : Z := Math_round (Math_pow (inject_Z lvl) 2.4) + 5.

Lemma upgradeMold_total_acc (n : nat) (acc lvl : Z) :
  upgradeMold_total n acc lvl = acc + upgradeMold_total n 0 lvl.
Proof.
  revert acc lvl. induction n as [|n IH]; intros acc lvl; cbn [upgradeMold_total]; [lia|].
  rewrite (IH (acc + _)), (IH (0 + _)). lia.
Qed.

Lemma upgradeLuck_total_acc (n : nat) (acc lvl : Z) :
  upgradeLuck_total n acc lvl = acc + upgradeLuck_total n 0 lvl.
Proof.
  revert acc lvl. induction n as [|n IH]; intros acc lvl; cbn [upgradeLuck_total]; [lia|].
  rewrite (IH (acc + _)), (IH (0 + _)). lia.
Qed.

Lemma upgradeMold_total_S (n : nat) (lvl : Z) :
  upgradeMold_total (S n) 0 lvl = moldUnitCost lvl + upgradeMold_total n 0 (lvl + 1).
Proof. cbn [upgradeMold_total]. rewrite upgradeMold_total_acc. unfold moldUnitCost. ring. Qed.

Lemma upgradeLuck_total_S (n : nat) (lvl : Z) :
  upgradeLuck_total (S n) 0 lvl = luckUnitCost lvl + upgradeLuck_total n 0 (lvl + 1).
Proof. cbn [upgradeLuck_total]. rewrite upgradeLuck_total_acc. unfold luckUnitCost. ring. Qed.

(** The total of three levels is [cost(L) + cost(L+1) + cost(L+2)]. *)
Lemma upgradeMold_total_3 (lvl : Z) :
  upgradeMold_total 3 0 lvl = moldUnitCost lvl + moldUnitCost (lvl + 1) + moldUnitCost (lvl + 2).
Proof. cbn [upgradeMold_total]. unfold moldUnitCost. replace (lvl + 1 + 1) with (lvl + 2) by lia. ring. Qed.

Lemma upgradeLuck_total_3 (lvl : Z) :
  upgradeLuck_total 3 0 lvl = luckUnitCost lvl + luckUnitCost (lvl + 1) + luckUnitCost (lvl + 2).
Proof. cbn [upgradeLuck_total]. unfold luckUnitCost. replace (lvl + 1 + 1) with (lvl + 2) by lia. ring. Qed.

(** The purchase loops charge the stored cost first and the costs of the
    next levels after it. *)
Lemma upgradeMold_buy_spec (n : nat) :
  forall g : GameCore,
    (money (upgradeMold_buy (S n) g) ==
       money g - inject_Z (mold_cost g + upgradeMold_total n 0 (mold_level g + 1)))%Q /\
    mold_level (upgradeMold_buy (S n) g) = mold_level g + Z.of_nat (S n) /\
    mold_cost (upgradeMold_buy (S n) g) = moldUnitCost (mold_level g + Z.of_nat (S n)).
Proof.
  induction n as [|n IH]; intros g.
  - cbn [upgradeMold_buy money mold_level mold_cost set_mold_cost set_money set_mold_level
           upgradeMold_total].
    rewrite Z.add_0_r. split; [reflexivity|]. split; reflexivity.
  - change (upgradeMold_buy (S (S n)) g) with
      (upgradeMold_buy (S n)
         (set_mold_cost (moldUnitCost (mold_level g + 1))
            (set_money (money g - inject_Z (mold_cost g))
               (set_mold_level (mold_level g + 1) g)))).
    destruct (IH (set_mold_cost (moldUnitCost (mold_level g + 1))
                    (set_money (money g - inject_Z (mold_cost g))
                       (set_mold_level (mold_level g + 1) g)))) as (Hm & Hl & Hc).
    cbn [money mold_cost mold_level set_mold_cost set_money set_mold_level] in Hm, Hl, Hc.
    rewrite Hm, Hl, Hc, upgradeMold_total_S.
    repeat split.
    + rewrite !inject_Z_plus. ring.
    + lia.
    + f_equal. lia.
Qed.

Lemma upgradeLuck_buy_spec (n : nat) :
  forall g : GameCore,
    (money (upgradeLuck_buy (S n) g) ==
       money g - inject_Z (luck_cost g + upgradeLuck_total n 0 (luck_level g + 1)))%Q /\
    luck_level (upgradeLuck_buy (S n) g) = luck_level g + Z.of_nat (S n) /\
    luck_cost (upgradeLuck_buy (S n) g) = luckUnitCost (luck_level g + Z.of_nat (S n)).
Proof.
  induction n as [|n IH]; intros g.
  - cbn [upgradeLuck_buy money luck_level luck_cost set_luck_cost set_money set_luck_level
           upgradeLuck_total].
    rewrite Z.add_0_r. split; [reflexivity|]. split; reflexivity.
  - change (upgradeLuck_buy (S (S n)) g) with
      (upgradeLuck_buy (S n)
         (set_luck_cost (luckUnitCost (luck_level g + 1))
            (set_money (money g - inject_Z (luck_cost g))
               (set_luck_level (luck_level g + 1) g)))).
    destruct (IH (set_luck_cost (luckUnitCost (luck_level g + 1))
                    (set_money (money g - inject_Z (luck_cost g))
                       (set_luck_level (luck_level g + 1) g)))) as (Hm & Hl & Hc).
    cbn [money luck_cost luck_level set_luck_cost set_money set_luck_level] in Hm, Hl, Hc.
    rewrite Hm, Hl, Hc, upgradeLuck_total_S.
    repeat split.
    + rewrite !inject_Z_plus. ring.
    + lia.
    + f_equal. lia.
Qed.

Lemma updateLuckMult_money (g : GameCore) : money (updateLuckMult g) = money g.
Proof. reflexivity. Qed.

(** What a purchase that goes through does to the money. *)
Lemma upgradeMold_success (g : GameCore) (amount : Z) :
  success (snd (upgradeMold g amount)) = true ->
  1 <= amount /\
  (inject_Z (upgradeMold_total (Z.to_nat amount) 0 (mold_level g)) <= money g)%Q /\
  (money (fst (upgradeMold g amount)) ==
     money g - inject_Z (mold_cost g +
                         upgradeMold_total (Z.to_nat amount - 1) 0 (mold_level g + 1)))%Q.
Proof.
  unfold upgradeMold. destruct (Z.leb_spec amount 0) as [|Hpos]; [discriminate|].
  destruct (Qltb _ _) eqn:Hlt; [discriminate|]. intros _.
  apply Qltb_false in Hlt. split; [lia|]. split; [exact Hlt|].
  cbn [fst]. rewrite updateLuckMult_money.
  destruct (Z.to_nat amount) as [|n] eqn:Hn; [lia|].
  destruct (upgradeMold_buy_spec n g) as (Hm & _ & _).
  rewrite Hm. replace (S n - 1)%nat with n by lia. reflexivity.
Qed.

Lemma upgradeLuck_success (g : GameCore) (amount : Z) :
  success (snd (upgradeLuck g amount)) = true ->
  1 <= amount /\
  (inject_Z (upgradeLuck_total (Z.to_nat amount) 0 (luck_level g)) <= money g)%Q /\
  (money (fst (upgradeLuck g amount)) ==
     money g - inject_Z (luck_cost g +
                         upgradeLuck_total (Z.to_nat amount - 1) 0 (luck_level g + 1)))%Q.
Proof.
  unfold upgradeLuck. destruct (Z.leb_spec amount 0) as [|Hpos]; [discriminate|].
  destruct (Qltb _ _) eqn:Hlt; [discriminate|]. intros _.
  apply Qltb_false in Hlt. split; [lia|]. split; [exact Hlt|].
  cbn [fst]. rewrite updateLuckMult_money.
  destruct (Z.to_nat amount) as [|n] eqn:Hn; [lia|].
  destruct (upgradeLuck_buy_spec n g) as (Hm & _ & _).
  rewrite Hm. replace (S n - 1)%nat with n by lia. reflexivity.
Qed.

(** The mold track: when the stored cost is the cost of the current level,
    as [recalculate] and [upgradeMold] leave it, a purchase of [amount]
    levels deducts [cost(L) + ... + cost(L + amount - 1)]. *)
Lemma upgradeMold_charges_total (g : GameCore) (amount : Z) :
  mold_cost g = moldUnitCost (mold_level g) ->
  success (snd (upgradeMold g amount)) = true ->
  (money (fst (upgradeMold g amount)) ==
     money g - inject_Z (upgradeMold_total (Z.to_nat amount) 0 (mold_level g)))%Q.
Proof.
  intros Hcost Hs. destruct (upgradeMold_success g amount Hs) as (Ha & _ & Hm).
  rewrite Hm, Hcost.
  replace (Z.to_nat amount) with (S (Z.to_nat amount - 1)) at 2 by lia.
  rewrite upgradeMold_total_S. reflexivity.
Qed.

Lemma recalculate_costs (g : GameCore) :
  mold_cost (recalculate g) = moldUnitCost (mold_level g) /\
  luck_cost (recalculate g) = luckRecalculatedCost (luck_level g) /\
  mold_level (recalculate g) = mold_level g /\
  luck_level (recalculate g) = luck_level g /\
  money (recalculate g) = money g.
Proof. repeat split. Qed.

End Upgrades.

Section Refusals.
Context {M : JSMath}.

(** A call that reports a failure returns the object it was given. *)
Lemma upgradeMold_failure (g : GameCore) (amount : Z) :
  success (snd (upgradeMold g amount)) = false -> fst (upgradeMold g amount) = g.
Proof.
  unfold upgradeMold. destruct (amount <=? 0); [reflexivity|].
  destruct (Qltb _ _); [reflexivity | discriminate].
Qed.

Lemma upgradeLuck_failure (g : GameCore) (amount : Z) :
  success (snd (upgradeLuck g amount)) = false -> fst (upgradeLuck g amount) = g.
Proof.
  unfold upgradeLuck. destruct (amount <=? 0); [reflexivity|].
  destruct (Qltb _ _); [reflexivity | discriminate].
Qed.

(** What the purchase loops deduct for [amount] levels: the stored cost for
    the first level and the formula of the track for the levels after it. *)
Definition moldCharge (g : GameCore) (amount : Z) : Z :=
  mold_cost g + upgradeMold_total (Z.to_nat amount - 1) 0 (mold_level g + 1).
Definition luckCharge (g : GameCore) (amount : Z) : Z :=
  luck_cost g + upgradeLuck_total (Z.to_nat amount - 1) 0 (luck_level g + 1).

Lemma moldCharge_total (g : GameCore) (amount : Z) :
  mold_cost g = moldUnitCost (mold_level g) -> 1 <= amount ->
  moldCharge g amount = upgradeMold_total (Z.to_nat amount) 0 (mold_level g).
Proof.
  intros Hcost Ha. unfold moldCharge. rewrite Hcost.
  replace (Z.to_nat amount) with (S (Z.to_nat amount - 1)) at 2 by lia.
  rewrite upgradeMold_total_S. reflexivity.
Qed.

Lemma upgradeLuck_success_level (g : GameCore) (amount : Z) :
  success (snd (upgradeLuck g amount)) = true ->
  luck_level (fst (upgradeLuck g amount)) = luck_level g + amount.
Proof.
  unfold upgradeLuck. destruct (Z.leb_spec amount 0) as [|Hpos]; [discriminate|].
  destruct (Qltb _ _); [discriminate|]. intros _. cbn [fst].
  unfold updateLuckMult. cbn [luck_level set_multipliers].
  destruct (Z.to_nat amount) as [|n] eqn:Hn; [lia|].
  destruct (upgradeLuck_buy_spec n g) as (_ & -> & _). lia.
Qed.

(** The guard of [upgradeLuck] compares the money with its own sum. *)
Lemma upgradeLuck_guard (g : GameCore) (amount : Z) :
  1 <= amount ->
  (inject_Z (upgradeLuck_total (Z.to_nat amount) 0 (luck_level g)) <= money g)%Q ->
  success (snd (upgradeLuck g amount)) = true.
Proof.
  intros Ha Hrich. unfold upgradeLuck. destruct (Z.leb_spec amount 0); [lia|].
  apply Qltb_false in Hrich. rewrite Hrich. reflexivity.
Qed.

End Refusals.

(** C8: both methods refuse a count that is not positive, and a call that
    reports a failure returns the object as it was.  On the mold track,
    where the stored cost is the cost of the current level, a purchase whose
    charge exceeds the money is refused.  On the luck track the guard adds
    up [round(L^2.1) + 4] while the loop deducts the stored [luck_cost]
    first, which the constructor sets to [round(L^2.4) + 5]: in a fresh game
    with at least 5 and less than 6 money, one luck level is charged 6, the
    call reports success, the luck level is 2 and the money is negative;
    with 27 money three levels are charged 28. *)
Theorem C8_upgradeLuck_sells_above_the_money :
  (forall (M : JSMath) (g : GameCore) (amount : Z),
      amount <= 0 ->
      upgradeMold g amount = (g, mkUpgradeResult false "Invalid amount.") /\
      upgradeLuck g amount = (g, mkUpgradeResult false "Invalid amount.")) /\
  (forall (M : JSMath) (g : GameCore) (amount : Z),
      (success (snd (upgradeMold g amount)) = false -> fst (upgradeMold g amount) = g) /\
      (success (snd (upgradeLuck g amount)) = false -> fst (upgradeLuck g amount) = g)) /\
  (forall (M : JSMath) (g : GameCore) (amount : Z),
      mold_cost g = moldUnitCost (mold_level g) ->
      1 <= amount ->
      (money g < inject_Z (moldCharge g amount))%Q ->
      upgradeMold g amount = (g, mkUpgradeResult false "Not enough money!")) /\
  (forall (M : JSMath) (g : GameCore) (amount : Z),
      success (snd (upgradeLuck g amount)) = true ->
      (money (fst (upgradeLuck g amount)) == money g - inject_Z (luckCharge g amount))%Q) /\
  (forall m : Q,
      (5 <= m)%Q -> (m < 6)%Q ->
      let g := set_money m (@new_GameCore approxMath "player") in
      luckCharge g 1 = 6 /\
      (money g < inject_Z (luckCharge g 1))%Q /\
      success (snd (upgradeLuck g 1)) = true /\
      luck_level g = 1 /\
      luck_level (fst (upgradeLuck g 1)) = 2 /\
      (money (fst (upgradeLuck g 1)) == m - 6)%Q /\
      (money (fst (upgradeLuck g 1)) < 0)%Q) /\
  (let g := set_money 27 (@new_GameCore approxMath "player") in
   luckCharge g 3 = 28 /\
   success (snd (upgradeLuck g 3)) = true /\
   luck_level (fst (upgradeLuck g 3)) = 4 /\
   (money (fst (upgradeLuck g 3)) == -1)%Q).
Proof.
  assert (Hl : luck_level (@new_GameCore approxMath "player") = 1) by (vm_compute; reflexivity).
  assert (Hc : luck_cost (@new_GameCore approxMath "player") = 6) by (vm_compute; reflexivity).
  assert (Ht : @upgradeLuck_total approxMath 1 0 1 = 5) by (vm_compute; reflexivity).
  split; [|split; [|split; [|split; [|split]]]].
  - intros M g amount Ha. unfold upgradeMold, upgradeLuck.
    destruct (Z.leb_spec amount 0); [split; reflexivity | lia].
  - intros M g amount. split; [apply upgradeMold_failure | apply upgradeLuck_failure].
  - intros M g amount Hcost Ha Hpoor.
    rewrite (moldCharge_total g amount Hcost Ha) in Hpoor.
    unfold upgradeMold. destruct (Z.leb_spec amount 0); [lia|].
    apply Qltb_true in Hpoor. rewrite Hpoor. reflexivity.
  - intros M g amount Hs. apply (upgradeLuck_success g amount Hs).
  - intros m Hlo Hhi g.
    assert (Hlg : luck_level g = 1) by exact Hl.
    assert (Hcharge : luckCharge g 1 = 6).
    { unfold luckCharge. change (luck_cost g) with (luck_cost (@new_GameCore approxMath "player")).
      rewrite Hc. reflexivity. }
    assert (Hs : success (snd (upgradeLuck g 1)) = true).
    { apply upgradeLuck_guard; [lia|]. rewrite Hlg. change (Z.to_nat 1) with 1%nat.
      rewrite Ht. exact Hlo. }
    assert (Hm : (money (fst (upgradeLuck g 1)) == m - 6)%Q).
    { destruct (upgradeLuck_success g 1 Hs) as (_ & _ & ->).
      change (luck_cost g + upgradeLuck_total (Z.to_nat 1 - 1) 0 (luck_level g + 1))
        with (luckCharge g 1).
      rewrite Hcharge. reflexivity. }
    split; [exact Hcharge|]. split; [rewrite Hcharge; exact Hhi|].
    split; [exact Hs|]. split; [exact Hlg|]. split.
    + rewrite (upgradeLuck_success_level g 1 Hs), Hlg. reflexivity.
    + split; [exact Hm|]. rewrite Hm. lra.
  - vm_compute. repeat split.
Qed.

(** The refusals in a fresh game, which has no money, and the sale of a luck
    level for 6 to a player who has 5.5. *)
Lemma C8_witness :
  let g := @new_GameCore approxMath "player" in
  let g5 := set_money 5.5 g in
  (upgradeMold g 0 = (g, mkUpgradeResult false "Invalid amount.") /\
   upgradeLuck g (-2) = (g, mkUpgradeResult false "Invalid amount.")) /\
  upgradeMold g 2 = (g, mkUpgradeResult false "Not enough money!") /\
  fst (upgradeLuck g 1) = g /\
  (money (fst (upgradeLuck g5 1)) == money g5 - inject_Z (luckCharge g5 1))%Q /\
  (luckCharge g5 1 = 6 /\ success (snd (upgradeLuck g5 1)) = true /\
   luck_level (fst (upgradeLuck g5 1)) = 2 /\ (money (fst (upgradeLuck g5 1)) == 5.5 - 6)%Q).
Proof.
  intros g g5.
  destruct C8_upgradeLuck_sells_above_the_money
    as (Hinvalid & Hfailure & Hmold & Hcharge & Hluck & _).
  assert (Hs : success (snd (upgradeLuck g5 1)) = true) by (vm_compute; reflexivity).
  split; [|split; [|split; [|split]]].
  - split.
    + apply (Hinvalid approxMath g 0). lia.
    + apply (Hinvalid approxMath g (-2)). lia.
  - apply (Hmold approxMath g 2).
    + vm_compute. reflexivity.
    + lia.
    + vm_compute. reflexivity.
  - apply (Hfailure approxMath g 1). vm_compute. reflexivity.
  - apply (Hcharge approxMath g5 1 Hs).
  - destruct (Hluck 5.5%Q) as (H1 & _ & H3 & _ & H5 & H6 & _).
    + vm_compute. discriminate.
    + vm_compute. reflexivity.
    + repeat (split; [assumption|]). exact H6.
Defined.

(** C1, on the luck track: [upgradeLuck] pays its first level at the stored
    [luck_cost], and [recalculate] stores [round(L^2.4) + 5] where
    [upgradeLuck] adds up [round(L^2.1) + 4].  In a fresh game with 100
    money, three luck levels cost [5 + 8 + 14 = 27] by the sum the method
    checks, and 28 are deducted; with 5 money one level passes the check and
    leaves the money at -1. *)
Theorem C1_upgradeLuck_first_level_at_stored_cost :
  (forall (M : JSMath) (g : GameCore) (amount : Z),
      success (snd (upgradeLuck g amount)) = true ->
      (money (fst (upgradeLuck g amount)) ==
         money g - inject_Z (luck_cost g +
                             upgradeLuck_total (Z.to_nat amount - 1) 0 (luck_level g + 1)))%Q) /\
  (forall (M : JSMath) (g : GameCore),
      luck_cost (recalculate g) = luckRecalculatedCost (luck_level g)) /\
  (let g := set_money 100 (@new_GameCore approxMath "player") in
   luck_level g = 1 /\ luck_cost g = 6 /\
   luckUnitCost 1 + luckUnitCost 2 + luckUnitCost 3 = 27 /\
   upgradeLuck_total 3 0 (luck_level g) = 27 /\
   success (snd (upgradeLuck g 3)) = true /\
   (money (fst (upgradeLuck g 3)) == 100 - 28)%Q) /\
  (let g := set_money 5 (@new_GameCore approxMath "player") in
   upgradeLuck_total 1 0 (luck_level g) = 5 /\
   success (snd (upgradeLuck g 1)) = true /\
   (money (fst (upgradeLuck g 1)) == -1)%Q).
Proof.
  split; [|split; [|split]].
  - intros M g amount Hs. apply (upgradeLuck_success g amount Hs).
  - intros M g. reflexivity.
  - vm_compute. repeat split.
  - vm_compute. repeat split.
Qed.

(** The purchase of three luck levels in a fresh game with 100 money. *)
Lemma C1_witness :
  let g := set_money 100 (@new_GameCore approxMath "player") in
  success (snd (upgradeLuck g 3)) = true /\
  (money (fst (upgradeLuck g 3)) ==
     money g - inject_Z (luck_cost g +
                         upgradeLuck_total (Z.to_nat 3 - 1) 0 (luck_level g + 1)))%Q.
Proof.
  intros g.
  assert (Hs : success (snd (upgradeLuck g 3)) = true) by (vm_compute; reflexivity).
  split; [exact Hs|].
  exact (proj1 C1_upgradeLuck_first_level_at_stored_cost approxMath g 3 Hs).
Defined.

(* ================================================================== *)
(** * Combat: the damage taken *)
(* ================================================================== *)

Lemma Qeq_bool_true (x y : Q) : Qeq_bool x y = true <-> (x == y)%Q.
Proof. apply Qeq_bool_iff. Qed.

Lemma Qeq_bool_false (x y : Q) : Qeq_bool x y = false <-> ~ (x == y)%Q.
Proof. rewrite <- Qeq_bool_iff. split; [intros -> | intros H]; [discriminate|].
  destruct (Qeq_bool x y); [contradiction H|]; reflexivity.
Qed.

Lemma Qmax_0_inject_Z (z : Z) : Qmax 0 (inject_Z z) = inject_Z (Z.max 0 z).
Proof. unfold Qmax, GenericMinMax.gmax, Qcompare. cbn. destruct z; reflexivity. Qed.

(** C2, as the code has it: [fightEnemy] has no guard for a weapon defense
    of [0].  The damage taken is [max(0, floor(damage / Defense))] under the
    division of JavaScript: a non-negative integer whenever [Defense] is not
    [0]; with [Defense = 0] the division by zero takes place and gives
    [Infinity] for a positive enemy damage and [NaN] for an enemy damage of
    [0].  So a player whose weapon has defense [0] loses to an enemy of
    positive damage at the first exchange the enemy survives. *)
Theorem C2_damageTaken_unguarded {M : JSMath} (enemyAttack : Z) (weapon : Item.t) :
  (~ (Item.Defense weapon == 0)%Q ->
   damageTaken enemyAttack weapon =
     Fin (inject_Z (Z.max 0 (Qfloor (inject_Z enemyAttack / Item.Defense weapon)))) /\
   is_nonneg_integer (damageTaken enemyAttack weapon)) /\
  ((Item.Defense weapon == 0)%Q -> 0 < enemyAttack ->
   damageTaken enemyAttack weapon = PosInf) /\
  ((Item.Defense weapon == 0)%Q -> enemyAttack = 0 ->
   damageTaken enemyAttack weapon = NaN) /\
  (forall (g : GameCore) (areaName : string) (enemy : Enemy.t) (dropItems : bool)
          (u_weapon u_mold : Q) (fuel : nat),
      (Item.Defense weapon == 0)%Q -> 0 < enemyAttack ->
      equipped (player g) = Some weapon ->
      Enemy.damage enemy = enemyAttack ->
      0 < Enemy.health enemy ->
      0 < Enemy.health enemy - Math_floor (Item.Damage weapon) ->
      fightEnemy (S fuel) g areaName enemy dropItems u_weapon u_mold =
        Done (g, Lost ("You were defeated by the " +:+ Enemy.name enemy +:+ "!"))).
Proof.
  assert (Hinf : (Item.Defense weapon == 0)%Q -> 0 < enemyAttack ->
                 damageTaken enemyAttack weapon = PosInf).
  { unfold damageTaken, js_div. intros Hz Hpos. apply Qeq_bool_true in Hz. rewrite Hz.
    assert (Hlt : Qltb 0 (inject_Z enemyAttack) = true).
    { apply Qltb_true. change 0%Q with (inject_Z 0). rewrite <- Zlt_Qlt. exact Hpos. }
    rewrite Hlt. reflexivity. }
  split; [|split; [|split]].
  - unfold damageTaken, js_div.
    intros Hnz. apply Qeq_bool_false in Hnz. rewrite Hnz. cbn. unfold Math_floor.
    rewrite Qmax_0_inject_Z. split; [reflexivity|].
    eexists. split; [|reflexivity]. lia.
  - exact Hinf.
  - unfold damageTaken, js_div.
    intros Hz ->. apply Qeq_bool_true in Hz. rewrite Hz. reflexivity.
  - intros g areaName enemy dropItems u_weapon u_mold fuel Hz Hpos Hw Hdmg Hhealth Halive.
    unfold fightEnemy. cbn [fightEnemy_while].
    change (js_gt0 (Fin 100)) with true.
    destruct (Z.ltb_spec 0 (Enemy.health enemy)) as [_|]; [|lia]. cbn [andb].
    rewrite Hw. cbn [rbind defined].
    destruct (Z.leb_spec (Enemy.health enemy - Math_floor (Item.Damage weapon)) 0); [lia|].
    rewrite Hdmg, (Hinf Hz Hpos). reflexivity.
Qed.

(** Fixtures: a sword with the given damage and defense, a game whose
    player holds a weapon, and a common enemy as [generateEnemy] makes it in
    the Beginner Hall. *)
Definition sword (dmg def : Q) : Item.t :=
  Item.mk 0 1 "Copper" "Common" 8 "Sword" dmg def.

Definition with_equipped (w : Item.t) (g : GameCore) : GameCore :=
  set_player (mkPlayer (level (player g)) (exp (player g)) (Some w)) g.

Definition common_enemy : Enemy.t :=
  Enemy.mk 7 "Common" false 75 5 20 50 1 0 1179.

(** A sword of defense 10 against an attack of 5, and a sword of defense 0
    against attacks of 5 and of 0 and in a fight with a common enemy. *)
Lemma C2_witness :
  (~ (Item.Defense (sword 10 10) == 0)%Q /\
   damageTaken 5 (sword 10 10) = Fin 0 /\
   is_nonneg_integer (damageTaken 5 (sword 10 10))) /\
  ((Item.Defense (sword 10 0) == 0)%Q /\ 0 < 5 /\
   damageTaken 5 (sword 10 0) = PosInf) /\
  damageTaken 0 (sword 10 0) = NaN /\
  (let g := with_equipped (sword 10 0) (@new_GameCore approxMath "player") in
   fightEnemy 1 g "Beginner Hall" common_enemy false 0 0 =
     Done (g, Lost "You were defeated by the Common!")).
Proof.
  assert (Hnz : ~ (Item.Defense (sword 10 10) == 0)%Q) by (intros E; discriminate E).
  assert (Hz : (Item.Defense (sword 10 0) == 0)%Q) by reflexivity.
  split; [|split; [|split]].
  - split; [exact Hnz|].
    exact (proj1 (@C2_damageTaken_unguarded approxMath 5 (sword 10 10)) Hnz).
  - split; [exact Hz|]. split; [lia|].
    exact (proj1 (proj2 (@C2_damageTaken_unguarded approxMath 5 (sword 10 0))) Hz ltac:(lia)).
  - exact (proj1 (proj2 (proj2 (@C2_damageTaken_unguarded approxMath 0 (sword 10 0)))) Hz eq_refl).
  - intros g.
    apply (proj2 (proj2 (proj2 (@C2_damageTaken_unguarded approxMath 5 (sword 10 0))))
             g "Beginner Hall" common_enemy false 0%Q 0%Q 0%nat Hz);
      [lia | reflexivity | reflexivity | reflexivity | reflexivity].
Defined.

(** With a sword of defense 0 the damage taken from an attack of 5 is
    [Infinity]: not a non-negative integer, and not what a defense of 1
    gives.  The fight against a common enemy is lost at the first exchange;
    with defense 1 the same fight is won. *)
Lemma C2_counterexample :
  damageTaken 5 (sword 10 0) = PosInf /\
  ~ is_nonneg_integer (damageTaken 5 (sword 10 0)) /\
  damageTaken 5 (sword 10 1) = Fin 5 /\
  (let g := with_equipped (sword 10 0) (@new_GameCore approxMath "player") in
   fightEnemy 100 g "Beginner Hall" common_enemy false 0 0 =
     Done (g, Lost "You were defeated by the Common!")) /\
  (let g := with_equipped (sword 10 1) (@new_GameCore approxMath "player") in
   exists g', fightEnemy 100 g "Beginner Hall" common_enemy false 0 0 =
                Done (g', Victory 20 50 0 None)).
Proof.
  split; [reflexivity|]. split; [|split; [reflexivity|split]].
  - intros (n & _ & E). discriminate E.
  - vm_compute. reflexivity.
  - eexists. vm_compute. reflexivity.
Qed.

(* ================================================================== *)
(** * Item and loot generation never read a missing row or column *)
(* ================================================================== *)

Lemma getTier_scan_in_table (roll : Z) (rows : list TierRow) :
  forall (prev : Z) (res : TierResult),
    getTier_scan roll prev rows = Some res ->
    exists row : TierRow,
      row ∈ rows /\ tier res = row_name row /\ values res = row_extras row /\
      range_end res = row_threshold row /\ rng_roll res = roll.
Proof.
  induction rows as [|a rest IH]; intros prev res Hscan; [discriminate|].
  cbn in Hscan. destruct ((prev <? roll) && (roll <=? row_threshold a)).
  - injection Hscan as <-. exists a. repeat split. apply list_elem_of_here.
  - destruct (IH _ _ Hscan) as (row & Hin & Hrest).
    exists row. split; [apply list_elem_of_further, Hin | exact Hrest].
Qed.

Lemma getTier_in_table (roll : Z) (tiers : list TierRow) (luck : Q) (res : TierResult) :
  getTier roll tiers luck = Done res ->
  exists row : TierRow,
    row ∈ tiers /\ tier res = row_name row /\ values res = row_extras row /\
    range_end res = row_threshold row /\ rng_roll res = roll.
Proof.
  unfold getTier. destruct (getTier_scan roll 0 tiers) as [r|] eqn:Hscan.
  - intros [= <-]. apply (getTier_scan_in_table _ _ _ _ Hscan).
  - destruct (last tiers) as [lastTier|] eqn:Hlast; [|discriminate].
    cbn. intros [= <-]. exists lastTier. repeat split.
    apply last_Some_elem_of, Hlast.
Qed.

Lemma getTier_total (roll : Z) (tiers : list TierRow) (luck : Q) :
  tiers <> [] -> exists res : TierResult, getTier roll tiers luck = Done res.
Proof.
  intros Hne. unfold getTier. destruct (getTier_scan roll 0 tiers); [eauto|].
  destruct (last tiers) eqn:Hlast; [cbn; eauto|].
  apply last_None in Hlast. contradiction.
Qed.

Lemma RARITY_TIERS_columns (row : TierRow) :
  row ∈ RARITY_TIERS -> exists a b c : Q, row_extras row = [a; b; c].
Proof.
  revert row. apply Forall_forall. unfold RARITY_TIERS.
  repeat (apply Forall_cons; split; [cbn; eauto|]). apply Forall_nil_2.
Qed.

Lemma MOLD_TIERS_columns (row : TierRow) :
  row ∈ MOLD_TIERS -> exists a b : Q, row_extras row = [a; b].
Proof.
  revert row. apply Forall_forall. unfold MOLD_TIERS.
  repeat (apply Forall_cons; split; [cbn; eauto|]). apply Forall_nil_2.
Qed.

(** [availableWeapons[Math.floor(Math.random() * availableWeapons.length)]]
    is a weapon type once the Sword, of mold level 0, is unlocked. *)
Lemma available_weapon (mold : Z) (u : Q) :
  0 <= mold -> (0 <= u)%Q -> (u < 1)%Q ->
  let availableWeapons := List.filter (fun w => w_mold_level w <=? mold) WEAPON_TYPES in
  exists w : WeaponType,
    availableWeapons !! Z.to_nat (Math_floor (u * inject_Z (Z.of_nat (length availableWeapons))))
      = Some w /\
    w ∈ WEAPON_TYPES.
Proof.
  intros Hmold Hu0 Hu1 availableWeapons.
  assert (Hlen : (0 < length availableWeapons)%nat).
  { unfold availableWeapons, WEAPON_TYPES. cbn [List.filter w_mold_level].
    destruct (Z.leb_spec 0 mold); [cbn; lia | lia]. }
  set (len := Z.of_nat (length availableWeapons)) in *.
  assert (Hl : (0 < inject_Z len)%Q)
    by (change 0%Q with (inject_Z 0); rewrite <- Zlt_Qlt; lia).
  assert (Hlo : 0 <= Math_floor (u * inject_Z len)).
  { apply Qfloor_ge_Z. change (inject_Z 0) with 0%Q. nra. }
  assert (Hhi : Math_floor (u * inject_Z len) < len).
  { apply Qfloor_lt_Z. nra. }
  destruct (lookup_lt_is_Some_2 availableWeapons (Z.to_nat (Math_floor (u * inject_Z len))))
    as [w Hw]; [lia|].
  exists w. split; [exact Hw|].
  apply list_elem_of_lookup_2 in Hw. apply list_elem_of_In in Hw.
  apply filter_In in Hw as [Hw _]. apply list_elem_of_In, Hw.
Qed.

(* ================================================================== *)
(** * Combat: termination and rewards *)
(* ================================================================== *)

Section Combat.
Context {M : JSMath}.

(** Nothing in [getTier] or [enemyLoot] loops. *)
Lemma getTier_fuel_free (roll : Z) (tiers : list TierRow) (luck : Q) :
  getTier roll tiers luck <> OutOfFuel.
Proof.
  unfold getTier. destruct (getTier_scan roll 0 tiers); [discriminate|].
  destruct (last tiers); discriminate.
Qed.

Lemma defined_fuel_free {A : Type} (o : option A) : defined o <> OutOfFuel.
Proof. destruct o; discriminate. Qed.

Ltac step_bind :=
  match goal with
  | |- rbind (defined ?o) _ <> OutOfFuel => destruct o; cbn [rbind defined]; [|discriminate]
  | |- rbind (column ?vs ?i) _ <> OutOfFuel =>
      unfold column at 1; destruct (vs !! i); cbn [rbind defined]; [|discriminate]
  | |- rbind (getTier ?r ?t ?l) _ <> OutOfFuel =>
      let H := fresh "Htier" in
      pose proof (getTier_fuel_free r t l) as H;
      destruct (getTier r t l); cbn [rbind]; [|discriminate|contradiction]
  end.

Lemma enemyLoot_fuel_free (g : GameCore) (enemy : Enemy.t) (u_weapon u_mold : Q) :
  enemyLoot g enemy u_weapon u_mold <> OutOfFuel.
Proof.
  unfold enemyLoot. repeat step_bind.
  destruct (next_item_id g). discriminate.
Qed.

(** [enemyLoot] takes an item id and leaves the rest of the object. *)
Lemma next_item_id_frame (g g' : GameCore) (itemId : Z) :
  next_item_id g = (itemId, g') ->
  player g' = player g /\ money g' = money g /\
  spawned_enemies g' = spawned_enemies g /\ sell_area g' = sell_area g /\
  item_storage g' = item_storage g.
Proof.
  unfold next_item_id. destruct (last (recycled_ids g)); intros [= <- <-]; repeat split.
Qed.

Lemma enemyLoot_frame (g g' : GameCore) (enemy : Enemy.t) (u_weapon u_mold : Q) (drop : Item.t) :
  enemyLoot g enemy u_weapon u_mold = Done (g', drop) ->
  player g' = player g /\ money g' = money g /\
  spawned_enemies g' = spawned_enemies g /\ sell_area g' = sell_area g /\
  item_storage g' = item_storage g.
Proof.
  unfold enemyLoot.
  repeat match goal with
         | |- rbind ?r _ = Done _ -> _ => destruct r; cbn [rbind]; [|discriminate|discriminate]
         end.
  destruct (next_item_id g) as [itemId g1] eqn:Hid. intros [= <- _].
  apply (next_item_id_frame _ _ _ Hid).
Qed.

(** With a mold level from 0 and a random number in [[0, 1)] the loot is
    always made. *)
Lemma enemyLoot_total (g : GameCore) (enemy : Enemy.t) (u_weapon u_mold : Q) :
  0 <= mold_level g -> (0 <= u_weapon)%Q -> (u_weapon < 1)%Q ->
  exists (g' : GameCore) (drop : Item.t),
    enemyLoot g enemy u_weapon u_mold = Done (g', drop).
Proof.
  intros Hmold Hu0 Hu1. unfold enemyLoot. cbv zeta.
  assert (Hrd : exists rd : TierRow,
             match findIndex_name RARITY_TIERS (Enemy.name enemy) with
             | Some i => RARITY_TIERS !! i
             | None => last RARITY_TIERS
             end = Some rd /\ rd ∈ RARITY_TIERS).
  { unfold findIndex_name.
    destruct (list_find _ RARITY_TIERS) as [[i x]|] eqn:Hf; cbn [fmap option_fmap option_map fst].
    - apply list_find_Some in Hf as (Hi & _). exists x. split; [exact Hi|].
      apply (list_elem_of_lookup_2 _ _ _ Hi).
    - eexists. split; [reflexivity|]. apply last_Some_elem_of. reflexivity. }
  destruct Hrd as (rd & -> & Hin). cbn [rbind defined].
  destruct (RARITY_TIERS_columns rd Hin) as (a & b & c & ->).
  unfold column at 1 2. cbn [lookup list_lookup rbind defined].
  destruct (available_weapon (mold_level g) u_weapon Hmold Hu0 Hu1) as (w & Hw & Hwin).
  rewrite Hw. cbn [rbind defined].
  destruct (list_find_elem_of (fun w' => w_type w' = w_type w) WEAPON_TYPES w Hwin eq_refl)
    as [[j f] Hf].
  rewrite Hf. cbn [fmap option_fmap option_map snd rbind defined].
  match goal with
  | |- context [getTier ?r MOLD_TIERS ?l] =>
      destruct (getTier_total r MOLD_TIERS l ltac:(discriminate)) as [res Hres];
      rewrite Hres; cbn [rbind];
      destruct (getTier_in_table _ _ _ _ Hres) as (row & Hrow & _ & Hv & _)
  end.
  destruct (MOLD_TIERS_columns row Hrow) as (a' & b' & Hex).
  unfold column. rewrite Hv, Hex. cbn [lookup list_lookup rbind defined].
  destruct (next_item_id g). eauto.
Qed.

Lemma checkLevelUp_keeps (fuel : nat) (g g' : GameCore) (n : Z) :
  checkLevelUp fuel g = Done (g', n) ->
  money g' = money g /\ spawned_enemies g' = spawned_enemies g /\
  sell_area g' = sell_area g /\ item_storage g' = item_storage g /\
  recycled_ids g' = recycled_ids g /\ equipped (player g') = equipped (player g) /\
  mold_level g' = mold_level g.
Proof.
  intros Hrun. destruct (checkLevelUp_frame _ _ _ _ Hrun) as [-> | ->]; repeat split.
Qed.

(** The combat loop with a weapon that deals at least 1 each turn. *)
Lemma fightEnemy_while_terminates (weapon : Item.t) (areaName : string) (enemy : Enemy.t)
    (u_weapon u_mold : Q) (fuel : nat) :
  forall (g : GameCore) (playerHealth : jsnum) (enemyHealth : Z),
    equipped (player g) = Some weapon ->
    1 <= Math_floor (Item.Damage weapon) ->
    1 <= level (player g) ->
    (Z.to_nat enemyHealth +
     levelup_fuel (set_exp (exp (player g) + inject_Z (Enemy.exp enemy)) g) <= fuel)%nat ->
    fightEnemy_while fuel g areaName enemy u_weapon u_mold playerHealth enemyHealth
      <> OutOfFuel.
Proof.
  induction fuel as [|fuel IH]; intros g playerHealth enemyHealth Hw Hd Hl Hfuel.
  - unfold levelup_fuel in Hfuel. lia.
  - cbn [fightEnemy_while].
    destruct (js_gt0 playerHealth && (0 <? enemyHealth)) eqn:Hcond; [|discriminate].
    apply andb_prop in Hcond as [_ Hpos]. apply Z.ltb_lt in Hpos.
    rewrite Hw. cbn [rbind defined].
    destruct (Z.leb_spec (enemyHealth - Math_floor (Item.Damage weapon)) 0) as [Hdead|Halive].
    + destruct (checkLevelUp_terminates fuel
                  (set_exp (exp (player (set_money (money g + inject_Z (Enemy.cash enemy)) g))
                            + inject_Z (Enemy.exp enemy))
                     (set_money (money g + inject_Z (Enemy.cash enemy)) g)))
        as (g1 & n1 & Hrun).
      { exact Hl. }
      { unfold levelup_fuel in Hfuel |- *.
        cbn [exp player set_exp set_player set_money] in Hfuel |- *. lia. }
      rewrite Hrun. cbn [rbind].
      destruct (spawned_enemies g1 !! areaName); cbn [rbind defined]; [|discriminate].
      destruct (Enemy.Elite enemy || bool_decide (areaName = "Champions Hall")); [|discriminate].
      match goal with
      | |- rbind (enemyLoot ?a ?b ?c ?d) _ <> _ =>
          pose proof (enemyLoot_fuel_free a b c d) as Hloot;
          destruct (enemyLoot a b c d) as [[g2 drop]| |]
      end; cbn [rbind]; [discriminate | discriminate | contradiction].
    + destruct (js_le0 _); [discriminate|].
      apply IH; try assumption. lia.
Qed.

(** It returns a result when the area has its list of enemies and the loot
    can be made. *)
Lemma fightEnemy_while_returns (weapon : Item.t) (areaName : string) (enemy : Enemy.t)
    (u_weapon u_mold : Q) (fuel : nat) :
  forall (g : GameCore) (playerHealth : jsnum) (enemyHealth : Z),
    equipped (player g) = Some weapon ->
    1 <= Math_floor (Item.Damage weapon) ->
    1 <= level (player g) ->
    is_Some (spawned_enemies g !! areaName) ->
    0 <= mold_level g -> (0 <= u_weapon)%Q -> (u_weapon < 1)%Q ->
    (Z.to_nat enemyHealth +
     levelup_fuel (set_exp (exp (player g) + inject_Z (Enemy.exp enemy)) g) <= fuel)%nat ->
    exists (g' : GameCore) (r : FightResult),
      fightEnemy_while fuel g areaName enemy u_weapon u_mold playerHealth enemyHealth
        = Done (g', r).
Proof.
  induction fuel as [|fuel IH];
    intros g playerHealth enemyHealth Hw Hd Hl [enemies Harea] Hmold Hu0 Hu1 Hfuel.
  - unfold levelup_fuel in Hfuel. lia.
  - cbn [fightEnemy_while].
    destruct (js_gt0 playerHealth && (0 <? enemyHealth)) eqn:Hcond; [|eauto].
    apply andb_prop in Hcond as [_ Hpos]. apply Z.ltb_lt in Hpos.
    rewrite Hw. cbn [rbind defined].
    destruct (Z.leb_spec (enemyHealth - Math_floor (Item.Damage weapon)) 0) as [Hdead|Halive].
    + destruct (checkLevelUp_terminates fuel
                  (set_exp (exp (player (set_money (money g + inject_Z (Enemy.cash enemy)) g))
                            + inject_Z (Enemy.exp enemy))
                     (set_money (money g + inject_Z (Enemy.cash enemy)) g)))
        as (g1 & n1 & Hrun).
      { exact Hl. }
      { unfold levelup_fuel in Hfuel |- *.
        cbn [exp player set_exp set_player set_money] in Hfuel |- *. lia. }
      rewrite Hrun. cbn [rbind].
      destruct (checkLevelUp_keeps _ _ _ _ Hrun) as (_ & Hse & _ & _ & _ & _ & Hml).
      cbn [spawned_enemies mold_level set_exp set_player set_money] in Hse, Hml.
      rewrite Hse, Harea. cbn [rbind defined].
      destruct (Enemy.Elite enemy || bool_decide (areaName = "Champions Hall")); [|eauto].
      match goal with
      | |- context [enemyLoot ?a ?b ?c ?d] =>
          destruct (enemyLoot_total a b c d) as (g2 & drop & Hloot)
      end.
      { destruct (findIndex_enemy enemies enemy); cbn; lia. }
      { exact Hu0. }
      { exact Hu1. }
      rewrite Hloot. cbn [rbind]. eauto.
    + destruct (js_le0 _); [eauto|].
      apply IH; try assumption; [eauto | lia].
Qed.

(** The combat loop with a weapon that deals nothing and takes nothing. *)
Lemma fightEnemy_while_diverges (weapon : Item.t) (areaName : string) (enemy : Enemy.t)
    (u_weapon u_mold : Q) (g : GameCore) (fuel : nat) :
  equipped (player g) = Some weapon ->
  Math_floor (Item.Damage weapon) <= 0 ->
  damageTaken (Enemy.damage enemy) weapon = Fin 0 ->
  forall (h : Q) (enemyHealth : Z),
    (0 < h)%Q -> 0 < enemyHealth ->
    fightEnemy_while fuel g areaName enemy u_weapon u_mold (Fin h) enemyHealth = OutOfFuel.
Proof.
  intros Hw Hd Htaken.
  induction fuel as [|fuel IH]; intros h enemyHealth Hh Hpos; [reflexivity|].
  cbn [fightEnemy_while js_gt0].
  apply Qltb_true in Hh as Hhb. rewrite Hhb.
  destruct (Z.ltb_spec 0 enemyHealth) as [_|]; [|lia]. cbn [andb].
  rewrite Hw. cbn [rbind defined].
  destruct (Z.leb_spec (enemyHealth - Math_floor (Item.Damage weapon)) 0) as [|Halive]; [lia|].
  rewrite Htaken. cbn [js_sub js_le0].
  assert (Hle : Qleb (h - 0) 0 = false) by (apply Qleb_false; lra).
  rewrite Hle. apply IH; [lra | lia].
Qed.

(** C10: against an enemy of positive health, a weapon with
    [floor(Damage) >= 1] ends the combat loop, since each turn takes at
    least 1 from the enemy's health: every run with enough fuel comes to an
    end, and it returns its victory or defeat when the area has its list
    and the loot of a victory can be made; a weapon with
    [floor(Damage) <= 0] that also lets no damage through never leaves the
    loop. *)
Theorem C10_combat_loop_termination (g : GameCore) (areaName : string) (enemy : Enemy.t)
    (dropItems : bool) (u_weapon u_mold : Q) (weapon : Item.t) :
  equipped (player g) = Some weapon ->
  0 < Enemy.health enemy ->
  1 <= level (player g) ->
  (1 <= Math_floor (Item.Damage weapon) ->
   forall fuel : nat,
     (Z.to_nat (Enemy.health enemy) +
      levelup_fuel (set_exp (exp (player g) + inject_Z (Enemy.exp enemy)) g) <= fuel)%nat ->
     fightEnemy fuel g areaName enemy dropItems u_weapon u_mold <> OutOfFuel /\
     (is_Some (spawned_enemies g !! areaName) ->
      0 <= mold_level g -> (0 <= u_weapon)%Q -> (u_weapon < 1)%Q ->
      exists (g' : GameCore) (r : FightResult),
        fightEnemy fuel g areaName enemy dropItems u_weapon u_mold = Done (g', r))) /\
  (Math_floor (Item.Damage weapon) <= 0 ->
   damageTaken (Enemy.damage enemy) weapon = Fin 0 ->
   forall fuel : nat,
     fightEnemy fuel g areaName enemy dropItems u_weapon u_mold = OutOfFuel).
Proof.
  intros Hw Hhealth Hl. split.
  - intros Hd fuel Hfuel. unfold fightEnemy. split.
    + apply (fightEnemy_while_terminates weapon); assumption.
    + intros Harea Hmold Hu0 Hu1.
      apply (fightEnemy_while_returns weapon); assumption.
  - intros Hd Htaken fuel. unfold fightEnemy.
    apply (fightEnemy_while_diverges weapon); try assumption. lra.
Qed.

(** What the loop does when the enemy is not in the list of its area. *)
Lemma fightEnemy_while_absent (areaName : string) (enemy : Enemy.t) (u_weapon u_mold : Q)
    (g : GameCore) (enemies : list Enemy.t) (fuel : nat) :
  spawned_enemies g !! areaName = Some enemies ->
  (forall e : Enemy.t, e ∈ enemies -> Enemy.oid e <> Enemy.oid enemy) ->
  forall (playerHealth : jsnum) (enemyHealth : Z) (g' : GameCore) (r : FightResult),
    fightEnemy_while fuel g areaName enemy u_weapon u_mold playerHealth enemyHealth
      = Done (g', r) ->
    spawned_enemies g' = spawned_enemies g /\
    match r with
    | Lost _ => g' = g
    | Victory e c n drop =>
        e = Enemy.exp enemy /\ c = Enemy.cash enemy /\
        money g' = (money g + inject_Z (Enemy.cash enemy))%Q /\
        levels_up (level (player g)) (exp (player g) + inject_Z (Enemy.exp enemy))
          (level (player g')) (exp (player g')) n /\
        item_storage g' = item_storage g ++ option_list drop /\
        (is_Some drop <->
         Enemy.Elite enemy = true \/ areaName = "Champions Hall")
    end.
Proof.
  intros Harea Habsent.
  assert (Hfind : findIndex_enemy enemies enemy = None).
  { unfold findIndex_enemy.
    destruct (list_find _ enemies) as [[i x]|] eqn:Hf; [|reflexivity].
    apply list_find_Some in Hf as (Hi & Hoid & _).
    exfalso. apply (Habsent x); [apply (list_elem_of_lookup_2 _ _ _ Hi) | exact Hoid]. }
  induction fuel as [|fuel IH]; intros playerHealth enemyHealth g' r; [discriminate|].
  cbn [fightEnemy_while].
  destruct (js_gt0 playerHealth && (0 <? enemyHealth)); [|intros [= <- <-]; auto].
  destruct (equipped (player g)) as [weapon|]; cbn [rbind defined]; [|discriminate].
  destruct (enemyHealth - Math_floor (Item.Damage weapon) <=? 0).
  - destruct (checkLevelUp fuel _) as [[g1 n1]| |] eqn:Hrun; cbn [rbind]; try discriminate.
    destruct (checkLevelUp_keeps _ _ _ _ Hrun) as (Hm & Hse & _ & His & _ & _ & _).
    apply checkLevelUp_levels_up in Hrun.
    cbn [money spawned_enemies item_storage level exp player
         set_exp set_player set_money] in Hm, Hse, His, Hrun.
    rewrite Hse, Harea. cbn [rbind defined]. rewrite Hfind.
    destruct (Enemy.Elite enemy) eqn:Helite; cbn [orb].
    + destruct (enemyLoot g1 enemy u_weapon u_mold) as [[g2 drop]| |] eqn:Hloot;
        cbn [rbind]; try discriminate.
      destruct (enemyLoot_frame _ _ _ _ _ _ Hloot) as (Hp2 & Hm2 & Hse2 & _ & His2).
      intros [= <- <-]. cbn [spawned_enemies money item_storage player set_item_storage].
      rewrite Hse2, Hse, Hm2, Hm, Hp2, His2, His. repeat split; eauto.
    + destruct (bool_decide (areaName = "Champions Hall")) eqn:Hhall.
      * apply bool_decide_eq_true in Hhall.
        destruct (enemyLoot g1 enemy u_weapon u_mold) as [[g2 drop]| |] eqn:Hloot;
          cbn [rbind]; try discriminate.
        destruct (enemyLoot_frame _ _ _ _ _ _ Hloot) as (Hp2 & Hm2 & Hse2 & _ & His2).
        intros [= <- <-]. cbn [spawned_enemies money item_storage player set_item_storage].
        rewrite Hse2, Hse, Hm2, Hm, Hp2, His2, His. repeat split; eauto.
      * apply bool_decide_eq_false in Hhall.
        intros [= <- <-]. rewrite Hse, Hm, His. cbn [option_list].
        rewrite app_nil_r. repeat split; try assumption.
        -- intros [d Hd]. discriminate.
        -- intros [Hel | Hh]; [discriminate | contradiction].
  - destruct (js_le0 _); [intros [= <- <-]; auto|]. apply IH.
Qed.

(** C3, as the code has it: when the enemy is no longer in the list of its
    area, [fightEnemy] still resolves the combat.  A defeat leaves the
    object as it was; a victory grants the enemy's cash and experience with
    the level-ups (and the drop of an elite enemy or of the Champions Hall),
    and only the removal from the list is skipped. *)
Theorem C3_absent_enemy_still_fought (g : GameCore) (areaName : string) (enemy : Enemy.t)
    (dropItems : bool) (u_weapon u_mold : Q) (enemies : list Enemy.t) (fuel : nat)
    (g' : GameCore) (r : FightResult) :
  spawned_enemies g !! areaName = Some enemies ->
  (forall e : Enemy.t, e ∈ enemies -> Enemy.oid e <> Enemy.oid enemy) ->
  fightEnemy fuel g areaName enemy dropItems u_weapon u_mold = Done (g', r) ->
  spawned_enemies g' = spawned_enemies g /\
  match r with
  | Lost _ => g' = g
  | Victory e c n drop =>
      e = Enemy.exp enemy /\ c = Enemy.cash enemy /\
      money g' = (money g + inject_Z (Enemy.cash enemy))%Q /\
      levels_up (level (player g)) (exp (player g) + inject_Z (Enemy.exp enemy))
        (level (player g')) (exp (player g')) n /\
      item_storage g' = item_storage g ++ option_list drop /\
      (is_Some drop <-> Enemy.Elite enemy = true \/ areaName = "Champions Hall")
  end.
Proof.
  intros Harea Habsent Hrun. unfold fightEnemy in Hrun.
  apply (fightEnemy_while_absent _ _ _ _ _ enemies fuel Harea Habsent _ _ _ _ Hrun).
Qed.

End Combat.

Lemma with_equipped_fresh (w : Item.t) :
  let g := with_equipped w (@new_GameCore approxMath "player") in
  equipped (player g) = Some w /\ level (player g) = 1 /\ exp (player g) = 0%Q /\
  spawned_enemies g !! "Beginner Hall" = Some [] /\ mold_level g = 1.
Proof. repeat split. Qed.

(** A sword of damage 10 against a common enemy; a sword of damage 0.5 and
    defense 10 against the same. *)
Lemma C10_witness :
  let g := with_equipped (sword 10 10) (@new_GameCore approxMath "player") in
  let g0 := with_equipped (sword 0.5 10) (@new_GameCore approxMath "player") in
  let fuel := (Z.to_nat (Enemy.health common_enemy) +
               levelup_fuel (set_exp (exp (player g) + inject_Z (Enemy.exp common_enemy)) g))%nat in
  (1 <= Math_floor (Item.Damage (sword 10 10)) /\
   fightEnemy fuel g "Beginner Hall" common_enemy false 0 0 <> OutOfFuel /\
   exists (g' : GameCore) (r : FightResult),
     fightEnemy fuel g "Beginner Hall" common_enemy false 0 0 = Done (g', r)) /\
  (Math_floor (Item.Damage (sword 0.5 10)) <= 0 /\
   damageTaken (Enemy.damage common_enemy) (sword 0.5 10) = Fin 0 /\
   forall fuel' : nat,
     fightEnemy fuel' g0 "Beginner Hall" common_enemy false 0 0 = OutOfFuel).
Proof.
  intros g g0 fuel.
  destruct (with_equipped_fresh (sword 10 10)) as (Hw & Hl & _ & Harea & Hmold).
  destruct (with_equipped_fresh (sword 0.5 10)) as (Hw0 & Hl0 & _).
  assert (Hh : 0 < Enemy.health common_enemy) by (cbn; lia).
  assert (Hd : 1 <= Math_floor (Item.Damage (sword 10 10))) by (vm_compute; discriminate).
  assert (Hd0 : Math_floor (Item.Damage (sword 0.5 10)) <= 0) by (vm_compute; discriminate).
  assert (Ht : damageTaken (Enemy.damage common_enemy) (sword 0.5 10) = Fin 0)
    by (vm_compute; reflexivity).
  split.
  - split; [exact Hd|].
    destruct (@C10_combat_loop_termination approxMath g "Beginner Hall" common_enemy false
                0%Q 0%Q (sword 10 10) Hw Hh ltac:(fold g in Hl; lia)) as [Hterm _].
    destruct (Hterm Hd fuel (le_n _)) as [Hne Hret]. split; [exact Hne|].
    apply Hret.
    + fold g in Harea. rewrite Harea. eauto.
    + fold g in Hmold. lia.
    + apply Qle_refl.
    + reflexivity.
  - split; [exact Hd0|]. split; [exact Ht|].
    destruct (@C10_combat_loop_termination approxMath g0 "Beginner Hall" common_enemy false
                0%Q 0%Q (sword 0.5 10) Hw0 Hh ltac:(fold g0 in Hl0; lia)) as [_ Hdiv].
    exact (Hdiv Hd0 Ht).
Defined.

(** The Beginner Hall of a fresh game is empty, so [common_enemy] is not in
    its list; the fight is won all the same, and 50 money and 20 experience
    are granted. *)
Lemma C3_counterexample :
  let g := with_equipped (sword 10 10) (@new_GameCore approxMath "player") in
  spawned_enemies g !! "Beginner Hall" = Some [] /\
  exists g' : GameCore,
    fightEnemy 100 g "Beginner Hall" common_enemy false 0 0
      = Done (g', Victory 20 50 0 None) /\
    (money g == 0)%Q /\ (money g' == 50)%Q /\
    (exp (player g) == 0)%Q /\ (exp (player g') == 20)%Q /\
    g' <> g.
Proof.
  split; [reflexivity|]. eexists. split; [vm_compute; reflexivity|].
  repeat split. intros E. apply (f_equal money) in E. discriminate E.
Qed.

(** The same fight, read through the theorem: the list of the hall and the
    storage are as before, and the money has grown by the 50 of the enemy. *)
Lemma C3_witness :
  let g := with_equipped (sword 10 10) (@new_GameCore approxMath "player") in
  spawned_enemies g !! "Beginner Hall" = Some [] /\
  exists g' : GameCore,
    fightEnemy 100 g "Beginner Hall" common_enemy false 0 0
      = Done (g', Victory 20 50 0 None) /\
    spawned_enemies g' = spawned_enemies g /\
    money g' = (money g + inject_Z 50)%Q /\
    item_storage g' = item_storage g ++ [].
Proof.
  intros g.
  assert (Harea : spawned_enemies g !! "Beginner Hall" = Some []) by reflexivity.
  split; [exact Harea|].
  eexists. split; [vm_compute; reflexivity|].
  match goal with
  | |- spawned_enemies ?g1 = _ /\ _ =>
      assert (Hrun : fightEnemy 100 g "Beginner Hall" common_enemy false 0 0
                     = Done (g1, Victory 20 50 0 None)) by (vm_compute; reflexivity)
  end.
  destruct (@C3_absent_enemy_still_fought approxMath g "Beginner Hall" common_enemy false
              0%Q 0%Q [] 100%nat _ _ Harea ltac:(intros e He; inversion He) Hrun)
    as (Hse & _ & _ & Hm & _ & His & _).
  split; [exact Hse|]. split; [exact Hm | exact His].
Defined.

(* ================================================================== *)
(** * Item prices *)
(* ================================================================== *)

Section Pricing.
Context {M : JSMath}.

(** The unclipped scaling of a rank, counted from the bottom of the table. *)
Definition rank_scale (rank : Z) : Q :=
  (1 + Math_pow (inject_Z rank) RARITY_COST_EXPONENT / RARITY_COST_DIVISOR)%Q.

Lemma findIndex_name_RARITY_TIERS (i : nat) (row : TierRow) :
  RARITY_TIERS !! i = Some row -> findIndex_name RARITY_TIERS (row_name row) = Some i.
Proof.
  intros Hrow.
  do 22 (destruct i as [|i]; [injection Hrow as <-; vm_compute; reflexivity|]).
  discriminate Hrow.
Qed.

Lemma getRarityCostScaling_row (i : nat) (row : TierRow) :
  RARITY_TIERS !! i = Some row ->
  getRarityCostScaling (row_name row) = Qmin (rank_scale (22 - Z.of_nat i)) 1.85.
Proof.
  intros Hrow. unfold getRarityCostScaling.
  rewrite (findIndex_name_RARITY_TIERS i row Hrow). reflexivity.
Qed.

Lemma getRarityCostScaling_capped (rarityName : string) :
  (getRarityCostScaling rarityName <= 1.85)%Q.
Proof.
  unfold getRarityCostScaling. destruct (findIndex_name RARITY_TIERS rarityName).
  - apply Q.le_min_r.
  - unfold Qle. cbn. lia.
Qed.

Lemma rank_scale_le (r r' : Z) : 0 < r -> r <= r' -> (rank_scale r <= rank_scale r')%Q.
Proof.
  intros Hr Hle. unfold rank_scale, RARITY_COST_EXPONENT, RARITY_COST_DIVISOR.
  assert (Hp : (Math_pow (inject_Z r) 1.25 <= Math_pow (inject_Z r') 1.25)%Q).
  { apply Math_pow_le.
    - change 0%Q with (inject_Z 0). rewrite <- Zlt_Qlt. exact Hr.
    - rewrite <- Zle_Qle. exact Hle.
    - unfold Qle. cbn. lia. }
  apply Qplus_le_r. unfold Qdiv. apply Qmult_le_compat_r; [exact Hp|].
  unfold Qle. cbn. lia.
Qed.

(** The price [itemGen] gives an item. *)
Lemma itemGen_price (g : GameCore) (u_weapon u_rarity u_mold threshold now : Q)
    (g' : GameCore) (out : ItemGen) :
  itemGen g u_weapon u_rarity u_mold threshold now = Done (g', out) ->
  exists (rarityRow moldRow : TierRow) (rarityPrice moldPrice : Q),
    rarityRow ∈ RARITY_TIERS /\ moldRow ∈ MOLD_TIERS /\
    Item.Rarity (itemInfo out) = row_name rarityRow /\
    Item.Mold (itemInfo out) = row_name moldRow /\
    row_extras rarityRow !! 0%nat = Some rarityPrice /\
    row_extras moldRow !! 0%nat = Some moldPrice /\
    Item.Price (itemInfo out) =
      (4.5 * (rarityPrice * 0.95) * moldPrice * getRarityCostScaling (row_name rarityRow))%Q.
Proof.
  unfold itemGen.
  destruct (getWeapon g u_weapon) as [weaponData|]; cbn [rbind defined]; [|discriminate].
  unfold rngGen. cbv zeta.
  destruct (getTier _ RARITY_TIERS _) as [rr| |] eqn:Hrr; cbn [rbind]; try discriminate.
  destruct (getTier _ MOLD_TIERS _) as [mr| |] eqn:Hmr; cbn [rbind]; try discriminate.
  destruct (getTier_in_table _ _ _ _ Hrr) as (rrow & Hrin & Hrname & Hrv & _).
  destruct (getTier_in_table _ _ _ _ Hmr) as (mrow & Hmin & Hmname & Hmv & _).
  destruct (RARITY_TIERS_columns rrow Hrin) as (a & b & c & Hrex).
  destruct (MOLD_TIERS_columns mrow Hmin) as (a' & b' & Hmex).
  unfold column. rewrite Hrv, Hmv, Hrex, Hmex.
  cbn [lookup list_lookup rbind defined rarity moldInfo combinedActual rarityResult moldResult].
  destruct (next_item_id g) as [itemId g1].
  intros [= <- <-]. cbn [itemInfo Item.Rarity Item.Mold Item.Price].
  exists rrow, mrow, a, a'. rewrite Hrex, Hmex, Hrname, Hmname.
  repeat split; assumption.
Qed.

(** The price [enemyLoot] gives a drop. *)
Lemma enemyLoot_price (g : GameCore) (enemy : Enemy.t) (u_weapon u_mold : Q)
    (g' : GameCore) (drop : Item.t) :
  enemyLoot g enemy u_weapon u_mold = Done (g', drop) ->
  exists (rarityRow moldRow : TierRow) (rarityPrice moldPrice : Q),
    rarityRow ∈ RARITY_TIERS /\ moldRow ∈ MOLD_TIERS /\
    Item.Rarity drop = row_name rarityRow /\
    Item.Mold drop = row_name moldRow /\
    row_extras rarityRow !! 0%nat = Some rarityPrice /\
    row_extras moldRow !! 0%nat = Some moldPrice /\
    Item.Price drop =
      (5 * rarityPrice * moldPrice * getRarityCostScaling (row_name rarityRow))%Q.
Proof.
  unfold enemyLoot. cbv zeta.
  assert (Hrd : forall rd : TierRow,
             match findIndex_name RARITY_TIERS (Enemy.name enemy) with
             | Some i => RARITY_TIERS !! i
             | None => last RARITY_TIERS
             end = Some rd -> rd ∈ RARITY_TIERS).
  { intros rd. destruct (findIndex_name RARITY_TIERS (Enemy.name enemy)) as [i|].
    - apply list_elem_of_lookup_2.
    - apply last_Some_elem_of. }
  destruct (match findIndex_name RARITY_TIERS (Enemy.name enemy) with
            | Some i => RARITY_TIERS !! i
            | None => last RARITY_TIERS
            end) as [rd|]; cbn [rbind defined]; [|discriminate].
  specialize (Hrd rd eq_refl).
  destruct (RARITY_TIERS_columns rd Hrd) as (a & b & c & Hrex).
  unfold column at 1 2. rewrite Hrex. cbn [lookup list_lookup rbind defined].
  destruct (_ !! _) as [chosen|]; cbn [rbind defined]; [|discriminate].
  destruct (snd <$> list_find _ WEAPON_TYPES) as [found|]; cbn [rbind defined]; [|discriminate].
  destruct (getTier _ MOLD_TIERS _) as [mr| |] eqn:Hmr; cbn [rbind]; try discriminate.
  destruct (getTier_in_table _ _ _ _ Hmr) as (mrow & Hmin & Hmname & Hmv & _).
  destruct (MOLD_TIERS_columns mrow Hmin) as (a' & b' & Hmex).
  unfold column. rewrite Hmv, Hmex. cbn [lookup list_lookup rbind defined].
  destruct (next_item_id g) as [itemId g1].
  intros [= <- <-]. cbn [Item.Rarity Item.Mold Item.Price].
  exists rd, mrow, a, a'. rewrite Hrex, Hmex, Hmname.
  repeat split; assumption.
Qed.

(** A power function that grows from each of the ranks 1 to 21 to the next
    grows along all of them. *)
Lemma pow_chain (n : nat) :
  (forall r : Z, 1 <= r < 22 ->
     (Math_pow (inject_Z r) RARITY_COST_EXPONENT
      < Math_pow (inject_Z (r + 1)) RARITY_COST_EXPONENT)%Q) ->
  forall r : Z, 1 <= r -> r + Z.of_nat (S n) <= 22 ->
    (Math_pow (inject_Z r) RARITY_COST_EXPONENT
     < Math_pow (inject_Z (r + Z.of_nat (S n))) RARITY_COST_EXPONENT)%Q.
Proof.
  intros Hstep. induction n as [|n IH]; intros r Hr Hle.
  - apply Hstep. lia.
  - replace (r + Z.of_nat (S (S n))) with (r + Z.of_nat (S n) + 1) by lia.
    eapply Qlt_trans; [apply IH; lia | apply Hstep; lia].
Qed.

Lemma rank_scale_lt (r r' : Z) :
  (forall r : Z, 1 <= r < 22 ->
     (Math_pow (inject_Z r) RARITY_COST_EXPONENT
      < Math_pow (inject_Z (r + 1)) RARITY_COST_EXPONENT)%Q) ->
  1 <= r -> r < r' -> r' <= 22 -> (rank_scale r < rank_scale r')%Q.
Proof.
  intros Hstep Hr Hlt Hle. unfold rank_scale.
  pose proof (pow_chain (Z.to_nat (r' - r) - 1) Hstep r Hr ltac:(lia)) as Hp.
  replace (r + Z.of_nat (S (Z.to_nat (r' - r) - 1))) with r' in Hp by lia.
  apply Qplus_lt_r. unfold Qdiv. apply Qmult_lt_compat_r; [reflexivity | exact Hp].
Qed.

(** Where the power function grows along the ranks and [22^1.25] is below
    136, the scaling grows with the rank and stays below its cap. *)
Lemma getRarityCostScaling_grows :
  (forall r : Z, 1 <= r < 22 ->
     (Math_pow (inject_Z r) RARITY_COST_EXPONENT
      < Math_pow (inject_Z (r + 1)) RARITY_COST_EXPONENT)%Q) ->
  (Math_pow (inject_Z 22) RARITY_COST_EXPONENT < 136)%Q ->
  (forall (i : nat) (row : TierRow),
      RARITY_TIERS !! i = Some row ->
      (getRarityCostScaling (row_name row) == rank_scale (22 - Z.of_nat i))%Q /\
      (getRarityCostScaling (row_name row) < 1.85)%Q) /\
  (forall (i j : nat) (rarer commoner : TierRow),
      RARITY_TIERS !! i = Some rarer -> RARITY_TIERS !! j = Some commoner ->
      (i < j)%nat ->
      (getRarityCostScaling (row_name commoner) < getRarityCostScaling (row_name rarer))%Q).
Proof.
  intros Hstep Htop.
  assert (Hbelow : forall r : Z, 1 <= r <= 22 -> (rank_scale r < 1.85)%Q).
  { intros r Hr.
    assert (H22 : (rank_scale 22 < 1.85)%Q)
      by (unfold rank_scale; apply Qlt_le_trans with (1 + 136 / RARITY_COST_DIVISOR)%Q;
          [apply Qplus_lt_r; unfold Qdiv; apply Qmult_lt_compat_r; [reflexivity | exact Htop]
          | vm_compute; discriminate]).
    destruct (Z.eq_dec r 22) as [->|Hne]; [exact H22|].
    eapply Qlt_trans; [apply (rank_scale_lt r 22 Hstep); lia | exact H22]. }
  assert (Hrow : forall (i : nat) (row : TierRow),
             RARITY_TIERS !! i = Some row ->
             (getRarityCostScaling (row_name row) == rank_scale (22 - Z.of_nat i))%Q).
  { intros i row Hi. rewrite (getRarityCostScaling_row i row Hi).
    apply lookup_lt_Some in Hi. change (length RARITY_TIERS) with 22%nat in Hi.
    apply Q.min_l. apply Qlt_le_weak, Hbelow. lia. }
  split.
  - intros i row Hi. split; [apply (Hrow i row Hi)|].
    rewrite (Hrow i row Hi).
    apply lookup_lt_Some in Hi. change (length RARITY_TIERS) with 22%nat in Hi.
    apply Hbelow. lia.
  - intros i j rarer commoner Hi Hj Hij.
    rewrite (Hrow i rarer Hi), (Hrow j commoner Hj).
    apply lookup_lt_Some in Hj. change (length RARITY_TIERS) with 22%nat in Hj.
    apply (rank_scale_lt _ _ Hstep); lia.
Qed.

End Pricing.

(** The power function of the instance grows along the ranks, and its
    [22^1.25] is below 136. *)
Lemma approx_pow_ranks :
  (forall r : Z, 1 <= r < 22 ->
     (@Math_pow approxMath (inject_Z r) (@RARITY_COST_EXPONENT)
      < @Math_pow approxMath (inject_Z (r + 1)) (@RARITY_COST_EXPONENT))%Q) /\
  (@Math_pow approxMath (inject_Z 22) (@RARITY_COST_EXPONENT) < 136)%Q.
Proof.
  split; [|vm_compute; reflexivity].
  intros r Hr.
  assert (Hn : exists n : nat, (n < 21)%nat /\ r = Z.of_nat n + 1)
    by (exists (Z.to_nat (r - 1)); lia).
  destruct Hn as (n & Hn & ->).
  do 21 (destruct n as [|n]; [vm_compute; reflexivity|]). lia.
Qed.

(** C9, as the code has it.  The price of an item made by [itemGen] is the
    base price 4.5 times the price multiplier of its rarity tier times
    0.95, times the price multiplier of its mold tier, times the cost
    scaling of its rarity; the price of a drop made by [enemyLoot] is the
    base price 5 times the two price multipliers times the cost scaling.
    The scaling of the tier at rank [r] from the bottom is
    [1 + r^1.25 / 160] clipped at 1.85, so it is at most 1.85 for every
    name.  It grows with the rank: a rarer tier has a larger scaling than a
    more common one, for every power function that grows from each rank to
    the next and has [22^1.25 < 136], and so for the power function of
    the instance, where the clip never applies. *)
Theorem C9_item_price_composition :
  (forall (M : JSMath) (g : GameCore) (u_weapon u_rarity u_mold threshold now : Q)
          (g' : GameCore) (out : ItemGen),
      itemGen g u_weapon u_rarity u_mold threshold now = Done (g', out) ->
      exists (rarityRow moldRow : TierRow) (rarityPrice moldPrice : Q),
        rarityRow ∈ RARITY_TIERS /\ moldRow ∈ MOLD_TIERS /\
        Item.Rarity (itemInfo out) = row_name rarityRow /\
        Item.Mold (itemInfo out) = row_name moldRow /\
        row_extras rarityRow !! 0%nat = Some rarityPrice /\
        row_extras moldRow !! 0%nat = Some moldPrice /\
        Item.Price (itemInfo out) =
          (4.5 * (rarityPrice * 0.95) * moldPrice *
           getRarityCostScaling (row_name rarityRow))%Q) /\
  (forall (M : JSMath) (g : GameCore) (enemy : Enemy.t) (u_weapon u_mold : Q)
          (g' : GameCore) (drop : Item.t),
      enemyLoot g enemy u_weapon u_mold = Done (g', drop) ->
      exists (rarityRow moldRow : TierRow) (rarityPrice moldPrice : Q),
        rarityRow ∈ RARITY_TIERS /\ moldRow ∈ MOLD_TIERS /\
        Item.Rarity drop = row_name rarityRow /\
        Item.Mold drop = row_name moldRow /\
        row_extras rarityRow !! 0%nat = Some rarityPrice /\
        row_extras moldRow !! 0%nat = Some moldPrice /\
        Item.Price drop =
          (5 * rarityPrice * moldPrice * getRarityCostScaling (row_name rarityRow))%Q) /\
  (forall (M : JSMath) (i : nat) (row : TierRow),
      RARITY_TIERS !! i = Some row ->
      getRarityCostScaling (row_name row) = Qmin (rank_scale (22 - Z.of_nat i)) 1.85) /\
  (forall (M : JSMath) (rarityName : string), (getRarityCostScaling rarityName <= 1.85)%Q) /\
  (forall M : JSMath,
      (forall r : Z, 1 <= r < 22 ->
         (Math_pow (inject_Z r) RARITY_COST_EXPONENT
          < Math_pow (inject_Z (r + 1)) RARITY_COST_EXPONENT)%Q) ->
      (Math_pow (inject_Z 22) RARITY_COST_EXPONENT < 136)%Q ->
      forall (i j : nat) (rarer commoner : TierRow),
        RARITY_TIERS !! i = Some rarer -> RARITY_TIERS !! j = Some commoner ->
        (i < j)%nat ->
        (getRarityCostScaling (row_name commoner)
         < getRarityCostScaling (row_name rarer))%Q) /\
  (forall (i j : nat) (rarer commoner : TierRow),
      RARITY_TIERS !! i = Some rarer -> RARITY_TIERS !! j = Some commoner ->
      (i < j)%nat ->
      (@getRarityCostScaling approxMath (row_name commoner)
       < @getRarityCostScaling approxMath (row_name rarer))%Q) /\
  (forall (i : nat) (row : TierRow),
      RARITY_TIERS !! i = Some row ->
      (@getRarityCostScaling approxMath (row_name row)
       == @rank_scale approxMath (22 - Z.of_nat i))%Q /\
      (@getRarityCostScaling approxMath (row_name row) < 1.85)%Q).
Proof.
  destruct approx_pow_ranks as [Hstep Htop].
  destruct (@getRarityCostScaling_grows approxMath Hstep Htop) as [Hrows Hgrows].
  split; [|split; [|split; [|split; [|split; [|split]]]]].
  - intros M g u_weapon u_rarity u_mold threshold now g' out Hgen.
    apply (itemGen_price _ _ _ _ _ _ _ _ Hgen).
  - intros M g enemy u_weapon u_mold g' drop Hloot.
    apply (enemyLoot_price _ _ _ _ _ _ Hloot).
  - intros M. apply getRarityCostScaling_row.
  - intros M. apply getRarityCostScaling_capped.
  - intros M HstepM HtopM. apply (getRarityCostScaling_grows HstepM HtopM).
  - exact Hgrows.
  - exact Hrows.
Qed.

(** A fresh game generates a common copper sword, and a common enemy drops
    one: the first costs [4.5 * (1.5 * 0.95) * 1.2] and the second
    [5 * 1.5 * 1.2] times the scaling 1.00625 of the lowest rank.  The
    scaling of the rarest tier is larger, and below 1.3. *)
Lemma C9_witness :
  (exists (g' : GameCore) (out : ItemGen),
      @itemGen approxMath (new_GameCore "player") 0 0.99 0.99 100 1000 = Done (g', out) /\
      (exists (rarityRow moldRow : TierRow) (rarityPrice moldPrice : Q),
        rarityRow ∈ RARITY_TIERS /\ moldRow ∈ MOLD_TIERS /\
        Item.Rarity (itemInfo out) = row_name rarityRow /\
        Item.Mold (itemInfo out) = row_name moldRow /\
        row_extras rarityRow !! 0%nat = Some rarityPrice /\
        row_extras moldRow !! 0%nat = Some moldPrice /\
        Item.Price (itemInfo out) =
          (4.5 * (rarityPrice * 0.95) * moldPrice *
           getRarityCostScaling (row_name rarityRow))%Q) /\
      (Item.Price (itemInfo out) == 4.5 * (1.5 * 0.95) * 1.2 * 1.00625)%Q) /\
  (exists (g' : GameCore) (drop : Item.t),
      @enemyLoot approxMath (new_GameCore "player") common_enemy 0 0.99 = Done (g', drop) /\
      (exists (rarityRow moldRow : TierRow) (rarityPrice moldPrice : Q),
        rarityRow ∈ RARITY_TIERS /\ moldRow ∈ MOLD_TIERS /\
        Item.Rarity drop = row_name rarityRow /\
        Item.Mold drop = row_name moldRow /\
        row_extras rarityRow !! 0%nat = Some rarityPrice /\
        row_extras moldRow !! 0%nat = Some moldPrice /\
        Item.Price drop =
          (5 * rarityPrice * moldPrice * getRarityCostScaling (row_name rarityRow))%Q) /\
      Item.Rarity drop = "Common" /\ Item.Mold drop = "Copper" /\
      (Item.Price drop == 5 * 1.5 * 1.2 * 1.00625)%Q) /\
  (@getRarityCostScaling approxMath "Common" < @getRarityCostScaling approxMath "Zenith")%Q /\
  (@getRarityCostScaling approxMath "Common" == 1.00625)%Q /\
  (@getRarityCostScaling approxMath "Zenith" < 1.3)%Q.
Proof.
  destruct C9_item_price_composition as (Hprice & Hloot & _ & _ & Hcond & Hgrows & _).
  split; [|split; [|split; [|split]]].
  - assert (Hrun : exists (g' : GameCore) (out : ItemGen),
               @itemGen approxMath (new_GameCore "player") 0 0.99 0.99 100 1000
               = Done (g', out) /\
               (Item.Price (itemInfo out) == 4.5 * (1.5 * 0.95) * 1.2 * 1.00625)%Q)
      by (eexists; eexists; split; vm_compute; reflexivity).
    destruct Hrun as (g' & out & Hrun & Hval). exists g', out. split; [exact Hrun|].
    split; [|exact Hval]. apply (Hprice _ _ _ _ _ _ _ _ _ Hrun).
  - assert (Hrun : exists (g' : GameCore) (drop : Item.t),
               @enemyLoot approxMath (new_GameCore "player") common_enemy 0 0.99
               = Done (g', drop) /\
               Item.Rarity drop = "Common" /\ Item.Mold drop = "Copper" /\
               (Item.Price drop == 5 * 1.5 * 1.2 * 1.00625)%Q)
      by (eexists; eexists; split; [|split; [|split]]; vm_compute; reflexivity).
    destruct Hrun as (g' & drop & Hrun & Hr & Hm & Hval). exists g', drop.
    split; [exact Hrun|]. split; [|auto]. apply (Hloot _ _ _ _ _ _ _ Hrun).
  - apply (Hcond approxMath (proj1 approx_pow_ranks) (proj2 approx_pow_ranks)
             0%nat 21%nat (mkRow "Zenith" (threshold_of 20000000) [10000; 500; 100]%Q)
             (mkRow "Common" (threshold_of 1) [1.5; 1; 1]%Q));
      [reflexivity | reflexivity | lia].
  - vm_compute. reflexivity.
  - vm_compute. reflexivity.
Defined.

(** The common copper sword of a fresh game costs
    [4.5 * (1.5 * 0.95) * 1.2 * 1.00625], which is not
    [4.5 * 1.5 * 1.2 * 1.00625]. *)
Lemma C9_counterexample :
  exists (g' : GameCore) (out : ItemGen),
    @itemGen approxMath (new_GameCore "player") 0 0.99 0.99 100 1000 = Done (g', out) /\
    Item.Rarity (itemInfo out) = "Common" /\
    Item.Mold (itemInfo out) = "Copper" /\
    find_name RARITY_TIERS "Common" = Some (mkRow "Common" (threshold_of 1) [1.5; 1; 1]%Q) /\
    find_name MOLD_TIERS "Copper" = Some (mkRow "Copper" (threshold_of 1) [1.2; 1.2]%Q) /\
    (@getRarityCostScaling approxMath "Common" == 1.00625)%Q /\
    (Item.Price (itemInfo out) == 4.5 * (1.5 * 0.95) * 1.2 * 1.00625)%Q /\
    ~ (Item.Price (itemInfo out)
       == 4.5 * 1.5 * 1.2 * @getRarityCostScaling approxMath "Common")%Q.
Proof.
  eexists. eexists. split; [vm_compute; reflexivity|].
  repeat split.
  intros E. vm_compute in E. discriminate E.
Qed.

(* ================================================================== *)
(** * The sell area *)
(* ================================================================== *)

(** The entries a tick at [t] sells, and those it keeps. *)
Definition due_entries (t : Q) (l : list SellEntry) : list SellEntry :=
  List.filter (due t) l.

Definition kept_entries (t : Q) (l : list SellEntry) : list SellEntry :=
  List.filter (fun e => negb (due t e)) l.

Fixpoint sum_Q (f : SellEntry -> Q) (l : list SellEntry) : Q :=
  match l with
  | [] => 0
  | e :: rest => f e + sum_Q f rest
  end.

Definition price (e : SellEntry) : Q := Item.Price (item e).

(** The experience a sale adds:
    [item.Price * (rarityExpMult(item.Rarity) * moldExpMult(item.Mold))]. *)
Definition expGain (e : SellEntry) : Q :=
  (Item.Price (item e) *
   (rarityExpMult (Item.Rarity (item e)) * moldExpMult (Item.Mold (item e))))%Q.

Definition levels_sold (sold : list Sold) : Z :=
  foldr (fun s acc => sold_levelsGained s + acc) 0 sold.

Lemma sum_Q_app (f : SellEntry -> Q) (l k : list SellEntry) :
  (sum_Q f (l ++ k) == sum_Q f l + sum_Q f k)%Q.
Proof.
  induction l as [|e l IH]; cbn [sum_Q app]; [ring|]. rewrite IH. ring.
Qed.

Lemma sum_Q_nonneg (f : SellEntry -> Q) (l : list SellEntry) :
  Forall (fun e => (0 <= f e)%Q) l -> (0 <= sum_Q f l)%Q.
Proof.
  induction 1 as [|e l He _ IH]; cbn [sum_Q]; [apply Qle_refl|]. lra.
Qed.

Lemma levels_sold_app (l k : list Sold) :
  levels_sold (l ++ k) = levels_sold l + levels_sold k.
Proof.
  unfold levels_sold. induction l as [|s l IH]; cbn [foldr app]; [lia|]. rewrite IH. lia.
Qed.

Lemma rarityExpMult_nonneg (rarityName : string) : (0 <= rarityExpMult rarityName)%Q.
Proof.
  unfold rarityExpMult, find_name.
  destruct (list_find _ RARITY_TIERS) as [[i row]|] eqn:Hf;
    cbn [fmap option_fmap option_map snd]; [|unfold Qle; cbn; lia].
  apply list_find_Some in Hf as (Hrow & _).
  revert i row Hrow. apply Forall_lookup. unfold RARITY_TIERS.
  repeat (apply Forall_cons; split; [vm_compute; discriminate|]). apply Forall_nil_2.
Qed.

Lemma moldExpMult_nonneg (moldName : string) : (0 <= moldExpMult moldName)%Q.
Proof.
  unfold moldExpMult, find_name.
  destruct (list_find _ MOLD_TIERS) as [[i row]|] eqn:Hf;
    cbn [fmap option_fmap option_map snd]; [|unfold Qle; cbn; lia].
  apply list_find_Some in Hf as (Hrow & _).
  revert i row Hrow. apply Forall_lookup. unfold MOLD_TIERS.
  repeat (apply Forall_cons; split; [vm_compute; discriminate|]). apply Forall_nil_2.
Qed.

Lemma expGain_nonneg (e : SellEntry) : (0 <= price e)%Q -> (0 <= expGain e)%Q.
Proof.
  intros Hp. unfold expGain, price in *.
  pose proof (rarityExpMult_nonneg (Item.Rarity (item e))).
  pose proof (moldExpMult_nonneg (Item.Mold (item e))).
  apply Qmult_le_0_compat; [exact Hp|]. apply Qmult_le_0_compat; assumption.
Qed.

Lemma Forall_filter_bool {A : Type} (P : A -> Prop) (f : A -> bool) (l : list A) :
  Forall P l -> Forall P (List.filter f l).
Proof.
  induction 1 as [|x l Hx _ IH]; cbn [List.filter]; [constructor|].
  destruct (f x); [constructor|]; assumption.
Qed.

Lemma due_entries_snoc (t : Q) (l : list SellEntry) (e : SellEntry) :
  due_entries t (l ++ [e]) = due_entries t l ++ (if due t e then [e] else []).
Proof. unfold due_entries. rewrite List.filter_app. reflexivity. Qed.

Lemma kept_entries_snoc (t : Q) (l : list SellEntry) (e : SellEntry) :
  kept_entries t (l ++ [e]) = kept_entries t l ++ (if due t e then [] else [e]).
Proof.
  unfold kept_entries. rewrite List.filter_app. cbn [List.filter].
  destruct (due t e); reflexivity.
Qed.

Section Sell.
Context {M : JSMath}.

(** A tick with nothing due returns at once and changes nothing. *)
Lemma processSellArea_for_idle (fuel : nat) (t : Q) (g : GameCore) (n : nat) :
  (forall e : SellEntry, e ∈ sell_area g -> due t e = false) ->
  (n <= length (sell_area g))%nat ->
  forall (sold : list Sold) (flag : bool),
    processSellArea_for fuel n g t sold flag = Done (g, sold, flag).
Proof.
  intros Hidle. induction n as [|i IH]; intros Hn sold flag; [reflexivity|].
  cbn [processSellArea_for].
  destruct (lookup_lt_is_Some_2 (sell_area g) i ltac:(lia)) as [entry Hentry].
  rewrite Hentry. cbn [rbind defined].
  rewrite (Hidle entry (list_elem_of_lookup_2 _ _ _ Hentry)).
  apply IH. lia.
Qed.

Lemma processSellArea_idle (fuel : nat) (t : Q) (g : GameCore) :
  (forall e : SellEntry, e ∈ sell_area g -> due t e = false) ->
  processSellArea fuel g t = Done (g, []).
Proof.
  intros Hidle. unfold processSellArea.
  rewrite (processSellArea_for_idle fuel t g _ Hidle (le_n _)). reflexivity.
Qed.

(** The loop over the first [n] entries. *)
Lemma processSellArea_for_spec (fuel : nat) (t : Q) (n : nat) :
  forall (g : GameCore) (sold : list Sold) (flag : bool),
    (n <= length (sell_area g))%nat ->
    1 <= level (player g) ->
    (exp (player g) < inject_Z (requiredExp (level (player g))))%Q ->
    Forall (fun e => (0 <= price e)%Q) (sell_area g) ->
    (S (Z.to_nat (Qfloor (exp (player g) +
                          sum_Q expGain (due_entries t (take n (sell_area g)))))) <= fuel)%nat ->
    exists (g' : GameCore) (sold' : list Sold) (flag' : bool),
      processSellArea_for fuel n g t sold flag = Done (g', sold ++ sold', flag') /\
      map sold_item sold' = map item (rev (due_entries t (take n (sell_area g)))) /\
      sell_area g' = kept_entries t (take n (sell_area g)) ++ drop n (sell_area g) /\
      (money g' == money g + sum_Q price (due_entries t (take n (sell_area g))))%Q /\
      recycled_ids g' =
        recycled_ids g ++
        map (fun e => Item.ID (item e)) (rev (due_entries t (take n (sell_area g)))) /\
      (exists e' : Q,
          (e' == exp (player g'))%Q /\
          levels_up (level (player g))
            (exp (player g) + sum_Q expGain (due_entries t (take n (sell_area g))))
            (level (player g')) e' (levels_sold sold')).
Proof.
  induction n as [|i IH]; intros g sold flag Hn Hl Hinv Hprice Hfuel.
  - exists g, [], flag.
    change (take 0 (sell_area g)) with (@nil SellEntry).
    change (drop 0 (sell_area g)) with (sell_area g).
    cbn [processSellArea_for due_entries List.filter rev map
         kept_entries sum_Q app levels_sold foldr].
    rewrite !app_nil_r. split; [reflexivity|]. split; [reflexivity|]. split; [reflexivity|].
    split; [ring|]. split; [reflexivity|].
    exists (exp (player g) + 0)%Q. split; [ring|]. apply levels_up_stop. lra.
  - destruct (lookup_lt_is_Some_2 (sell_area g) i ltac:(lia)) as [entry Hentry].
    cbn [processSellArea_for]. rewrite Hentry. cbn [rbind defined].
    rewrite (take_S_r _ _ _ Hentry), due_entries_snoc, kept_entries_snoc in *.
    assert (Hpre : Forall (fun e => (0 <= expGain e)%Q) (due_entries t (take i (sell_area g)))).
    { apply Forall_filter_bool, Forall_take.
      eapply Forall_impl; [exact Hprice|]. intros e. apply expGain_nonneg. }
    pose proof (sum_Q_nonneg _ _ Hpre) as Hsum.
    destruct (due t entry) eqn:Hdue.
    + (* the entry is sold *)
      assert (Hgain : (0 <= expGain entry)%Q).
      { apply expGain_nonneg.
        apply (proj1 (Forall_lookup _ _) Hprice i entry Hentry). }
      rewrite sum_Q_app in Hfuel. cbn [sum_Q] in Hfuel.
      destruct (checkLevelUp_terminates fuel
                  (set_exp (exp (player (set_money (money g + Item.Price (item entry)) g))
                            + Item.Price (item entry) *
                              (rarityExpMult (Item.Rarity (item entry)) *
                               moldExpMult (Item.Mold (item entry))))
                     (set_money (money g + Item.Price (item entry)) g)) Hl)
        as (g3 & n3 & Hrun).
      { unfold levelup_fuel. cbn [exp player set_exp set_player set_money].
        fold (expGain entry).
        assert (Hle : (exp (player g) + expGain entry
                       <= exp (player g) +
                          (sum_Q expGain (due_entries t (take i (sell_area g)))
                           + (expGain entry + 0)))%Q) by lra.
        pose proof (Qfloor_resp_le _ _ Hle). lia. }
      rewrite Hrun. cbn [rbind].
      pose proof (checkLevelUp_levels_up _ _ _ _ Hrun) as Hlu.
      destruct (checkLevelUp_keeps _ _ _ _ Hrun) as (Hm3 & _ & Hsa3 & _ & Hrc3 & _).
      cbn [level exp player money sell_area recycled_ids
           set_exp set_player set_money] in Hlu, Hm3, Hsa3, Hrc3.
      fold (expGain entry) in Hlu.
      pose proof (levels_up_facts _ _ _ _ _ Hlu) as (Hn3 & HL3 & Hinv3).
      pose proof (levels_up_exp_le _ _ _ _ _ Hlu Hl) as Hexp3.
      set (g5 := set_sell_area (delete i (sell_area (set_recycled_ids
                    (recycled_ids g3 ++ [Item.ID (item entry)]) g3)))
                   (set_recycled_ids (recycled_ids g3 ++ [Item.ID (item entry)]) g3)).
      assert (Hsa5 : sell_area g5 = take i (sell_area g) ++ drop (S i) (sell_area g)).
      { unfold g5. cbn [sell_area set_sell_area set_recycled_ids].
        rewrite Hsa3. apply delete_take_drop. }
      assert (Hlen : length (take i (sell_area g)) = i) by (apply length_take_le; lia).
      assert (Htake5 : take i (sell_area g5) = take i (sell_area g)).
      { rewrite Hsa5. apply take_app_length'. symmetry. exact Hlen. }
      assert (Hdrop5 : drop i (sell_area g5) = drop (S i) (sell_area g)).
      { rewrite Hsa5. rewrite <- Hlen at 1. apply drop_app_length. }
      destruct (IH g5 (sold ++ [mkSold (item entry) n3]) true) as
        (g' & sold' & flag' & Hloop & Hitems & Harea & Hmoney & Hrec & e' & He' & Hlev).
      { rewrite Hsa5, length_app, Hlen. lia. }
      { unfold g5. cbn [level player set_sell_area set_recycled_ids]. lia. }
      { unfold g5. cbn [level exp player set_sell_area set_recycled_ids]. exact Hinv3. }
      { rewrite Hsa5. apply Forall_app. split; [apply Forall_take | apply Forall_drop]; exact Hprice. }
      { rewrite Htake5. unfold g5. cbn [exp player set_sell_area set_recycled_ids].
        assert (Hle : (exp (player g3) + sum_Q expGain (due_entries t (take i (sell_area g)))
                       <= exp (player g) +
                          (sum_Q expGain (due_entries t (take i (sell_area g)))
                           + (expGain entry + 0)))%Q) by lra.
        pose proof (Qfloor_resp_le _ _ Hle). lia. }
      rewrite Htake5, Hdrop5 in *.
      exists g', (mkSold (item entry) n3 :: sold'), flag'.
      split; [rewrite Hloop, <- app_assoc; reflexivity|].
      split; [rewrite rev_app_distr; cbn [rev app map sold_item]; rewrite Hitems; reflexivity|].
      split; [rewrite Harea, app_nil_r; reflexivity|].
      split.
      { rewrite Hmoney, sum_Q_app. unfold g5.
        cbn [money set_sell_area set_recycled_ids sum_Q]. rewrite Hm3. unfold price. ring. }
      split.
      { rewrite Hrec, rev_app_distr. unfold g5.
        cbn [recycled_ids set_sell_area set_recycled_ids rev app map].
        rewrite Hrc3, <- app_assoc. reflexivity. }
      unfold g5 in Hlev. cbn [level exp player set_sell_area set_recycled_ids] in Hlev.
      destruct (levels_up_add _ _ _ _ _ Hlu _ _ _ _ Hsum Hlev) as (y & Hy & Hboth).
      destruct (levels_up_compat _ _ _ _ _ Hboth
                  (exp (player g) +
                   sum_Q expGain (due_entries t (take i (sell_area g)) ++ [entry]))%Q)
        as (y' & Hy' & Hfinal).
      { rewrite sum_Q_app. cbn [sum_Q]. ring. }
      exists y'. split; [rewrite Hy', Hy; exact He'|].
      change (levels_sold (mkSold (item entry) n3 :: sold')) with (n3 + levels_sold sold').
      exact Hfinal.
    + (* the entry stays *)
      rewrite !app_nil_r in *.
      destruct (IH g sold flag ltac:(lia) Hl Hinv Hprice Hfuel) as
        (g' & sold' & flag' & Hloop & Hitems & Harea & Hmoney & Hrec & Hlev).
      exists g', sold', flag'.
      split; [exact Hloop|]. split; [exact Hitems|].
      split; [rewrite Harea, (drop_S _ _ _ Hentry), <- app_assoc; reflexivity|].
      split; [exact Hmoney|]. split; [exact Hrec | exact Hlev].
Qed.

End Sell.

(** The awards of a run of sales, one after the other: from level [L] with
    experience [e], the sale of each entry adds its experience gain and is
    resolved into levels before the next; [ns] are the levels each sale
    gains. *)
Inductive sales {M : JSMath} : Z -> Q -> list SellEntry -> Z -> Q -> list Z -> Prop :=
| sales_nil (L : Z) (e : Q) : sales L e [] L e []
| sales_cons (L : Z) (e : Q) (entry : SellEntry) (rest : list SellEntry)
    (L1 : Z) (e1 : Q) (n : Z) (L' : Z) (e' : Q) (ns : list Z) :
    levels_up L (e + expGain entry) L1 e1 n ->
    sales L1 e1 rest L' e' ns ->
    sales L e (entry :: rest) L' e' (n :: ns).

(** The money after the sales, one addition after the other. *)
Definition money_after (entries : list SellEntry) (m : Q) : Q :=
  fold_left (fun acc e => (acc + price e)%Q) entries m.

Lemma take_delete_same {A : Type} (l : list A) (i : nat) : take i (delete i l) = take i l.
Proof.
  revert i. induction l as [|x l IH]; intros [|i]; cbn; try reflexivity.
  f_equal. apply IH.
Qed.

(** The experience multipliers are the third column of [RARITY_TIERS] and
    the second column of [MOLD_TIERS]. *)
Lemma rarityExpMult_column (row : TierRow) :
  row ∈ RARITY_TIERS -> row_extras row !! 2%nat = Some (rarityExpMult (row_name row)).
Proof.
  revert row. apply Forall_forall. unfold RARITY_TIERS.
  repeat (apply Forall_cons; split; [vm_compute; reflexivity|]). apply Forall_nil_2.
Qed.

Lemma moldExpMult_column (row : TierRow) :
  row ∈ MOLD_TIERS -> row_extras row !! 1%nat = Some (moldExpMult (row_name row)).
Proof.
  revert row. apply Forall_forall. unfold MOLD_TIERS.
  repeat (apply Forall_cons; split; [vm_compute; reflexivity|]). apply Forall_nil_2.
Qed.

Lemma find_name_unknown (rows : list TierRow) (n : string) :
  n ∉ (row_name <$> rows) -> find_name rows n = None.
Proof.
  intros Hn. unfold find_name.
  destruct (list_find _ rows) as [[i row]|] eqn:Hf; [|reflexivity].
  apply list_find_Some in Hf as (Hrow & Hname & _). exfalso. apply Hn.
  apply list_elem_of_fmap. exists row. split; [symmetry; exact Hname|].
  apply (list_elem_of_lookup_2 _ _ _ Hrow).
Qed.


Section Ticks.
Context {M : JSMath}.

(** Fuel that is enough for a tick at [t]. *)
Definition sell_fuel (g : GameCore) (t : Q) : nat :=
  S (Z.to_nat (Qfloor (exp (player g) + sum_Q expGain (due_entries t (sell_area g))))).

Lemma processSellArea_spec (g : GameCore) (t : Q) (fuel : nat) :
  1 <= level (player g) ->
  (exp (player g) < inject_Z (requiredExp (level (player g))))%Q ->
  Forall (fun e => (0 <= price e)%Q) (sell_area g) ->
  (sell_fuel g t <= fuel)%nat ->
  exists (g' : GameCore) (sold : list Sold),
    processSellArea fuel g t = Done (g', sold) /\
    map sold_item sold = map item (rev (due_entries t (sell_area g))) /\
    sell_area g' = kept_entries t (sell_area g) /\
    (money g' == money g + sum_Q price (due_entries t (sell_area g)))%Q /\
    recycled_ids g' =
      recycled_ids g ++ map (fun e => Item.ID (item e)) (rev (due_entries t (sell_area g))) /\
    (exists e' : Q,
        (e' == exp (player g'))%Q /\
        levels_up (level (player g))
          (exp (player g) + sum_Q expGain (due_entries t (sell_area g)))
          (level (player g')) e' (levels_sold sold)).
Proof.
  intros Hl Hinv Hprice Hfuel. unfold sell_fuel in Hfuel.
  destruct (processSellArea_for_spec fuel t (length (sell_area g)) g [] false (le_n _) Hl Hinv Hprice)
    as (g' & sold & flag & Hloop & Hspec).
  { rewrite firstn_all. exact Hfuel. }
  rewrite firstn_all, drop_all, app_nil_r in Hspec.
  exists g', sold. split; [|exact Hspec].
  unfold processSellArea. rewrite Hloop. reflexivity.
Qed.

(** The loop over the first [n] entries, sale by sale. *)
Lemma processSellArea_for_sales (fuel : nat) (t : Q) (n : nat) :
  forall (g : GameCore) (sold : list Sold) (flag : bool)
         (g' : GameCore) (sold' : list Sold) (flag' : bool),
    processSellArea_for fuel n g t sold flag = Done (g', sold', flag') ->
    exists new : list Sold,
      sold' = sold ++ new /\
      map sold_item new = map item (rev (due_entries t (take n (sell_area g)))) /\
      money g' = money_after (rev (due_entries t (take n (sell_area g)))) (money g) /\
      sales (level (player g)) (exp (player g))
        (rev (due_entries t (take n (sell_area g))))
        (level (player g')) (exp (player g')) (map sold_levelsGained new).
Proof.
  induction n as [|i IH]; intros g sold flag g' sold' flag'.
  - cbn [processSellArea_for]. intros [= <- <- _]. exists [].
    change (take 0 (sell_area g)) with (@nil SellEntry).
    cbn [due_entries List.filter rev map money_after fold_left].
    split; [symmetry; apply app_nil_r|]. split; [reflexivity|]. split; [reflexivity|].
    apply sales_nil.
  - cbn [processSellArea_for].
    destruct (sell_area g !! i) as [entry|] eqn:Hi; cbn [rbind defined]; [|discriminate].
    rewrite (take_S_r _ _ _ Hi), due_entries_snoc.
    destruct (due t entry) eqn:Hdue.
    + destruct (checkLevelUp fuel _) as [[g1 n1]| |] eqn:Hlvl; cbn [rbind]; try discriminate.
      destruct (checkLevelUp_keeps _ _ _ _ Hlvl) as (Hmoney & _ & Hsell & _).
      apply checkLevelUp_levels_up in Hlvl.
      cbn [money sell_area level exp player set_exp set_player set_money] in Hmoney, Hsell, Hlvl.
      intros Hrest. apply IH in Hrest as (new & -> & Hitems & Hm & Hsales).
      cbn [sell_area money level exp player set_sell_area set_recycled_ids] in Hitems, Hm, Hsales.
      rewrite Hsell, take_delete_same in Hitems, Hm, Hsales.
      exists (mkSold (item entry) n1 :: new).
      rewrite rev_app_distr. cbn [rev app map sold_item sold_levelsGained money_after fold_left].
      split; [rewrite <- app_assoc; reflexivity|].
      split; [rewrite Hitems; reflexivity|].
      split; [rewrite Hm, Hmoney; reflexivity|].
      eapply sales_cons; [exact Hlvl | exact Hsales].
    + rewrite app_nil_r. apply IH.
Qed.

Lemma processSellArea_sales (g : GameCore) (t : Q) (fuel : nat) :
  1 <= level (player g) ->
  (exp (player g) < inject_Z (requiredExp (level (player g))))%Q ->
  Forall (fun e => (0 <= price e)%Q) (sell_area g) ->
  (sell_fuel g t <= fuel)%nat ->
  exists (g' : GameCore) (sold : list Sold),
    processSellArea fuel g t = Done (g', sold) /\
    map sold_item sold = map item (rev (due_entries t (sell_area g))) /\
    sell_area g' = kept_entries t (sell_area g) /\
    money g' = money_after (rev (due_entries t (sell_area g))) (money g) /\
    sales (level (player g)) (exp (player g)) (rev (due_entries t (sell_area g)))
      (level (player g')) (exp (player g')) (map sold_levelsGained sold).
Proof.
  intros Hl Hinv Hprice Hfuel.
  destruct (processSellArea_spec g t fuel Hl Hinv Hprice Hfuel)
    as (g' & sold & Hrun & _ & Harea & _).
  exists g', sold. split; [exact Hrun|].
  unfold processSellArea in Hrun.
  destruct (processSellArea_for _ _ _ _ _ _) as [[[g1 sold1] flag1]| |] eqn:Hloop;
    cbn [rbind] in Hrun; try discriminate.
  injection Hrun as <- <-.
  apply processSellArea_for_sales in Hloop as (new & Hsold & Hitems & Hm & Hsales).
  rewrite firstn_all in Hitems, Hm, Hsales. cbn [app] in Hsold. subst sold1.
  auto.
Qed.

(** C7: a tick at [t] sells exactly the entries with
    [time_added + timer <= t], the latest entry first and all in the one
    call, and removes them from the sell area.  Each sale adds the price of
    its item to the money and the price times the rarity and the mold
    experience multiplier to the experience, and is resolved into levels
    before the next sale; the multipliers are the experience columns of the
    two tier tables, and 1 for a name the tables do not have.  A tick with
    nothing due changes nothing.  So an item put in the empty sell area at
    [now] is not sold by the tick at [now + 29], is sold by the tick at
    [now + 30], and no later tick returns it. *)
Theorem C7_sell_area_tick :
  (forall (g : GameCore) (t : Q) (fuel : nat),
      1 <= level (player g) ->
      (exp (player g) < inject_Z (requiredExp (level (player g))))%Q ->
      Forall (fun e => (0 <= price e)%Q) (sell_area g) ->
      (sell_fuel g t <= fuel)%nat ->
      exists (g' : GameCore) (sold : list Sold),
        processSellArea fuel g t = Done (g', sold) /\
        map sold_item sold = map item (rev (due_entries t (sell_area g))) /\
        sell_area g' = kept_entries t (sell_area g) /\
        money g' = money_after (rev (due_entries t (sell_area g))) (money g) /\
        sales (level (player g)) (exp (player g)) (rev (due_entries t (sell_area g)))
          (level (player g')) (exp (player g')) (map sold_levelsGained sold)) /\
  (forall (g : GameCore) (t : Q) (fuel : nat),
      (forall e : SellEntry, e ∈ sell_area g -> due t e = false) ->
      processSellArea fuel g t = Done (g, [])) /\
  (forall (g : GameCore) (it : Item.t) (now : Q) (fuel : nat),
      sell_area g = [] ->
      1 <= level (player g) ->
      (exp (player g) < inject_Z (requiredExp (level (player g))))%Q ->
      (0 <= Item.Price it)%Q ->
      (sell_fuel (enqueue g it now) (now + 30) <= fuel)%nat ->
      processSellArea fuel (enqueue g it now) (now + 29) = Done (enqueue g it now, []) /\
      exists (g1 : GameCore) (n : Z),
        processSellArea fuel (enqueue g it now) (now + 30) = Done (g1, [mkSold it n]) /\
        sell_area g1 = [] /\
        money g1 = (money g + Item.Price it)%Q /\
        levels_up (level (player g))
          (exp (player g) +
           Item.Price it * (rarityExpMult (Item.Rarity it) * moldExpMult (Item.Mold it)))
          (level (player g1)) (exp (player g1)) n /\
        forall (fuel' : nat) (t' : Q), processSellArea fuel' g1 t' = Done (g1, [])) /\
  ((forall row : TierRow,
       row ∈ RARITY_TIERS -> row_extras row !! 2%nat = Some (rarityExpMult (row_name row))) /\
   (forall row : TierRow,
       row ∈ MOLD_TIERS -> row_extras row !! 1%nat = Some (moldExpMult (row_name row))) /\
   (forall n : string, n ∉ (row_name <$> RARITY_TIERS) -> rarityExpMult n = 1%Q) /\
   (forall n : string, n ∉ (row_name <$> MOLD_TIERS) -> moldExpMult n = 1%Q)).
Proof.
  split; [|split; [|split]].
  - apply processSellArea_sales.
  - intros g t fuel Hidle. apply processSellArea_idle, Hidle.
  - intros g it now fuel Hempty Hl Hinv Hprice Hfuel.
    set (entry := mkSellEntry it now 30).
    assert (Hq : sell_area (enqueue g it now) = [entry])
      by (unfold enqueue; cbn [sell_area set_sell_area]; rewrite Hempty; reflexivity).
    assert (Hearly : due (now + 29) entry = false)
      by (unfold due; cbn [time_added timer entry]; apply Qleb_false; lra).
    assert (Hlate : due (now + 30) entry = true)
      by (unfold due; cbn [time_added timer entry]; apply Qleb_true; lra).
    split.
    + apply processSellArea_idle. rewrite Hq. intros e He.
      apply list_elem_of_singleton in He. subst e. exact Hearly.
    + destruct (processSellArea_sales (enqueue g it now) (now + 30) fuel)
        as (g1 & sold & Hrun & Hitems & Harea & Hmoney & Hsales).
      { exact Hl. }
      { exact Hinv. }
      { rewrite Hq. apply Forall_singleton. exact Hprice. }
      { exact Hfuel. }
      rewrite Hq in Hitems, Harea, Hmoney, Hsales.
      unfold due_entries, kept_entries in *.
      cbn [List.filter] in Hitems, Harea, Hmoney, Hsales.
      rewrite Hlate in Hitems, Harea, Hmoney, Hsales.
      cbn [negb rev app map item money_after fold_left] in Hitems, Harea, Hmoney, Hsales.
      destruct sold as [|[it' n] [|s sold]]; try discriminate Hitems.
      injection Hitems as ->.
      cbn [map sold_levelsGained] in Hsales.
      inversion Hsales as [|L e entry' rest L1 e1 n' L' e' ns Hlu Hrest]; subst.
      inversion Hrest; subst.
      exists g1, n. split; [exact Hrun|]. split; [exact Harea|].
      split; [exact Hmoney|]. split; [exact Hlu|].
      intros fuel' t'. apply processSellArea_idle. rewrite Harea.
      intros e He. inversion He.
  - split; [exact rarityExpMult_column|]. split; [exact moldExpMult_column|].
    split; intros n Hn.
    + unfold rarityExpMult. rewrite (find_name_unknown _ _ Hn). reflexivity.
    + unfold moldExpMult. rewrite (find_name_unknown _ _ Hn). reflexivity.
Qed.

End Ticks.

(** A rare iron sword worth 120 is put in the sell area of a fresh game at
    time 1000: it is sold by the tick at 1030 for 120 money and
    [120 * (1.5 * 2) = 360] experience, which are two levels and 53 left
    over.  Two swords put in at 1000 and 1010 are both sold by the tick at
    1040, the later one first. *)
Lemma C7_witness :
  let g := @new_GameCore approxMath "player" in
  let it := Item.mk 7 45 "Iron" "Rare" 120 "Sword" 16 20 in
  let it2 := sword 20 10 in
  let fuel := sell_fuel (enqueue g it 1000) (1000 + 30) in
  let g2 := enqueue (enqueue g it 1000) it2 1010 in
  (rarityExpMult "Rare" = 1.5%Q /\ moldExpMult "Iron" = 2%Q /\ rarityExpMult "Shiny" = 1%Q) /\
  (processSellArea fuel (enqueue g it 1000) (1000 + 29) = Done (enqueue g it 1000, []) /\
   exists (g1 : GameCore) (n : Z),
     processSellArea fuel (enqueue g it 1000) (1000 + 30) = Done (g1, [mkSold it n]) /\
     sell_area g1 = [] /\
     money g1 = (money g + 120)%Q /\
     levels_up (level (player g)) (exp (player g) + 120 * (1.5 * 2))
       (level (player g1)) (exp (player g1)) n /\
     n = 2 /\ level (player g1) = 3 /\ (exp (player g1) == 53)%Q /\
     forall (fuel' : nat) (t' : Q), processSellArea fuel' g1 t' = Done (g1, [])) /\
  (exists (g' : GameCore) (sold : list Sold),
     processSellArea (sell_fuel g2 1040) g2 1040 = Done (g', sold) /\
     map sold_item sold = [it2; it] /\
     sell_area g' = [] /\
     money g' = (money g2 + 8 + 120)%Q /\
     sales (level (player g2)) (exp (player g2))
       [mkSellEntry it2 1010 30; mkSellEntry it 1000 30]
       (level (player g')) (exp (player g')) (map sold_levelsGained sold)) /\
  processSellArea 0 g2 1029 = Done (g2, []).
Proof.
  intros g it it2 fuel g2.
  assert (Hl : 1 <= level (player g)) by (unfold g; rewrite new_GameCore_player; cbn; lia).
  assert (Hinv : (exp (player g) < inject_Z (requiredExp (level (player g))))%Q)
    by (unfold g; rewrite new_GameCore_player; vm_compute; reflexivity).
  destruct (@C7_sell_area_tick approxMath) as (Htick & Hidle & Htrip & Hmult).
  destruct Hmult as (Hrar & Hmold & Hrar1 & _).
  assert (HRare : rarityExpMult "Rare" = 1.5%Q).
  { pose proof (Hrar (mkRow "Rare" (threshold_of 45) [7; 4; 1.5]%Q)
                  ltac:(apply list_elem_of_In; vm_compute; tauto)) as H.
    apply (inj Some). symmetry. exact H. }
  assert (HIron : moldExpMult "Iron" = 2%Q).
  { pose proof (Hmold (mkRow "Iron" (threshold_of 20) [3; 2]%Q)
                  ltac:(apply list_elem_of_In; vm_compute; tauto)) as H.
    apply (inj Some). symmetry. exact H. }
  assert (HShiny : rarityExpMult "Shiny" = 1%Q).
  { apply Hrar1. apply (bool_decide_unpack _). vm_compute. exact I. }
  split; [auto|]. split; [|split].
  - destruct (Htrip g it 1000%Q fuel) as (Hearly & g1 & n & Hrun & Harea & Hmoney & Hlu & Hlater).
    + reflexivity.
    + exact Hl.
    + exact Hinv.
    + vm_compute. discriminate.
    + apply le_n.
    + split; [exact Hearly|]. exists g1, n.
      cbn [Item.Price Item.Rarity Item.Mold it] in Hmoney, Hlu.
      rewrite HRare, HIron in Hlu.
      assert (Hc : exists gc, processSellArea fuel (enqueue g it 1000) (1000 + 30)
                              = Done (gc, [mkSold it 2]) /\
                              level (player gc) = 3 /\ (exp (player gc) == 53)%Q)
        by (eexists; split; [vm_compute; reflexivity | split; vm_compute; reflexivity]).
      destruct Hc as (gc & Hc & Hlevel & Hexp).
      rewrite Hrun in Hc. injection Hc as Hg Hn. subst gc.
      repeat (split; [assumption|]). exact Hlater.
  - destruct (Htick g2 1040%Q (sell_fuel g2 1040))
      as (g' & sold & Hrun & Hitems & Harea & Hmoney & Hsales).
    + exact Hl.
    + exact Hinv.
    + unfold g2, enqueue. cbn [sell_area set_sell_area].
      repeat (apply Forall_cons; split; [vm_compute; discriminate|]). apply Forall_nil_2.
    + apply le_n.
    + exists g', sold. split; [exact Hrun|]. split; [exact Hitems|].
      split; [exact Harea|]. split; [exact Hmoney | exact Hsales].
  - apply Hidle. intros e He.
    change (sell_area g2) with [mkSellEntry it 1000 30; mkSellEntry it2 1010 30] in He.
    apply elem_of_cons in He as [->|He]; [reflexivity|].
    apply list_elem_of_singleton in He as ->. reflexivity.
Defined.

(* ================================================================== *)
(** * The weapons the game makes, and the caller of [fightEnemy] *)
(* ================================================================== *)

Section Weapons.
Context {M : JSMath}.

Lemma RARITY_TIERS_damage (row : TierRow) :
  row ∈ RARITY_TIERS ->
  exists a b c : Q, row_extras row = [a; b; c] /\ (1 <= b)%Q.
Proof.
  revert row. apply Forall_forall. unfold RARITY_TIERS.
  repeat (apply Forall_cons; split;
          [cbn; do 3 eexists; split; [reflexivity | vm_compute; discriminate]|]).
  apply Forall_nil_2.
Qed.

Lemma WEAPON_TYPES_defense (w : WeaponType) :
  w ∈ WEAPON_TYPES -> (5 <= w_defense w)%Q.
Proof.
  revert w. apply Forall_forall. unfold WEAPON_TYPES.
  repeat (apply Forall_cons; split; [vm_compute; discriminate|]). apply Forall_nil_2.
Qed.

Lemma getWeapon_in_table (g : GameCore) (u_weapon : Q) (w : WeaponType) :
  getWeapon g u_weapon = Some w -> w ∈ WEAPON_TYPES.
Proof.
  unfold getWeapon. intros Hw.
  apply list_elem_of_lookup_2, list_elem_of_In, filter_In in Hw as [Hw _].
  apply list_elem_of_In, Hw.
Qed.

(** Every item [itemGen] makes has a defense of at least 2.5: the division
    in [fightEnemy] does not meet a zero with it. *)
Lemma itemGen_defense (g : GameCore) (u_weapon u_rarity u_mold threshold now : Q)
    (g' : GameCore) (out : ItemGen) :
  itemGen g u_weapon u_rarity u_mold threshold now = Done (g', out) ->
  (2.5 <= Item.Defense (itemInfo out))%Q.
Proof.
  unfold itemGen.
  destruct (getWeapon g u_weapon) as [weaponData|] eqn:Hw; cbn [rbind defined]; [|discriminate].
  apply getWeapon_in_table, WEAPON_TYPES_defense in Hw.
  unfold rngGen. cbv zeta.
  destruct (getTier _ RARITY_TIERS _) as [rr| |] eqn:Hrr; cbn [rbind]; try discriminate.
  destruct (getTier _ MOLD_TIERS _) as [mr| |] eqn:Hmr; cbn [rbind]; try discriminate.
  destruct (getTier_in_table _ _ _ _ Hrr) as (rrow & Hrin & _ & Hrv & _).
  destruct (getTier_in_table _ _ _ _ Hmr) as (mrow & Hmin & _ & Hmv & _).
  destruct (RARITY_TIERS_damage rrow Hrin) as (a & b & c & Hrex & Hb).
  destruct (MOLD_TIERS_columns mrow Hmin) as (a' & b' & Hmex).
  unfold column. rewrite Hrv, Hmv, Hrex, Hmex.
  cbn [lookup list_lookup rbind defined rarity moldInfo combinedActual rarityResult moldResult].
  destruct (next_item_id g) as [itemId g1].
  intros [= <- <-]. cbn [itemInfo Item.Defense]. nra.
Qed.

(** The caller does nothing when the index holds no enemy. *)
Lemma ui_fightEnemy_vanished (fuel : nat) (g : GameCore) (areaIndex enemyIndex : nat)
    (u_weapon u_mold : Q) (area : Area) (enemies : list Enemy.t) :
  AREAS !! areaIndex = Some area ->
  spawned_enemies g !! area_name area = Some enemies ->
  (length enemies <= enemyIndex)%nat ->
  ui_fightEnemy fuel g areaIndex enemyIndex u_weapon u_mold = Done (g, None).
Proof.
  intros Harea Hlist Hlen. unfold ui_fightEnemy.
  rewrite Harea. cbn [rbind defined]. rewrite Hlist. cbn [rbind defined].
  rewrite (lookup_ge_None_2 enemies enemyIndex Hlen). reflexivity.
Qed.

End Weapons.

(* ================================================================== *)
(** * The code on concrete inputs *)
(* ================================================================== *)

(** The first and the last rarity tier. *)
Example getTier_zenith :
  getTier 5000000000000 RARITY_TIERS 1 =
    Done (mkTierResult "Zenith" 5000000000000 0 5000000000000 [10000; 500; 100]%Q).
Proof. vm_compute. reflexivity. Qed.

Example getTier_common :
  tier <$> (match getTier (10 ^ 20) RARITY_TIERS 1 with Done r => Some r | _ => None end)
    = Some "Common".
Proof. vm_compute. reflexivity. Qed.

(** A fresh game: the costs [recalculate] stores, and the first
    requirements. *)
Example fresh_game_costs :
  let g := @new_GameCore approxMath "player" in
  mold_cost g = 4 /\ luck_cost g = 6 /\
  requiredExp 1 = 100 /\ requiredExp 2 = 207.
Proof. vm_compute. repeat split. Qed.

(** Three mold levels from level 1 cost [4 + 7 + 11]. *)
Example upgradeMold_three_levels :
  let g := set_money 100 (@new_GameCore approxMath "player") in
  upgradeMold_total 3 0 (mold_level g) = 22 /\
  (money (fst (upgradeMold g 3)) == 100 - 22)%Q /\
  mold_level (fst (upgradeMold g 3)) = 4 /\
  message (snd (upgradeMold g 3)) = "Upgraded mold level 3 times!".
Proof. vm_compute. repeat split. Qed.

(** 150 experience in a fresh game: one level, 50 experience left. *)
Example addExperience_150 :
  exists g' : GameCore,
    @addExperience approxMath 10 (new_GameCore "player") 150 = Done (g', 1) /\
    level (player g') = 2 /\ (exp (player g') == 50)%Q.
Proof. eexists. split; [vm_compute; reflexivity|]. split; reflexivity. Qed.

(** A recycled id is used before the counter. *)
Example next_item_id_recycled :
  let g := set_item_id_counter 3 (set_recycled_ids [1] (@new_GameCore approxMath "player")) in
  fst (next_item_id g) = 1 /\
  recycled_ids (snd (next_item_id g)) = [] /\
  fst (next_item_id (snd (next_item_id g))) = 3.
Proof. repeat split. Qed.

(* ================================================================== *)
(** * More of game-core.js and game-ui.js: levelling and upgrades *)
(* ================================================================== *)

(** The part of [showUpgrades] of game-ui.js that computes: it runs
    [recalculate] and counts, for each track, how many upgrades the money
    pays for.  The two [while] loops: *)
Section ShowUpgrades.
Context {M : JSMath}.

Fixpoint showUpgrades_mold_while (fuel : nat) (g : GameCore)
    (maxMold tempCost tempLevel : Z) : result Z :=
  match fuel with
  | O => OutOfFuel
  | S fuel' =>
      if Qleb (inject_Z tempCost) (money g) then
        let maxMold := maxMold + 1 in
        let tempLevel := tempLevel + 1 in
        let tempCost := tempCost + (Math_round (Math_pow (inject_Z tempLevel) 1.9) + 3) in
        showUpgrades_mold_while fuel' g maxMold tempCost tempLevel
      else Done maxMold
  end.

Fixpoint showUpgrades_luck_while (fuel : nat) (g : GameCore)
    (maxLuck tempCost tempLevel : Z) : result Z :=
  match fuel with
  | O => OutOfFuel
  | S fuel' =>
      if Qleb (inject_Z tempCost) (money g) then
        let maxLuck := maxLuck + 1 in
        let tempLevel := tempLevel + 1 in
        let tempCost := tempCost + (Math_round (Math_pow (inject_Z tempLevel) 2.4) + 5) in
        showUpgrades_luck_while fuel' g maxLuck tempCost tempLevel
      else Done maxLuck
  end.

(** The object after [recalculate], [maxMold] and [maxLuck]. *)
Definition showUpgrades (fuel : nat) (g : GameCore) : result (GameCore * Z * Z) :=
  let g := recalculate g in
  let* maxMold := showUpgrades_mold_while fuel g 0 (mold_cost g) (mold_level g) in
  let* maxLuck := showUpgrades_luck_while fuel g 0 (luck_cost g) (luck_level g) in
  Done (g, maxMold, maxLuck).

End ShowUpgrades.

(** The requirements of [n] levels from level [lvl]. *)
Fixpoint required_total {M : JSMath} (n : nat) (lvl : Z) : Z :=
  match n with
  | O => 0
  | S n' => requiredExp lvl + required_total n' (lvl + 1)
  end.

Section LevellingMore.
Context {M : JSMath}.

Lemma levels_up_conserves (L : Z) (e : Q) (L' : Z) (e' : Q) (n : Z) :
  levels_up L e L' e' n ->
  (e == e' + inject_Z (required_total (Z.to_nat n) L))%Q /\
  ((0 <= e)%Q -> (0 <= e')%Q).
Proof.
  induction 1 as [L e Hlt | L e L' e' n Hle Hlu [IHsum IHpos]].
  - change (Z.to_nat 0) with O. cbn [required_total].
    change (inject_Z 0) with 0%Q. split; [ring | auto].
  - pose proof (levels_up_facts _ _ _ _ _ Hlu) as (Hn & _ & _).
    replace (Z.to_nat (n + 1)) with (S (Z.to_nat n)) by lia.
    cbn [required_total]. rewrite inject_Z_plus. split.
    + lra.
    + intros _. apply IHpos. lra.
Qed.

(** The experience is conserved by [checkLevelUp]: what it takes away is
    the sum of the requirements of the levels it passes, the levels go up
    by the number it returns, and experience that was not negative does not
    become negative. *)
Theorem checkLevelUp_conserves_experience (fuel : nat) (g g' : GameCore) (n : Z) :
  checkLevelUp fuel g = Done (g', n) ->
  0 <= n /\
  level (player g') = level (player g) + n /\
  (exp (player g) ==
     exp (player g') + inject_Z (required_total (Z.to_nat n) (level (player g))))%Q /\
  ((0 <= exp (player g))%Q -> (0 <= exp (player g'))%Q) /\
  (exp (player g') < inject_Z (requiredExp (level (player g'))))%Q.
Proof.
  intros Hrun. apply checkLevelUp_levels_up in Hrun.
  pose proof (levels_up_facts _ _ _ _ _ Hrun) as (Hn & HL & Hlt).
  pose proof (levels_up_conserves _ _ _ _ _ Hrun) as (Hsum & Hpos).
  auto.
Qed.

(** More experience never ends at a lower level: of two awards to the same
    player, the larger one gains at least as many levels. *)
Theorem addExperience_monotone (g : GameCore) (a b : Q) (fuel fuel' : nat)
    (ga gb : GameCore) (na nb : Z) :
  1 <= level (player g) ->
  (a <= b)%Q ->
  addExperience fuel g a = Done (ga, na) ->
  addExperience fuel' g b = Done (gb, nb) ->
  na <= nb /\ level (player ga) <= level (player gb).
Proof.
  intros Hl Hab Ha Hb. unfold addExperience in Ha, Hb.
  apply checkLevelUp_levels_up in Ha, Hb.
  cbn [level exp player set_exp set_player] in Ha, Hb.
  pose proof (levels_up_facts _ _ _ _ _ Ha) as (Hna & HLa & _).
  pose proof (levels_up_facts _ _ _ _ _ Hb) as (Hnb & HLb & _).
  assert (Hga : 1 <= level (player ga)). by lia.
  destruct (addExperience_run ga (b - a) (levelup_fuel (set_exp (exp (player ga) + (b - a)) ga))
              Hga (le_n _)) as (g2 & n2 & _ & Hlu2).
  pose proof (levels_up_facts _ _ _ _ _ Hlu2) as (Hn2 & _ & _).
  assert (Hba : (0 <= b - a)%Q) by lra.
  destruct (levels_up_add _ _ _ _ _ Ha _ _ _ _ Hba Hlu2) as (y & _ & Hsum).
  assert (Heq : (exp (player g) + a + (b - a) == exp (player g) + b)%Q) by ring.
  destruct (levels_up_det _ _ _ _ _ Hsum _ _ _ _ Heq Hb) as (_ & _ & Hn).
  lia.
Qed.

End LevellingMore.

(** In a fresh game 150 experience is one level and 50 left over; 150 and
    500 experience compared. *)
Lemma checkLevelUp_conserves_experience_witness :
  exists g' : GameCore,
    @checkLevelUp approxMath 10 (set_exp 150 (new_GameCore "player")) = Done (g', 1) /\
    level (player g') = 1 + 1 /\
    (150 == exp (player g') + inject_Z (required_total (Z.to_nat 1) 1))%Q /\
    (0 <= exp (player g'))%Q.
Proof.
  eexists. split; [vm_compute; reflexivity|].
  match goal with
  | |- level (player ?g1) = _ /\ _ =>
      assert (Hrun : @checkLevelUp approxMath 10 (set_exp 150 (new_GameCore "player"))
                     = Done (g1, 1)) by (vm_compute; reflexivity)
  end.
  destruct (@checkLevelUp_conserves_experience approxMath _ _ _ _ Hrun)
    as (_ & HL & Hsum & Hpos & _).
  split; [exact HL|]. split; [exact Hsum|]. apply Hpos. vm_compute. discriminate.
Defined.

Lemma addExperience_monotone_witness :
  exists (ga gb : GameCore) (na nb : Z),
    @addExperience approxMath 10 (new_GameCore "player") 150 = Done (ga, na) /\
    @addExperience approxMath 10 (new_GameCore "player") 500 = Done (gb, nb) /\
    na <= nb /\ level (player ga) <= level (player gb).
Proof.
  assert (Ha : exists ga na, @addExperience approxMath 10 (new_GameCore "player") 150
                             = Done (ga, na)) by (do 2 eexists; vm_compute; reflexivity).
  assert (Hb : exists gb nb, @addExperience approxMath 10 (new_GameCore "player") 500
                             = Done (gb, nb)) by (do 2 eexists; vm_compute; reflexivity).
  destruct Ha as (ga & na & Ha), Hb as (gb & nb & Hb).
  exists ga, gb, na, nb. split; [exact Ha|]. split; [exact Hb|].
  apply (@addExperience_monotone approxMath (new_GameCore "player") 150 500 10 10 ga gb na nb);
    [rewrite new_GameCore_player; cbn; lia | vm_compute; discriminate | exact Ha | exact Hb].
Defined.

Section UpgradesMore.
Context {M : JSMath}.

Lemma Math_round_pow_ge_1 (lvl : Z) (y : Q) :
  1 <= lvl -> (0 <= y)%Q -> 1 <= Math_round (Math_pow (inject_Z lvl) y).
Proof.
  intros Hl Hy. unfold Math_round. apply Qfloor_ge_Z.
  assert (H1 : (1 <= inject_Z lvl)%Q) by (rewrite Zle_Qle in Hl; exact Hl).
  pose proof (Math_pow_ge_1 _ _ H1 Hy) as Hp. change (inject_Z 1) with 1%Q. lra.
Qed.

Lemma moldUnitCost_ge_4 (lvl : Z) : 1 <= lvl -> 4 <= moldUnitCost lvl.
Proof.
  intros Hl. unfold moldUnitCost.
  assert (Hy : (0 <= 1.9)%Q) by (unfold Qle; cbn; lia).
  pose proof (Math_round_pow_ge_1 lvl _ Hl Hy) as Hr. revert Hr.
  generalize (Math_round (Math_pow (inject_Z lvl) 1.9)). intros z Hz. lia.
Qed.

Lemma upgradeMold_total_snoc (n : nat) :
  forall lvl : Z,
    upgradeMold_total (S n) 0 lvl =
    upgradeMold_total n 0 lvl + moldUnitCost (lvl + Z.of_nat n).
Proof.
  induction n as [|n IH]; intros lvl.
  - rewrite upgradeMold_total_S. cbn [upgradeMold_total].
    change (Z.of_nat 0) with 0. rewrite (Z.add_0_r lvl). ring.
  - rewrite upgradeMold_total_S, IH, (upgradeMold_total_S n).
    replace (lvl + 1 + Z.of_nat n) with (lvl + Z.of_nat (S n)) by lia. ring.
Qed.

Lemma upgradeMold_total_mono (lvl : Z) (n m : nat) :
  1 <= lvl -> (n <= m)%nat ->
  upgradeMold_total n 0 lvl + 4 * (Z.of_nat m - Z.of_nat n) <= upgradeMold_total m 0 lvl.
Proof.
  intros Hl. induction 1 as [|m Hle IH]; [lia|].
  rewrite upgradeMold_total_snoc.
  pose proof (moldUnitCost_ge_4 (lvl + Z.of_nat m) ltac:(lia)). lia.
Qed.

Lemma upgradeMold_buy_frame (n : nat) :
  forall g : GameCore,
    player (upgradeMold_buy n g) = player g /\
    luck_level (upgradeMold_buy n g) = luck_level g /\
    luck_cost (upgradeMold_buy n g) = luck_cost g /\
    item_storage (upgradeMold_buy n g) = item_storage g /\
    sell_area (upgradeMold_buy n g) = sell_area g /\
    spawned_enemies (upgradeMold_buy n g) = spawned_enemies g.
Proof.
  induction n as [|n IH]; intros g; [repeat split|].
  cbn [upgradeMold_buy].
  match goal with |- context [upgradeMold_buy n ?g1] => destruct (IH g1) as (H1 & H2 & H3 & H4 & H5 & H6) end.
  rewrite H1, H2, H3, H4, H5, H6. repeat split.
Qed.

(** A mold purchase that goes through, on an object whose stored cost is
    the cost of its level (as the constructor, [recalculate] and
    [upgradeMold] itself leave it): the level rises by the count, the stored
    cost is again the cost of the new level, the money goes down and does
    not go below zero, and the player, the luck track and the items are as
    they were. *)
Theorem upgradeMold_success_keeps_invariants (g : GameCore) (amount : Z) :
  1 <= mold_level g ->
  mold_cost g = moldUnitCost (mold_level g) ->
  success (snd (upgradeMold g amount)) = true ->
  let g' := fst (upgradeMold g amount) in
  mold_level g' = mold_level g + amount /\
  mold_cost g' = moldUnitCost (mold_level g') /\
  (0 <= money g')%Q /\ (money g' < money g)%Q /\
  player g' = player g /\ luck_level g' = luck_level g /\ luck_cost g' = luck_cost g /\
  item_storage g' = item_storage g /\ sell_area g' = sell_area g.
Proof.
  intros Hl Hcost Hs g'.
  pose proof (upgradeMold_charges_total g amount Hcost Hs) as Hm.
  destruct (upgradeMold_success g amount Hs) as (Ha & Hafford & _).
  fold g' in Hm.
  assert (Hg' : g' = updateLuckMult (upgradeMold_buy (Z.to_nat amount) g)).
  { unfold g', upgradeMold. destruct (Z.leb_spec amount 0) as [|_]; [lia|].
    apply Qltb_false in Hafford. rewrite Hafford. reflexivity. }
  destruct (Z.to_nat amount) as [|n] eqn:Hn; [clear - Ha Hn; lia|].
  destruct (upgradeMold_buy_spec n g) as (_ & Hlvl & Hc).
  destruct (upgradeMold_buy_frame (S n) g) as (H1 & H2 & H3 & H4 & H5 & _).
  pose proof (upgradeMold_total_mono (mold_level g) 0 (S n) Hl ltac:(lia)) as Hpos.
  change (upgradeMold_total 0 0 (mold_level g)) with 0 in Hpos.
  assert (Hq : (inject_Z 4 <= inject_Z (upgradeMold_total (S n) 0 (mold_level g)))%Q).
  { rewrite <- Zle_Qle. lia. }
  change (inject_Z 4) with 4%Q in Hq.
  rewrite Hg'.
  change (mold_level (updateLuckMult ?x)) with (mold_level x).
  change (mold_cost (updateLuckMult ?x)) with (mold_cost x).
  change (player (updateLuckMult ?x)) with (player x).
  change (luck_level (updateLuckMult ?x)) with (luck_level x).
  change (luck_cost (updateLuckMult ?x)) with (luck_cost x).
  change (item_storage (updateLuckMult ?x)) with (item_storage x).
  change (sell_area (updateLuckMult ?x)) with (sell_area x).
  rewrite Hg' in Hm.
  rewrite Hlvl, Hc, H1, H2, H3, H4, H5.
  repeat split; try reflexivity; try lra.
  lia.
Qed.

(** ** The counts that [showUpgrades] displays *)

Lemma showUpgrades_mold_while_spec (g : GameCore) (L : Z) (fuel : nat) :
  1 <= L ->
  forall k : nat,
    (Z.to_nat (Qfloor (money g) - upgradeMold_total (S k) 0 L + 4) < 4 * fuel)%nat ->
    exists m : nat,
      showUpgrades_mold_while fuel g (Z.of_nat k) (upgradeMold_total (S k) 0 L)
        (L + Z.of_nat k) = Done (Z.of_nat m) /\
      (k <= m)%nat /\
      (k < m -> (inject_Z (upgradeMold_total m 0 L) <= money g)%Q)%nat /\
      (money g < inject_Z (upgradeMold_total (S m) 0 L))%Q.
Proof.
  intros HL. induction fuel as [|fuel IH]; intros k Hfuel; [lia|].
  cbn [showUpgrades_mold_while].
  destruct (Qleb _ _) eqn:Hle.
  - apply Qleb_true in Hle.
    pose proof (Qfloor_ge_Z _ _ Hle) as Hfl.
    pose proof (moldUnitCost_ge_4 (L + Z.of_nat (S k)) ltac:(lia)) as Hunit.
    pose proof (upgradeMold_total_snoc (S k) L) as Hsn.
    destruct (IH (S k)) as (m & Hrun & Hkm & Hpaid & Hstop); [lia|].
    exists m.
    replace (Z.of_nat k + 1) with (Z.of_nat (S k)) by lia.
    replace (L + Z.of_nat k + 1) with (L + Z.of_nat (S k)) by lia.
    fold (moldUnitCost (L + Z.of_nat (S k))). rewrite <- Hsn.
    split; [exact Hrun|]. split; [lia|]. split; [|exact Hstop].
    intros _. destruct (decide (S k = m)) as [<-|Hne]; [exact Hle|]. apply Hpaid. lia.
  - apply Qleb_false in Hle. exists k. split; [reflexivity|]. split; [lia|].
    split; [lia | exact Hle].
Qed.

Lemma showUpgrades_luck_while_returns (g : GameCore) (fuel : nat) :
  forall maxLuck tempCost tempLevel : Z,
    0 <= tempLevel ->
    (Z.to_nat (Qfloor (money g) - tempCost + 1) < fuel)%nat ->
    exists m : Z, showUpgrades_luck_while fuel g maxLuck tempCost tempLevel = Done m.
Proof.
  induction fuel as [|fuel IH]; intros maxLuck tempCost tempLevel Hl Hfuel; [lia|].
  - cbn [showUpgrades_luck_while].
    destruct (Qleb _ _) eqn:Hle; [|eauto].
    apply Qleb_true in Hle. pose proof (Qfloor_ge_Z _ _ Hle) as Hfl.
    assert (Hy : (0 <= 2.4)%Q) by (unfold Qle; cbn; lia).
    pose proof (Math_round_pow_ge_1 (tempLevel + 1) _ ltac:(lia) Hy) as Hr.
    apply IH; [lia|]. revert Hr.
    generalize (Math_round (Math_pow (inject_Z (tempLevel + 1)) 2.4)). intros z Hz. lia.
Qed.

(** With levels of at least 1, [showUpgrades] returns, and the mold count
    it displays is exactly the largest count that [upgradeMold] accepts on
    the object it leaves: a count is accepted if and only if it lies between
    1 and [maxMold]. *)
Theorem showUpgrades_maxMold_is_largest_accepted (g : GameCore) (fuel : nat) :
  1 <= mold_level g ->
  1 <= luck_level g ->
  (Z.to_nat (Qfloor (money g)) < fuel)%nat ->
  exists maxMold maxLuck : Z,
    showUpgrades fuel g = Done (recalculate g, maxMold, maxLuck) /\
    0 <= maxMold /\
    forall amount : Z,
      success (snd (upgradeMold (recalculate g) amount)) = true <->
      1 <= amount <= maxMold.
Proof.
  intros Hm Hl Hfuel. unfold showUpgrades.
  destruct (recalculate_costs g) as (Hmc & Hlc & Hml & Hll & Hmon).
  set (g1 := recalculate g) in *.
  assert (Hstart : mold_cost g1 = upgradeMold_total 1 0 (mold_level g1)).
  { rewrite Hmc, Hml. cbn [upgradeMold_total]. unfold moldUnitCost. ring. }
  pose proof (moldUnitCost_ge_4 (mold_level g) Hm) as Hc4.
  destruct (showUpgrades_mold_while_spec g1 (mold_level g1) fuel ltac:(lia) 0%nat)
    as (m & Hrun & _ & Hpaid & Hstop).
  { rewrite <- Hstart, Hmc, Hmon. lia. }
  change (Z.of_nat 0) with 0 in Hrun. rewrite Z.add_0_r, <- Hstart in Hrun.
  destruct (showUpgrades_luck_while_returns g1 fuel 0 (luck_cost g1) (luck_level g1)
              ltac:(lia)) as (ml & Hrunl).
  { rewrite Hlc, Hmon. unfold luckRecalculatedCost.
    assert (Hy : (0 <= 2.4)%Q) by (unfold Qle; cbn; lia).
    pose proof (Math_round_pow_ge_1 (luck_level g) _ Hl Hy) as Hr. revert Hr.
    generalize (Math_round (Math_pow (inject_Z (luck_level g)) 2.4)). intros z Hz. lia. }
  exists (Z.of_nat m), ml. rewrite Hrun. cbn [rbind]. rewrite Hrunl. cbn [rbind].
  split; [reflexivity|]. split; [lia|].
  intros amount. split.
  - intros Hs. destruct (upgradeMold_success g1 amount Hs) as (Ha & Hafford & _).
    split; [exact Ha|].
    destruct (Z.le_gt_cases amount (Z.of_nat m)) as [|Hgt]; [assumption|exfalso].
    pose proof (upgradeMold_total_mono (mold_level g1) (S m) (Z.to_nat amount)
                  ltac:(lia) ltac:(lia)) as Hmono.
    assert (Hq : (inject_Z (upgradeMold_total (S m) 0 (mold_level g1)) <=
                  inject_Z (upgradeMold_total (Z.to_nat amount) 0 (mold_level g1)))%Q).
    { rewrite <- Zle_Qle. lia. }
    lra.
  - intros [Ha Hle]. unfold upgradeMold.
    destruct (Z.leb_spec amount 0) as [|_]; [lia|].
    pose proof (upgradeMold_total_mono (mold_level g1) (Z.to_nat amount) m
                  ltac:(lia) ltac:(lia)) as Hmono.
    assert (Hq : (inject_Z (upgradeMold_total (Z.to_nat amount) 0 (mold_level g1)) <=
                  inject_Z (upgradeMold_total m 0 (mold_level g1)))%Q).
    { rewrite <- Zle_Qle. lia. }
    pose proof (Hpaid ltac:(lia)) as Hp.
    assert (Hok : Qltb (money g1) (inject_Z (upgradeMold_total (Z.to_nat amount) 0 (mold_level g1)))
                  = false) by (apply Qltb_false; lra).
    rewrite Hok. reflexivity.
Qed.

End UpgradesMore.

(** A fresh game with 30 money: two mold levels are paid (4 + 7), the
    stored cost is then that of level 3. *)
Lemma upgradeMold_success_keeps_invariants_witness :
  let g := set_money 30 (@new_GameCore approxMath "player") in
  let g' := fst (upgradeMold g 2) in
  1 <= mold_level g /\ mold_cost g = moldUnitCost (mold_level g) /\
  success (snd (upgradeMold g 2)) = true /\
  mold_level g' = mold_level g + 2 /\
  mold_cost g' = moldUnitCost (mold_level g') /\
  (0 <= money g')%Q /\ (money g' < money g)%Q /\
  player g' = player g /\ luck_level g' = luck_level g /\ luck_cost g' = luck_cost g /\
  item_storage g' = item_storage g /\ sell_area g' = sell_area g.
Proof.
  intros g g'.
  assert (Hl : 1 <= mold_level g) by (vm_compute; discriminate).
  assert (Hc : mold_cost g = moldUnitCost (mold_level g)) by (vm_compute; reflexivity).
  assert (Hs : success (snd (upgradeMold g 2)) = true) by (vm_compute; reflexivity).
  split; [exact Hl|]. split; [exact Hc|]. split; [exact Hs|].
  exact (@upgradeMold_success_keeps_invariants approxMath g 2 Hl Hc Hs).
Defined.

(** A fresh game with 30 money: the panel shows a count for which every
    amount up to it is accepted. *)
Lemma showUpgrades_maxMold_is_largest_accepted_witness :
  let g := set_money 30 (@new_GameCore approxMath "player") in
  1 <= mold_level g /\ 1 <= luck_level g /\
  (Z.to_nat (Qfloor (money g)) < 31)%nat /\
  exists maxMold maxLuck : Z,
    showUpgrades 31 g = Done (recalculate g, maxMold, maxLuck) /\
    0 <= maxMold /\
    forall amount : Z,
      success (snd (upgradeMold (recalculate g) amount)) = true <->
      1 <= amount <= maxMold.
Proof.
  intros g.
  assert (Hm : 1 <= mold_level g) by (vm_compute; discriminate).
  assert (Hl : 1 <= luck_level g) by (vm_compute; discriminate).
  assert (Hf : (Z.to_nat (Qfloor (money g)) < 31)%nat) by (vm_compute; lia).
  split; [exact Hm|]. split; [exact Hl|]. split; [exact Hf|].
  exact (@showUpgrades_maxMold_is_largest_accepted approxMath g 31 Hm Hl Hf).
Defined.

(** The luck count of the panel adds up [round(L^2.4) + 5] per level where
    [upgradeLuck] adds up [round(L^2.1) + 4]: with 27 money the panel shows
    2 and a purchase of 3 goes through. *)
Example showUpgrades_luck_count_27 :
  let g := set_money 27 (@new_GameCore approxMath "player") in
  (exists maxMold : Z, showUpgrades 28 g = Done (recalculate g, maxMold, 2)) /\
  success (snd (upgradeLuck (recalculate g) 3)) = true.
Proof. split; [eexists|]; vm_compute; reflexivity. Qed.

(* ================================================================== *)
(** * More of [fightEnemy]: who wins, and what a victory removes *)
(* ================================================================== *)

(** The number of hits of [d] that bring [health] to zero or below. *)
Definition hits_to_kill (health d : Z) : Z := (health + d - 1) / d.

Section CombatMore.
Context {M : JSMath}.

Lemma hits_to_kill_last (health d : Z) :
  0 < health -> health - d <= 0 -> hits_to_kill health d = 1.
Proof.
  intros Hh Hd. unfold hits_to_kill.
  symmetry. apply (Z.div_unique_pos _ _ 1 (health - 1)); lia.
Qed.

Lemma hits_to_kill_step (health d : Z) :
  1 <= d -> 0 < health - d ->
  hits_to_kill health d = hits_to_kill (health - d) d + 1.
Proof.
  intros Hd Hh. unfold hits_to_kill.
  replace (health + d - 1) with (health - d + d - 1 + 1 * d) by lia.
  rewrite Z.div_add by lia. reflexivity.
Qed.

Lemma hits_to_kill_pos (health d : Z) : 1 <= d -> 0 < health -> 1 <= hits_to_kill health d.
Proof.
  intros Hd Hh. unfold hits_to_kill.
  apply Z.div_le_lower_bound; lia.
Qed.

(** A defeat, and the exit that follows no exchange, return the object as it
    was. *)
Lemma fightEnemy_while_lost (areaName : string) (enemy : Enemy.t) (u_weapon u_mold : Q)
    (g : GameCore) (fuel : nat) :
  forall (playerHealth : jsnum) (enemyHealth : Z) (g' : GameCore) (msg : string),
    fightEnemy_while fuel g areaName enemy u_weapon u_mold playerHealth enemyHealth
      = Done (g', Lost msg) ->
    g' = g.
Proof.
  induction fuel as [|fuel IH]; intros playerHealth enemyHealth g' msg; [discriminate|].
  cbn [fightEnemy_while].
  destruct (js_gt0 playerHealth && (0 <? enemyHealth)); [|intros [= <- _]; reflexivity].
  destruct (equipped (player g)) as [weapon|]; cbn [rbind defined]; [|discriminate].
  destruct (enemyHealth - Math_floor (Item.Damage weapon) <=? 0).
  - destruct (checkLevelUp fuel _) as [[g1 n1]| |]; cbn [rbind]; try discriminate.
    destruct (spawned_enemies g1 !! areaName); cbn [rbind defined]; [|discriminate].
    destruct (Enemy.Elite enemy || bool_decide (areaName = "Champions Hall")); [|discriminate].
    destruct (enemyLoot _ _ _ _) as [[g2 drop]| |]; cbn [rbind]; discriminate.
  - destruct (js_le0 _); [intros [= <- _]; reflexivity|]. apply IH.
Qed.

(** What a victory does to the lists of enemies. *)
Lemma fightEnemy_while_victory (areaName : string) (enemy : Enemy.t) (u_weapon u_mold : Q)
    (g : GameCore) (enemies : list Enemy.t) (fuel : nat) :
  spawned_enemies g !! areaName = Some enemies ->
  forall (playerHealth : jsnum) (enemyHealth : Z) (g' : GameCore)
         (e c n : Z) (drop : option Item.t),
    fightEnemy_while fuel g areaName enemy u_weapon u_mold playerHealth enemyHealth
      = Done (g', Victory e c n drop) ->
    spawned_enemies g' =
      match findIndex_enemy enemies enemy with
      | Some i => <[areaName := delete i enemies]> (spawned_enemies g)
      | None => spawned_enemies g
      end.
Proof.
  intros Harea.
  induction fuel as [|fuel IH]; intros playerHealth enemyHealth g' e c n drop; [discriminate|].
  cbn [fightEnemy_while].
  destruct (js_gt0 playerHealth && (0 <? enemyHealth)); [|discriminate].
  destruct (equipped (player g)) as [weapon|]; cbn [rbind defined]; [|discriminate].
  destruct (enemyHealth - Math_floor (Item.Damage weapon) <=? 0).
  - destruct (checkLevelUp fuel _) as [[g1 n1]| |] eqn:Hrun; cbn [rbind]; try discriminate.
    destruct (checkLevelUp_keeps _ _ _ _ Hrun) as (_ & Hse & _).
    cbn [spawned_enemies set_exp set_player set_money] in Hse.
    rewrite Hse, Harea. cbn [rbind defined].
    assert (Hafter :
      spawned_enemies
        match findIndex_enemy enemies enemy with
        | Some enemyIndex =>
            set_spawned_enemies (<[areaName := delete enemyIndex enemies]> (spawned_enemies g)) g1
        | None => g1
        end =
      match findIndex_enemy enemies enemy with
      | Some i => <[areaName := delete i enemies]> (spawned_enemies g)
      | None => spawned_enemies g
      end).
    { destruct (findIndex_enemy enemies enemy); cbn [spawned_enemies set_spawned_enemies];
        [reflexivity | exact Hse]. }
    destruct (Enemy.Elite enemy || bool_decide (areaName = "Champions Hall")).
    + destruct (enemyLoot _ _ _ _) as [[g2 drop']| |] eqn:Hloot; cbn [rbind]; try discriminate.
      destruct (enemyLoot_frame _ _ _ _ _ _ Hloot) as (_ & _ & Hse2 & _).
      intros [= <- _ _ _ _]. cbn [spawned_enemies set_item_storage].
      rewrite Hse2. exact Hafter.
    + intros [= <- _ _ _ _]. exact Hafter.
  - destruct (js_le0 _); [discriminate|]. apply IH.
Qed.

Lemma delete_NoDup_oid (enemies : list Enemy.t) (i : nat) (x y : Enemy.t) :
  NoDup (Enemy.oid <$> enemies) ->
  enemies !! i = Some x -> y ∈ delete i enemies -> Enemy.oid y <> Enemy.oid x.
Proof.
  intros Hnd Hi Hy Heq.
  apply list_elem_of_lookup_1 in Hy as [j Hj].
  assert (Hj' : exists j' : nat, j' <> i /\ enemies !! j' = Some y).
  { destruct (decide (j < i)%nat) as [Hlt|Hge].
    - exists j. split; [lia|]. rewrite list_lookup_delete_lt in Hj by exact Hlt. exact Hj.
    - exists (S j). split; [lia|]. rewrite list_lookup_delete_ge in Hj by lia. exact Hj. }
  destruct Hj' as (j' & Hne & Hj').
  apply Hne. apply (NoDup_lookup _ _ _ (Enemy.oid x) Hnd).
  - rewrite list_lookup_fmap, Hj'. cbn. f_equal. exact Heq.
  - rewrite list_lookup_fmap, Hi. reflexivity.
Qed.

(** A victory over an enemy that is in the list of its area takes exactly
    that enemy out: the list loses the first entry that is this object, the
    lists of the other areas stay, and when the objects of the list are
    distinct the enemy is in it no more. *)
Theorem fightEnemy_victory_removes_enemy (g : GameCore) (areaName : string)
    (enemy : Enemy.t) (dropItems : bool) (u_weapon u_mold : Q)
    (enemies : list Enemy.t) (i : nat) (fuel : nat)
    (g' : GameCore) (e c n : Z) (drop : option Item.t) :
  spawned_enemies g !! areaName = Some enemies ->
  findIndex_enemy enemies enemy = Some i ->
  fightEnemy fuel g areaName enemy dropItems u_weapon u_mold = Done (g', Victory e c n drop) ->
  spawned_enemies g' !! areaName = Some (delete i enemies) /\
  (forall other : string, other <> areaName ->
     spawned_enemies g' !! other = spawned_enemies g !! other) /\
  (exists x : Enemy.t, enemies !! i = Some x /\ Enemy.oid x = Enemy.oid enemy) /\
  length (delete i enemies) = (length enemies - 1)%nat /\
  (NoDup (Enemy.oid <$> enemies) ->
   forall y : Enemy.t, y ∈ delete i enemies -> Enemy.oid y <> Enemy.oid enemy).
Proof.
  intros Harea Hfind Hrun. unfold fightEnemy in Hrun.
  apply (fightEnemy_while_victory _ _ _ _ _ enemies _ Harea) in Hrun.
  rewrite Hfind in Hrun. rewrite Hrun.
  unfold findIndex_enemy in Hfind.
  destruct (list_find _ enemies) as [[i' x]|] eqn:Hf; [|discriminate].
  cbn in Hfind. injection Hfind as ->.
  apply list_find_Some in Hf as (Hi & Hoid & _).
  split; [apply lookup_insert_eq|].
  split; [intros other Hne; apply lookup_insert_ne; congruence|].
  split; [exists x; auto|].
  split.
  - apply length_delete. eauto.
  - intros Hnd y Hy. rewrite <- Hoid. apply (delete_NoDup_oid enemies i x y Hnd Hi Hy).
Qed.

(** The course of the loop with a weapon that deals [d >= 1] a turn and
    lets [t >= 0] through. *)
Lemma fightEnemy_while_outcome (weapon : Item.t) (areaName : string) (enemy : Enemy.t)
    (u_weapon u_mold : Q) (g : GameCore) (t : Q) (fuel : nat) :
  equipped (player g) = Some weapon ->
  1 <= Math_floor (Item.Damage weapon) ->
  damageTaken (Enemy.damage enemy) weapon = Fin t ->
  (0 <= t)%Q ->
  forall (h : Q) (enemyHealth : Z) (g' : GameCore) (r : FightResult),
    (0 < h)%Q -> 0 < enemyHealth ->
    fightEnemy_while fuel g areaName enemy u_weapon u_mold (Fin h) enemyHealth
      = Done (g', r) ->
    (victory r = true <->
     (inject_Z (hits_to_kill enemyHealth (Math_floor (Item.Damage weapon)) - 1) * t < h)%Q) /\
    (victory r = false ->
     r = Lost ("You were defeated by the " +:+ Enemy.name enemy +:+ "!")).
Proof.
  intros Hw Hd Htaken Ht.
  induction fuel as [|fuel IH]; intros h enemyHealth g' r Hh Hpos; [discriminate|].
  cbn [fightEnemy_while js_gt0].
  apply Qltb_true in Hh as Hhb. rewrite Hhb.
  destruct (Z.ltb_spec 0 enemyHealth) as [_|]; [|lia]. cbn [andb].
  rewrite Hw. cbn [rbind defined].
  set (d := Math_floor (Item.Damage weapon)) in *.
  destruct (Z.leb_spec (enemyHealth - d) 0) as [Hdead|Halive].
  - rewrite (hits_to_kill_last _ _ Hpos Hdead).
    change (inject_Z (1 - 1)) with 0%Q.
    assert (Hwin : (0 * t < h)%Q) by lra.
    destruct (checkLevelUp fuel _) as [[g1 n1]| |]; cbn [rbind]; try discriminate.
    destruct (spawned_enemies g1 !! areaName); cbn [rbind defined]; [|discriminate].
    destruct (Enemy.Elite enemy || bool_decide (areaName = "Champions Hall")).
    + destruct (enemyLoot _ _ _ _) as [[g2 drop]| |]; cbn [rbind]; try discriminate.
      intros [= <- <-]. cbn [victory]. split; [tauto | discriminate].
    + intros [= <- <-]. cbn [victory]. split; [tauto | discriminate].
  - rewrite (hits_to_kill_step _ _ Hd Halive).
    replace (hits_to_kill (enemyHealth - d) d + 1 - 1)
      with (hits_to_kill (enemyHealth - d) d - 1 + 1) by lia.
    rewrite inject_Z_plus. change (inject_Z 1) with 1%Q.
    pose proof (hits_to_kill_pos (enemyHealth - d) d Hd Halive) as Hk.
    assert (Hkq : (0 <= inject_Z (hits_to_kill (enemyHealth - d) d - 1))%Q).
    { change 0%Q with (inject_Z 0). rewrite <- Zle_Qle. lia. }
    rewrite Htaken. cbn [js_sub js_le0].
    destruct (Qleb (h - t) 0) eqn:Hle.
    + apply Qleb_true in Hle. intros [= <- <-]. cbn [victory]. split; [|reflexivity].
      split; [discriminate|]. intros Hlt. exfalso.
      assert (Hprod : (0 <= inject_Z (hits_to_kill (enemyHealth - d) d - 1) * t)%Q)
        by (apply Qmult_le_0_compat; assumption).
      lra.
    + apply Qleb_false in Hle. intros Hrun.
      destruct (IH (h - t)%Q (enemyHealth - d) g' r Hle Halive Hrun) as [Hiff Hmsg].
      split; [|exact Hmsg]. rewrite Hiff. split; intros Hlt; lra.
Qed.

(** Who wins: with a weapon that deals [d = floor(Damage) >= 1] a turn and
    lets [t >= 0] of the enemy's attack through, the enemy falls at the
    [ceil(health / d)]-th hit and the player has taken [t] that many times
    less one: the fight is a victory exactly when that is below the 100 of
    the player's health.  Otherwise it is the defeat by this enemy, and the
    object is as it was. *)
Theorem fightEnemy_victory_iff (g : GameCore) (areaName : string) (enemy : Enemy.t)
    (dropItems : bool) (u_weapon u_mold : Q) (weapon : Item.t) (t : Q) (fuel : nat)
    (g' : GameCore) (r : FightResult) :
  equipped (player g) = Some weapon ->
  1 <= Math_floor (Item.Damage weapon) ->
  damageTaken (Enemy.damage enemy) weapon = Fin t ->
  0 < Enemy.health enemy ->
  fightEnemy fuel g areaName enemy dropItems u_weapon u_mold = Done (g', r) ->
  (victory r = true <->
   (inject_Z (hits_to_kill (Enemy.health enemy) (Math_floor (Item.Damage weapon)) - 1) * t
    < 100)%Q) /\
  (victory r = false ->
   r = Lost ("You were defeated by the " +:+ Enemy.name enemy +:+ "!") /\ g' = g).
Proof.
  intros Hw Hd Htaken Hh Hrun. unfold fightEnemy in Hrun.
  assert (Ht : (0 <= t)%Q).
  { unfold damageTaken in Htaken.
    destruct (js_floor _) as [q| | |]; cbn [js_max0] in Htaken; try discriminate.
    - injection Htaken as <-. apply Q.le_max_l.
    - injection Htaken as <-. apply Qle_refl. }
  destruct (fightEnemy_while_outcome weapon areaName enemy u_weapon u_mold g t fuel
              Hw Hd Htaken Ht 100%Q (Enemy.health enemy) g' r ltac:(reflexivity) Hh Hrun)
    as [Hiff Hmsg].
  split; [exact Hiff|]. intros Hv. split; [exact (Hmsg Hv)|].
  destruct r as [? ? ? ?|msg]; [discriminate|].
  apply (fightEnemy_while_lost _ _ _ _ _ _ _ _ _ _ Hrun).
Qed.

End CombatMore.

(** The hall holds three enemies; the second is fought with a sword of
    damage 10 and is taken out of the list. *)
Definition hall_of_three (g : GameCore) : GameCore :=
  set_spawned_enemies
    (<["Beginner Hall" :=
         [Enemy.mk 1 "Common" false 75 5 20 50 1 0 1179;
          Enemy.mk 2 "Common" false 75 5 20 50 1 0 1179;
          Enemy.mk 3 "Rare" false 350 12 30 90 45 0 1179]]> (spawned_enemies g)) g.

Lemma fightEnemy_victory_removes_enemy_witness :
  let g := hall_of_three (with_equipped (sword 10 10) (@new_GameCore approxMath "player")) in
  let second := Enemy.mk 2 "Common" false 75 5 20 50 1 0 1179 in
  exists (enemies : list Enemy.t) (g' : GameCore),
    spawned_enemies g !! "Beginner Hall" = Some enemies /\
    findIndex_enemy enemies second = Some 1%nat /\
    fightEnemy 100 g "Beginner Hall" second false 0 0 = Done (g', Victory 20 50 0 None) /\
    spawned_enemies g' !! "Beginner Hall" = Some (delete 1%nat enemies) /\
    forall y : Enemy.t, y ∈ delete 1%nat enemies -> Enemy.oid y <> Enemy.oid second.
Proof.
  intros g second.
  eexists. eexists.
  split; [vm_compute; reflexivity|].
  split; [vm_compute; reflexivity|].
  split; [vm_compute; reflexivity|].
  match goal with
  | |- spawned_enemies ?g1 !! _ = Some (delete _ ?l) /\ _ =>
      assert (Harea : spawned_enemies g !! "Beginner Hall" = Some l) by (vm_compute; reflexivity);
      assert (Hfind : findIndex_enemy l second = Some 1%nat) by (vm_compute; reflexivity);
      assert (Hrun : fightEnemy 100 g "Beginner Hall" second false 0 0
                     = Done (g1, Victory 20 50 0 None)) by (vm_compute; reflexivity);
      destruct (@fightEnemy_victory_removes_enemy approxMath g "Beginner Hall" second false
                  0%Q 0%Q l 1%nat 100%nat g1 20 50 0 None Harea Hfind Hrun)
        as (Hgone & _ & _ & _ & Hnodup)
  end.
  split; [exact Hgone|].
  apply Hnodup. apply (bool_decide_unpack _). vm_compute. exact I.
Defined.

(** A sword of damage 10 and defense 1 against the rare enemy of 350 health
    and attack 12: 35 hits are needed and 34 * 12 is more than 100, a
    defeat; against the common enemy, 8 hits and 7 * 5 = 35, a victory. *)
Lemma fightEnemy_victory_iff_witness :
  let g := hall_of_three (with_equipped (sword 10 1) (@new_GameCore approxMath "player")) in
  let rare := Enemy.mk 3 "Rare" false 350 12 30 90 45 0 1179 in
  let first := Enemy.mk 1 "Common" false 75 5 20 50 1 0 1179 in
  hits_to_kill 350 10 = 35 /\ hits_to_kill 75 10 = 8 /\
  fightEnemy 100 g "Beginner Hall" rare false 0 0 =
    Done (g, Lost "You were defeated by the Rare!") /\
  exists (g' : GameCore) (r : FightResult),
    fightEnemy 100 g "Beginner Hall" first false 0 0 = Done (g', r) /\ victory r = true.
Proof.
  intros g rare first.
  split; [reflexivity|]. split; [reflexivity|].
  assert (Hw : equipped (player g) = Some (sword 10 1)) by reflexivity.
  assert (Hd : 1 <= Math_floor (Item.Damage (sword 10 1))) by (vm_compute; discriminate).
  split.
  - assert (Hrun : exists g' r, fightEnemy 100 g "Beginner Hall" rare false 0 0 = Done (g', r))
      by (do 2 eexists; vm_compute; reflexivity).
    destruct Hrun as (g' & r & Hrun).
    destruct (@fightEnemy_victory_iff approxMath g "Beginner Hall" rare false 0%Q 0%Q
                (sword 10 1) 12%Q 100%nat g' r Hw Hd ltac:(vm_compute; reflexivity)
                ltac:(cbn; lia) Hrun) as [Hiff Hlost].
    destruct (victory r) eqn:Hv.
    + exfalso. pose proof (proj1 Hiff eq_refl) as Hbad. vm_compute in Hbad. discriminate Hbad.
    + destruct (Hlost eq_refl) as [-> ->]. exact Hrun.
  - assert (Hrun : exists g' r, fightEnemy 100 g "Beginner Hall" first false 0 0 = Done (g', r))
      by (do 2 eexists; vm_compute; reflexivity).
    destruct Hrun as (g' & r & Hrun). exists g', r. split; [exact Hrun|].
    apply (@fightEnemy_victory_iff approxMath g "Beginner Hall" first false 0%Q 0%Q
             (sword 10 1) 5%Q 100%nat g' r Hw Hd ltac:(vm_compute; reflexivity)
             ltac:(cbn; lia) Hrun).
    vm_compute. reflexivity.
Defined.

(* ================================================================== *)
(** * Item generation: the rolls, the weapon made, the loot *)
(* ================================================================== *)

(** [Math.floor(Math.random() * Math.max(1, maxRoll)) + 1] lies between 1
    and [max(1, maxRoll)]. *)
Lemma Qmax_1_inject_Z (z : Z) : (Qmax 1 (inject_Z z) == inject_Z (Z.max 1 z))%Q.
Proof.
  destruct (Z.le_gt_cases 1 z) as [Hle|Hgt].
  - rewrite Z.max_r by exact Hle. apply Q.max_r.
    change 1%Q with (inject_Z 1). rewrite <- Zle_Qle. exact Hle.
  - rewrite Z.max_l by lia. apply Q.max_l.
    change 1%Q with (inject_Z 1). rewrite <- Zle_Qle. lia.
Qed.

Lemma random_roll_range (u : Q) (maxRoll : Z) :
  (0 <= u)%Q -> (u < 1)%Q ->
  0 <= Math_floor (u * Qmax 1 (inject_Z maxRoll)) < Z.max 1 maxRoll.
Proof.
  intros Hu0 Hu1. unfold Math_floor. rewrite Qmax_1_inject_Z.
  set (m := Z.max 1 maxRoll).
  assert (Hm : (1 <= inject_Z m)%Q).
  { change 1%Q with (inject_Z 1). rewrite <- Zle_Qle. unfold m. lia. }
  split.
  - apply Qfloor_ge_Z. change (inject_Z 0) with 0%Q. nra.
  - apply Qfloor_lt_Z. nra.
Qed.

Lemma max_roll_le_MAXIMUM_VALUE (luck : Q) :
  Math_floor (inject_Z MAXIMUM_VALUE / Qmax 1 luck) <= MAXIMUM_VALUE.
Proof.
  unfold Math_floor. rewrite <- (Qfloor_Z MAXIMUM_VALUE) at 2. apply Qfloor_resp_le.
  assert (H1 : (1 <= Qmax 1 luck)%Q) by apply Q.le_max_l.
  assert (Hpos : (0 <= inject_Z MAXIMUM_VALUE)%Q) by (vm_compute; discriminate).
  apply Qle_shift_div_r; [lra|]. nra.
Qed.

(** The scan finds a row whenever some row has a threshold from the roll
    up, and the row it returns holds the roll in its range. *)
Lemma getTier_scan_hit (roll : Z) (rows : list TierRow) :
  forall prev : Z,
    prev < roll ->
    (exists row : TierRow, row ∈ rows /\ roll <= row_threshold row) ->
    exists res : TierResult,
      getTier_scan roll prev rows = Some res /\
      range_start res < roll <= range_end res /\ rng_roll res = roll.
Proof.
  induction rows as [|a rest IH]; intros prev Hprev (row & Hin & Hle).
  - inversion Hin.
  - cbn [getTier_scan].
    destruct (Z.ltb_spec prev roll) as [_|]; [|lia].
    destruct (Z.leb_spec roll (row_threshold a)) as [Ha|Ha]; cbn [andb].
    + eexists. split; [reflexivity|]. cbn. lia.
    + apply IH; [lia|]. apply elem_of_cons in Hin as [->|Hin]; [lia|]. eauto.
Qed.

Lemma RARITY_TIERS_reach_MAXIMUM_VALUE :
  exists row : TierRow, row ∈ RARITY_TIERS /\ row_threshold row = MAXIMUM_VALUE.
Proof.
  eexists. split; [apply last_Some_elem_of; reflexivity|]. vm_compute. reflexivity.
Qed.

Lemma MOLD_TIERS_reach_MAXIMUM_VALUE :
  exists row : TierRow, row ∈ MOLD_TIERS /\ row_threshold row = MAXIMUM_VALUE.
Proof.
  eexists. split; [apply last_Some_elem_of; reflexivity|]. vm_compute. reflexivity.
Qed.

Lemma WEAPON_TYPES_damage (w : WeaponType) :
  w ∈ WEAPON_TYPES -> (4 <= w_damage w)%Q.
Proof.
  revert w. apply Forall_forall. unfold WEAPON_TYPES.
  repeat (apply Forall_cons; split; [vm_compute; discriminate|]). apply Forall_nil_2.
Qed.

(** [moldIndex] of [enemyLoot]. *)
Definition enemyLoot_moldIndex (g : GameCore) (u_mold : Q) : Z :=
  Math_floor (u_mold * Qmax 1 (inject_Z (Math_floor
    (inject_Z MAXIMUM_VALUE /
       ((if Qltb 0 (mold_mult g) then mold_mult g else 1) * player_luck_multiplier g))))).

Section ItemsMore.
Context {M : JSMath}.

(** For random numbers in [[0, 1)], whatever the multipliers, [rngGen]
    returns, both rolls lie between 1 and [MAXIMUM_VALUE], and each lies in
    the range of the tier found for it: the fallback of [getTier] is not
    what answers. *)
Theorem rngGen_rolls_within_tiers (g : GameCore) (u_rarity u_mold : Q) :
  (0 <= u_rarity)%Q -> (u_rarity < 1)%Q -> (0 <= u_mold)%Q -> (u_mold < 1)%Q ->
  exists r : RngGen,
    rngGen g u_rarity u_mold = Done r /\
    1 <= rng_roll (rarityResult r) <= MAXIMUM_VALUE /\
    1 <= rng_roll (moldResult r) <= MAXIMUM_VALUE /\
    range_start (rarityResult r) < rng_roll (rarityResult r) <= range_end (rarityResult r) /\
    range_start (moldResult r) < rng_roll (moldResult r) <= range_end (moldResult r) /\
    (exists row : TierRow, row ∈ RARITY_TIERS /\ tier (rarityResult r) = row_name row /\
                           range_end (rarityResult r) = row_threshold row) /\
    (exists row : TierRow, row ∈ MOLD_TIERS /\ tier (moldResult r) = row_name row /\
                           range_end (moldResult r) = row_threshold row).
Proof.
  intros Hr0 Hr1 Hm0 Hm1. unfold rngGen. cbv zeta.
  set (maxRarityRoll := Math_floor (inject_Z MAXIMUM_VALUE / Qmax 1 (luck_multiplier g))).
  set (maxMoldRoll := Math_floor (inject_Z MAXIMUM_VALUE / Qmax 1 (mold_mult g))).
  pose proof (max_roll_le_MAXIMUM_VALUE (luck_multiplier g)) as HR. fold maxRarityRoll in HR.
  pose proof (max_roll_le_MAXIMUM_VALUE (mold_mult g)) as HM. fold maxMoldRoll in HM.
  pose proof (random_roll_range u_rarity maxRarityRoll Hr0 Hr1) as Hrr.
  pose proof (random_roll_range u_mold maxMoldRoll Hm0 Hm1) as Hmr.
  set (rarityRoll := Math_floor (u_rarity * Qmax 1 (inject_Z maxRarityRoll)) + 1) in *.
  set (moldRoll := Math_floor (u_mold * Qmax 1 (inject_Z maxMoldRoll)) + 1) in *.
  assert (HMAX : 1 <= MAXIMUM_VALUE) by (vm_compute; discriminate).
  assert (Hrange_r : 1 <= rarityRoll <= MAXIMUM_VALUE) by (unfold rarityRoll; lia).
  assert (Hrange_m : 1 <= moldRoll <= MAXIMUM_VALUE) by (unfold moldRoll; lia).
  destruct RARITY_TIERS_reach_MAXIMUM_VALUE as (rlast & Hrlast & Hrthr).
  destruct MOLD_TIERS_reach_MAXIMUM_VALUE as (mlast & Hmlast & Hmthr).
  destruct (getTier_scan_hit rarityRoll RARITY_TIERS 0 ltac:(lia))
    as (rres & Hrscan & Hrin & Hrroll).
  { exists rlast. split; [exact Hrlast | lia]. }
  destruct (getTier_scan_hit moldRoll MOLD_TIERS 0 ltac:(lia))
    as (mres & Hmscan & Hmin & Hmroll).
  { exists mlast. split; [exact Hmlast | lia]. }
  assert (Hrget : getTier rarityRoll RARITY_TIERS (luck_multiplier g) = Done rres)
    by (unfold getTier; rewrite Hrscan; reflexivity).
  assert (Hmget : getTier moldRoll MOLD_TIERS (mold_mult g) = Done mres)
    by (unfold getTier; rewrite Hmscan; reflexivity).
  rewrite Hrget, Hmget. cbn [rbind].
  destruct (getTier_scan_in_table _ _ _ _ Hrscan) as (rrow & Hrrow & Hrname & Hrv & Hrend & _).
  destruct (getTier_scan_in_table _ _ _ _ Hmscan) as (mrow & Hmrow & Hmname & Hmv & Hmend & _).
  destruct (RARITY_TIERS_columns rrow Hrrow) as (a & b & c & Hrex).
  destruct (MOLD_TIERS_columns mrow Hmrow) as (a' & b' & Hmex).
  unfold column. rewrite Hrv, Hmv, Hrex, Hmex. cbn [lookup list_lookup rbind defined].
  eexists. split; [reflexivity|]. cbn [rarityResult moldResult].
  rewrite Hrroll, Hmroll.
  split; [exact Hrange_r|]. split; [exact Hrange_m|]. split; [exact Hrin|].
  split; [exact Hmin|]. split; eauto.
Qed.

Lemma itemGen_total (g : GameCore) (u_weapon u_rarity u_mold threshold now : Q) :
  0 <= mold_level g -> (0 <= u_weapon)%Q -> (u_weapon < 1)%Q ->
  exists (g' : GameCore) (out : ItemGen),
    itemGen g u_weapon u_rarity u_mold threshold now = Done (g', out).
Proof.
  intros Hmold Hu0 Hu1. unfold itemGen.
  destruct (available_weapon (mold_level g) u_weapon Hmold Hu0 Hu1) as (w & Hw & _).
  unfold getWeapon. rewrite Hw. cbn [rbind defined].
  unfold rngGen. cbv zeta.
  match goal with
  | |- context [getTier ?r RARITY_TIERS ?l] =>
      destruct (getTier_total r RARITY_TIERS l ltac:(discriminate)) as [rr Hrr];
      rewrite Hrr; cbn [rbind];
      destruct (getTier_in_table _ _ _ _ Hrr) as (rrow & Hrin & _ & Hrv & _)
  end.
  match goal with
  | |- context [getTier ?r MOLD_TIERS ?l] =>
      destruct (getTier_total r MOLD_TIERS l ltac:(discriminate)) as [mr Hmr];
      rewrite Hmr; cbn [rbind];
      destruct (getTier_in_table _ _ _ _ Hmr) as (mrow & Hmin & _ & Hmv & _)
  end.
  destruct (RARITY_TIERS_columns rrow Hrin) as (a & b & c & Hrex).
  destruct (MOLD_TIERS_columns mrow Hmin) as (a' & b' & Hmex).
  unfold column. rewrite Hrv, Hmv, Hrex, Hmex.
  cbn [lookup list_lookup rbind defined rarity moldInfo combinedActual rarityResult moldResult].
  destruct (next_item_id g) as [itemId g1]. eauto.
Qed.

Lemma itemGen_damage (g : GameCore) (u_weapon u_rarity u_mold threshold now : Q)
    (g' : GameCore) (out : ItemGen) :
  itemGen g u_weapon u_rarity u_mold threshold now = Done (g', out) ->
  (4 <= Item.Damage (itemInfo out))%Q.
Proof.
  unfold itemGen.
  destruct (getWeapon g u_weapon) as [weaponData|] eqn:Hw; cbn [rbind defined]; [|discriminate].
  apply getWeapon_in_table, WEAPON_TYPES_damage in Hw.
  unfold rngGen. cbv zeta.
  destruct (getTier _ RARITY_TIERS _) as [rr| |] eqn:Hrr; cbn [rbind]; try discriminate.
  destruct (getTier _ MOLD_TIERS _) as [mr| |] eqn:Hmr; cbn [rbind]; try discriminate.
  destruct (getTier_in_table _ _ _ _ Hrr) as (rrow & Hrin & _ & Hrv & _).
  destruct (getTier_in_table _ _ _ _ Hmr) as (mrow & Hmin & _ & Hmv & _).
  destruct (RARITY_TIERS_damage rrow Hrin) as (a & b & c & Hrex & Hb).
  destruct (MOLD_TIERS_columns mrow Hmin) as (a' & b' & Hmex).
  unfold column. rewrite Hrv, Hmv, Hrex, Hmex.
  cbn [lookup list_lookup rbind defined rarity moldInfo combinedActual rarityResult moldResult].
  destruct (next_item_id g) as [itemId g1].
  intros [= <- <-]. cbn [itemInfo Item.Damage]. nra.
Qed.

(** Once the Sword is unlocked (a mold level from 0) [itemGen] always makes
    an item, and the item is a weapon a fight can use: it deals at least 4 a
    turn, so the combat loop ends with it, and its defense is at least 2.5,
    so the damage taken is a finite number of at most [damage / 2.5]. *)
Theorem itemGen_makes_usable_weapon (g : GameCore)
    (u_weapon u_rarity u_mold threshold now : Q) :
  0 <= mold_level g -> (0 <= u_weapon)%Q -> (u_weapon < 1)%Q ->
  exists (g' : GameCore) (out : ItemGen),
    itemGen g u_weapon u_rarity u_mold threshold now = Done (g', out) /\
    4 <= Math_floor (Item.Damage (itemInfo out)) /\
    (2.5 <= Item.Defense (itemInfo out))%Q /\
    forall enemyAttack : Z,
      0 <= enemyAttack ->
      exists t : Z,
        damageTaken enemyAttack (itemInfo out) = Fin (inject_Z t) /\
        0 <= t /\ (inject_Z t * 2.5 <= inject_Z enemyAttack)%Q.
Proof.
  intros Hmold Hu0 Hu1.
  destruct (itemGen_total g u_weapon u_rarity u_mold threshold now Hmold Hu0 Hu1)
    as (g' & out & Hrun).
  exists g', out. split; [exact Hrun|].
  pose proof (itemGen_damage _ _ _ _ _ _ _ _ Hrun) as Hdmg.
  pose proof (itemGen_defense _ _ _ _ _ _ _ _ Hrun) as Hdef.
  split; [apply Qfloor_ge_Z; exact Hdmg|]. split; [exact Hdef|].
  intros enemyAttack Hatt. unfold damageTaken, js_div.
  assert (Hnz : Qeq_bool (Item.Defense (itemInfo out)) 0 = false).
  { apply Qeq_bool_false. intros E. rewrite E in Hdef. lra. }
  rewrite Hnz. cbn [js_floor js_max0]. rewrite Qmax_0_inject_Z.
  set (q := (inject_Z enemyAttack / Item.Defense (itemInfo out))%Q).
  assert (Ha : (0 <= inject_Z enemyAttack)%Q).
  { change 0%Q with (inject_Z 0). rewrite <- Zle_Qle. exact Hatt. }
  assert (Hq0 : (0 <= q)%Q).
  { unfold q. apply Qle_shift_div_l; lra. }
  assert (Hq1 : (q * 2.5 <= inject_Z enemyAttack)%Q).
  { assert (Hqd : (q * Item.Defense (itemInfo out) == inject_Z enemyAttack)%Q).
    { unfold q. field. intros E. rewrite E in Hdef. lra. }
    nra. }
  assert (Hfl : 0 <= Math_floor q) by (apply Qfloor_ge_Z; exact Hq0).
  exists (Z.max 0 (Math_floor q)). split; [reflexivity|]. split; [lia|].
  rewrite Z.max_r by exact Hfl.
  assert (Hle : (inject_Z (Math_floor q) <= q)%Q) by apply Qfloor_le.
  nra.
Qed.

(** The rolls of [enemyLoot] start at 0, one below those of [rngGen]: the
    index is [floor(random * max)] without the [+ 1].  For a random number
    in [[0, 1)] the index is never negative; at 0, below the range of every
    tier, [getTier] falls through to its last row and the drop is of the
    lowest mold, Copper; at 1, the next index, the drop is of the rarest
    mold, Heavenly. *)
Theorem enemyLoot_lowest_mold_rolls (g : GameCore) (enemy : Enemy.t) (u_weapon u_mold : Q)
    (g' : GameCore) (drop : Item.t) :
  enemyLoot g enemy u_weapon u_mold = Done (g', drop) ->
  ((0 <= u_mold)%Q -> 0 <= enemyLoot_moldIndex g u_mold) /\
  (enemyLoot_moldIndex g u_mold = 0 -> Item.Mold drop = "Copper") /\
  (enemyLoot_moldIndex g u_mold = 1 -> Item.Mold drop = "Heavenly").
Proof.
  intros Hrun. split; [|split].
  - intros Hu. unfold enemyLoot_moldIndex. apply Qfloor_ge_Z.
    change (inject_Z 0) with 0%Q.
    match goal with |- (0 <= u_mold * Qmax 1 ?x)%Q => pose proof (Q.le_max_l 1 x) end.
    nra.
  - intros Hidx. revert Hrun. unfold enemyLoot. cbv zeta.
    fold (enemyLoot_moldIndex g u_mold). rewrite Hidx.
    repeat match goal with
           | |- rbind (defined ?o) _ = Done _ -> _ =>
               destruct o; cbn [rbind defined]; [|discriminate]
           | |- rbind (column ?vs ?i) _ = Done _ -> _ =>
               unfold column at 1; destruct (vs !! i); cbn [rbind defined]; [|discriminate]
           end.
    replace (getTier 0 MOLD_TIERS (mold_mult g))
      with (Done (mkTierResult "Copper" 0 (threshold_of 5) (threshold_of 1) [1.2; 1.2]%Q))
      by reflexivity.
    cbn [rbind column values lookup list_lookup defined tier].
    destruct (next_item_id g). intros [= _ <-]. reflexivity.
  - intros Hidx. revert Hrun. unfold enemyLoot. cbv zeta.
    fold (enemyLoot_moldIndex g u_mold). rewrite Hidx.
    repeat match goal with
           | |- rbind (defined ?o) _ = Done _ -> _ =>
               destruct o; cbn [rbind defined]; [|discriminate]
           | |- rbind (column ?vs ?i) _ = Done _ -> _ =>
               unfold column at 1; destruct (vs !! i); cbn [rbind defined]; [|discriminate]
           end.
    replace (getTier 1 MOLD_TIERS (mold_mult g))
      with (Done (mkTierResult "Heavenly" 1 0 (threshold_of 1250000) [625; 350]%Q))
      by reflexivity.
    cbn [rbind column values lookup list_lookup defined tier].
    destruct (next_item_id g). intros [= _ <-]. reflexivity.
Qed.

End ItemsMore.

(** The rolls of a fresh game at the random numbers 0.5 and 0.5: both are
    50000000000000000001. *)
Lemma rngGen_rolls_within_tiers_witness :
  let g := @new_GameCore approxMath "player" in
  exists r : RngGen,
    rngGen g 0.5 0.5 = Done r /\
    1 <= rng_roll (rarityResult r) <= MAXIMUM_VALUE /\
    range_start (rarityResult r) < rng_roll (rarityResult r) <= range_end (rarityResult r) /\
    range_start (moldResult r) < rng_roll (moldResult r) <= range_end (moldResult r).
Proof.
  intros g.
  assert (H0 : (0 <= 0.5)%Q) by (vm_compute; discriminate).
  assert (H1 : (0.5 < 1)%Q) by (vm_compute; reflexivity).
  destruct (rngGen_rolls_within_tiers g 0.5%Q 0.5%Q H0 H1 H0 H1)
    as (r & Hrun & Hr & _ & Hrin & Hmin & _).
  exists r. auto.
Defined.

(** The item of a fresh game at the random numbers 0.5, 0.5 and 0.5. *)
Lemma itemGen_makes_usable_weapon_witness :
  let g := @new_GameCore approxMath "player" in
  0 <= mold_level g /\
  exists (g' : GameCore) (out : ItemGen),
    itemGen g 0.5 0.5 0.5 100 1000 = Done (g', out) /\
    4 <= Math_floor (Item.Damage (itemInfo out)) /\
    (2.5 <= Item.Defense (itemInfo out))%Q /\
    exists t : Z,
      damageTaken 5 (itemInfo out) = Fin (inject_Z t) /\
      0 <= t /\ (inject_Z t * 2.5 <= inject_Z 5)%Q.
Proof.
  intros g.
  assert (Hm : 0 <= mold_level g) by (vm_compute; discriminate).
  assert (H0 : (0 <= 0.5)%Q) by (vm_compute; discriminate).
  assert (H1 : (0.5 < 1)%Q) by (vm_compute; reflexivity).
  split; [exact Hm|].
  destruct (@itemGen_makes_usable_weapon approxMath g 0.5%Q 0.5%Q 0.5%Q 100%Q 1000%Q Hm H0 H1)
    as (g' & out & Hrun & Hd & Hdef & Htaken).
  exists g', out. split; [exact Hrun|]. split; [exact Hd|]. split; [exact Hdef|].
  apply Htaken. lia.
Defined.

(** The loot of a common enemy in a fresh game at the mold random numbers 0
    and [10^-20]. *)
Lemma enemyLoot_lowest_mold_rolls_witness :
  let g := @new_GameCore approxMath "player" in
  (exists (g' : GameCore) (drop : Item.t),
      enemyLoot g common_enemy 0.5 0 = Done (g', drop) /\
      enemyLoot_moldIndex g 0 = 0 /\ Item.Mold drop = "Copper") /\
  (exists (g' : GameCore) (drop : Item.t),
      enemyLoot g common_enemy 0.5 (1 # 100000000000000000000) = Done (g', drop) /\
      enemyLoot_moldIndex g (1 # 100000000000000000000) = 1 /\ Item.Mold drop = "Heavenly").
Proof.
  intros g. split.
  - assert (Hrun : exists g' drop, enemyLoot g common_enemy 0.5 0 = Done (g', drop))
      by (do 2 eexists; vm_compute; reflexivity).
    destruct Hrun as (g' & drop & Hrun).
    assert (Hidx : enemyLoot_moldIndex g 0 = 0) by (vm_compute; reflexivity).
    exists g', drop. split; [exact Hrun|]. split; [exact Hidx|].
    exact (proj1 (proj2 (@enemyLoot_lowest_mold_rolls approxMath g common_enemy 0.5%Q 0%Q
                           g' drop Hrun)) Hidx).
  - assert (Hrun : exists g' drop,
               enemyLoot g common_enemy 0.5 (1 # 100000000000000000000) = Done (g', drop))
      by (do 2 eexists; vm_compute; reflexivity).
    destruct Hrun as (g' & drop & Hrun).
    assert (Hidx : enemyLoot_moldIndex g (1 # 100000000000000000000) = 1)
      by (vm_compute; reflexivity).
    exists g', drop. split; [exact Hrun|]. split; [exact Hidx|].
    exact (proj2 (proj2 (@enemyLoot_lowest_mold_rolls approxMath g common_enemy 0.5%Q
                           (1 # 100000000000000000000)%Q g' drop Hrun)) Hidx).
Defined.

(* ================================================================== *)
(** * game-ui.js: moving items between storage, hand and sell area *)
(* ================================================================== *)

(** [this.player.equipped = v]. *)
Definition set_equipped (v : option Item.t) (g : GameCore) : GameCore :=
  set_player (mkPlayer (level (player g)) (exp (player g)) v) g.

(** The action functions below end with [gameCore.saveGame()] and redraws;
    these write [localStorage] and the page and leave the object as it is. *)

(** [equipItem(itemId)]: the first stored item with this ID is taken out of
    the storage, the weapon in hand (if any) is pushed to the storage, and
    the item is taken in hand. *)
Definition equipItem (g : GameCore) (itemId : Z) : GameCore :=
  match list_find (fun i => Item.ID i = itemId) (item_storage g) with
  | None => g
  | Some (itemIndex, item) =>
      let g := set_item_storage (delete itemIndex (item_storage g)) g in
      let g :=
        match equipped (player g) with
        | Some old => set_item_storage (item_storage g ++ [old]) g
        | None => g
        end in
      set_equipped (Some item) g
  end.

Definition unequipWeapon (g : GameCore) : GameCore :=
  match equipped (player g) with
  | None => g
  | Some old =>
      let g := set_item_storage (item_storage g ++ [old]) g in
      set_equipped None g
  end.

(** The callback of [sellItem] that runs when the user confirms: [item] is
    the item found when the dialog was opened. *)
Definition sellItem_confirmed (g : GameCore) (item : Item.t) (itemId : Z) (now : Q)
  : GameCore :=
  let g :=
    set_item_storage
      (List.filter (fun i => negb (Item.ID i =? itemId)) (item_storage g)) g in
  set_sell_area (sell_area g ++ [mkSellEntry item now 30]) g.

(** [sellItem(itemId)] with the answer of the user to the dialog, given at
    once. *)
Definition sellItem (g : GameCore) (itemId : Z) (confirm : bool) (now : Q) : GameCore :=
  match snd <$> list_find (fun i => Item.ID i = itemId) (item_storage g) with
  | None => g
  | Some item => if confirm then sellItem_confirmed g item itemId now else g
  end.

Definition removeFromSellArea (g : GameCore) (itemId : Z) : GameCore :=
  match list_find (fun e => Item.ID (item e) = itemId) (sell_area g) with
  | None => g
  | Some (entryIndex, entry) =>
      let g := set_sell_area (delete entryIndex (sell_area g)) g in
      set_item_storage (item_storage g ++ [item entry]) g
  end.

(** Every item the object holds: stored, waiting in the sell area, or in
    hand. *)
Definition all_items (g : GameCore) : list Item.t :=
  item_storage g ++ (item <$> sell_area g) ++ option_list (equipped (player g)).

(** The IDs in use and the IDs waiting for reuse. *)
Definition id_pool (g : GameCore) : list Z :=
  (Item.ID <$> all_items g) ++ recycled_ids g.

(** No ID is held twice, and every ID was given out by the counter. *)
Definition ids_ok (g : GameCore) : Prop :=
  NoDup (id_pool g) /\ Forall (fun i => i < item_id_counter g) (id_pool g).

Lemma filter_unique_delete (l : list Item.t) :
  forall (i : nat) (x : Item.t),
    NoDup (Item.ID <$> l) -> l !! i = Some x ->
    List.filter (fun y => negb (Item.ID y =? Item.ID x)) l = delete i l.
Proof.
  induction l as [|a l IH]; intros i x Hnd Hi; [discriminate|].
  apply NoDup_cons in Hnd as [Hnotin Hnd]. destruct i as [|i]; cbn in Hi |- *.
  - injection Hi as ->. rewrite Z.eqb_refl. cbn [negb].
    clear IH. induction l as [|b l IH]; [reflexivity|].
    cbn. apply NoDup_cons in Hnd as [_ Hnd].
    destruct (Z.eqb_spec (Item.ID b) (Item.ID x)) as [E|_].
    + exfalso. apply Hnotin. cbn. rewrite E. apply list_elem_of_here.
    + cbn [negb]. f_equal. apply IH; [|exact Hnd].
      intros Hin. apply Hnotin. cbn. apply list_elem_of_further, Hin.
  - destruct (Z.eqb_spec (Item.ID a) (Item.ID x)) as [E|_].
    + exfalso. apply Hnotin. rewrite E.
      apply list_elem_of_fmap. exists x. split; [reflexivity|].
      apply (list_elem_of_lookup_2 _ _ _ Hi).
    + cbn [negb]. f_equal. apply IH; assumption.
Qed.

Lemma filter_absent (l : list Item.t) (itemId : Z) :
  itemId ∉ (Item.ID <$> l) ->
  List.filter (fun y => negb (Item.ID y =? itemId)) l = l.
Proof.
  induction l as [|a l IH]; intros Hnotin; [reflexivity|]. cbn.
  destruct (Z.eqb_spec (Item.ID a) itemId) as [E|_].
  - exfalso. apply Hnotin. cbn. rewrite E. apply list_elem_of_here.
  - cbn [negb]. f_equal. apply IH. intros Hin. apply Hnotin. cbn.
    apply list_elem_of_further, Hin.
Qed.

Lemma ui_moves_items (g : GameCore) (itemId : Z) (now : Q) :
  (all_items (equipItem g itemId) ≡ₚ all_items g /\
   all_items (unequipWeapon g) ≡ₚ all_items g /\
   all_items (removeFromSellArea g itemId) ≡ₚ all_items g /\
   (NoDup (Item.ID <$> item_storage g) ->
    all_items (sellItem g itemId true now) ≡ₚ all_items g)) /\
  (forall g' : GameCore,
      g' = equipItem g itemId \/ g' = unequipWeapon g \/
      g' = removeFromSellArea g itemId \/ g' = sellItem g itemId true now ->
      money g' = money g /\ recycled_ids g' = recycled_ids g /\
      item_id_counter g' = item_id_counter g /\
      level (player g') = level (player g) /\ exp (player g') = exp (player g)).
Proof.
  split; [split; [|split; [|split]]|].
  - unfold equipItem, all_items.
    destruct (list_find _ (item_storage g)) as [[i x]|] eqn:Hf; [|reflexivity].
    apply list_find_Some in Hf as (Hi & _ & _).
    pose proof (delete_Permutation _ _ _ Hi) as Hperm.
    destruct (equipped (player g)) as [old|] eqn:Heq;
      cbn [item_storage sell_area equipped player set_equipped set_player set_item_storage
           option_list]; rewrite ?Heq;
      cbn [item_storage sell_area equipped player set_equipped set_player set_item_storage
           option_list];
      revert Hperm; generalize (delete i (item_storage g)); intros d;
      generalize (item <$> sell_area g); intros s;
      generalize (item_storage g); intros l ->; solve_Permutation.
  - unfold unequipWeapon, all_items.
    destruct (equipped (player g)) as [old|] eqn:Heq; [|rewrite ?Heq; reflexivity].
    cbn [item_storage sell_area equipped player set_equipped set_player set_item_storage
         option_list].
    rewrite ?Heq. cbn [option_list]. solve_Permutation.
  - unfold removeFromSellArea, all_items.
    destruct (list_find _ (sell_area g)) as [[i e]|] eqn:Hf; [|reflexivity].
    apply list_find_Some in Hf as (Hi & _ & _).
    cbn [item_storage sell_area equipped player set_sell_area set_item_storage].
    assert (Hperm : item <$> sell_area g ≡ₚ item e :: (item <$> delete i (sell_area g))).
    { rewrite (delete_Permutation (sell_area g) i e Hi) at 1. reflexivity. }
    revert Hperm. generalize (item <$> delete i (sell_area g)). intros d.
    generalize (item <$> sell_area g). intros s.
    generalize (item_storage g), (option_list (equipped (player g))).
    intros h l ->. solve_Permutation.
  - intros Hnd. unfold sellItem, sellItem_confirmed, all_items.
    destruct (list_find _ (item_storage g)) as [[i x]|] eqn:Hf;
      cbn [fmap option_fmap option_map snd]; [|reflexivity].
    apply list_find_Some in Hf as (Hi & Hid & _).
    cbn [item_storage sell_area equipped player set_sell_area set_item_storage].
    rewrite <- Hid, (filter_unique_delete _ i x Hnd Hi).
    pose proof (delete_Permutation (item_storage g) i x Hi) as Hperm.
    rewrite fmap_app. cbn [fmap list_fmap item].
    revert Hperm. generalize (delete i (item_storage g)). intros d.
    generalize (item <$> sell_area g), (option_list (equipped (player g))).
    intros h s. generalize (item_storage g). intros l ->. solve_Permutation.
  - intros g' [-> | [-> | [-> | ->]]].
    + unfold equipItem. destruct (list_find _ _) as [[i x]|]; [|repeat split].
      destruct (equipped (player g)) eqn:Heq;
        cbn [equipped player set_item_storage]; rewrite Heq; repeat split.
    + unfold unequipWeapon. destruct (equipped (player g)); repeat split.
    + unfold removeFromSellArea. destruct (list_find _ _) as [[i e]|]; repeat split.
    + unfold sellItem. destruct (list_find _ _) as [[i x]|]; repeat split.
Qed.

(** The four moves keep every item: what the object holds afterwards is
    what it held before, in another place.  [equipItem], [unequipWeapon] and
    [removeFromSellArea] do so always; the confirmed [sellItem] filters the
    storage by ID and queues one item, so it does when the stored IDs are
    distinct.  None of them touches the money, the recycled IDs or the
    counter. *)
Theorem ui_moves_keep_items (g : GameCore) (itemId : Z) (now : Q) :
  (all_items (equipItem g itemId) ≡ₚ all_items g /\
   all_items (unequipWeapon g) ≡ₚ all_items g /\
   all_items (removeFromSellArea g itemId) ≡ₚ all_items g /\
   (NoDup (Item.ID <$> item_storage g) ->
    all_items (sellItem g itemId true now) ≡ₚ all_items g)) /\
  (forall g' : GameCore,
      g' = equipItem g itemId \/ g' = unequipWeapon g \/
      g' = removeFromSellArea g itemId \/ g' = sellItem g itemId true now ->
      money g' = money g /\ recycled_ids g' = recycled_ids g /\
      item_id_counter g' = item_id_counter g /\
      level (player g') = level (player g) /\ exp (player g') = exp (player g)).
Proof. exact (ui_moves_items g itemId now). Qed.

(** With distinct IDs, an item sent to the sell area and taken back is in
    the storage again, as its last entry, and the sell area is as it was;
    an item taken in an empty hand and put down again is likewise the last
    entry of the storage. *)
Theorem ui_moves_round_trip (g : GameCore) (i : nat) (x : Item.t) (now : Q) :
  NoDup (Item.ID <$> all_items g) ->
  item_storage g !! i = Some x ->
  (let g' := removeFromSellArea (sellItem g (Item.ID x) true now) (Item.ID x) in
   item_storage g' = delete i (item_storage g) ++ [x] /\
   sell_area g' = sell_area g /\
   equipped (player g') = equipped (player g)) /\
  (equipped (player g) = None ->
   let g' := unequipWeapon (equipItem g (Item.ID x)) in
   item_storage g' = delete i (item_storage g) ++ [x] /\
   sell_area g' = sell_area g /\
   equipped (player g') = None).
Proof.
  intros Hnd Hi. unfold all_items in Hnd. rewrite !fmap_app in Hnd.
  apply NoDup_app in Hnd as (Hnd_st & Hdisj & Hnd_rest).
  apply NoDup_app in Hnd_rest as (Hnd_sell & _ & _).
  assert (Hx : Item.ID x ∈ Item.ID <$> item_storage g).
  { apply list_elem_of_fmap. exists x. split; [reflexivity|].
    apply (list_elem_of_lookup_2 _ _ _ Hi). }
  assert (Hfind : list_find (fun y => Item.ID y = Item.ID x) (item_storage g) = Some (i, x)).
  { apply list_find_Some. split; [exact Hi|]. split; [reflexivity|].
    intros j y Hj Hji Heq.
    assert (Hij : j = i); [|lia].
    apply (NoDup_lookup _ _ _ (Item.ID x) Hnd_st).
    - rewrite list_lookup_fmap, Hj. cbn. f_equal. exact Heq.
    - rewrite list_lookup_fmap, Hi. reflexivity. }
  split.
  - assert (Hsell : forall j e, sell_area g !! j = Some e -> Item.ID (item e) <> Item.ID x).
    { intros j e Hj Heq. apply (Hdisj (Item.ID x) Hx).
      apply elem_of_app. left. rewrite <- list_fmap_compose.
      apply list_elem_of_fmap. exists e. split; [symmetry; exact Heq|].
      apply (list_elem_of_lookup_2 _ _ _ Hj). }
    unfold sellItem. rewrite Hfind. cbn [fmap option_fmap option_map snd].
    unfold sellItem_confirmed, removeFromSellArea.
    cbn [item_storage sell_area equipped player set_sell_area set_item_storage].
    assert (Hfind2 :
      list_find (fun e => Item.ID (item e) = Item.ID x)
        (sell_area g ++ [mkSellEntry x now 30])
      = Some (length (sell_area g), mkSellEntry x now 30)).
    { apply list_find_Some. split; [apply list_lookup_middle; reflexivity|].
      split; [reflexivity|].
      intros j e Hj Hlt. rewrite lookup_app_l in Hj by exact Hlt. apply (Hsell j e Hj). }
    rewrite Hfind2.
    cbn [item_storage sell_area equipped player set_sell_area set_item_storage item].
    rewrite (filter_unique_delete _ i x Hnd_st Hi).
    split; [reflexivity|]. split; [|reflexivity].
    rewrite delete_middle. apply app_nil_r.
  - intros Hnone. unfold equipItem. rewrite Hfind.
    cbn [equipped player set_item_storage]. rewrite Hnone.
    unfold unequipWeapon.
    cbn [item_storage sell_area equipped player set_equipped set_player set_item_storage].
    repeat split.
Qed.

(* ================================================================== *)
(** * Item IDs: given out once, reused only after a sale *)
(* ================================================================== *)

Lemma ids_ok_perm (g g' : GameCore) :
  id_pool g' ≡ₚ id_pool g -> item_id_counter g' = item_id_counter g ->
  ids_ok g -> ids_ok g'.
Proof.
  intros Hperm Hc [Hnd Hlt]. split.
  - rewrite Hperm. exact Hnd.
  - rewrite Hperm, Hc. exact Hlt.
Qed.

(** What [recycled_ids.pop()] or the counter hands out is an ID that is not
    in use. *)
Lemma next_item_id_pool (g g1 : GameCore) (itemId : Z) :
  next_item_id g = (itemId, g1) ->
  ids_ok g ->
  all_items g1 = all_items g /\
  money g1 = money g /\ player g1 = player g /\
  item_storage g1 = item_storage g /\ sell_area g1 = sell_area g /\
  spawned_enemies g1 = spawned_enemies g /\
  NoDup (itemId :: id_pool g1) /\
  Forall (fun i => i < item_id_counter g1) (itemId :: id_pool g1).
Proof.
  unfold next_item_id. intros Hnext [Hnd Hlt].
  destruct (last (recycled_ids g)) as [r|] eqn:Hlast.
  - injection Hnext as <- <-.
    apply last_Some in Hlast as [l' Hl'].
    assert (Htake : take (length (recycled_ids g) - 1) (recycled_ids g) = l').
    { rewrite Hl', length_app. cbn [length].
      replace (length l' + 1 - 1)%nat with (length l') by lia.
      apply take_app_length. }
    repeat (split; [reflexivity|]).
    unfold id_pool in *.
    cbn [recycled_ids set_recycled_ids item_id_counter].
    change (all_items (set_recycled_ids ?v g)) with (all_items g).
    rewrite Htake. rewrite Hl' in Hnd, Hlt.
    assert (Hperm : r :: (Item.ID <$> all_items g) ++ l'
                    ≡ₚ (Item.ID <$> all_items g) ++ l' ++ [r]) by solve_Permutation.
    split; [rewrite Hperm; exact Hnd | rewrite Hperm; exact Hlt].
  - injection Hnext as <- <-.
    repeat (split; [reflexivity|]).
    unfold id_pool in *.
    cbn [recycled_ids set_item_id_counter item_id_counter].
    change (all_items (set_item_id_counter ?v g)) with (all_items g).
    split.
    + apply NoDup_cons. split; [|exact Hnd].
      intros Hin. rewrite Forall_forall in Hlt. specialize (Hlt _ Hin). lia.
    + apply Forall_cons. split; [lia|].
      eapply Forall_impl; [exact Hlt|]. cbn. intros; lia.
Qed.

Section Ids.
Context {M : JSMath}.

Lemma itemGen_inv (g : GameCore) (u_weapon u_rarity u_mold threshold now : Q)
    (g' : GameCore) (out : ItemGen) :
  itemGen g u_weapon u_rarity u_mold threshold now = Done (g', out) ->
  exists g1 : GameCore,
    next_item_id g = (Item.ID (itemInfo out), g1) /\
    Item.RNG (itemInfo out) = ig_combinedActual out /\
    g' = if Qltb (ig_combinedActual out) threshold
         then set_sell_area (sell_area g1 ++ [mkSellEntry (itemInfo out) now 30]) g1
         else set_item_storage (item_storage g1 ++ [itemInfo out]) g1.
Proof.
  unfold itemGen.
  destruct (getWeapon g u_weapon) as [weaponData|]; cbn [rbind defined]; [|discriminate].
  destruct (rngGen g u_rarity u_mold) as [r| |]; cbn [rbind]; try discriminate.
  destruct (rarity r) as [[[r0 r1] r2] r3]. destruct (moldInfo r) as [[m0 m1] m2].
  destruct (next_item_id g) as [itemId g1].
  intros [= <- <-]. exists g1. cbn [itemInfo ig_combinedActual Item.ID Item.RNG]. auto.
Qed.

Lemma enemyLoot_inv (g : GameCore) (enemy : Enemy.t) (u_weapon u_mold : Q)
    (g' : GameCore) (drop : Item.t) :
  enemyLoot g enemy u_weapon u_mold = Done (g', drop) ->
  next_item_id g = (Item.ID drop, g').
Proof.
  unfold enemyLoot.
  repeat match goal with
         | |- rbind ?r _ = Done _ -> _ => destruct r; cbn [rbind]; [|discriminate|discriminate]
         end.
  destruct (next_item_id g) as [itemId g1]. intros [= <- <-]. reflexivity.
Qed.

Lemma itemGen_spec (g : GameCore)
    (u_weapon u_rarity u_mold threshold now : Q) (g' : GameCore) (out : ItemGen) :
  ids_ok g ->
  itemGen g u_weapon u_rarity u_mold threshold now = Done (g', out) ->
  (if Qltb (Item.RNG (itemInfo out)) threshold
   then sell_area g' = sell_area g ++ [mkSellEntry (itemInfo out) now 30] /\
        item_storage g' = item_storage g
   else item_storage g' = item_storage g ++ [itemInfo out] /\
        sell_area g' = sell_area g) /\
  money g' = money g /\ player g' = player g /\
  (Item.ID (itemInfo out) ∉ (Item.ID <$> all_items g)) /\
  ids_ok g'.
Proof.
  intros Hok Hrun. destruct (itemGen_inv _ _ _ _ _ _ _ _ Hrun) as (g1 & Hnext & Hrng & ->).
  destruct (next_item_id_pool _ _ _ Hnext Hok)
    as (Hall & Hmoney & Hplayer & Hst & Hsell & _ & Hnd & Hlt).
  rewrite Hrng.
  assert (Hfresh : Item.ID (itemInfo out) ∉ (Item.ID <$> all_items g)).
  { apply NoDup_cons in Hnd as [Hnotin _]. intros Hin. apply Hnotin.
    unfold id_pool. rewrite Hall. apply elem_of_app. left. exact Hin. }
  destruct (Qltb (ig_combinedActual out) threshold).
  - assert (Hperm : id_pool (set_sell_area (sell_area g1 ++ [mkSellEntry (itemInfo out) now 30]) g1)
                    ≡ₚ Item.ID (itemInfo out) :: id_pool g1).
    { unfold id_pool, all_items.
      cbn [sell_area item_storage player recycled_ids set_sell_area].
      rewrite !fmap_app. cbn [fmap list_fmap item]. solve_Permutation. }
    split; [|split; [|split; [|split]]].
    + cbn [sell_area item_storage set_sell_area]. rewrite Hsell, Hst. split; reflexivity.
    + exact Hmoney.
    + exact Hplayer.
    + exact Hfresh.
    + split; [rewrite Hperm; exact Hnd | rewrite Hperm; exact Hlt].
  - assert (Hperm : id_pool (set_item_storage (item_storage g1 ++ [itemInfo out]) g1)
                    ≡ₚ Item.ID (itemInfo out) :: id_pool g1).
    { unfold id_pool, all_items.
      cbn [sell_area item_storage player recycled_ids set_item_storage].
      rewrite !fmap_app. cbn [fmap list_fmap]. solve_Permutation. }
    split; [|split; [|split; [|split]]].
    + cbn [sell_area item_storage set_item_storage]. rewrite Hsell, Hst. split; reflexivity.
    + exact Hmoney.
    + exact Hplayer.
    + exact Hfresh.
    + split; [rewrite Hperm; exact Hnd | rewrite Hperm; exact Hlt].
Qed.

(** Each call of [itemGen] adds exactly one item, to the sell area when its
    RNG is below the threshold and to the storage otherwise, and leaves
    every other item, the money and the player as they were.  On an object
    whose IDs are in order the ID it gives the item is not held by any other
    item, and the IDs are in order afterwards. *)
Theorem itemGen_adds_one_item_with_fresh_id (g : GameCore)
    (u_weapon u_rarity u_mold threshold now : Q) (g' : GameCore) (out : ItemGen) :
  ids_ok g ->
  itemGen g u_weapon u_rarity u_mold threshold now = Done (g', out) ->
  (if Qltb (Item.RNG (itemInfo out)) threshold
   then sell_area g' = sell_area g ++ [mkSellEntry (itemInfo out) now 30] /\
        item_storage g' = item_storage g
   else item_storage g' = item_storage g ++ [itemInfo out] /\
        sell_area g' = sell_area g) /\
  money g' = money g /\ player g' = player g /\
  (Item.ID (itemInfo out) ∉ (Item.ID <$> all_items g)) /\
  ids_ok g'.
Proof. apply itemGen_spec. Qed.

Lemma checkLevelUp_items (fuel : nat) (g g' : GameCore) (n : Z) :
  checkLevelUp fuel g = Done (g', n) ->
  all_items g' = all_items g /\ recycled_ids g' = recycled_ids g /\
  item_id_counter g' = item_id_counter g.
Proof.
  intros Hrun. destruct (checkLevelUp_frame _ _ _ _ Hrun) as [-> | ->]; repeat split.
Qed.

Lemma processSellArea_for_pool (fuel : nat) (t : Q) (n : nat) :
  forall (g : GameCore) (sold : list Sold) (flag : bool)
         (g' : GameCore) (sold' : list Sold) (flag' : bool),
    processSellArea_for fuel n g t sold flag = Done (g', sold', flag') ->
    id_pool g' ≡ₚ id_pool g /\ item_id_counter g' = item_id_counter g /\
    item_storage g' = item_storage g /\
    equipped (player g') = equipped (player g).
Proof.
  induction n as [|i IH]; intros g sold flag g' sold' flag'.
  - cbn [processSellArea_for]. intros [= <- _ _]. split; [reflexivity|]. repeat split.
  - cbn [processSellArea_for].
    destruct (sell_area g !! i) as [entry|] eqn:Hi; cbn [rbind defined]; [|discriminate].
    destruct (due t entry); [|apply IH].
    destruct (checkLevelUp fuel _) as [[g1 n1]| |] eqn:Hlvl; cbn [rbind]; try discriminate.
    destruct (checkLevelUp_items _ _ _ _ Hlvl) as (Hall & Hrec & Hcnt).
    destruct (checkLevelUp_keeps _ _ _ _ Hlvl) as (_ & _ & Hsell & Hst & _ & Heq & _).
    cbn [sell_area item_storage equipped player recycled_ids item_id_counter
         set_exp set_player set_money] in Hrec, Hcnt, Hsell, Hst, Heq.
    intros Hrest. apply IH in Hrest as (Hperm & Hc & Hs & He).
    cbn [item_storage equipped player item_id_counter set_sell_area set_recycled_ids]
      in Hc, Hs, He.
    rewrite Hc, Hs, He, Hcnt, Hst, Heq. split; [|repeat split].
    rewrite Hperm. unfold id_pool, all_items.
    cbn [sell_area item_storage equipped player recycled_ids set_sell_area set_recycled_ids].
    rewrite Hsell, Hst, Heq, Hrec.
    assert (Hd : (item <$> sell_area g) ≡ₚ item entry :: (item <$> delete i (sell_area g))).
    { rewrite (delete_Permutation (sell_area g) i entry Hi) at 1. reflexivity. }
    rewrite !fmap_app. rewrite Hd. cbn [fmap list_fmap]. solve_Permutation.
Qed.

(** A tick of the sell area moves the IDs of the items it sells to the
    recycled IDs and touches neither the storage, nor the weapon in hand,
    nor the counter: the IDs stay in order. *)
Lemma processSellArea_ids_ok (fuel : nat) (g : GameCore) (t : Q)
    (g' : GameCore) (sold : list Sold) :
  processSellArea fuel g t = Done (g', sold) ->
  ids_ok g ->
  ids_ok g' /\ item_storage g' = item_storage g /\
  equipped (player g') = equipped (player g).
Proof.
  unfold processSellArea.
  destruct (processSellArea_for _ _ _ _ _ _) as [[[g1 sold1] flag1]| |] eqn:Hloop;
    cbn [rbind]; try discriminate.
  intros [= <- _] Hok.
  destruct (processSellArea_for_pool _ _ _ _ _ _ _ _ _ Hloop) as (Hperm & Hc & Hs & He).
  split; [exact (ids_ok_perm _ _ Hperm Hc Hok) | auto].
Qed.

Lemma fightEnemy_while_ids_ok (areaName : string) (enemy : Enemy.t) (u_weapon u_mold : Q)
    (g : GameCore) (fuel : nat) :
  ids_ok g ->
  forall (playerHealth : jsnum) (enemyHealth : Z) (g' : GameCore) (r : FightResult),
    fightEnemy_while fuel g areaName enemy u_weapon u_mold playerHealth enemyHealth
      = Done (g', r) ->
    ids_ok g'.
Proof.
  intros Hok.
  induction fuel as [|fuel IH]; intros playerHealth enemyHealth g' r; [discriminate|].
  cbn [fightEnemy_while].
  destruct (js_gt0 playerHealth && (0 <? enemyHealth)); [|intros [= <- _]; exact Hok].
  destruct (equipped (player g)) as [weapon|]; cbn [rbind defined]; [|discriminate].
  destruct (enemyHealth - Math_floor (Item.Damage weapon) <=? 0).
  - destruct (checkLevelUp fuel _) as [[g1 n1]| |] eqn:Hlvl; cbn [rbind]; try discriminate.
    destruct (checkLevelUp_items _ _ _ _ Hlvl) as (Hall & Hrec & Hcnt).
    assert (Hok1 : ids_ok g1).
    { apply (ids_ok_perm g g1); [|exact Hcnt|exact Hok].
      unfold id_pool. rewrite Hall, Hrec. reflexivity. }
    destruct (spawned_enemies g1 !! areaName) as [enemies|]; cbn [rbind defined]; [|discriminate].
    set (g2 := match findIndex_enemy enemies enemy with
               | Some enemyIndex => _
               | None => g1
               end).
    assert (Hok2 : ids_ok g2).
    { unfold g2. destruct (findIndex_enemy enemies enemy); exact Hok1. }
    destruct (Enemy.Elite enemy || bool_decide (areaName = "Champions Hall")).
    + destruct (enemyLoot g2 enemy u_weapon u_mold) as [[g3 drop]| |] eqn:Hloot;
        cbn [rbind]; try discriminate.
      apply enemyLoot_inv in Hloot.
      destruct (next_item_id_pool _ _ _ Hloot Hok2) as (_ & _ & _ & _ & _ & _ & Hnd & Hlt).
      intros [= <- _].
      assert (Hperm : id_pool (set_item_storage (item_storage g3 ++ [drop]) g3)
                      ≡ₚ Item.ID drop :: id_pool g3).
      { unfold id_pool, all_items.
        cbn [sell_area item_storage player recycled_ids set_item_storage].
        rewrite !fmap_app. cbn [fmap list_fmap]. solve_Permutation. }
      split; [rewrite Hperm; exact Hnd | rewrite Hperm; exact Hlt].
    + intros [= <- _]. exact Hok2.
  - destruct (js_le0 _); [intros [= <- _]; exact Hok|]. apply IH.
Qed.

Lemma upgradeMold_buy_items (n : nat) :
  forall g : GameCore,
    all_items (upgradeMold_buy n g) = all_items g /\
    recycled_ids (upgradeMold_buy n g) = recycled_ids g /\
    item_id_counter (upgradeMold_buy n g) = item_id_counter g.
Proof.
  induction n as [|n IH]; intros g; [repeat split|].
  cbn [upgradeMold_buy].
  match goal with
  | |- context [upgradeMold_buy n ?g1] => destruct (IH g1) as (H1 & H2 & H3)
  end.
  rewrite H1, H2, H3. repeat split.
Qed.

Lemma upgradeLuck_buy_items (n : nat) :
  forall g : GameCore,
    all_items (upgradeLuck_buy n g) = all_items g /\
    recycled_ids (upgradeLuck_buy n g) = recycled_ids g /\
    item_id_counter (upgradeLuck_buy n g) = item_id_counter g.
Proof.
  induction n as [|n IH]; intros g; [repeat split|].
  cbn [upgradeLuck_buy].
  match goal with
  | |- context [upgradeLuck_buy n ?g1] => destruct (IH g1) as (H1 & H2 & H3)
  end.
  rewrite H1, H2, H3. repeat split.
Qed.

Lemma upgrades_ids_ok (g : GameCore) (amount : Z) :
  ids_ok g -> ids_ok (fst (upgradeMold g amount)) /\ ids_ok (fst (upgradeLuck g amount)).
Proof.
  intros Hok. split.
  - unfold upgradeMold. destruct (amount <=? 0); [exact Hok|].
    destruct (Qltb _ _); [exact Hok|]. cbn [fst].
    destruct (upgradeMold_buy_items (Z.to_nat amount) g) as (H1 & H2 & H3).
    apply (ids_ok_perm g); [|exact H3|exact Hok].
    unfold id_pool.
    change (all_items (updateLuckMult ?x)) with (all_items x).
    change (recycled_ids (updateLuckMult ?x)) with (recycled_ids x).
    rewrite H1, H2. reflexivity.
  - unfold upgradeLuck. destruct (amount <=? 0); [exact Hok|].
    destruct (Qltb _ _); [exact Hok|]. cbn [fst].
    destruct (upgradeLuck_buy_items (Z.to_nat amount) g) as (H1 & H2 & H3).
    apply (ids_ok_perm g); [|exact H3|exact Hok].
    unfold id_pool.
    change (all_items (updateLuckMult ?x)) with (all_items x).
    change (recycled_ids (updateLuckMult ?x)) with (recycled_ids x).
    rewrite H1, H2. reflexivity.
Qed.

Lemma ui_moves_ids_ok (g : GameCore) (itemId : Z) (now : Q) :
  ids_ok g ->
  ids_ok (equipItem g itemId) /\ ids_ok (unequipWeapon g) /\
  ids_ok (removeFromSellArea g itemId) /\ ids_ok (sellItem g itemId true now).
Proof.
  intros Hok.
  assert (Hst : NoDup (Item.ID <$> item_storage g)).
  { destruct Hok as [Hnd _]. unfold id_pool, all_items in Hnd.
    rewrite fmap_app in Hnd. apply NoDup_app in Hnd as [Hnd _].
    apply NoDup_app in Hnd as [Hnd _]. exact Hnd. }
  destruct (ui_moves_items g itemId now) as ((He & Hu & Hr & Hs) & Hframe).
  assert (Hstep : forall g' : GameCore,
             all_items g' ≡ₚ all_items g ->
             recycled_ids g' = recycled_ids g /\ item_id_counter g' = item_id_counter g ->
             ids_ok g').
  { intros g' Hperm (Hrec & Hcnt). apply (ids_ok_perm g); [|exact Hcnt|exact Hok].
    unfold id_pool. rewrite Hperm, Hrec. reflexivity. }
  split; [|split; [|split]].
  - apply Hstep; [exact He|]. destruct (Hframe (equipItem g itemId)) as (_ & ? & ? & _); auto.
  - apply Hstep; [exact Hu|]. destruct (Hframe (unequipWeapon g)) as (_ & ? & ? & _); auto.
  - apply Hstep; [exact Hr|].
    destruct (Hframe (removeFromSellArea g itemId)) as (_ & ? & ? & _); auto.
  - apply Hstep; [exact (Hs Hst)|].
    destruct (Hframe (sellItem g itemId true now)) as (_ & ? & ? & _); auto 10.
Qed.

End Ids.

(** The page: the game object, and the confirmation dialog while it is
    shown, with the item and the ID that the callback of its yes-button
    holds. *)
Record Page : Type := mkPage {
  core : GameCore;
  dialog : option (Item.t * Z)
}.

(** The item the dialog holds is still the stored item [sellItem] would
    find. *)
Definition still_stored (g : GameCore) (item : Item.t) (itemId : Z) : Prop :=
  snd <$> list_find (fun i => Item.ID i = itemId) (item_storage g) = Some item.

Section Pages.
Context {M : JSMath}.

(** The states a page passes through: a new game, and from a state the
    state after an item spawn, a tick of the sell area, a fight, an upgrade
    of either track, or a move of an item by the player.  [sellItem] only
    opens the dialog, with the item it found; the game goes on while the
    dialog is shown; the yes-button runs the callback on the object as it
    is by then, the no-button only closes the dialog.  With [prompt] the
    relation keeps the runs in which every yes-button is pressed while the
    item of the dialog is still stored; without it the button may be
    pressed at any time. *)
Inductive reachable (prompt : bool) : Page -> Prop :=
| reach_new (name : string) :
    reachable prompt (mkPage (new_GameCore name) None)
| reach_itemGen (g g' : GameCore) (d : option (Item.t * Z))
    (u_weapon u_rarity u_mold threshold now : Q) (out : ItemGen) :
    reachable prompt (mkPage g d) ->
    itemGen g u_weapon u_rarity u_mold threshold now = Done (g', out) ->
    reachable prompt (mkPage g' d)
| reach_processSellArea (g g' : GameCore) (d : option (Item.t * Z))
    (fuel : nat) (t : Q) (sold : list Sold) :
    reachable prompt (mkPage g d) ->
    processSellArea fuel g t = Done (g', sold) ->
    reachable prompt (mkPage g' d)
| reach_fightEnemy (g g' : GameCore) (d : option (Item.t * Z))
    (fuel : nat) (areaName : string) (enemy : Enemy.t)
    (dropItems : bool) (u_weapon u_mold : Q) (r : FightResult) :
    reachable prompt (mkPage g d) ->
    fightEnemy fuel g areaName enemy dropItems u_weapon u_mold = Done (g', r) ->
    reachable prompt (mkPage g' d)
| reach_upgradeMold (g : GameCore) (d : option (Item.t * Z)) (amount : Z) :
    reachable prompt (mkPage g d) ->
    reachable prompt (mkPage (fst (upgradeMold g amount)) d)
| reach_upgradeLuck (g : GameCore) (d : option (Item.t * Z)) (amount : Z) :
    reachable prompt (mkPage g d) ->
    reachable prompt (mkPage (fst (upgradeLuck g amount)) d)
| reach_equipItem (g : GameCore) (d : option (Item.t * Z)) (itemId : Z) :
    reachable prompt (mkPage g d) ->
    reachable prompt (mkPage (equipItem g itemId) d)
| reach_unequipWeapon (g : GameCore) (d : option (Item.t * Z)) :
    reachable prompt (mkPage g d) ->
    reachable prompt (mkPage (unequipWeapon g) d)
| reach_removeFromSellArea (g : GameCore) (d : option (Item.t * Z)) (itemId : Z) :
    reachable prompt (mkPage g d) ->
    reachable prompt (mkPage (removeFromSellArea g itemId) d)
| reach_sellItem (g : GameCore) (d : option (Item.t * Z)) (itemId : Z) (item : Item.t) :
    reachable prompt (mkPage g d) ->
    snd <$> list_find (fun i => Item.ID i = itemId) (item_storage g) = Some item ->
    reachable prompt (mkPage g (Some (item, itemId)))
| reach_yes (g : GameCore) (item : Item.t) (itemId : Z) (now : Q) :
    reachable prompt (mkPage g (Some (item, itemId))) ->
    (prompt = true -> still_stored g item itemId) ->
    reachable prompt (mkPage (sellItem_confirmed g item itemId now) None)
| reach_no (g : GameCore) (item : Item.t) (itemId : Z) :
    reachable prompt (mkPage g (Some (item, itemId))) ->
    reachable prompt (mkPage g None).

(** A confirmation given while the item is still stored is the sale
    confirmed at once. *)
Lemma sellItem_confirmed_prompt (g : GameCore) (item : Item.t) (itemId : Z) (now : Q) :
  still_stored g item itemId ->
  sellItem_confirmed g item itemId now = sellItem g itemId true now.
Proof. unfold still_stored, sellItem. intros ->. reflexivity. Qed.

Lemma reachable_ids_ok (p : Page) : reachable true p -> ids_ok (core p).
Proof.
  induction 1 as [name
                 | g g' d u_weapon u_rarity u_mold threshold now out _ IH Hrun
                 | g g' d fuel t sold _ IH Hrun
                 | g g' d fuel areaName enemy dropItems u_weapon u_mold r _ IH Hrun
                 | g d amount _ IH | g d amount _ IH
                 | g d itemId _ IH | g d _ IH | g d itemId _ IH
                 | g d itemId item _ IH Hfind
                 | g item itemId now _ IH Hstored
                 | g item itemId _ IH]; cbn [core] in *.
  - split; [apply NoDup_nil_2 | apply Forall_nil_2].
  - apply (itemGen_spec _ _ _ _ _ _ _ _ IH Hrun).
  - apply (processSellArea_ids_ok _ _ _ _ _ Hrun IH).
  - apply (fightEnemy_while_ids_ok _ _ _ _ _ _ IH _ _ _ _ Hrun).
  - exact (proj1 (upgrades_ids_ok g amount IH)).
  - exact (proj2 (upgrades_ids_ok g amount IH)).
  - destruct (ui_moves_ids_ok g itemId 0%Q IH) as (H & _). exact H.
  - destruct (ui_moves_ids_ok g 0 0%Q IH) as (_ & H & _). exact H.
  - destruct (ui_moves_ids_ok g itemId 0%Q IH) as (_ & _ & H & _). exact H.
  - exact IH.
  - rewrite (sellItem_confirmed_prompt g item itemId now (Hstored eq_refl)).
    destruct (ui_moves_ids_ok g itemId now IH) as (_ & _ & _ & H). exact H.
  - exact IH.
Qed.

End Pages.

(** A late confirmation: the one item of a new game is stored, the dialog to
    sell it is opened, the item is taken in hand and then the yes-button is
    pressed. *)
Lemma late_confirmation :
  exists (g : GameCore) (out : ItemGen),
    itemGen (@new_GameCore approxMath "player") 0.5 0.5 0.5 0 1000 = Done (g, out) /\
    Item.ID (itemInfo out) = 0 /\
    still_stored g (itemInfo out) 0 /\
    ~ still_stored (equipItem g 0) (itemInfo out) 0 /\
    @reachable approxMath false
      (mkPage (sellItem_confirmed (equipItem g 0) (itemInfo out) 0 1010) None) /\
    equipped (player (sellItem_confirmed (equipItem g 0) (itemInfo out) 0 1010))
      = Some (itemInfo out) /\
    sell_area (sellItem_confirmed (equipItem g 0) (itemInfo out) 0 1010)
      = [mkSellEntry (itemInfo out) 1010 30] /\
    Item.ID <$> all_items (sellItem_confirmed (equipItem g 0) (itemInfo out) 0 1010) = [0; 0].
Proof.
  assert (Hrun : exists (g : GameCore) (out : ItemGen),
             itemGen (@new_GameCore approxMath "player") 0.5 0.5 0.5 0 1000 = Done (g, out) /\
             Item.ID (itemInfo out) = 0 /\
             still_stored g (itemInfo out) 0 /\
             item_storage (equipItem g 0) = [] /\
             equipped (player (sellItem_confirmed (equipItem g 0) (itemInfo out) 0 1010))
               = Some (itemInfo out) /\
             sell_area (sellItem_confirmed (equipItem g 0) (itemInfo out) 0 1010)
               = [mkSellEntry (itemInfo out) 1010 30] /\
             Item.ID <$> all_items (sellItem_confirmed (equipItem g 0) (itemInfo out) 0 1010)
               = [0; 0])
    by (do 2 eexists; do 6 (split; [vm_compute; reflexivity|]); vm_compute; reflexivity).
  destruct Hrun as (g & out & Hrun & Hid & Hstored & Hempty & Hhand & Hsell & Hids).
  exists g, out.
  split; [exact Hrun|]. split; [exact Hid|]. split; [exact Hstored|].
  split; [unfold still_stored; rewrite Hempty; discriminate|].
  split; [|auto].
  apply reach_yes; [|discriminate].
  apply reach_equipItem.
  apply (reach_sellItem false g None 0 (itemInfo out)); [|exact Hstored].
  apply (reach_itemGen false _ _ None _ _ _ _ _ _ (reach_new false "player") Hrun).
Qed.

(** As long as every sale is confirmed while its item is still stored, no
    two items the object holds (stored, in the sell area or in hand) have
    the same ID, no ID in use is among the recycled ones, and every ID is
    below the counter.  [sellItem] finds the item when it opens the dialog
    and the callback of the yes-button does not look again: when the item is
    taken in hand while the dialog is shown and the sale is confirmed after
    that, the item is in hand and in the sell area at once. *)
Theorem item_ids_distinct_unless_sale_confirmed_late :
  (forall (M : JSMath) (p : Page),
      reachable true p ->
      NoDup (Item.ID <$> all_items (core p)) /\
      (forall it : Item.t, it ∈ all_items (core p) -> Item.ID it ∉ recycled_ids (core p)) /\
      (forall it : Item.t, it ∈ all_items (core p) -> Item.ID it < item_id_counter (core p))) /\
  (exists (p : Page) (it : Item.t),
      @reachable approxMath false p /\
      equipped (player (core p)) = Some it /\
      it ∈ (item <$> sell_area (core p)) /\
      ~ NoDup (Item.ID <$> all_items (core p))).
Proof.
  split.
  - intros M p Hreach. destruct (reachable_ids_ok p Hreach) as [Hnd Hlt].
    unfold id_pool in Hnd, Hlt. apply NoDup_app in Hnd as (Hnd & Hdisj & _).
    split; [exact Hnd|]. split.
    + intros it Hin. apply Hdisj. apply list_elem_of_fmap. eauto.
    + intros it Hin. rewrite Forall_forall in Hlt. apply Hlt.
      apply elem_of_app. left. apply list_elem_of_fmap. eauto.
  - destruct late_confirmation as (g & out & _ & _ & _ & _ & Hreach & Hhand & Hsell & Hids).
    exists (mkPage (sellItem_confirmed (equipItem g 0) (itemInfo out) 0 1010) None),
           (itemInfo out).
    cbn [core]. split; [exact Hreach|]. split; [exact Hhand|]. split.
    + rewrite Hsell. apply list_elem_of_here.
    + rewrite Hids. intros Hnd. apply NoDup_cons in Hnd as [Hnotin _].
      apply Hnotin, list_elem_of_here.
Qed.


(** A storage of two swords with the IDs 0 and 1: the first is sent to the
    sell area and taken back, and is taken in hand and put down. *)
Lemma ui_moves_round_trip_witness :
  let second := Item.mk 1 45 "Iron" "Rare" 120 "Sword" 16 20 in
  let g := set_item_storage [sword 10 10; second] (@new_GameCore approxMath "player") in
  NoDup (Item.ID <$> all_items g) /\
  item_storage g !! 0%nat = Some (sword 10 10) /\
  item_storage (removeFromSellArea (sellItem g 0 true 1000) 0) = [second; sword 10 10] /\
  sell_area (removeFromSellArea (sellItem g 0 true 1000) 0) = [] /\
  item_storage (unequipWeapon (equipItem g 0)) = [second; sword 10 10].
Proof.
  intros second g.
  assert (Hnd : NoDup (Item.ID <$> all_items g))
    by (apply (bool_decide_unpack _); vm_compute; exact I).
  assert (Hi : item_storage g !! 0%nat = Some (sword 10 10)) by reflexivity.
  destruct (ui_moves_round_trip g 0%nat (sword 10 10) 1000%Q Hnd Hi) as [Hsell Hequip].
  destruct Hsell as (Hs1 & Hs2 & _). destruct (Hequip eq_refl) as (He1 & _).
  split; [exact Hnd|]. split; [exact Hi|].
  split; [exact Hs1|]. split; [exact Hs2 | exact He1].
Defined.

(** The first item of a new game, with an auto-sell threshold of 100: its
    RNG of 4 is below the threshold and it goes to the sell area with the
    ID 0. *)
Lemma itemGen_adds_one_item_with_fresh_id_witness :
  let g := @new_GameCore approxMath "player" in
  ids_ok g /\
  exists (g' : GameCore) (out : ItemGen),
    itemGen g 0.5 0.5 0.5 100 1000 = Done (g', out) /\
    sell_area g' = sell_area g ++ [mkSellEntry (itemInfo out) 1000 30] /\
    item_storage g' = item_storage g /\
    ids_ok g'.
Proof.
  intros g.
  assert (Hok : ids_ok g) by (split; [apply NoDup_nil_2 | apply Forall_nil_2]).
  split; [exact Hok|].
  assert (Hrun : exists g' out, itemGen g 0.5 0.5 0.5 100 1000 = Done (g', out) /\
                                Qltb (Item.RNG (itemInfo out)) 100 = true)
    by (do 2 eexists; split; vm_compute; reflexivity).
  destruct Hrun as (g' & out & Hrun & Hlow).
  destruct (@itemGen_adds_one_item_with_fresh_id approxMath g 0.5%Q 0.5%Q 0.5%Q 100%Q 1000%Q
              g' out Hok Hrun) as (Hroute & _ & _ & _ & Hok').
  rewrite Hlow in Hroute. destruct Hroute as [Hsell Hst].
  exists g', out. auto.
Defined.

(** The first item of a new game is stored, its sale is asked for and
    confirmed at once: the IDs are distinct. *)
Lemma item_ids_distinct_unless_sale_confirmed_late_witness :
  exists (g : GameCore) (out : ItemGen),
    itemGen (@new_GameCore approxMath "player") 0.5 0.5 0.5 0 1000 = Done (g, out) /\
    let p := mkPage (sellItem_confirmed g (itemInfo out) 0 1010) None in
    @reachable approxMath true p /\
    sell_area (core p) = [mkSellEntry (itemInfo out) 1010 30] /\
    NoDup (Item.ID <$> all_items (core p)) /\
    (forall it : Item.t, it ∈ all_items (core p) -> Item.ID it < item_id_counter (core p)).
Proof.
  assert (Hrun : exists (g : GameCore) (out : ItemGen),
             itemGen (@new_GameCore approxMath "player") 0.5 0.5 0.5 0 1000 = Done (g, out) /\
             still_stored g (itemInfo out) 0 /\
             sell_area (sellItem_confirmed g (itemInfo out) 0 1010)
               = [mkSellEntry (itemInfo out) 1010 30])
    by (do 2 eexists; do 2 (split; [vm_compute; reflexivity|]); vm_compute; reflexivity).
  destruct Hrun as (g & out & Hrun & Hstored & Hsell).
  exists g, out. split; [exact Hrun|]. intros p.
  assert (Hreach : @reachable approxMath true p).
  { apply reach_yes; [|intros _; exact Hstored].
    apply (reach_sellItem true g None 0 (itemInfo out)); [|exact Hstored].
    apply (reach_itemGen true _ _ None _ _ _ _ _ _ (reach_new true "player") Hrun). }
  destruct (proj1 item_ids_distinct_unless_sale_confirmed_late approxMath p Hreach)
    as (Hnd & _ & Hlt).
  split; [exact Hreach|]. split; [exact Hsell|]. split; [exact Hnd | exact Hlt].
Defined.

(* ================================================================== *)
(** * game-enemies.js: generation, expiry and order of enemies *)
(* ================================================================== *)

(** Enemy base stats *)
Definition ENEMY_BASE_HEALTH : Q := 50.
Definition ENEMY_BASE_EXP : Q := 20.
Definition ENEMY_BASE_CASH : Q := 50.
Definition ENEMY_BASE_DAMAGE : Q := 5.

(** Stores: name, chance threshold, health multiplier, damage multiplier,
    EXP mult, Cash mult *)
Definition ENEMY_RARITIES : list TierRow := [
  mkRow "Zenith" (threshold_of 20000000) [10000; 500; 100; 120]%Q;
  mkRow "Universal" (threshold_of 950000) [4000; 200; 50; 60]%Q;
  mkRow "Cosmic" (threshold_of 650000) [1000; 150; 20; 25]%Q;
  mkRow "Divine" (threshold_of 400000) [750; 100; 13; 16]%Q;
  mkRow "Mythical+2" (threshold_of 120000) [500; 80; 10; 12]%Q;
  mkRow "Mythical+1" (threshold_of 70000) [550; 65; 7.75; 9]%Q;
  mkRow "Mythical" (threshold_of 25000) [300; 40; 6; 7]%Q;
  mkRow "Legendary+2" (threshold_of 10000) [100; 27.25; 4.5; 6]%Q;
  mkRow "Legendary+1" (threshold_of 5000) [75; 20; 4; 5]%Q;
  mkRow "Legendary" (threshold_of 1250) [50; 15; 3.25; 4.5]%Q;
  mkRow "Epic+2" (threshold_of 700) [35; 9; 2.5; 3.5]%Q;
  mkRow "Epic+1" (threshold_of 275) [25; 6.75; 2.25; 3]%Q;
  mkRow "Epic" (threshold_of 150) [17.75; 5; 2.1; 2.5]%Q;
  mkRow "Rare+2" (threshold_of 100) [10; 4; 1.8; 2.2]%Q;
  mkRow "Rare+1" (threshold_of 50) [8.6; 3.25; 1.65; 2]%Q;
  mkRow "Rare" (threshold_of 45) [7; 2.5; 1.5; 1.8]%Q;
  mkRow "Uncommon+2" (threshold_of 20) [5.5; 2; 1.2; 1.5]%Q;
  mkRow "Uncommon+1" (threshold_of 10) [4.2; 1.7; 1.15; 1.3]%Q;
  mkRow "Uncommon" (threshold_of 6) [3.75; 1.5; 1.1; 1.2]%Q;
  mkRow "Common+2" (threshold_of 2) [2; 1.25; 1.05; 1.1]%Q;
  mkRow "Common+1" (threshold_of 1.5) [1.875; 1.1; 1.03; 1.05]%Q;
  mkRow "Common" (threshold_of 1) [1.5; 1; 1; 1.0]%Q
].

(** [Math.log], with what the proofs use of it: it grows with its argument
    and [Math.log(1.2)], the divisor of the despawn timer, is positive. *)
Class JSLog : Type := {
  Math_log : Q -> Q;
  Math_log_le : forall x y : Q, (0 < x)%Q -> (x <= y)%Q -> (Math_log x <= Math_log y)%Q;
  Math_log_1_2_pos : (0 < Math_log 1.2)%Q
}.

(** [findIndex] as a number: [-1] when nothing is found. *)
Definition findIndex_number (rows : list TierRow) (n : string) : Z :=
  match findIndex_name rows n with
  | Some i => Z.of_nat i
  | None => -1
  end.

(** Enemy generation function.  [u_roll] and [u_elite] are the two values
    of [Math.random()], in the order of the calls, [now] is
    [Date.now() / 1000], and [oid] is the identity of the new object. *)
Definition generateEnemy {L : JSLog} (areaChoice : Area) (enemyLuckMultiplier : Q)
    (u_roll u_elite now : Q) (oid : nat) : result Enemy.t :=
  let areaName := area_name areaChoice in
  let areaLuckMultiplier := area_luck areaChoice in
  let areaEliteMultiplier := area_elite areaChoice in
  let luck := (enemyLuckMultiplier * areaLuckMultiplier)%Q in
  let maxRoll := Math_floor (inject_Z MAXIMUM_VALUE / Qmax 1 luck) in
  let eliteMaxRoll := 1000%Q in
  let roll := Math_floor (u_roll * Qmax 1 (inject_Z maxRoll)) + 1 in
  let rng := (inject_Z maxRoll / inject_Z roll)%Q in
  let eliteRoll :=
    Math_floor (u_elite *
                Qmax 1 (inject_Z (Math_floor (eliteMaxRoll / Qmax 1 areaEliteMultiplier)))) + 1 in
  let* enemyRarity := getTier roll ENEMY_RARITIES luck in
  let name := tier enemyRarity in
  let* healthMultiplier := column (values enemyRarity) 0 in
  let* damageMultiplier := column (values enemyRarity) 1 in
  let* expMultiplier := column (values enemyRarity) 2 in
  let* cashMultiplier := column (values enemyRarity) 3 in
  let isElite := eliteRoll =? 1 in
  let finalHealthMult := healthMultiplier in
  let finalDamageMult := damageMultiplier in
  let finalExpMult := expMultiplier in
  let finalCashMult := cashMultiplier in
  let '(finalHealthMult, finalDamageMult, finalExpMult, finalCashMult) :=
    if isElite
    then (finalHealthMult * 20, finalDamageMult * 10, finalExpMult * 20, finalCashMult * 35)%Q
    else (finalHealthMult, finalDamageMult, finalExpMult, finalCashMult) in
  let '(finalHealthMult, finalDamageMult, finalExpMult, finalCashMult) :=
    if bool_decide (areaName = "Champions Hall")
    then (finalHealthMult * 200, finalDamageMult * 200, finalExpMult * 750,
          finalCashMult * 1500)%Q
    else (finalHealthMult, finalDamageMult, finalExpMult, finalCashMult) in
  (* Despawn timer calculation *)
  let rarityIndex := findIndex_number ENEMY_RARITIES name in
  let rarityScale := Z.of_nat (length ENEMY_RARITIES) - rarityIndex in
  let despawnTimer :=
    Math_floor (120 * Math_log (inject_Z (rarityScale + 5)) / Math_log 1.2) in
  Done (Enemy.mk oid name isElite
          (Math_floor (ENEMY_BASE_HEALTH * finalHealthMult))
          (Math_floor (ENEMY_BASE_DAMAGE * finalDamageMult))
          (Math_floor (ENEMY_BASE_EXP * finalExpMult))
          (Math_floor (ENEMY_BASE_CASH * finalCashMult))
          rng now despawnTimer).

(** The test of [removeExpiredEnemies] on an enemy. *)
Definition not_expired (currentTime : Q) (enemy : Enemy.t) : bool :=
  Qleb (currentTime - Enemy.spawn_time enemy) (inject_Z (Enemy.despawn_timer enemy)).

(** Remove expired enemies: the list of every area is replaced by its
    filtered list.  [currentTime] is [Date.now() / 1000]. *)
Definition removeExpiredEnemies (spawnedEnemies : gmap string (list Enemy.t))
    (currentTime : Q) : gmap string (list Enemy.t) :=
  (fun enemies => List.filter (not_expired currentTime) enemies) <$> spawnedEnemies.

(** The object [rarityOrder] of [sortEnemiesByRarity]. *)
Definition rarityOrder : gmap string Z :=
  fold_left (fun m ir => <[row_name (snd ir) := Z.of_nat (fst ir)]> m)
    (imap pair ENEMY_RARITIES) ∅.

(** The comparison [(a, b) => rarityOrder[a.name] - rarityOrder[b.name]].
    For a name the table does not have the difference is [NaN], which
    [sort] reads as [0]. *)
Definition compareRarity (a b : Enemy.t) : Z :=
  match rarityOrder !! Enemy.name a, rarityOrder !! Enemy.name b with
  | Some x, Some y => x - y
  | _, _ => 0
  end.

(** [Array.prototype.sort] is stable; it is written here as the insertion
    sort, which every stable sort agrees with when the comparison is an
    order, as it is on names of the table. *)
Fixpoint Array_sort_insert (cmp : Enemy.t -> Enemy.t -> Z) (x : Enemy.t)
    (sorted : list Enemy.t) : list Enemy.t :=
  match sorted with
  | [] => [x]
  | y :: rest =>
      if cmp x y <=? 0 then x :: y :: rest
      else y :: Array_sort_insert cmp x rest
  end.

Definition Array_sort (cmp : Enemy.t -> Enemy.t -> Z) (l : list Enemy.t) : list Enemy.t :=
  foldr (Array_sort_insert cmp) [] l.

(** Sort enemies by rarity *)
Definition sortEnemiesByRarity (enemies : list Enemy.t) : list Enemy.t :=
  Array_sort compareRarity enemies.

(** The enemy spawn loop of [startGameLoops], one round: for every area an
    enemy is generated, pushed and the list sorted; then the expired
    enemies are removed.  [rolls] gives, for the areas in their order, the
    two random numbers, the clock and the identity of the new enemy;
    [currentTime] is the clock of the removal. *)
Fixpoint spawn_forEach {L : JSLog} (areas : list Area) (rolls : list (Q * Q * Q * nat))
    (g : GameCore) : result GameCore :=
  match areas, rolls with
  | [], _ => Done g
  | area :: areas', (u_roll, u_elite, now, oid) :: rolls' =>
      let* enemy := generateEnemy area (enemy_luck_multiplier g) u_roll u_elite now oid in
      let* enemies := defined (spawned_enemies g !! area_name area) in
      let enemies := enemies ++ [enemy] in
      let g := set_spawned_enemies (<[area_name area := enemies]> (spawned_enemies g)) g in
      let g :=
        set_spawned_enemies
          (<[area_name area := sortEnemiesByRarity enemies]> (spawned_enemies g)) g in
      spawn_forEach areas' rolls' g
  | _ :: _, [] => Throws
  end.

Definition enemySpawnTick {L : JSLog} (rolls : list (Q * Q * Q * nat)) (currentTime : Q)
    (g : GameCore) : result GameCore :=
  let* g := spawn_forEach AREAS rolls g in
  Done (set_spawned_enemies (removeExpiredEnemies (spawned_enemies g) currentTime) g).

(** ** An instance of [JSLog] *)

Module ApproxLog.

(** [Math.log(x)] through [Approx.log1p]: [log(x) = log1p(x - 1)]. *)
Definition log (x : Q) : Q := Approx.log1p (x - 1).

Lemma sqrt_iter_le (f : Z) (k : nat) :
  0 <= f -> forall v v' : Z, 0 <= v -> v <= v' ->
  Approx.sqrt_iter f k v <= Approx.sqrt_iter f k v'.
Proof.
  intros Hf. induction k as [|k IH]; intros v v' Hv Hle; cbn [Approx.sqrt_iter]; [exact Hle|].
  assert (H2 : 0 < 2 ^ f) by (apply Z.pow_pos_nonneg; lia).
  apply IH; [apply Z.sqrt_nonneg|]. apply Z.sqrt_le_mono. nia.
Qed.

Lemma log_le (x y : Q) : (0 < x)%Q -> (x <= y)%Q -> (log x <= log y)%Q.
Proof.
  intros Hx Hxy. unfold log, Approx.log1p.
  assert (Ex : Qred (1 + (x - 1)) = Qred x) by (apply Qred_complete; ring).
  assert (Ey : Qred (1 + (y - 1)) = Qred y) by (apply Qred_complete; ring).
  rewrite Ex, Ey.
  pose proof (Approx.Qred_num_pos x Hx) as Hnx.
  pose proof (Approx.Qred_num_pos y ltac:(lra)) as Hny.
  destruct (Z.leb_spec (Qnum (Qred x)) 0); [lia|].
  destruct (Z.leb_spec (Qnum (Qred y)) 0); [lia|].
  rewrite <- (Qred_correct x), <- (Qred_correct y) in Hxy.
  destruct (Qred x) as [a b], (Qred y) as [a' b']. cbn [Qnum Qden] in *.
  unfold Qle in Hxy. cbn [Qnum Qden] in Hxy.
  assert (H2 : 0 < 2 ^ 192) by (apply Z.pow_pos_nonneg; lia).
  assert (Hv0 : (a * 2 ^ 192) / Zpos b <= (a' * 2 ^ 192) / Zpos b').
  { rewrite (Z.mul_comm a), (Z.mul_comm a').
    apply Approx.scaled_div_le; lia. }
  assert (Hpos : 0 <= (a * 2 ^ 192) / Zpos b) by (apply Z.div_pos; nia).
  pose proof (sqrt_iter_le 192 64 ltac:(lia) _ _ Hpos Hv0) as Hv.
  apply Qmult_le_compat_r.
  - rewrite <- Zle_Qle. apply Z.mul_le_mono_nonneg_r; [apply Z.pow_nonneg; lia | lia].
  - apply Qinv_le_0_compat. change 0%Q with (inject_Z 0). rewrite <- Zle_Qle. lia.
Qed.

Lemma log_1_2_pos : (0 < log 1.2)%Q.
Proof. vm_compute. reflexivity. Qed.

End ApproxLog.

#[export] Instance approxLog : JSLog := {|
  Math_log := ApproxLog.log;
  Math_log_le := ApproxLog.log_le;
  Math_log_1_2_pos := ApproxLog.log_1_2_pos
|}.

(** ** The rows of the enemy table *)

Lemma ENEMY_RARITIES_reach_MAXIMUM_VALUE :
  exists row : TierRow, row ∈ ENEMY_RARITIES /\ row_threshold row = MAXIMUM_VALUE.
Proof.
  eexists. split; [apply last_Some_elem_of; reflexivity|]. vm_compute. reflexivity.
Qed.

(** Each row has its four multipliers, none below those of the common
    enemy; its name is at a definite place in the table, is a name of
    [RARITY_TIERS], and is a key of [rarityOrder]. *)
Lemma ENEMY_RARITIES_rows (row : TierRow) :
  row ∈ ENEMY_RARITIES ->
  exists h d e c : Q,
    row_extras row = [h; d; e; c] /\
    (1.5 <= h)%Q /\ (1 <= d)%Q /\ (1 <= e)%Q /\ (1 <= c)%Q /\
    0 <= findIndex_number ENEMY_RARITIES (row_name row) <= 21 /\
    is_Some (findIndex_name RARITY_TIERS (row_name row)) /\
    rarityOrder !! row_name row = Some (findIndex_number ENEMY_RARITIES (row_name row)).
Proof.
  revert row. apply Forall_forall. unfold ENEMY_RARITIES at 1.
  repeat (apply Forall_cons; split;
          [do 4 eexists; split; [reflexivity|];
           split; [vm_compute; discriminate|];
           split; [vm_compute; discriminate|];
           split; [vm_compute; discriminate|];
           split; [vm_compute; discriminate|];
           split; [vm_compute; split; discriminate|];
           split; [vm_compute; eauto | vm_compute; reflexivity]|]).
  apply Forall_nil_2.
Qed.

Definition known_rarity (e : Enemy.t) : Prop :=
  is_Some (rarityOrder !! Enemy.name e).

(** The place of an enemy in the order of the sort. *)
Definition rarity_rank (e : Enemy.t) : Z :=
  default 0 (rarityOrder !! Enemy.name e).

Lemma compareRarity_known (a b : Enemy.t) :
  known_rarity a -> known_rarity b -> compareRarity a b = rarity_rank a - rarity_rank b.
Proof.
  unfold known_rarity, compareRarity, rarity_rank. intros [x ->] [y ->]. reflexivity.
Qed.

Section Enemies.
Context {L : JSLog}.

(** [floor(120 * log(s + 5) / log(1.2))] is at least 120 from [s = 1]. *)
Lemma despawnTimer_ge_120 (rarityScale : Z) :
  1 <= rarityScale ->
  120 <= Math_floor (120 * Math_log (inject_Z (rarityScale + 5)) / Math_log 1.2).
Proof.
  intros Hs. apply Qfloor_ge_Z. change (inject_Z 120) with 120%Q.
  pose proof Math_log_1_2_pos as Hpos.
  assert (Hle : (Math_log 1.2 <= Math_log (inject_Z (rarityScale + 5)))%Q).
  { apply Math_log_le; [reflexivity|].
    assert (H6 : (inject_Z 6 <= inject_Z (rarityScale + 5))%Q) by (rewrite <- Zle_Qle; lia).
    change (inject_Z 6) with 6%Q in H6.
    eapply Qle_trans; [|exact H6]. unfold Qle. cbn. lia. }
  apply Qle_shift_div_l; [exact Hpos|]. nra.
Qed.

Lemma generateEnemy_spec (areaChoice : Area) (enemyLuckMultiplier : Q)
    (u_roll u_elite now : Q) (oid : nat) :
  (0 <= u_roll)%Q -> (u_roll < 1)%Q ->
  exists enemy : Enemy.t,
    generateEnemy areaChoice enemyLuckMultiplier u_roll u_elite now oid = Done enemy /\
    75 <= Enemy.health enemy /\ 5 <= Enemy.damage enemy /\
    20 <= Enemy.exp enemy /\ 50 <= Enemy.cash enemy /\
    120 <= Enemy.despawn_timer enemy /\
    Enemy.spawn_time enemy = now /\ Enemy.oid enemy = oid /\
    (exists row : TierRow, row ∈ ENEMY_RARITIES /\ Enemy.name enemy = row_name row) /\
    is_Some (findIndex_name RARITY_TIERS (Enemy.name enemy)) /\
    known_rarity enemy.
Proof.
  intros Hu0 Hu1. unfold generateEnemy. cbv zeta.
  set (luck := (enemyLuckMultiplier * area_luck areaChoice)%Q).
  set (maxRoll := Math_floor (inject_Z MAXIMUM_VALUE / Qmax 1 luck)).
  pose proof (max_roll_le_MAXIMUM_VALUE luck) as HR. fold maxRoll in HR.
  pose proof (random_roll_range u_roll maxRoll Hu0 Hu1) as Hrr.
  set (roll := Math_floor (u_roll * Qmax 1 (inject_Z maxRoll)) + 1) in *.
  assert (HMAX : 1 <= MAXIMUM_VALUE) by (vm_compute; discriminate).
  assert (Hrange : 1 <= roll <= MAXIMUM_VALUE) by (unfold roll; lia).
  destruct ENEMY_RARITIES_reach_MAXIMUM_VALUE as (rlast & Hrlast & Hrthr).
  destruct (getTier_scan_hit roll ENEMY_RARITIES 0 ltac:(lia)) as (res & Hscan & _ & _).
  { exists rlast. split; [exact Hrlast | lia]. }
  assert (Hget : getTier roll ENEMY_RARITIES luck = Done res)
    by (unfold getTier; rewrite Hscan; reflexivity).
  rewrite Hget. cbn [rbind].
  destruct (getTier_scan_in_table _ _ _ _ Hscan) as (row & Hrow & Hname & Hv & _).
  destruct (ENEMY_RARITIES_rows row Hrow)
    as (h & d & e & c & Hex & Hh & Hd & He & Hc & Hidx & Hrt & Hord).
  unfold column. rewrite Hv, Hex. cbn [lookup list_lookup rbind defined].
  rewrite Hname.
  set (isElite := _ =? 1).
  set (hall := bool_decide (area_name areaChoice = "Champions Hall")).
  assert (Htimer : 120 <= Math_floor
            (120 * Math_log (inject_Z (Z.of_nat (length ENEMY_RARITIES)
                                       - findIndex_number ENEMY_RARITIES (row_name row) + 5))
             / Math_log 1.2)).
  { apply despawnTimer_ge_120. change (Z.of_nat (length ENEMY_RARITIES)) with 22. lia. }
  assert (Hfloor : forall (base m : Q) (z : Z),
             (inject_Z z <= base * m)%Q -> z <= Math_floor (base * m))
    by (intros base m z Hz; apply Qfloor_ge_Z; exact Hz).
  unfold ENEMY_BASE_HEALTH, ENEMY_BASE_DAMAGE, ENEMY_BASE_EXP, ENEMY_BASE_CASH.
  destruct isElite, hall; eexists; (split; [reflexivity|]);
    cbn [Enemy.health Enemy.damage Enemy.exp Enemy.cash Enemy.despawn_timer
         Enemy.spawn_time Enemy.oid Enemy.name];
    (split; [apply Hfloor; change (inject_Z 75) with 75%Q; nra|]);
    (split; [apply Hfloor; change (inject_Z 5) with 5%Q; nra|]);
    (split; [apply Hfloor; change (inject_Z 20) with 20%Q; nra|]);
    (split; [apply Hfloor; change (inject_Z 50) with 50%Q; nra|]);
    (split; [exact Htimer|]);
    (split; [reflexivity|]); (split; [reflexivity|]);
    (split; [exists row; split; [exact Hrow | reflexivity]|]);
    (split; [exact Hrt|]);
    unfold known_rarity; cbn [Enemy.name]; rewrite Hord; eauto.
Qed.

(** For a first random number in [[0, 1)], whatever the area and the luck,
    [generateEnemy] returns an enemy that can be fought and looted: its
    health is at least 75, its damage at least 5, its experience at least 20
    and its cash at least 50; its name is a rarity of [ENEMY_RARITIES] and
    of [RARITY_TIERS], so that [enemyLoot] finds its tier; and it stays for
    at least 120 seconds. *)
Theorem generateEnemy_makes_fightable_enemy (areaChoice : Area) (enemyLuckMultiplier : Q)
    (u_roll u_elite now : Q) (oid : nat) :
  (0 <= u_roll)%Q -> (u_roll < 1)%Q ->
  exists enemy : Enemy.t,
    generateEnemy areaChoice enemyLuckMultiplier u_roll u_elite now oid = Done enemy /\
    75 <= Enemy.health enemy /\ 5 <= Enemy.damage enemy /\
    20 <= Enemy.exp enemy /\ 50 <= Enemy.cash enemy /\
    120 <= Enemy.despawn_timer enemy /\
    Enemy.spawn_time enemy = now /\ Enemy.oid enemy = oid /\
    (exists row : TierRow, row ∈ ENEMY_RARITIES /\ Enemy.name enemy = row_name row) /\
    is_Some (findIndex_name RARITY_TIERS (Enemy.name enemy)) /\
    forall t : Q, (t <= now + 120)%Q -> not_expired t enemy = true.
Proof.
  intros Hu0 Hu1.
  destruct (generateEnemy_spec areaChoice enemyLuckMultiplier u_roll u_elite now oid Hu0 Hu1)
    as (enemy & Hrun & Hh & Hd & He & Hc & Ht & Hs & Ho & Hrow & Hrt & _).
  exists enemy. repeat (split; [assumption|]).
  intros t Hle. unfold not_expired. apply Qleb_true. rewrite Hs.
  assert (H120 : (120 <= inject_Z (Enemy.despawn_timer enemy))%Q).
  { change 120%Q with (inject_Z 120). rewrite <- Zle_Qle. exact Ht. }
  lra.
Qed.

End Enemies.

(** ** Expiry *)

Lemma not_expired_earlier (t1 t2 : Q) (e : Enemy.t) :
  (t1 <= t2)%Q -> not_expired t2 e = true -> not_expired t1 e = true.
Proof.
  unfold not_expired. intros Hle H2. apply Qleb_true in H2. apply Qleb_true. lra.
Qed.

Lemma filter_not_expired_twice (t1 t2 : Q) (l : list Enemy.t) :
  (t1 <= t2)%Q ->
  List.filter (not_expired t2) (List.filter (not_expired t1) l) = List.filter (not_expired t2) l.
Proof.
  intros Hle. induction l as [|e l IH]; [reflexivity|]. cbn [List.filter].
  destruct (not_expired t1 e) eqn:H1; cbn [List.filter].
  - rewrite IH. reflexivity.
  - destruct (not_expired t2 e) eqn:H2; [|exact IH].
    rewrite (not_expired_earlier t1 t2 e Hle H2) in H1. discriminate.
Qed.

(** [removeExpiredEnemies] keeps the areas and, in each, exactly the enemies
    whose age is at most their timer, in their order.  Since the clock only
    goes forward, a sweep after an earlier sweep leaves what the later sweep
    alone leaves: the 1-second sweep of [startGameLoops] and the sweep at
    the end of a spawn round never disagree. *)
Theorem removeExpiredEnemies_sweeps_compose (m : gmap string (list Enemy.t)) (t1 t2 : Q) :
  (t1 <= t2)%Q ->
  removeExpiredEnemies (removeExpiredEnemies m t1) t2 = removeExpiredEnemies m t2 /\
  (forall area : string,
      removeExpiredEnemies m t2 !! area = List.filter (not_expired t2) <$> m !! area) /\
  (forall (area : string) (l : list Enemy.t) (e : Enemy.t),
      m !! area = Some l ->
      (exists l', removeExpiredEnemies m t2 !! area = Some l' /\
                  (e ∈ l' <-> e ∈ l /\
                     (t2 - Enemy.spawn_time e <= inject_Z (Enemy.despawn_timer e))%Q))).
Proof.
  intros Hle. unfold removeExpiredEnemies. split; [|split].
  - rewrite <- map_fmap_compose. apply map_fmap_ext. intros area l _. cbn.
    apply filter_not_expired_twice, Hle.
  - intros area. apply lookup_fmap.
  - intros area l e Hl. eexists. split; [rewrite lookup_fmap, Hl; reflexivity|].
    rewrite list_elem_of_In, filter_In, <- list_elem_of_In.
    unfold not_expired. rewrite Qleb_true. reflexivity.
Qed.

(** ** The order of the lists *)

(** A list in the order of the table: no enemy stands before a rarer one. *)
Definition rarity_sorted (l : list Enemy.t) : Prop :=
  forall (i j : nat) (a b : Enemy.t),
    (i < j)%nat -> l !! i = Some a -> l !! j = Some b -> rarity_rank a <= rarity_rank b.

Lemma rarity_sorted_cons (x : Enemy.t) (l : list Enemy.t) :
  rarity_sorted (x :: l) <->
  Forall (fun y => rarity_rank x <= rarity_rank y) l /\ rarity_sorted l.
Proof.
  split.
  - intros Hs. split.
    + apply Forall_lookup. intros i y Hy. apply (Hs 0%nat (S i) x y); [lia | reflexivity | exact Hy].
    + intros i j a b Hij Ha Hb. apply (Hs (S i) (S j) a b); [lia | exact Ha | exact Hb].
  - intros [Hall Hs] i j a b Hij Ha Hb. destruct j as [|j]; [lia|]. cbn in Hb.
    destruct i as [|i]; cbn in Ha.
    + injection Ha as <-. rewrite Forall_lookup in Hall. apply (Hall j b Hb).
    + apply (Hs i j a b); [lia | exact Ha | exact Hb].
Qed.

Lemma Array_sort_insert_perm (cmp : Enemy.t -> Enemy.t -> Z) (x : Enemy.t) (l : list Enemy.t) :
  Array_sort_insert cmp x l ≡ₚ x :: l.
Proof.
  induction l as [|y l IH]; cbn [Array_sort_insert]; [reflexivity|].
  destruct (cmp x y <=? 0); [reflexivity|]. rewrite IH. apply perm_swap.
Qed.

Lemma Array_sort_perm (cmp : Enemy.t -> Enemy.t -> Z) (l : list Enemy.t) :
  Array_sort cmp l ≡ₚ l.
Proof.
  unfold Array_sort. induction l as [|x l IH]; cbn [foldr]; [reflexivity|].
  rewrite Array_sort_insert_perm, IH. reflexivity.
Qed.

Lemma insert_sorted (x : Enemy.t) (l : list Enemy.t) :
  known_rarity x -> Forall known_rarity l -> rarity_sorted l ->
  rarity_sorted (Array_sort_insert compareRarity x l).
Proof.
  intros Hx Hl Hs. induction l as [|y l IH]; cbn [Array_sort_insert].
  - apply rarity_sorted_cons. split; [apply Forall_nil_2|]. intros i j a b _ Ha. discriminate.
  - apply Forall_cons in Hl as [Hy Hl]. apply rarity_sorted_cons in Hs as [Hall Hs].
    rewrite (compareRarity_known x y Hx Hy).
    destruct (Z.leb_spec (rarity_rank x - rarity_rank y) 0) as [Hle|Hgt].
    + apply rarity_sorted_cons. split.
      * apply Forall_cons. split; [lia|].
        eapply Forall_impl; [exact Hall|]. cbn. intros; lia.
      * apply rarity_sorted_cons. split; assumption.
    + apply rarity_sorted_cons. split; [|apply IH; assumption].
      rewrite Array_sort_insert_perm. apply Forall_cons. split; [lia | exact Hall].
Qed.

Lemma insert_filter_rank (k : Z) (x : Enemy.t) (l : list Enemy.t) :
  known_rarity x -> Forall known_rarity l -> rarity_sorted l ->
  List.filter (fun e => rarity_rank e =? k) (Array_sort_insert compareRarity x l) =
  List.filter (fun e => rarity_rank e =? k) (x :: l).
Proof.
  intros Hx Hl Hs. induction l as [|y l IH]; cbn [Array_sort_insert]; [reflexivity|].
  apply Forall_cons in Hl as [Hy Hl]. apply rarity_sorted_cons in Hs as [Hall Hs].
  rewrite (compareRarity_known x y Hx Hy).
  destruct (Z.leb_spec (rarity_rank x - rarity_rank y) 0) as [Hle|Hgt]; [reflexivity|].
  cbn [List.filter] in IH |- *. rewrite (IH Hl Hs).
  destruct (Z.eqb_spec (rarity_rank y) k) as [Ey|_]; [|reflexivity].
  destruct (Z.eqb_spec (rarity_rank x) k) as [Ex|_]; [lia | reflexivity].
Qed.

Lemma sortEnemiesByRarity_spec (l : list Enemy.t) :
  sortEnemiesByRarity l ≡ₚ l /\
  (Forall known_rarity l ->
   rarity_sorted (sortEnemiesByRarity l) /\
   forall k : Z,
     List.filter (fun e => rarity_rank e =? k) (sortEnemiesByRarity l) =
     List.filter (fun e => rarity_rank e =? k) l).
Proof.
  split; [apply Array_sort_perm|].
  unfold sortEnemiesByRarity, Array_sort.
  induction l as [|x l IH]; intros Hl; cbn [foldr].
  - split; [intros i j a b _ Ha; discriminate | reflexivity].
  - apply Forall_cons in Hl as [Hx Hl]. destruct (IH Hl) as [Hs Hf].
    assert (Hknown : Forall known_rarity (foldr (Array_sort_insert compareRarity) [] l)).
    { pose proof (Array_sort_perm compareRarity l) as Hp. unfold Array_sort in Hp.
      rewrite Hp. exact Hl. }
    split; [apply insert_sorted; assumption|].
    intros k. rewrite (insert_filter_rank k x _ Hx Hknown Hs).
    cbn [List.filter]. rewrite (Hf k). reflexivity.
Qed.

(** [sortEnemiesByRarity] loses and adds no enemy.  On enemies whose names
    are in the table, as those of [generateEnemy] are, the result is in the
    order of the table, rarest first, and the enemies of one rarity keep the
    order they had: the sort is the stable sort by rarity. *)
Theorem sortEnemiesByRarity_sorts_stably (l : list Enemy.t) :
  sortEnemiesByRarity l ≡ₚ l /\
  (Forall known_rarity l ->
   rarity_sorted (sortEnemiesByRarity l) /\
   forall k : Z,
     List.filter (fun e => rarity_rank e =? k) (sortEnemiesByRarity l) =
     List.filter (fun e => rarity_rank e =? k) l).
Proof. exact (sortEnemiesByRarity_spec l). Qed.

(** ** A round of the enemy spawn loop *)

Lemma rarity_sorted_filter (P : Enemy.t -> bool) (l : list Enemy.t) :
  rarity_sorted l -> rarity_sorted (List.filter P l).
Proof.
  induction l as [|x l IH]; intros Hs; [exact Hs|].
  apply rarity_sorted_cons in Hs as [Hall Hs]. cbn [List.filter].
  destruct (P x); [|apply IH, Hs].
  apply rarity_sorted_cons. split; [|apply IH, Hs].
  apply Forall_forall. intros y Hy. rewrite Forall_forall in Hall. apply Hall.
  apply list_elem_of_In, filter_In in Hy as [Hy _]. apply list_elem_of_In, Hy.
Qed.

(** A roll of the loop with its first random number in [[0, 1)]. *)
Definition valid_roll (r : Q * Q * Q * nat) : Prop :=
  (0 <= r.1.1.1)%Q /\ (r.1.1.1 < 1)%Q.

Section SpawnRound.
Context {L : JSLog}.

Lemma spawn_forEach_spec (areas : list Area) :
  forall (rolls : list (Q * Q * Q * nat)) (g : GameCore),
    NoDup (area_name <$> areas) ->
    (length areas <= length rolls)%nat ->
    Forall valid_roll rolls ->
    (forall area : Area, area ∈ areas -> is_Some (spawned_enemies g !! area_name area)) ->
    exists g' : GameCore,
      spawn_forEach areas rolls g = Done g' /\
      g' = set_spawned_enemies (spawned_enemies g') g /\
      (forall n : string, n ∉ (area_name <$> areas) ->
         spawned_enemies g' !! n = spawned_enemies g !! n) /\
      (forall (i : nat) (area : Area) (u_roll u_elite now : Q) (oid : nat),
         areas !! i = Some area -> rolls !! i = Some (u_roll, u_elite, now, oid) ->
         exists (enemy : Enemy.t) (l : list Enemy.t),
           generateEnemy area (enemy_luck_multiplier g) u_roll u_elite now oid = Done enemy /\
           spawned_enemies g !! area_name area = Some l /\
           spawned_enemies g' !! area_name area = Some (sortEnemiesByRarity (l ++ [enemy]))).
Proof.
  induction areas as [|area areas IH]; intros rolls g Hnd Hlen Hvalid Hpresent.
  - exists g. split; [reflexivity|]. split; [reflexivity|]. split; [reflexivity|].
    intros i area u_roll u_elite now oid Hi. discriminate.
  - destruct rolls as [|[[[u_roll u_elite] now] oid] rolls]; [cbn in Hlen; lia|].
    cbn [fmap list_fmap] in Hnd. apply NoDup_cons in Hnd as [Hfresh Hnd].
    apply Forall_cons in Hvalid as [[Hu0 Hu1] Hvalid]. cbn [fst] in Hu0, Hu1.
    cbn [spawn_forEach].
    destruct (generateEnemy_spec area (enemy_luck_multiplier g) u_roll u_elite now oid Hu0 Hu1)
      as (enemy & Hgen & _).
    rewrite Hgen. cbn [rbind].
    destruct (Hpresent area ltac:(apply list_elem_of_here)) as [l Hl].
    rewrite Hl. cbn [rbind defined].
    cbn [spawned_enemies set_spawned_enemies].
    rewrite insert_insert_eq.
    set (g1 := set_spawned_enemies
                 (<[area_name area := sortEnemiesByRarity (l ++ [enemy])]> (spawned_enemies g)) g).
    destruct (IH rolls g1 Hnd ltac:(cbn in Hlen; lia) Hvalid) as (g' & Hrun & Hframe & Hother & Heach).
    { intros a Ha. unfold g1. cbn [spawned_enemies set_spawned_enemies].
      destruct (decide (area_name a = area_name area)) as [->|Hne].
      - rewrite lookup_insert_eq. eauto.
      - rewrite lookup_insert_ne by congruence. apply Hpresent, list_elem_of_further, Ha. }
    exists g'. split; [exact Hrun|]. split.
    { rewrite Hframe at 1. unfold g1. reflexivity. }
    split.
    { intros n Hn. rewrite Hother.
      - unfold g1. cbn [spawned_enemies set_spawned_enemies].
        apply lookup_insert_ne. intros E. apply Hn. rewrite <- E. apply list_elem_of_here.
      - intros Hin. apply Hn. apply list_elem_of_further, Hin. }
    intros i a ur ue nw o Hi Hr. destruct i as [|i]; cbn in Hi, Hr.
    + injection Hi as <-. injection Hr as <- <- <- <-.
      exists enemy, l. split; [exact Hgen|]. split; [exact Hl|].
      rewrite (Hother (area_name area) Hfresh). unfold g1.
      cbn [spawned_enemies set_spawned_enemies]. apply lookup_insert_eq.
    + destruct (Heach i a ur ue nw o Hi Hr) as (e & la & Hg & Hla & Hafter).
      assert (Hne : area_name a <> area_name area).
      { intros E. apply Hfresh. rewrite <- E. apply list_elem_of_fmap.
        exists a. split; [reflexivity|]. apply (list_elem_of_lookup_2 _ _ _ Hi). }
      exists e, la. split; [exact Hg|]. split; [|exact Hafter].
      unfold g1 in Hla. cbn [spawned_enemies set_spawned_enemies] in Hla.
      rewrite lookup_insert_ne in Hla by congruence. exact Hla.
Qed.

(** A round of the enemy spawn loop, on an object that has the list of
    every area and with first random numbers in [[0, 1)]: the round returns;
    the list of each area is its old list with the new enemy of the area,
    sorted, less the expired ones; nothing but the lists changes.  So a list
    of known rarities that was in order is in order afterwards, and the new
    enemy is in it when the sweep comes within 120 seconds of its spawn. *)
Theorem enemySpawnTick_adds_sorts_sweeps (rolls : list (Q * Q * Q * nat)) (currentTime : Q)
    (g : GameCore) :
  (length AREAS <= length rolls)%nat ->
  Forall valid_roll rolls ->
  (forall area : Area, area ∈ AREAS -> is_Some (spawned_enemies g !! area_name area)) ->
  exists g' : GameCore,
    enemySpawnTick rolls currentTime g = Done g' /\
    g' = set_spawned_enemies (spawned_enemies g') g /\
    forall (i : nat) (area : Area) (u_roll u_elite now : Q) (oid : nat),
      AREAS !! i = Some area -> rolls !! i = Some (u_roll, u_elite, now, oid) ->
      exists (enemy : Enemy.t) (l : list Enemy.t),
        generateEnemy area (enemy_luck_multiplier g) u_roll u_elite now oid = Done enemy /\
        spawned_enemies g !! area_name area = Some l /\
        spawned_enemies g' !! area_name area =
          Some (List.filter (not_expired currentTime) (sortEnemiesByRarity (l ++ [enemy]))) /\
        (Forall known_rarity l ->
         rarity_sorted
           (List.filter (not_expired currentTime) (sortEnemiesByRarity (l ++ [enemy])))) /\
        ((currentTime <= now + 120)%Q ->
         enemy ∈ List.filter (not_expired currentTime) (sortEnemiesByRarity (l ++ [enemy]))).
Proof.
  intros Hlen Hvalid Hpresent. unfold enemySpawnTick.
  destruct (spawn_forEach_spec AREAS rolls g) as (g1 & Hrun & Hframe & _ & Heach);
    [apply (bool_decide_unpack _); vm_compute; exact I | exact Hlen | exact Hvalid
    | exact Hpresent |].
  rewrite Hrun. cbn [rbind]. eexists. split; [reflexivity|]. split.
  { rewrite Hframe at 2. reflexivity. }
  intros i area u_roll u_elite now oid Hi Hr.
  destruct (Heach i area u_roll u_elite now oid Hi Hr) as (enemy & l & Hgen & Hl & Hafter).
  exists enemy, l. split; [exact Hgen|]. split; [exact Hl|].
  cbn [spawned_enemies set_spawned_enemies].
  split; [unfold removeExpiredEnemies; rewrite lookup_fmap, Hafter; reflexivity|].
  assert (Hvu : (0 <= u_roll)%Q /\ (u_roll < 1)%Q).
  { rewrite Forall_lookup in Hvalid. apply (Hvalid i _ Hr). }
  destruct (generateEnemy_spec area (enemy_luck_multiplier g) u_roll u_elite now oid
              (proj1 Hvu) (proj2 Hvu))
    as (enemy' & Hgen' & _ & _ & _ & _ & Ht & Hs & _ & _ & _ & Hknown).
  rewrite Hgen in Hgen'. injection Hgen' as <-.
  split.
  - intros Hkn. apply rarity_sorted_filter.
    apply (sortEnemiesByRarity_spec (l ++ [enemy])).
    apply Forall_app. split; [exact Hkn|]. apply Forall_cons. split; [exact Hknown|].
    apply Forall_nil_2.
  - intros Hsoon. apply list_elem_of_In, filter_In. split.
    + apply list_elem_of_In. rewrite (proj1 (sortEnemiesByRarity_spec (l ++ [enemy]))).
      apply elem_of_app. right. apply list_elem_of_here.
    + unfold not_expired. apply Qleb_true. rewrite Hs.
      assert (H120 : (120 <= inject_Z (Enemy.despawn_timer enemy))%Q).
      { change 120%Q with (inject_Z 120). rewrite <- Zle_Qle. exact Ht. }
      lra.
Qed.

End SpawnRound.

(* ================================================================== *)
(** * Generated weapons against generated enemies *)
(* ================================================================== *)

Section GeneratedFight.
Context {M : JSMath} {L : JSLog}.

(** The items of [itemGen] and the enemies of [generateEnemy] meet what
    [fightEnemy] needs: with such a weapon in hand against such an enemy,
    the fight returns a result (the loop ends, the division by the defense
    is a division by at least 2.5), and it is won exactly when the enemy's
    blows before its fall, [floor(damage / Defense)] each, stay below 100. *)
Theorem generated_fight_is_decided (g0 g0' g : GameCore) (out : ItemGen)
    (u_weapon0 u_rarity0 u_mold0 threshold now0 : Q)
    (area : Area) (luck u_roll u_elite now : Q) (oid : nat) (enemy : Enemy.t)
    (dropItems : bool) (u_weapon u_mold : Q) (fuel : nat) :
  itemGen g0 u_weapon0 u_rarity0 u_mold0 threshold now0 = Done (g0', out) ->
  (0 <= u_roll)%Q -> (u_roll < 1)%Q ->
  generateEnemy area luck u_roll u_elite now oid = Done enemy ->
  equipped (player g) = Some (itemInfo out) ->
  1 <= level (player g) -> 0 <= mold_level g ->
  is_Some (spawned_enemies g !! area_name area) ->
  (0 <= u_weapon)%Q -> (u_weapon < 1)%Q ->
  (Z.to_nat (Enemy.health enemy) +
   levelup_fuel (set_exp (exp (player g) + inject_Z (Enemy.exp enemy)) g) <= fuel)%nat ->
  exists (g' : GameCore) (r : FightResult) (t : Z),
    fightEnemy fuel g (area_name area) enemy dropItems u_weapon u_mold = Done (g', r) /\
    damageTaken (Enemy.damage enemy) (itemInfo out) = Fin (inject_Z t) /\ 0 <= t /\
    (victory r = true <->
     (hits_to_kill (Enemy.health enemy) (Math_floor (Item.Damage (itemInfo out))) - 1) * t
     < 100).
Proof.
  intros Hitem Hu0 Hu1 Hgen Hw Hl Hmold Harea Hw0 Hw1 Hfuel.
  pose proof (itemGen_damage _ _ _ _ _ _ _ _ Hitem) as Hdmg.
  pose proof (itemGen_defense _ _ _ _ _ _ _ _ Hitem) as Hdef.
  assert (Hd : 1 <= Math_floor (Item.Damage (itemInfo out))).
  { apply Qfloor_ge_Z. change (inject_Z 1) with 1%Q. lra. }
  destruct (generateEnemy_spec area luck u_roll u_elite now oid Hu0 Hu1)
    as (enemy' & Hgen' & Hh & Hatt & _).
  rewrite Hgen in Hgen'. injection Hgen' as <-.
  destruct (fightEnemy_while_returns (itemInfo out) (area_name area) enemy u_weapon u_mold
              fuel g (Fin 100) (Enemy.health enemy) Hw Hd Hl Harea Hmold Hw0 Hw1 Hfuel)
    as (g' & r & Hrun).
  assert (Htaken : exists t : Z,
             damageTaken (Enemy.damage enemy) (itemInfo out) = Fin (inject_Z t) /\ 0 <= t).
  { unfold damageTaken, js_div.
    assert (Hnz : Qeq_bool (Item.Defense (itemInfo out)) 0 = false).
    { apply Qeq_bool_false. intros E. rewrite E in Hdef. lra. }
    rewrite Hnz. cbn [js_floor js_max0]. rewrite Qmax_0_inject_Z.
    eexists. split; [reflexivity | lia]. }
  destruct Htaken as (t & Htaken & Ht).
  exists g', r, t. split; [exact Hrun|]. split; [exact Htaken|]. split; [exact Ht|].
  assert (Htq : (0 <= inject_Z t)%Q).
  { change 0%Q with (inject_Z 0). rewrite <- Zle_Qle. exact Ht. }
  destruct (fightEnemy_while_outcome (itemInfo out) (area_name area) enemy u_weapon u_mold
              g (inject_Z t) fuel Hw Hd Htaken Htq 100%Q (Enemy.health enemy) g' r
              ltac:(reflexivity) ltac:(lia) Hrun) as [Hiff _].
  rewrite Hiff. rewrite <- inject_Z_mult. change 100%Q with (inject_Z 100).
  rewrite <- Zlt_Qlt. reflexivity.
Qed.

End GeneratedFight.

(** An enemy of the Beginner Hall at the random numbers 0.5 and 0.5. *)
Lemma generateEnemy_makes_fightable_enemy_witness :
  exists enemy : Enemy.t,
    generateEnemy (mkArea "Beginner Hall" 5 10 1 false) 1.03 0.5 0.5 1000 1%nat = Done enemy /\
    75 <= Enemy.health enemy /\ 5 <= Enemy.damage enemy /\
    120 <= Enemy.despawn_timer enemy /\
    not_expired 1100 enemy = true.
Proof.
  assert (H0 : (0 <= 0.5)%Q) by (vm_compute; discriminate).
  assert (H1 : (0.5 < 1)%Q) by (vm_compute; reflexivity).
  destruct (@generateEnemy_makes_fightable_enemy approxLog (mkArea "Beginner Hall" 5 10 1 false)
              1.03%Q 0.5%Q 0.5%Q 1000%Q 1%nat H0 H1)
    as (enemy & Hrun & Hh & Hd & _ & _ & Ht & _ & _ & _ & _ & Hkept).
  exists enemy. split; [exact Hrun|]. split; [exact Hh|]. split; [exact Hd|].
  split; [exact Ht|]. apply Hkept. vm_compute. discriminate.
Defined.

(** A hall with an enemy spawned at 0 with a timer of 1179, swept at 1000
    and then at 1200. *)
Lemma removeExpiredEnemies_sweeps_compose_witness :
  let m : gmap string (list Enemy.t) := {["Beginner Hall" := [common_enemy]]} in
  (1000 <= 1200)%Q /\
  removeExpiredEnemies (removeExpiredEnemies m 1000) 1200 = removeExpiredEnemies m 1200 /\
  removeExpiredEnemies m 1200 !! "Beginner Hall" =
    List.filter (not_expired 1200) <$> m !! "Beginner Hall".
Proof.
  intros m.
  assert (Hle : (1000 <= 1200)%Q) by (vm_compute; discriminate).
  destruct (removeExpiredEnemies_sweeps_compose m 1000 1200 Hle) as (Hcomp & Hlook & _).
  split; [exact Hle|]. split; [exact Hcomp | apply Hlook].
Defined.

(** A round of the loop on a new game. *)
Lemma enemySpawnTick_adds_sorts_sweeps_witness :
  let g := @new_GameCore approxMath "player" in
  let rolls := [(0.5, 0.5, 1000, 1%nat); (0.25, 0.5, 1000, 2%nat);
                (0.75, 0.5, 1000, 3%nat); (0.5, 0.0001, 1000, 4%nat)]%Q in
  (length AREAS <= length rolls)%nat /\
  Forall valid_roll rolls /\
  exists g' : GameCore,
    enemySpawnTick rolls 1001 g = Done g' /\
    g' = set_spawned_enemies (spawned_enemies g') g.
Proof.
  intros g rolls.
  assert (Hlen : (length AREAS <= length rolls)%nat) by (cbn; lia).
  assert (Hvalid : Forall valid_roll rolls).
  { unfold rolls. repeat (apply Forall_cons; split; [split; vm_compute; congruence|]).
    apply Forall_nil_2. }
  assert (Hpresent : forall area : Area,
             area ∈ AREAS -> is_Some (spawned_enemies g !! area_name area)).
  { apply Forall_forall. unfold AREAS.
    repeat (apply Forall_cons; split; [exists []; reflexivity|]). apply Forall_nil_2. }
  split; [exact Hlen|]. split; [exact Hvalid|].
  destruct (@enemySpawnTick_adds_sorts_sweeps approxLog rolls 1001%Q g Hlen Hvalid Hpresent)
    as (g' & Hrun & Hframe & _).
  exists g'. split; [exact Hrun | exact Hframe].
Defined.

(** The first item of a new game, with an auto-sell threshold of 1 so that
    it is stored, in the hand of a new player, against an enemy of the
    Beginner Hall. *)
Lemma generated_fight_is_decided_witness :
  let hall := mkArea "Beginner Hall" 5 10 1 false in
  let g0 := @new_GameCore approxMath "player" in
  exists (g0' : GameCore) (out : ItemGen) (enemy : Enemy.t),
    itemGen g0 0.5 0.5 0.5 1 1000 = Done (g0', out) /\
    generateEnemy hall 1.03 0.5 0.5 1000 1%nat = Done enemy /\
    let g := with_equipped (itemInfo out) g0 in
    let fuel := (Z.to_nat (Enemy.health enemy) +
                 levelup_fuel (set_exp (exp (player g) + inject_Z (Enemy.exp enemy)) g))%nat in
    exists (g' : GameCore) (r : FightResult) (t : Z),
      fightEnemy fuel g "Beginner Hall" enemy false 0.5 0.5 = Done (g', r) /\
      damageTaken (Enemy.damage enemy) (itemInfo out) = Fin (inject_Z t) /\ 0 <= t.
Proof.
  intros hall g0.
  assert (Hitem : exists g0' out, itemGen g0 0.5 0.5 0.5 1 1000 = Done (g0', out))
    by (do 2 eexists; vm_compute; reflexivity).
  destruct Hitem as (g0' & out & Hitem).
  assert (Hgen : exists enemy, generateEnemy hall 1.03 0.5 0.5 1000 1%nat = Done enemy)
    by (eexists; vm_compute; reflexivity).
  destruct Hgen as (enemy & Hgen).
  exists g0', out, enemy. split; [exact Hitem|]. split; [exact Hgen|].
  intros g fuel.
  assert (H0 : (0 <= 0.5)%Q) by (vm_compute; discriminate).
  assert (H1 : (0.5 < 1)%Q) by (vm_compute; reflexivity).
  destruct (with_equipped_fresh (itemInfo out)) as (Hw & Hl & _ & Harea & Hmold).
  destruct (@generated_fight_is_decided approxMath approxLog g0 g0' g out
              0.5%Q 0.5%Q 0.5%Q 1%Q 1000%Q hall 1.03%Q 0.5%Q 0.5%Q 1000%Q 1%nat enemy
              false 0.5%Q 0.5%Q fuel Hitem H0 H1 Hgen Hw
              ltac:(fold g0 g in Hl; rewrite Hl; lia)
              ltac:(fold g0 g in Hmold; rewrite Hmold; lia)
              ltac:(fold g0 g in Harea; cbn [area_name hall]; rewrite Harea; eauto)
              H0 H1 (le_n _))
    as (g' & r & t & Hrun & Htaken & Ht & _).
  exists g', r, t. auto.
Defined.

(* ================================================================== *)
(** * game-ui.js: entering an area and starting a fight *)
(* ================================================================== *)

(** What [enterArea] shows: one of its three notifications, or the list of
    enemies with a fight button for each index. *)
Inductive AreaEntry : Type :=
| LevelTooLow (levelReq : Z)
| NoWeapon
| NoEnemies
| EnemySelection (buttons : list nat).

(** [enterArea(areaIndex)].  An index outside [AREAS] reads [undefined],
    whose destructuring throws.  [enemies.forEach((enemy, index) => ...)]
    makes the button of every index from 0. *)
Definition enterArea (g : GameCore) (areaIndex : nat) : result AreaEntry :=
  let* area := defined (AREAS !! areaIndex) in
  let areaName := area_name area in
  let levelReq := area_level area in
  if level (player g) <? levelReq then Done (LevelTooLow levelReq)
  else
    match equipped (player g) with
    | None => Done NoWeapon
    | Some _ =>
        let enemies := default [] (spawned_enemies g !! areaName) in
        if (length enemies =? 0)%nat then Done NoEnemies
        else Done (EnemySelection (seq 0 (length enemies)))
    end.

Section EnterArea.
Context {M : JSMath}.

(** A fight started from a button of the selection [enterArea] has just
    shown: the player has the level of the area and a weapon in hand, the
    button's index holds an enemy, and [fightEnemy] of the page passes that
    enemy to the combat; the "no longer exists" exit is not taken.  When the
    enemies of the list are distinct objects, a victory leaves the list
    without the entry of the button. *)
Theorem enterArea_button_fights_listed_enemy (g : GameCore) (areaIndex : nat)
    (buttons : list nat) (k : nat) (fuel : nat) (u_weapon u_mold : Q) :
  enterArea g areaIndex = Done (EnemySelection buttons) ->
  k ∈ buttons ->
  exists (area : Area) (enemies : list Enemy.t) (enemy : Enemy.t) (weapon : Item.t),
    AREAS !! areaIndex = Some area /\
    area_level area <= level (player g) /\
    equipped (player g) = Some weapon /\
    spawned_enemies g !! area_name area = Some enemies /\
    enemies !! k = Some enemy /\
    forall (g' : GameCore) (res : option FightResult),
      ui_fightEnemy fuel g areaIndex k u_weapon u_mold = Done (g', res) ->
      exists r : FightResult,
        res = Some r /\
        fightEnemy fuel g (area_name area) enemy (area_drops area) u_weapon u_mold
          = Done (g', r) /\
        (NoDup (Enemy.oid <$> enemies) -> victory r = true ->
         spawned_enemies g' !! area_name area = Some (delete k enemies)).
Proof.
  unfold enterArea. cbv zeta. intros Henter Hk.
  destruct (AREAS !! areaIndex) as [area|] eqn:Harea; cbn [rbind defined] in Henter;
    [|discriminate].
  destruct (Z.ltb_spec (level (player g)) (area_level area)) as [|Hlevel]; [discriminate|].
  destruct (equipped (player g)) as [weapon|] eqn:Hw; [|discriminate].
  destruct (spawned_enemies g !! area_name area) as [enemies|] eqn:Hlist;
    cbn [default from_option id] in Henter; [|discriminate].
  destruct (Nat.eqb_spec (length enemies) 0) as [|Hlen]; [discriminate|].
  injection Henter as <-.
  apply elem_of_seq in Hk.
  destruct (lookup_lt_is_Some_2 enemies k ltac:(lia)) as [enemy Henemy].
  exists area, enemies, enemy, weapon.
  split; [first [exact Harea | reflexivity]|]. split; [exact Hlevel|].
  split; [first [exact Hw | reflexivity]|].
  split; [first [exact Hlist | reflexivity]|]. split; [exact Henemy|].
  intros g' res. unfold ui_fightEnemy. rewrite Harea. cbn [rbind defined].
  rewrite Hlist. cbn [rbind defined]. rewrite Henemy.
  destruct (fightEnemy fuel g (area_name area) enemy (area_drops area) u_weapon u_mold)
    as [[g1 r]| |] eqn:Hrun; cbn [rbind]; try discriminate.
  intros [= <- <-]. exists r. split; [reflexivity|]. split; [reflexivity|].
  intros Hnd Hv. destruct r as [e c n drop|msg]; [|discriminate].
  unfold fightEnemy in Hrun.
  apply (fightEnemy_while_victory _ _ _ _ _ enemies _ Hlist) in Hrun.
  assert (Hfind : findIndex_enemy enemies enemy = Some k).
  { unfold findIndex_enemy.
    assert (Hf : list_find (fun e0 => Enemy.oid e0 = Enemy.oid enemy) enemies = Some (k, enemy)).
    { apply list_find_Some. split; [exact Henemy|]. split; [reflexivity|].
      intros j y Hj Hjk Heq.
      assert (j = k); [|lia].
      apply (NoDup_lookup _ _ _ (Enemy.oid enemy) Hnd).
      - rewrite list_lookup_fmap, Hj. cbn. f_equal. exact Heq.
      - rewrite list_lookup_fmap, Henemy. reflexivity. }
    rewrite Hf. reflexivity. }
  rewrite Hfind in Hrun. rewrite Hrun. apply lookup_insert_eq.
Qed.

(** The exits of [enterArea] before the selection: a level below the
    requirement of the area, then an empty hand, then an empty list; each
    shows its notification and no button. *)
Lemma enterArea_refusals (g : GameCore) (areaIndex : nat) (area : Area) :
  AREAS !! areaIndex = Some area ->
  (level (player g) < area_level area ->
   enterArea g areaIndex = Done (LevelTooLow (area_level area))) /\
  (area_level area <= level (player g) -> equipped (player g) = None ->
   enterArea g areaIndex = Done NoWeapon) /\
  (area_level area <= level (player g) -> is_Some (equipped (player g)) ->
   default [] (spawned_enemies g !! area_name area) = [] ->
   enterArea g areaIndex = Done NoEnemies).
Proof.
  intros Harea. unfold enterArea. cbv zeta. rewrite Harea. cbn [rbind defined].
  split; [|split].
  - intros Hlt. destruct (Z.ltb_spec (level (player g)) (area_level area)); [reflexivity | lia].
  - intros Hle Hnone. destruct (Z.ltb_spec (level (player g)) (area_level area)); [lia|].
    rewrite Hnone. reflexivity.
  - intros Hle [w Hw] Hempty. destruct (Z.ltb_spec (level (player g)) (area_level area)); [lia|].
    rewrite Hw, Hempty. reflexivity.
Qed.

End EnterArea.

(** The hall of three enemies, entered by a new player with a sword: three
    buttons; the second button fights the second enemy. *)
Lemma enterArea_button_fights_listed_enemy_witness :
  let g := hall_of_three (with_equipped (sword 10 10) (@new_GameCore approxMath "player")) in
  enterArea g 3 = Done (EnemySelection [0; 1; 2]%nat) /\
  exists (g' : GameCore) (r : FightResult) (enemies : list Enemy.t),
    ui_fightEnemy 100 g 3 1 0 0 = Done (g', Some r) /\
    spawned_enemies g !! "Beginner Hall" = Some enemies /\
    spawned_enemies g' !! "Beginner Hall" = Some (delete 1%nat enemies).
Proof.
  intros g.
  assert (Henter : enterArea g 3 = Done (EnemySelection [0; 1; 2]%nat)) by reflexivity.
  split; [exact Henter|].
  destruct (@enterArea_button_fights_listed_enemy approxMath g 3%nat [0; 1; 2]%nat 1%nat
              100%nat 0%Q 0%Q Henter ltac:(set_solver))
    as (area & enemies & enemy & weapon & Harea & _ & _ & Hlist & Henemy & Hfight).
  assert (Hrun : exists g' res, ui_fightEnemy 100 g 3 1 0 0 = Done (g', res))
    by (do 2 eexists; vm_compute; reflexivity).
  destruct Hrun as (g' & res & Hrun).
  destruct (Hfight g' res Hrun) as (r & -> & Hcore & Hremoved).
  injection Harea as <-.
  exists g', r, enemies. split; [exact Hrun|]. split; [exact Hlist|].
  apply Hremoved.
  - assert (Hl : spawned_enemies g !! "Beginner Hall" =
                 Some [Enemy.mk 1 "Common" false 75 5 20 50 1 0 1179;
                       Enemy.mk 2 "Common" false 75 5 20 50 1 0 1179;
                       Enemy.mk 3 "Rare" false 350 12 30 90 45 0 1179]) by reflexivity.
    cbn [area_name] in Hlist. rewrite Hl in Hlist. injection Hlist as <-.
    apply (bool_decide_unpack _). vm_compute. exact I.
  - destruct r as [e c n drop|msg]; [reflexivity|].
    exfalso. cbn [area_name] in Hcore.
    assert (Hl : spawned_enemies g !! "Beginner Hall" =
                 Some [Enemy.mk 1 "Common" false 75 5 20 50 1 0 1179;
                       Enemy.mk 2 "Common" false 75 5 20 50 1 0 1179;
                       Enemy.mk 3 "Rare" false 350 12 30 90 45 0 1179]) by reflexivity.
    cbn [area_name] in Hlist. rewrite Hl in Hlist. injection Hlist as <-.
    cbn in Henemy. injection Henemy as <-.
    vm_compute in Hcore. discriminate Hcore.
Defined.

(* ================================================================== *)
(** * Sold items hand their IDs on *)
(* ================================================================== *)

Section Reuse.
Context {M : JSMath}.

(** After a tick that sells something, the next item made takes the ID of
    a sold item: the tick pushes the IDs of what it sells to
    [recycled_ids], latest entry first, and [itemGen] pops the last of them,
    the ID of the earliest due entry of the sell area. *)
Theorem itemGen_reuses_sold_id (g : GameCore) (t : Q) (fuel : nat)
    (first : SellEntry) (others : list SellEntry)
    (u_weapon u_rarity u_mold threshold now : Q) :
  1 <= level (player g) ->
  (exp (player g) < inject_Z (requiredExp (level (player g))))%Q ->
  Forall (fun e => (0 <= price e)%Q) (sell_area g) ->
  (sell_fuel g t <= fuel)%nat ->
  due_entries t (sell_area g) = first :: others ->
  exists (g' : GameCore) (sold : list Sold),
    processSellArea fuel g t = Done (g', sold) /\
    last (recycled_ids g') = Some (Item.ID (item first)) /\
    forall (g'' : GameCore) (out : ItemGen),
      itemGen g' u_weapon u_rarity u_mold threshold now = Done (g'', out) ->
      Item.ID (itemInfo out) = Item.ID (item first) /\
      item_id_counter g'' = item_id_counter g' /\
      recycled_ids g'' =
        recycled_ids g ++ map (fun e => Item.ID (item e)) (rev others).
Proof.
  intros Hl Hinv Hprice Hfuel Hdue.
  destruct (processSellArea_spec g t fuel Hl Hinv Hprice Hfuel)
    as (g' & sold & Hrun & _ & _ & _ & Hrec & _).
  rewrite Hdue in Hrec. cbn [rev] in Hrec. rewrite map_app in Hrec. cbn [map] in Hrec.
  rewrite app_assoc in Hrec.
  exists g', sold. split; [exact Hrun|].
  assert (Hlast : last (recycled_ids g') = Some (Item.ID (item first))).
  { rewrite Hrec. apply last_snoc. }
  split; [exact Hlast|].
  intros g'' out Hgen. destruct (itemGen_inv _ _ _ _ _ _ _ _ Hgen) as (g1 & Hnext & _ & ->).
  unfold next_item_id in Hnext. rewrite Hlast in Hnext.
  injection Hnext as Hid <-. split; [symmetry; exact Hid|].
  assert (Htake : take (length (recycled_ids g') - 1) (recycled_ids g') =
                  recycled_ids g ++ map (fun e => Item.ID (item e)) (rev others)).
  { rewrite Hrec, length_app. cbn [length].
    match goal with
    | |- take (length ?l + 1 - 1) _ = _ => replace (length l + 1 - 1)%nat with (length l) by lia
    end.
    apply take_app_length. }
  destruct (Qltb (ig_combinedActual out) threshold);
    cbn [item_id_counter recycled_ids set_sell_area set_item_storage set_recycled_ids];
    (split; [reflexivity | exact Htake]).
Qed.

End Reuse.

(** Two items in the sell area of a new game, put in at 1000 and at 1010;
    the tick at 1035 sells the first, and the next item has its ID, 7. *)
Lemma itemGen_reuses_sold_id_witness :
  let seven := Item.mk 7 45 "Iron" "Rare" 120 "Sword" 16 20 in
  let eight := Item.mk 8 45 "Iron" "Rare" 120 "Sword" 16 20 in
  let g := enqueue (enqueue (@new_GameCore approxMath "player") seven 1000) eight 1010 in
  let fuel := sell_fuel g 1035 in
  due_entries 1035 (sell_area g) = [mkSellEntry seven 1000 30] /\
  exists (g' : GameCore) (sold : list Sold),
    processSellArea fuel g 1035 = Done (g', sold) /\
    last (recycled_ids g') = Some 7 /\
    exists (g'' : GameCore) (out : ItemGen),
      itemGen g' 0.5 0.5 0.5 100 1040 = Done (g'', out) /\
      Item.ID (itemInfo out) = 7.
Proof.
  intros seven eight g fuel.
  assert (Hdue : due_entries 1035 (sell_area g) = [mkSellEntry seven 1000 30])
    by (vm_compute; reflexivity).
  split; [exact Hdue|].
  assert (Hl : 1 <= level (player g)) by (vm_compute; discriminate).
  assert (Hinv : (exp (player g) < inject_Z (requiredExp (level (player g))))%Q)
    by (vm_compute; reflexivity).
  assert (Hprice : Forall (fun e => (0 <= price e)%Q) (sell_area g)).
  { unfold g, enqueue. cbn [sell_area set_sell_area].
    repeat (apply Forall_cons; split; [vm_compute; discriminate|]). apply Forall_nil_2. }
  destruct (@itemGen_reuses_sold_id approxMath g 1035%Q fuel (mkSellEntry seven 1000 30) []
              0.5%Q 0.5%Q 0.5%Q 100%Q 1040%Q Hl Hinv Hprice (le_n _) Hdue)
    as (g' & sold & Hrun & Hlast & Hnext).
  exists g', sold. split; [exact Hrun|]. split; [exact Hlast|].
  assert (Hmold : 0 <= mold_level g').
  { assert (Hc : exists gc sc, processSellArea fuel g 1035 = Done (gc, sc) /\ 0 <= mold_level gc)
      by (do 2 eexists; split; [vm_compute; reflexivity | vm_compute; discriminate]).
    destruct Hc as (gc & sc & Hc & Hm). rewrite Hrun in Hc. injection Hc as -> _. exact Hm. }
  destruct (@itemGen_total approxMath g' 0.5%Q 0.5%Q 0.5%Q 100%Q 1040%Q Hmold)
    as (g'' & out & Hgen).
  - vm_compute. discriminate.
  - vm_compute. reflexivity.
  - exists g'', out. split; [exact Hgen|]. apply (Hnext g'' out Hgen).
Defined.

(** The four moves on a storage of two swords. *)
Lemma ui_moves_keep_items_witness :
  let second := Item.mk 1 45 "Iron" "Rare" 120 "Sword" 16 20 in
  let g := set_item_storage [sword 10 10; second] (@new_GameCore approxMath "player") in
  NoDup (Item.ID <$> item_storage g) /\
  all_items (equipItem g 1) ≡ₚ all_items g /\
  all_items (sellItem g 1 true 1000) ≡ₚ all_items g /\
  money (sellItem g 1 true 1000) = money g.
Proof.
  intros second g.
  assert (Hnd : NoDup (Item.ID <$> item_storage g))
    by (apply (bool_decide_unpack _); vm_compute; exact I).
  destruct (ui_moves_keep_items g 1 1000%Q) as ((He & _ & _ & Hs) & Hframe).
  split; [exact Hnd|]. split; [exact He|]. split; [exact (Hs Hnd)|].
  apply (Hframe (sellItem g 1 true 1000%Q)). auto.
Defined.

(** A list of a common, a rare, an epic and a second common enemy. *)
Lemma sortEnemiesByRarity_sorts_stably_witness :
  let l := [common_enemy; Enemy.mk 3 "Rare" false 350 12 30 90 45 0 1179;
            Enemy.mk 4 "Epic" false 887 25 42 125 150 0 1337;
            Enemy.mk 8 "Common" false 75 5 20 50 1 0 1179] in
  Forall known_rarity l /\
  sortEnemiesByRarity l ≡ₚ l /\
  rarity_sorted (sortEnemiesByRarity l) /\
  List.filter (fun e => rarity_rank e =? 21) (sortEnemiesByRarity l) =
    [common_enemy; Enemy.mk 8 "Common" false 75 5 20 50 1 0 1179].
Proof.
  intros l.
  assert (Hknown : Forall known_rarity l).
  { unfold l. repeat (apply Forall_cons; split; [vm_compute; eauto|]). apply Forall_nil_2. }
  destruct (sortEnemiesByRarity_sorts_stably l) as [Hperm Hsorted].
  destruct (Hsorted Hknown) as [Hs Hstable].
  split; [exact Hknown|]. split; [exact Hperm|]. split; [exact Hs|].
  rewrite (Hstable 21). reflexivity.
Defined.
